(* ===== verification/_CoqProject ===== *)
-Q . S2P
Prelude.v
Store.v
Allocator.v
Bump.v
LinkedList.v
FixedBlock.v
X86.v
Frames.v
Paging.v
Format.v
Vga.v
Sched.v
DemandPaging.v
Gdt.v
Interrupts.v
Processes.v
Printing.v
Cpu.v
Rtl8139.v
Pci.v
Boot.v
Traffic.v
NetBoot.v
System.v
Startup.v
NetStartup.v
Registers.v
Panics.v
PagedStart.v
Coop.v
