(* ===== verification/Prelude.v ===== *)
(** * Verification of the something_os kernels

    The repository holds two small x86-64 kernels written in Rust: something_os
    (src/something_os) and a variant with a network driver
    (src/something_os_networking).  The two share, byte for byte, the
    allocators, memory.rs, process.rs, the descriptor tables, the interrupt
    code and the console; what is shared is modelled once, from the tree of
    something_os.  They differ in main.rs, and in networking/, which only the
    second one has.

    ** The program, and where each part is modelled

    - This file: outcomes of a computation, state monads, loops, machine words.
      No part of the program; everything else is built on it.
    - Store.v: the word-addressed memory; the class [WordStore] of memories that
      are read and written word by word, so that the same code runs on a flat
      memory and on one behind page tables; disjoint address intervals; [Locked]
      and [spin::Mutex] (allocator.rs), whose [lock] on a held mutex hangs, since
      there is one processor and nobody else can release it.
    - Allocator.v: allocator.rs ([HEAP_START], [HEAP_SIZE], [align_up]), the
      standard library's [Layout], the [GlobalAlloc] trait as a class, and the
      contract [alloc_contract] with its consequences for any history of client
      calls.
    - Bump.v, LinkedList.v, FixedBlock.v: the three allocators of allocator/.
      Each meets the contract.  The fall-back heap of the fixed-size block
      allocator is third-party: the class [FirstFitHeap].
    - X86.v: what the kernels use of the hardware and of the crates [x86_64] and
      [bootloader]: address types as classes with laws, port I/O on an arbitrary
      [Device] with a trace of events.
    - Frames.v: the frame allocators of memory.rs.
    - Paging.v: [init] and [active_level_4_table] (memory.rs),
      [init_global_memory] (main.rs), [page_fault_handler]
      (interrupt/handlers.rs), [virt_to_phys_u32] (main.rs of the networking
      kernel).  [OffsetPageTable] is the class [PageMapper].
    - DemandPaging.v: Sched.v and the heap's clients on a machine whose memory is
      behind page tables, where an access to a heap page that is not mapped, or
      a write to one that is not mapped writable, runs the handler of Paging.v
      and is retried.
    - Format.v: the format strings that [print!] and [println!] are given.
      Vga.v: vga_buffer/print.rs.
    - Sched.v: the data and the Rust code of process.rs, with the standard
      library's [VecDeque] as far as it allocates, and [preempt_round_robin] of
      interrupt/handlers.rs.
    - Gdt.v: gdt/mod.rs.  Interrupts.v: interrupt/mod.rs and the Rust functions
      of interrupt/handlers.rs that talk to devices.
    - Cpu.v: the assembly: the naked handlers of interrupt/handlers.rs and
      [context_switch] of process.rs, as instruction lists run by an executable
      machine model; [execute_switch], [switch], [yield_now], [preempt_now].
    - Rtl8139.v: networking/rtl8139.rs.  Pci.v: [check_network_card], in
      main.rs of something_os and in networking/mod.rs of the other kernel.
    - Processes.v: the three processes of main.rs and the end of [kernel_main],
      as interaction trees, on a machine that switches between them.
      Printing.v: the tree of one [print!], with interrupts at each of its steps.
    - Boot.v: [kernel_main] of both kernels.  NetBoot.v: the whole start of the
      networking kernel, on a bus with cards.  Traffic.v: the invariants of
      devices and driver that it needs.
    - System.v: how Cpu.v, Processes.v and Boot.v fit together.  Startup.v:
      [kernel_main] of something_os cut into its statements, with the interrupt
      handlers of Cpu.v running between them, and NetStartup.v: the same for the
      networking kernel.  Registers.v: the ports and registers the kernels may
      access, and what must have happened before.  PagedStart.v: what
      [kernel_main] does on the heap, on demand-paged memory.
    - Panics.v: the panic handler of main.rs, in a process of Processes.v.
    - Coop.v: any number of processes that yield, on the machine of Cpu.v;
      [dummy_main_process] of main.rs.

    The components meet at few places.  The page-fault handler takes a frame
    from Frames.v and hands it to the page mapper.  [spawn] asks the global heap
    for a stack and, when the process table is full, for a larger buffer (the
    class [GlobalHeap], of a heap [G] on a store [W]: the registered allocator is
    the third-party [LockedHeap], not one of the three of the repository), and
    forges on the stack the frame that the handlers of Cpu.v pop.  The handlers call
    [preempt_round_robin], which takes the scheduler's lock only if it is free.
    The networking kernel translates the address of its packet by the mapper
    before it gives it to the driver.

    ** State and effects

    A Rust function with effects is a function [M S A := S -> outcome A * S]; its
    state [S] is the part of the statics, devices and memory it touches, and
    [zoom] runs it inside a larger state.  An [outcome] is a value, a panic with
    its cause, a hang, undefined behaviour, or exhausted fuel.  Integer
    operations carry their width; [BuildProfile] says whether overflow checks
    are on (cargo run) or arithmetic wraps (release), and the theorems hold for
    both unless they say otherwise.

    ** What the theorems show

    - Allocators: over every history of client calls the blocks are aligned
      and disjoint, those of the first two inside the heap, and no call
      panics, hangs or reads memory it did not write ([bump_history_safe],
      [linked_list_history_safe], [fixed_block_history_safe]); a client's
      blocks keep their contents
      ([linked_list_client_isolation]).  [linked_list_alloc_first_fit] refines
      the intrusive list to first fit on a mathematical list of regions;
      [linked_list_padding_leak] measures the bytes an aligned allocation
      loses.
    - Memory: [allocate_frames_spec], [page_fault_handled],
      [page_fault_unhandled], [page_faults_fresh_frames] (no frame is ever
      mapped twice, over any sequence of faults), [virt_to_phys_u32_spec].
      [demand_paging_transparent], [spawn_demand_paged] and [start_demand_paged]
      show that the clients of the heap, up to the whole of what [kernel_main]
      does on it, cannot tell that its pages are mapped on first use, unless the
      frames run out.
    - Console: [console_refines_terminal] and [terminal_history] relate the
      buffer to a terminal with unbounded scrollback; [print_interrupt_safe]
      shows
      that no interrupt can find the console locked, and that the tree of
      [_print] in Processes.v does what the function of Vga.v does.
    - Processes: over every interleaving with interrupts, no process gets stuck
      ([processes_never_stick]), the screen shows whole writes in order
      ([processes_screen]), and each process prints again and again
      ([processes_keep_printing]).  [panic_isolated]: a panic costs one process,
      or the whole machine if it happens inside [print!].
    - Scheduler: [preempt_refines_queue], [round_robin_cycle], [spawn_spec],
      [push_back_grows], [scheduler_history].
    - Machine: [interrupt_transparent], [interrupt_switches] and
      [preemption_transparent] show that the handlers implement virtual
      processors: a process cannot tell that it was interrupted.
      [cooperative_roundtrip] and, for histories of any number of processes,
      [coop_transparent] are the corresponding statements for [context_switch]
      ([dummies_take_turns] is the case of [dummy_main_process]);
      [yield_to_spawned_jumps_to_zero] and [yield_idle] show that the
      cooperative path does not compose with [spawn] and with the software
      interrupt as the preemptive one does.
    - Tables and devices: [gdt_selectors], [idt_dispatch], [init_idt_spec],
      [driver_waits], [send_packets_spec], [init_device_spec], [scan_spec],
      [scans_agree].  [port_protocol]: every access of both kernels to a port is
      one that the device behind it expects at that point, with interrupts
      between the statements and whatever the devices answer.
    - Start-up: [kernel_main_boots] composes the components: whatever the
      devices answer, something_os reaches its idle loop with the statics that
      page faults need in place and in a state to which
      [preemption_transparent] applies.  [kernel_main_net_boots] is the same for
      the networking kernel: it initialises the cards it finds and sends the
      test packet ([send_test_packet_spec]) through the last of them;
      [kernel_main_net_interrupted] says that interrupts between the statements
      change none of it.
    - The whole system: [kernel_main_starts_processes] shows that the state
      [kernel_main] leaves is the one the theorems on processes start from,
      [kernel_main_interrupted] that it is so whichever interrupts arrive on
      the way, also while the table's lock is held, and [interrupt_refines]
      that the processes are switched as the handlers' instructions switch
      registers and stacks.

    ** Fuel and bounds

    The search of the linked-list allocator is given one unit of fuel per
    written word of memory and one more: every node occupies a word of its own,
    and the theorems show that the search ends before.  The waits for the
    network card take fuel as a parameter; [driver_waits] says that the
    number of reads the card needs is enough, that more changes nothing, and
    that a card that never answers is never left.  An access that faults is
    retried once: the handler either maps the page or does not return.  A
    numeral has 64 units for its digits, one for each bit of a 64-bit integer
    ([digits_roundtrip]).  A process spins 50000 times between two letters; with
    three others it is back within 4 * 50014 interrupts.  No other definition
    has fuel.
    A handler is allowed [call_stack] bytes for the compiled functions it calls;
    the theorems about interrupts assume that much room on the running stack,
    and [kernel_main_boots] that it is at most 16000 bytes, which a spawned
    stack of 16384 has.

    ** What is not modelled

    - In Cpu.v a process's own instructions: between interrupts it changes its
      context and its memory as it likes ([step_run]).  Processes.v has the
      processes themselves, each event of a tree being atomic.  What machine
      code a context runs is the argument [code] of System.v.
    - Interrupts at every instruction of [kernel_main]: Startup.v and
      NetStartup.v have them between the statements, those of the block that
      fills the table, of the scan's loop and of the block that sends the packet
      included.  Inside a statement, say between the port accesses of one probe
      of the scan, there are none; inside [print!] they are in Printing.v.
    - The elements of the process table in memory: its buffer is a block of the
      heap that [push_back] asks for and moves ([grow]), while the elements are a
      list, and the two pointers of [context_switch] are indices into it.
    - Page tables, caches and the TLB beyond the events of [map_to] and [flush];
      the effect of port writes on a real card.
    - Formatting outside Vga.v and Processes.v: [println!] is there the event
      that carries its format string and its arguments.
    - The files of something_os_networking that are byte for byte those of
      something_os; allocator/fixed_size_blocks.rs, a copy of
      fixed_size_block.rs that no module declares; build, target and emulator
      files; the crates.

    ** Next

    Interrupts between the port accesses of one statement.  The three allocators
    of the repository on demand-paged memory. *)

From stdpp Require Export base gmap list numbers option strings.
From Stdlib Require Export ZArith Lia.

#[global] Open Scope Z_scope.

(** ** Outcomes of a computation

    A Rust computation either yields a value, panics (the panic handler of both
    kernels is [loop {}], so a panic stops the machine), spins for ever on a
    lock nobody can release, or has undefined behaviour.  [NoFuel] marks a
    fuel-bounded loop that was cut short and never stands for a behaviour of
    the code: every theorem about a loop shows that it is not reached. *)
Inductive fault :=
  | ArithmeticOverflow
  | IndexOutOfBounds
  | AssertionFailed
  | UnwrapFailed
  | DivisionByZero
  | ExplicitPanic.

#[export] Instance fault_eq_dec : EqDecision fault.
Proof. solve_decision. Defined.

Inductive outcome (A : Type) :=
  | Done (a : A)
  | Panic (f : fault)
  | Hang
  | Undefined
  | NoFuel.
Arguments Done {A} a.
Arguments Panic {A} f.
Arguments Hang {A}.
Arguments Undefined {A}.
Arguments NoFuel {A}.

#[export] Instance outcome_eq_dec `{EqDecision A} : EqDecision (outcome A).
Proof. solve_decision. Defined.

#[export] Instance outcome_ret : MRet outcome := fun A a => Done a.
#[export] Instance outcome_bind : MBind outcome := fun A B k m =>
  match m with
  | Done a => k a
  | Panic f => Panic f
  | Hang => Hang
  | Undefined => Undefined
  | NoFuel => NoFuel
  end.

(** ** The state and error monad *)
Definition M (S A : Type) : Type := S -> outcome A * S.

#[export] Instance M_ret {S} : MRet (M S) := fun A a s => (Done a, s).
#[export] Instance M_bind {S} : MBind (M S) := fun A B k m s =>
  match m s with
  | (Done a, s') => k a s'
  | (Panic f, s') => (Panic f, s')
  | (Hang, s') => (Hang, s')
  | (Undefined, s') => (Undefined, s')
  | (NoFuel, s') => (NoFuel, s')
  end.

Definition fail {S A} (o : outcome A) : M S A := fun s => (o, s).
Definition panic {S A} (f : fault) : M S A := fun s => (Panic f, s).
Definition gets {S A} (f : S -> A) : M S A := fun s => (Done (f s), s).
Definition modify {S} (f : S -> S) : M S unit := fun s => (Done tt, f s).
Definition lift {S A} (o : outcome A) : M S A := fun s => (o, s).
Definition when {S} (b : bool) (m : M S unit) : M S unit :=
  if b then m else mret tt.

(** [zoom] runs a computation over a component of a larger state. *)
Definition zoom {S T A} (get : S -> T) (set : T -> S -> S) (m : M T A) : M S A :=
  fun s => let '(o, t) := m (get s) in (o, set t s).

(** [Option::unwrap] and [Option::expect]. *)
Definition unwrap {A} (o : option A) : outcome A :=
  match o with Some a => Done a | None => Panic UnwrapFailed end.

(** [assert!]. *)
Definition assert_ (b : bool) : outcome unit :=
  if b then Done tt else Panic AssertionFailed.

Section monad_lemmas.
Context {S : Type}.
Implicit Types s : S.

Lemma bind_done {A B} (m : M S A) (k : A -> M S B) s a s' :
  m s = (Done a, s') -> (m ≫= k) s = k a s'.
Proof. unfold mbind, M_bind. by intros ->. Qed.

Lemma bind_panic {A B} (m : M S A) (k : A -> M S B) s f s' :
  m s = (Panic f, s') -> (m ≫= k) s = (Panic f, s').
Proof. unfold mbind, M_bind. by intros ->. Qed.

Lemma bind_hang {A B} (m : M S A) (k : A -> M S B) s s' :
  m s = (Hang, s') -> (m ≫= k) s = (Hang, s').
Proof. unfold mbind, M_bind. by intros ->. Qed.

Lemma bind_done_inv {A B} (m : M S A) (k : A -> M S B) s b s'' :
  (m ≫= k) s = (Done b, s'') ->
  exists a s', m s = (Done a, s') /\ k a s' = (Done b, s'').
Proof.
  unfold mbind, M_bind. destruct (m s) as [[a|f| | |] s'] eqn:E; try done.
  intros H. by exists a, s'.
Qed.

Lemma bind_ext {A B} (m m' : M S A) (k k' : A -> M S B) s :
  m s = m' s -> (forall x s, k x s = k' x s) -> (m ≫= k) s = (m' ≫= k') s.
Proof. intros E Hk. unfold mbind, M_bind. rewrite E. destruct (m' s) as [[x| | | |] s1]; [apply Hk|done..]. Qed.

Lemma bind_assoc {A B C} (m : M S A) (k : A -> M S B) (h : B -> M S C) s :
  ((m ≫= k) ≫= h) s = (m ≫= (fun a => k a ≫= h)) s.
Proof. unfold mbind, M_bind. by destruct (m s) as [[a|f| | |] s']. Qed.

Lemma bind_ret {A B} (a : A) (k : A -> M S B) s :
  (mret a ≫= k) s = k a s.
Proof. done. Qed.

Lemma lift_done {A B} (a : A) (k : A -> M S B) s :
  (lift (Done a) ≫= k) s = k a s.
Proof. done. Qed.

Lemma lift_bind {A B} (o : outcome A) (k : A -> M S B) s a :
  o = Done a -> (lift o ≫= k) s = k a s.
Proof. by intros ->. Qed.

Lemma gets_bind {A B} (f : S -> A) (k : A -> M S B) s :
  (gets f ≫= k) s = k (f s) s.
Proof. done. Qed.

Lemma modify_bind {B} (f : S -> S) (k : unit -> M S B) s :
  (modify f ≫= k) s = k tt (f s).
Proof. done. Qed.
End monad_lemmas.

Lemma zoom_done {S T A} (get : S -> T) set (m : M T A) s a t :
  m (get s) = (Done a, t) -> zoom get set m s = (Done a, set t s).
Proof. unfold zoom. by intros ->. Qed.

(** ** Loops over a range: [for i in lo..hi] *)
Fixpoint for_each {S A} (l : list A) (f : A -> M S unit) : M S unit :=
  match l with
  | [] => mret tt
  | a :: l => _ ← f a; for_each l f
  end.

Definition for_range {S} (lo hi : Z) (f : Z -> M S unit) : M S unit :=
  for_each (seqZ lo (hi - lo)) f.

(** A loop whose [i]-th iteration leads from [F i] to [F (i + 1)]. *)
Lemma for_range_fun {S} (F : Z -> S) lo hi (f : Z -> M S unit) :
  lo <= hi -> (forall i, lo <= i < hi -> f i (F i) = (Done tt, F (i + 1))) ->
  for_range lo hi f (F lo) = (Done tt, F hi).
Proof.
  unfold for_range. intros Hle. remember (Z.to_nat (hi - lo)) as n eqn:En.
  revert lo Hle En. induction n as [|n IH]; intros lo Hle En Hf.
  - assert (lo = hi) as -> by lia. by rewrite Z.sub_diag.
  - rewrite seqZ_cons by lia. cbn [for_each]. rewrite (bind_done _ _ _ _ _ (Hf lo ltac:(lia))).
    replace (Z.pred (hi - lo)) with (hi - Z.succ lo) by lia.
    apply (IH (lo + 1)); [lia..|]. intros i Hi. apply Hf. lia.
Qed.

(** The same with an invariant. *)
Lemma for_range_inv {S} (I : Z -> S -> Prop) lo hi (f : Z -> M S unit) s :
  lo <= hi -> I lo s ->
  (forall i s, lo <= i < hi -> I i s -> exists s', f i s = (Done tt, s') /\ I (i + 1) s') ->
  exists s', for_range lo hi f s = (Done tt, s') /\ I hi s'.
Proof.
  unfold for_range. intros Hle. remember (Z.to_nat (hi - lo)) as n eqn:En.
  revert lo s Hle En. induction n as [|n IH]; intros lo s Hle En Hi Hf.
  - assert (lo = hi) as -> by lia. rewrite Z.sub_diag. by exists s.
  - rewrite seqZ_cons by lia. cbn [for_each].
    destruct (Hf lo s ltac:(lia) Hi) as (s' & E & Hi'). rewrite (bind_done _ _ _ _ _ E).
    replace (Z.pred (hi - lo)) with (hi - Z.succ lo) by lia.
    apply (IH (lo + 1)); [lia..|done|]. intros i s2 Hi2. apply Hf. lia.
Qed.

(** A part of the state that is a field of its own. *)
Lemma zoom_bind {S T A B} (get : S -> T) set (m : M T A) (k : A -> M T B) s :
  (forall t s, get (set t s) = t) -> (forall t t' s, set t' (set t s) = set t' s) ->
  zoom get set (m ≫= k) s = (zoom get set m ≫= fun a => zoom get set (k a)) s.
Proof.
  intros Hgs Hss. unfold zoom, mbind, M_bind. destruct (m (get s)) as [[a| | | |] t]; try done.
  rewrite Hgs. destruct (k a t) as [o t']. by rewrite Hss.
Qed.

Lemma zoom_for_each {S T A} (get : S -> T) set (l : list A) (f : A -> M T unit) s :
  (forall t s, get (set t s) = t) -> (forall t t' s, set t' (set t s) = set t' s) -> (forall s, set (get s) s = s) ->
  zoom get set (for_each l f) s = for_each l (fun a => zoom get set (f a)) s.
Proof.
  intros Hgs Hss Hsg. revert s. induction l as [|a l IH]; intros s; cbn [for_each].
  { unfold zoom, mret, M_ret. by rewrite Hsg. }
  rewrite zoom_bind by done. by apply bind_ext.
Qed.

Lemma for_each_ext {S A} (l : list A) (f g : A -> M S unit) s :
  (forall a s, f a s = g a s) -> for_each l f s = for_each l g s.
Proof.
  intros E. revert s. induction l as [|a l IH]; intros s; [done|]. cbn [for_each]. by apply bind_ext.
Qed.

Lemma for_each_app {S A} (l k : list A) (f : A -> M S unit) s :
  for_each (l ++ k) f s = (_ ← for_each l f; for_each k f) s.
Proof.
  revert s. induction l as [|a l IH]; intros s; [done|]. cbn [for_each app]. rewrite bind_assoc.
  unfold mbind, M_bind at 1 2. destruct (f a s) as [[[]|e| | |] s']; [apply IH|done..].
Qed.

(** Nested loops. *)
Lemma for_each_bind {S A B} (l : list A) (f : A -> list B) (c : B -> M S unit) s :
  for_each (l ≫= f) c s = for_each l (fun a => for_each (f a) c) s.
Proof.
  revert s. induction l as [|a l IH]; intros s; [done|]. rewrite bind_cons, for_each_app. cbn [for_each].
  by apply bind_ext.
Qed.

Lemma for_each_map {S A B} (l : list A) (f : A -> B) (c : B -> M S unit) s :
  for_each (f <$> l) c s = for_each l (fun a => c (f a)) s.
Proof. revert s. induction l as [|a l IH]; intros s; [done|]. cbn. by apply bind_ext. Qed.

(** [mstep E]: run the first computation of a bind by the equation [E]. *)
Ltac mstep E := first [ rewrite (bind_done _ _ _ _ _ E) | rewrite (lift_bind _ _ _ _ E) ]; cbn beta iota.
(** [mrun]: the administrative steps of the monad. *)
Ltac mrun := repeat first
  [ rewrite bind_assoc | rewrite bind_ret | rewrite lift_done
  | rewrite gets_bind | rewrite modify_bind ]; cbn beta iota.

(** ** Machine integers

    A [w]-bit unsigned integer is a [Z] between 0 and [2^w].  The arithmetic
    operators of Rust panic on overflow when overflow checks are compiled in
    (the dev profile, what [cargo run] builds) and wrap when they are not (the
    release profile): every definition that does arithmetic takes the profile
    as a class argument. *)
Class BuildProfile := overflow_checks : bool.

Definition wrap (w x : Z) : Z := x mod 2 ^ w.
Definition in_range (w x : Z) : Prop := 0 <= x < 2 ^ w.
Abbreviation u64 x := (in_range 64 x).

Definition overflowing `{BuildProfile} (w x : Z) : outcome Z :=
  if bool_decide (0 <= x < 2 ^ w) then Done x
  else if overflow_checks then Panic ArithmeticOverflow else Done (wrap w x).

Definition uadd `{BuildProfile} (w a b : Z) : outcome Z := overflowing w (a + b).
Definition usub `{BuildProfile} (w a b : Z) : outcome Z := overflowing w (a - b).
Definition umul `{BuildProfile} (w a b : Z) : outcome Z := overflowing w (a * b).

(** [checked_add], [saturating_add] and the bitwise complement [!]. *)
Definition checked_add (w a b : Z) : option Z :=
  if bool_decide (a + b < 2 ^ w) then Some (a + b) else None.
Definition saturating_add (w a b : Z) : Z := Z.min (a + b) (2 ^ w - 1).
Definition unot (w a : Z) : Z := 2 ^ w - 1 - a.

Section word_lemmas.
Context `{BuildProfile}.

Lemma overflowing_ok w x : 0 <= x < 2 ^ w -> overflowing w x = Done x.
Proof. intros ?. unfold overflowing. by rewrite bool_decide_true. Qed.

Lemma uadd_ok w a b : 0 <= a + b < 2 ^ w -> uadd w a b = Done (a + b).
Proof. apply overflowing_ok. Qed.

Lemma usub_ok w a b : 0 <= a - b < 2 ^ w -> usub w a b = Done (a - b).
Proof. apply overflowing_ok. Qed.

Lemma umul_ok w a b : 0 <= a * b < 2 ^ w -> umul w a b = Done (a * b).
Proof. apply overflowing_ok. Qed.

Lemma overflowing_dev w x :
  ~ (0 <= x < 2 ^ w) -> overflow_checks = true -> overflowing w x = Panic ArithmeticOverflow.
Proof. intros ? E. unfold overflowing. rewrite bool_decide_false by done. by rewrite E. Qed.

Lemma overflowing_release w x :
  overflow_checks = false -> 0 <= w -> overflowing w x = Done (wrap w x).
Proof.
  intros E Hw. unfold overflowing. rewrite E. case_bool_decide; [|done].
  unfold wrap. by rewrite Z.mod_small.
Qed.
End word_lemmas.

Lemma wrap_range w x : 0 <= w -> in_range w (wrap w x).
Proof. intros ?. apply Z.mod_pos_bound. lia. Qed.

Lemma wrap_small w x : in_range w x -> wrap w x = x.
Proof. apply Z.mod_small. Qed.

(** The bits of a [w]-bit integer, and the bitwise operators on it. *)
Lemma in_range_ones w x : 0 <= w -> in_range w x <-> Z.land x (Z.ones w) = x.
Proof.
  intros Hw. rewrite Z.land_ones by done. split; [apply Z.mod_small|]. intros <-. apply Z.mod_pos_bound. lia.
Qed.

Lemma lor_range w a b : 0 <= w -> in_range w a -> in_range w b -> in_range w (Z.lor a b).
Proof. intros Hw. rewrite !in_range_ones by done. intros Ha Hb. by rewrite Z.land_lor_distr_l, Ha, Hb. Qed.

Lemma land_range w a b : 0 <= w -> in_range w b -> in_range w (Z.land a b).
Proof. intros Hw. rewrite !in_range_ones by done. intros Hb. by rewrite <- Z.land_assoc, Hb. Qed.

Lemma overflowing_range `{BuildProfile} w x y : 0 <= w -> overflowing w x = Done y -> in_range w y.
Proof.
  intros Hw. unfold overflowing. case_bool_decide; [by intros [= <-]|].
  destruct overflow_checks; [done|]. intros [= <-]. apply Z.mod_pos_bound. lia.
Qed.

Lemma checked_add_ok w a b : a + b < 2 ^ w -> checked_add w a b = Some (a + b).
Proof. intros ?. unfold checked_add. by rewrite bool_decide_true. Qed.

Lemma checked_add_None w a b : 2 ^ w <= a + b -> checked_add w a b = None.
Proof. intros ?. unfold checked_add. rewrite bool_decide_false; [done|lia]. Qed.

Create HintDb words.
Create Rewrite HintDb words.
#[export] Hint Resolve wrap_range wrap_small lor_range land_range : words.
#[export] Hint Rewrite @uadd_ok @usub_ok @umul_ok checked_add_ok using lia : words.

(** ** Powers of two and alignment *)
Definition is_power_of_two (a : Z) : bool := (0 <? a) && (Z.land a (a - 1) =? 0).

Definition pow2 (a : Z) : Prop := exists k, 0 <= k /\ a = 2 ^ k.

Lemma pow2_pos a : pow2 a -> 0 < a.
Proof. intros (k & ? & ->). lia. Qed.

Lemma is_power_of_two_spec a : is_power_of_two a = true <-> pow2 a.
Proof.
  unfold is_power_of_two. rewrite andb_true_iff, Z.ltb_lt, Z.eqb_eq. split.
  - intros [Hpos Hl]. exists (Z.log2 a). split; [apply Z.log2_nonneg|].
    pose proof (Z.log2_spec a Hpos) as [Hlo Hhi].
    destruct (Z.eq_dec a (2 ^ Z.log2 a)) as [|Hne]; [done|exfalso].
    assert (Htop : Z.testbit a (Z.log2 a) = true) by (apply Z.bit_log2; lia).
    assert (Hlog : Z.log2 (a - 1) = Z.log2 a).
    { apply Z.log2_unique; [apply Z.log2_nonneg|lia]. }
    assert (Htop' : Z.testbit (a - 1) (Z.log2 a) = true).
    { rewrite <- Hlog. apply Z.bit_log2. pose proof (Z.pow_pos_nonneg 2 (Z.log2 a)).
      pose proof (Z.log2_nonneg a). lia. }
    assert (Hc : Z.testbit (Z.land a (a - 1)) (Z.log2 a) = true)
      by (by rewrite Z.land_spec, Htop, Htop').
    by rewrite Hl, Z.bits_0 in Hc.
  - intros (k & Hk & ->). split; [lia|].
    replace (2 ^ k - 1) with (Z.ones k) by (rewrite Z.ones_equiv; lia).
    rewrite Z.land_ones by lia. apply Z.mod_same. lia.
Qed.

#[export] Instance pow2_dec a : Decision (pow2 a).
Proof.
  destruct (is_power_of_two a) eqn:E.
  - left. by apply is_power_of_two_spec.
  - right. intros ?%is_power_of_two_spec. congruence.
Defined.

Lemma pow2_divide a b : pow2 a -> pow2 b -> a <= b -> (a | b).
Proof.
  intros (i & Hi & ->) (j & Hj & ->) Hle.
  apply Z.pow_le_mono_r_iff in Hle; [|lia|lia].
  exists (2 ^ (j - i)). rewrite <- Z.pow_add_r by lia. f_equal. lia.
Qed.

(** Clearing the low bits with the complemented mask, within [w] bits. *)
Lemma land_unot_pow2 w k x :
  0 <= k <= w -> in_range w x ->
  Z.land x (unot w (2 ^ k - 1)) = 2 ^ k * (x / 2 ^ k).
Proof.
  intros Hk Hx. unfold unot.
  replace (2 ^ w - 1 - (2 ^ k - 1)) with (Z.ldiff (Z.ones w) (Z.ones k)).
  2:{ rewrite <- Z.sub_nocarry_ldiff.
      - rewrite !Z.ones_equiv. lia.
      - apply Z.bits_inj'. intros n Hn. rewrite Z.ldiff_spec, Z.bits_0.
        destruct (Z.ltb_spec n k).
        + rewrite (Z.ones_spec_low k), (Z.ones_spec_low w) by lia. done.
        + rewrite (Z.ones_spec_high k) by lia. done. }
  rewrite Z.mul_comm, <- Z.shiftr_div_pow2, <- Z.shiftl_mul_pow2 by lia.
  apply Z.bits_inj'. intros n Hn.
  rewrite Z.land_spec, Z.ldiff_spec, Z.shiftl_spec by lia.
  destruct (Z.ltb_spec n k).
  - rewrite (Z.ones_spec_low k) by lia. rewrite (Z.testbit_neg_r _ (n - k)) by lia.
    rewrite andb_false_r. apply andb_false_r.
  - rewrite (Z.ones_spec_high k), Z.shiftr_spec by lia.
    replace (n - k + k) with n by lia.
    destruct (Z.ltb_spec n w).
    + rewrite Z.ones_spec_low by lia. apply andb_true_r.
    + rewrite <- (Z.mod_small x (2 ^ w)) by done.
      rewrite Z.mod_pow2_bits_high by lia. done.
Qed.
