(* ===== verification/Store.v ===== *)
(** * Memory, address intervals and locks

    The word-addressed store that the allocators, the forged process stacks and
    the interrupt entry code read and write, the class of such stores, the
    disjointness of address intervals, and [spin::Mutex] as the code uses it. *)

From S2P Require Import Prelude.

(** ** The store

    Physical/virtual memory as the kernel sees it: aligned 64-bit words.  A
    word that was never written is uninitialised, and reading it, or
    dereferencing a null or misaligned pointer, is undefined behaviour. *)
Abbreviation mem := (gmap Z Z).

Definition valid_word_ptr (a : Z) : bool := (0 <? a) && (a mod 8 =? 0).

Definition read_word (a : Z) : M mem Z := fun m =>
  if valid_word_ptr a then
    match m !! a with Some v => (Done v, m) | None => (Undefined, m) end
  else (Undefined, m).

Definition write_word (a v : Z) : M mem unit := fun m =>
  if valid_word_ptr a then (Done tt, <[a := v]> m) else (Undefined, m).

Lemma valid_word_ptr_spec a : valid_word_ptr a = true <-> 0 < a /\ a mod 8 = 0.
Proof. unfold valid_word_ptr. rewrite andb_true_iff, Z.ltb_lt, Z.eqb_eq. done. Qed.

Lemma read_word_ok a v m :
  0 < a -> a mod 8 = 0 -> m !! a = Some v -> read_word a m = (Done v, m).
Proof.
  intros ?? Hm. unfold read_word.
  by rewrite (proj2 (valid_word_ptr_spec a) (conj H H0)), Hm.
Qed.

Lemma write_word_ok a v m :
  0 < a -> a mod 8 = 0 -> write_word a v m = (Done tt, <[a := v]> m).
Proof.
  intros ??. unfold write_word. by rewrite (proj2 (valid_word_ptr_spec a) (conj H H0)).
Qed.

(** What the code that reads and writes words needs of a memory.  The flat store
    is one; DemandPaging.v has another, behind a page table. *)
Class WordStore (W : Type) := {
  load : Z -> M W Z;
  store : Z -> Z -> M W unit;
}.

#[export] Instance flat_store : WordStore mem := { load := read_word; store := write_word }.

(** ** Intervals [(start, length)] *)
Definition ends (i : Z * Z) : Z := i.1 + i.2.
Definition disj (i j : Z * Z) : Prop := ends i <= j.1 \/ ends j <= i.1.
Definition within (i j : Z * Z) : Prop := j.1 <= i.1 /\ ends i <= ends j.

(** The word at [a] overlaps the interval. *)
Definition touches (a : Z) (i : Z * Z) : Prop := a < ends i /\ i.1 < a + 8.

#[export] Instance disj_sym : Symmetric disj.
Proof. intros i j [?|?]; [by right|by left]. Qed.

#[export] Instance within_preorder : PreOrder within.
Proof. unfold within. split; [intros i; lia|intros i j k; lia]. Qed.

Lemma disj_within i j k : within i j -> disj j k -> disj i k.
Proof. unfold within, disj. lia. Qed.

Lemma disj_within_r i j k : within i j -> disj k j -> disj k i.
Proof. unfold within, disj. lia. Qed.

Fixpoint pairwise_disj (l : list (Z * Z)) : Prop :=
  match l with
  | [] => True
  | i :: l => Forall (disj i) l /\ pairwise_disj l
  end.

Lemma pairwise_disj_perm l l' : l ≡ₚ l' -> pairwise_disj l -> pairwise_disj l'.
Proof.
  induction 1 as [|i l l' Hp IH|i j l|l1 l2 l3 _ IH1 _ IH2]; simpl.
  - done.
  - intros [Hf Hd]. split; [by rewrite <- Hp|by apply IH].
  - rewrite !Forall_cons. intros [[Hji Hj] [Hi Hd]]. by repeat split.
  - auto.
Qed.

#[export] Instance pairwise_disj_Proper : Proper ((≡ₚ) ==> iff) pairwise_disj.
Proof. intros l l' Hp. split; apply pairwise_disj_perm; by rewrite Hp. Qed.

Lemma Forall_disj_within i j l : within i j -> Forall (disj j) l -> Forall (disj i) l.
Proof. intros Hw Hf. apply (Forall_impl _ _ _ Hf). intros k. by apply disj_within. Qed.

Create HintDb intervals.
#[export] Hint Resolve disj_within disj_within_r Forall_disj_within : intervals.

(** ** [spin::Mutex], and [Locked<A>] of allocator.rs, which wraps it

    [lock] on a mutex that is held spins: both kernels run on one processor, so
    a lock held by the interrupted or calling code is never released, and the
    caller hangs.  [with_lock] is a critical section: the guard is dropped when
    the section ends, on every path, and is kept when it does not end. *)
Record Locked (A : Type) := { held : bool; inner : A }.
Arguments held {A}.
Arguments inner {A}.
Arguments Build_Locked {A}.

Definition Locked_new {A} (a : A) : Locked A := {| held := false; inner := a |}.

Definition lock {A} : M (Locked A) A := fun l =>
  if held l then (Hang, l) else (Done (inner l), {| held := true; inner := inner l |}).

Definition try_lock {A} : M (Locked A) (option A) := fun l =>
  if held l then (Done None, l)
  else (Done (Some (inner l)), {| held := true; inner := inner l |}).

(** Dropping the guard, with the value it protects as the section left it. *)
Definition unlock {A} (a : A) : M (Locked A) unit := fun _ =>
  (Done tt, {| held := false; inner := a |}).

Definition with_lock {X A B} (body : M (A * X) B) : M (Locked A * X) B := fun '(l, x) =>
  match lock l with
  | (Done a, l1) =>
      match body (a, x) with
      | (Done b, (a', x')) => (Done b, ((unlock a' l1).2, x'))
      | (o, (a', x')) => (o, ({| held := true; inner := a' |}, x'))
      end
  | (_, l1) => (Hang, (l1, x))
  end.

Lemma with_lock_free {X A B} (body : M (A * X) B) (a a' : A) (x x' : X) b :
  body (a, x) = (Done b, (a', x')) ->
  with_lock body (Locked_new a, x) = (Done b, (Locked_new a', x')).
Proof. unfold with_lock. simpl. by intros ->. Qed.

Lemma with_lock_held {X A B} (body : M (A * X) B) (a : A) (x : X) :
  with_lock body ({| held := true; inner := a |}, x)
  = (Hang, ({| held := true; inner := a |}, x)).
Proof. done. Qed.
