(* ===== verification/Allocator.v ===== *)
(** * The allocator interface (src/something_os/src/allocator.rs)

    [align_up], the heap bounds, the standard library's [Layout], the
    [GlobalAlloc] trait as a class and the contract every allocator of the
    kernels is shown to satisfy, with the theorem that a client of any
    allocator under that contract is safe over every history of calls. *)

From S2P Require Import Prelude Store.

(** ** Constants and [align_up] *)
Definition HEAP_START : Z := 0x444444440000.
Definition HEAP_SIZE : Z := 100 * 1024 * 1024.

Definition align_up `{BuildProfile} (addr align : Z) : outcome Z :=
  sum ← uadd 64 addr align;
  top ← usub 64 sum 1;
  mask ← usub 64 align 1;
  mret (Z.land top (unot 64 mask)).

(** The least multiple of [align] that is at least [addr]. *)
Definition align_ceil (addr align : Z) : Z := align * ((addr + align - 1) / align).

Lemma align_ceil_spec addr align :
  0 < align ->
  (align | align_ceil addr align) /\ addr <= align_ceil addr align < addr + align.
Proof.
  intros ?. unfold align_ceil. split; [by apply Z.divide_factor_l|].
  pose proof (Z.div_mod (addr + align - 1) align).
  pose proof (Z.mod_pos_bound (addr + align - 1) align). lia.
Qed.

Lemma align_ceil_least addr align x :
  0 < align -> (align | x) -> addr <= x -> align_ceil addr align <= x.
Proof.
  intros ? [q ->] ?. unfold align_ceil.
  rewrite (Z.mul_comm q). apply Z.mul_le_mono_nonneg_l; [lia|].
  apply Z.lt_succ_r, Z.div_lt_upper_bound; lia.
Qed.

Lemma align_ceil_id addr align : 0 < align -> (align | addr) -> align_ceil addr align = addr.
Proof.
  intros ? Hd. pose proof (align_ceil_least addr align addr H Hd ltac:(lia)).
  pose proof (align_ceil_spec addr align H). lia.
Qed.

Section align_up.
Context `{BuildProfile}.

Lemma align_up_ok addr align :
  pow2 align -> 0 <= addr -> addr + align < 2 ^ 64 ->
  align_up addr align = Done (align_ceil addr align).
Proof.
  intros Hp Ha Hs. pose proof (pow2_pos _ Hp). unfold align_up.
  rewrite uadd_ok by lia. simpl. rewrite usub_ok by lia. simpl.
  rewrite usub_ok by lia. simpl. f_equal.
  destruct Hp as (k & Hk & ->). rewrite land_unot_pow2; [done| |unfold in_range; lia].
  split; [done|]. apply (Z.pow_le_mono_r_iff 2); lia.
Qed.

Lemma align_up_fixpoint addr align :
  pow2 align -> 0 <= addr -> addr + align < 2 ^ 64 ->
  align_up addr align = Done addr <-> (align | addr).
Proof.
  intros Hp ??. pose proof (pow2_pos _ Hp). rewrite align_up_ok by done. split.
  - intros [= <-]. by apply align_ceil_spec.
  - intros ?. by rewrite align_ceil_id.
Qed.

Lemma align_ceil_wrap k S :
  0 <= k <= 64 -> wrap 64 (2 ^ k * (S / 2 ^ k)) = 2 ^ k * (wrap 64 S / 2 ^ k).
Proof.
  intros Hk. unfold wrap.
  assert (E : 2 ^ 64 = 2 ^ k * 2 ^ (64 - k)) by (rewrite <- Z.pow_add_r by lia; f_equal; lia).
  rewrite E. rewrite Z.mul_mod_distr_l by lia. f_equal.
  rewrite Z.rem_mul_r by lia.
  rewrite (Z.mul_comm (2 ^ k) ((S / 2 ^ k) mod _)), Z.div_add by lia.
  rewrite (Z.div_small (S mod 2 ^ k)) by (apply Z.mod_pos_bound; lia). done.
Qed.

(** C29: [align_up] on every [usize] and every power of two.  When
    [addr + align] fits, the result is the least multiple of [align] that is
    at least [addr]; when it does not, the sum overflows: with overflow checks
    the call panics, without them the result wraps around modulo [2^64]. *)
Theorem align_up_spec addr align
    (Ha : in_range 64 addr) (Hp : pow2 align) (Hal : align < 2 ^ 64) :
  align_up addr align =
    (if bool_decide (addr + align < 2 ^ 64) then Done (align_ceil addr align)
     else if overflow_checks then Panic ArithmeticOverflow
     else Done (wrap 64 (align_ceil addr align))) /\
  (align | align_ceil addr align) /\ addr <= align_ceil addr align /\
  (forall x, (align | x) -> addr <= x -> align_ceil addr align <= x).
Proof.
  pose proof (pow2_pos _ Hp) as Hpos. unfold in_range in Ha.
  destruct (align_ceil_spec addr align Hpos) as [Hd [Hlo _]].
  split; [|split_and!; [done..|intros x; by apply align_ceil_least]].
  case_bool_decide; [by apply align_up_ok; [done|lia..]|].
  unfold align_up, uadd. destruct overflow_checks eqn:E.
  { rewrite overflowing_dev by (done || lia). done. }
  unfold usub. rewrite (overflowing_ok 64 (align - 1)) by lia.
  rewrite overflowing_release by done. cbn [mbind outcome_bind].
  rewrite overflowing_release by done. cbn [mbind outcome_bind]. unfold mret, outcome_ret.
  destruct Hp as (k & Hk & ->).
  assert (Hk64 : k < 64) by (apply (Z.pow_lt_mono_r_iff 2); lia).
  rewrite land_unot_pow2 by first [lia | apply wrap_range; lia].
  unfold align_ceil. rewrite align_ceil_wrap by lia. do 3 f_equal.
  unfold wrap. by rewrite Zminus_mod_idemp_l.
Qed.
End align_up.

(** ** [core::alloc::Layout] *)
Record Layout := { size : Z; align : Z }.

#[export] Instance Layout_eq_dec : EqDecision Layout.
Proof. solve_decision. Defined.

(** [isize::MAX as usize + 1]. *)
Definition isize_bound : Z := 2 ^ 63.

Definition from_size_align (sz al : Z) : option Layout :=
  if is_power_of_two al && (sz <=? isize_bound - al)
  then Some {| size := sz; align := al |} else None.

Definition align_to (l : Layout) (al : Z) : option Layout :=
  from_size_align (size l) (Z.max (align l) al).

Definition pad_to_align (l : Layout) : Layout :=
  {| size := align_ceil (size l) (align l); align := align l |}.

Definition valid_layout (l : Layout) : Prop :=
  0 <= size l /\ pow2 (align l) /\ size l + align l <= isize_bound.

(** What a caller of the allocators passes: a valid layout of non-zero size
    ([GlobalAlloc::alloc] requires it), not within a word of the largest
    object size the language allows. *)
Definition layout_ok (l : Layout) : Prop :=
  valid_layout l /\ 0 < size l /\ size l + 8 <= isize_bound.

#[export] Instance valid_layout_dec l : Decision (valid_layout l).
Proof. unfold valid_layout. apply _. Defined.
#[export] Instance layout_ok_dec l : Decision (layout_ok l).
Proof. unfold layout_ok. apply _. Defined.

Lemma from_size_align_ok sz al :
  pow2 al -> sz + al <= isize_bound -> from_size_align sz al = Some {| size := sz; align := al |}.
Proof.
  intros Hp%is_power_of_two_spec ?. unfold from_size_align. rewrite Hp. simpl.
  by rewrite (proj2 (Z.leb_le sz (isize_bound - al))) by lia.
Qed.

Lemma from_size_align_Some sz al l :
  from_size_align sz al = Some l ->
  l = {| size := sz; align := al |} /\ pow2 al /\ sz + al <= isize_bound.
Proof.
  unfold from_size_align. destruct (is_power_of_two al) eqn:E; [|done]. simpl.
  destruct (Z.leb_spec sz (isize_bound - al)); [|done]. intros [= <-].
  apply is_power_of_two_spec in E. split_and!; [done..|lia].
Qed.

(** ** The [GlobalAlloc] trait *)

(** The trait's methods, on an allocator of type [H] behind its lock. *)
Class GlobalAlloc (H : Type) := {
  alloc : Layout -> M (Locked H * mem) Z;
  dealloc : Z -> Layout -> M (Locked H * mem) unit;
}.

(** The interval a live block occupies. *)
Definition block (p : Z) (l : Layout) : Z * Z := (p, size l).

Definition touches_live (live : gmap Z Layout) (a : Z) : Prop :=
  exists p l, live !! p = Some l /\ touches a (block p l).

(** [sub] leaves every word of the live blocks as it was. *)
Definition preserves (live : gmap Z Layout) (m m' : mem) : Prop :=
  forall a, touches_live live a -> m' !! a = m !! a.

(** The contract between an allocator and its clients.  The state is the
    allocator [x] and the memory; [inv] ties them to the blocks that are
    currently handed out. *)
Record alloc_contract {X : Type}
    (alloc : Layout -> M (X * mem) Z) (dealloc : Z -> Layout -> M (X * mem) unit)
    (inv : X -> mem -> gmap Z Layout -> Prop) : Prop := {
  (** An allocation returns; it fails with a null pointer and hands nothing
      out, or yields an aligned block disjoint from all live ones. *)
  ac_alloc x m live l :
    inv x m live -> layout_ok l ->
    exists p x' m', alloc l (x, m) = (Done p, (x', m')) /\ preserves live m m' /\
      ((p = 0 /\ inv x' m' live) \/
       (0 < p /\ (align l | p) /\ live !! p = None /\
        (forall q lq, live !! q = Some lq -> disj (block p l) (block q lq)) /\
        inv x' m' (<[p := l]> live)));
  (** Freeing a live block returns and keeps the other blocks' contents. *)
  ac_dealloc x m live p l :
    inv x m live -> live !! p = Some l ->
    exists x' m', dealloc p l (x, m) = (Done tt, (x', m')) /\
      preserves (delete p live) m m' /\ inv x' m' (delete p live);
  (** Clients may write the blocks they own. *)
  ac_frame x m m' live :
    inv x m live -> (forall a, ~ touches_live live a -> m' !! a = m !! a) -> inv x m' live;
}.

(** ** Client histories *)
Section clients.
Context {X : Type}.
Context (alloc : Layout -> M (X * mem) Z) (dealloc : Z -> Layout -> M (X * mem) unit).

Definition client_state : Type := X * mem * gmap Z Layout.

(** A client allocates, frees a block it owns, or stores a word inside one. *)
Inductive client_step : client_state -> client_state -> Prop :=
  | step_alloc x m live l p x' m' :
      layout_ok l -> alloc l (x, m) = (Done p, (x', m')) ->
      client_step (x, m, live) (x', m', if decide (p = 0) then live else <[p := l]> live)
  | step_free x m live p l x' m' :
      live !! p = Some l -> dealloc p l (x, m) = (Done tt, (x', m')) ->
      client_step (x, m, live) (x', m', delete p live)
  | step_store x m live p l a v :
      live !! p = Some l -> within (a, 8) (block p l) ->
      client_step (x, m, live) (x, <[a := v]> m, live).

(** The blocks handed out are aligned and pairwise disjoint. *)
Definition live_ok (live : gmap Z Layout) : Prop :=
  (forall p l, live !! p = Some l -> layout_ok l /\ 0 < p /\ (align l | p)) /\
  (forall p q l k, live !! p = Some l -> live !! q = Some k -> p <> q ->
     disj (block p l) (block q k)).

Lemma live_ok_empty : live_ok ∅.
Proof. split; intros *; rewrite lookup_empty; done. Qed.

Lemma live_ok_insert live p l :
  live_ok live -> layout_ok l -> 0 < p -> (align l | p) ->
  (forall q lq, live !! q = Some lq -> disj (block p l) (block q lq)) ->
  live_ok (<[p := l]> live).
Proof.
  intros [Ha Hd] Hl Hp Hal Hn. split.
  - intros q k [[<- <-]|[? ?]]%lookup_insert_Some; [done|]. by apply Ha.
  - intros q r k k'. rewrite !lookup_insert_Some.
    intros [[<- <-]|[? ?]] [[<- <-]|[? ?]] ?; [done| | |].
    + by apply Hn.
    + symmetry. by apply Hn.
    + by apply Hd.
Qed.

Lemma live_ok_delete live p : live_ok live -> live_ok (delete p live).
Proof.
  intros [Ha Hd]. split.
  - intros q k [? ?]%lookup_delete_Some. by apply Ha.
  - intros q r k k' [? ?]%lookup_delete_Some [? ?]%lookup_delete_Some. by apply Hd.
Qed.

Context (inv : X -> mem -> gmap Z Layout -> Prop).
Context (C : alloc_contract alloc dealloc inv).

Definition client_inv (s : client_state) : Prop :=
  let '(x, m, live) := s in inv x m live /\ live_ok live.

Lemma client_step_inv s s' : client_step s s' -> client_inv s -> client_inv s'.
Proof.
  destruct 1 as [x m live l p x' m' Hl E|x m live p l x' m' Hp E|x m live p l a v Hp Hw];
    intros [Hi Hlo].
  - destruct (ac_alloc _ _ _ C x m live l Hi Hl) as (p' & x1 & m1 & E1 & _ & Hcase).
    rewrite E1 in E. injection E as <- <- <-.
    destruct Hcase as [[-> ?]|(? & ? & ? & ? & ?)].
    + by rewrite decide_True.
    + rewrite decide_False by lia. split; [done|]. by apply live_ok_insert.
  - destruct (ac_dealloc _ _ _ C x m live p l Hi Hp) as (x1 & m1 & E1 & _ & ?).
    rewrite E1 in E. injection E as <- <-. split; [done|]. by apply live_ok_delete.
  - split; [|done]. apply (ac_frame _ _ _ C x m _ live Hi).
    intros b Hb. apply lookup_insert_ne. intros <-. apply Hb. exists p, l. split; [done|].
    unfold within, touches, ends in *. simpl in *. lia.
Qed.

Lemma client_steps_inv s s' : rtc client_step s s' -> client_inv s -> client_inv s'.
Proof. induction 1; eauto using client_step_inv. Qed.

(** No call of a client ever panics, hangs or is undefined. *)
Lemma client_progress x m live :
  client_inv (x, m, live) ->
  (forall l, layout_ok l -> exists p s', alloc l (x, m) = (Done p, s')) /\
  (forall p l, live !! p = Some l -> exists s', dealloc p l (x, m) = (Done tt, s')).
Proof.
  intros [Hi _]. split.
  - intros l Hl. destruct (ac_alloc _ _ _ C x m live l Hi Hl) as (p & x' & m' & E & _). eauto.
  - intros p l Hp. destruct (ac_dealloc _ _ _ C x m live p l Hi Hp) as (x' & m' & E & _). eauto.
Qed.

(** Both at once, over any history. *)
Lemma client_history x0 m0 x m live :
  inv x0 m0 ∅ -> rtc client_step (x0, m0, ∅) (x, m, live) ->
  live_ok live /\ inv x m live /\
  (forall l, layout_ok l -> exists p s', alloc l (x, m) = (Done p, s')) /\
  (forall p l, live !! p = Some l -> exists s', dealloc p l (x, m) = (Done tt, s')).
Proof.
  intros H0 Hr. pose proof (client_steps_inv _ _ Hr (conj H0 live_ok_empty)) as Hi.
  split; [apply Hi|]. split; [apply Hi|]. by apply client_progress with (live := live).
Qed.

(** A word inside a block that stays live is changed by client stores only. *)
Lemma client_step_preserves x m live x' m' live' p l a :
  client_step (x, m, live) (x', m', live') -> client_inv (x, m, live) ->
  live !! p = Some l -> live' !! p = Some l -> touches a (block p l) ->
  m' !! a = m !! a \/ exists v, m' = <[a := v]> m /\ live' = live.
Proof.
  intros Hs [Hi _] Hp Hp' Ha. inversion Hs; subst.
  - destruct (ac_alloc _ _ _ C x m live l0 Hi ltac:(done)) as (p' & x1 & m1 & E1 & Hpr & _).
    rewrite E1 in *. simplify_eq. left. apply Hpr. by exists p, l.
  - destruct (ac_dealloc _ _ _ C x m live p0 l0 Hi ltac:(done)) as (x1 & m1 & E1 & Hpr & _).
    rewrite E1 in *. simplify_eq. left. apply Hpr. by exists p, l.
  - destruct (decide (a0 = a)) as [->|]; [right; eauto|left].
    by apply lookup_insert_ne.
Qed.
End clients.

(** ** Witnesses *)
Lemma align_up_spec_witness :
  @align_up true (HEAP_START + 5) 16 = Done (HEAP_START + 16) /\
  @align_up true (2 ^ 64 - 5) 16 = Panic ArithmeticOverflow.
Proof.
  assert (Hp : pow2 16) by (by exists 4).
  split.
  - refine (proj1 (@align_up_spec true (HEAP_START + 5) 16 _ Hp _));
      [split; cbv; congruence|cbv; congruence].
  - refine (proj1 (@align_up_spec true (2 ^ 64 - 5) 16 _ Hp _));
      [split; cbv; congruence|cbv; congruence].
Defined.
