(* ===== verification/Bump.v ===== *)
(** * The bump allocator (src/something_os/src/allocator/bump.rs)

    The allocator hands out addresses in increasing order and resets when the
    last block is freed.  [bump_contract] shows that it meets the allocator
    contract; the theorems at the end state its behaviour branch by branch and
    over whole client histories. *)

From S2P Require Import Prelude Store Allocator.

Record BumpAllocator := {
  heap_start : Z;
  heap_end : Z;
  next : Z;
  allocations : Z;
}.

Definition set_next (v : Z) (b : BumpAllocator) : BumpAllocator :=
  {| heap_start := heap_start b; heap_end := heap_end b; next := v;
     allocations := allocations b |}.
Definition set_allocations (v : Z) (b : BumpAllocator) : BumpAllocator :=
  {| heap_start := heap_start b; heap_end := heap_end b; next := next b;
     allocations := v |}.

Module Bump.
Section bump.
Context `{BuildProfile}.

Definition new : BumpAllocator :=
  {| heap_start := 0; heap_end := 0; next := 0; allocations := 0 |}.

Definition init (start size : Z) : M (BumpAllocator * mem) unit := fun '(b, m) =>
  (Done tt, ({| heap_start := start; heap_end := saturating_add 64 start size;
                next := start; allocations := allocations b |}, m)).

Definition alloc_body (l : Layout) : M (BumpAllocator * mem) Z :=
  bump ← gets fst;
  alloc_start ← lift (align_up (next bump) (align l));
  match checked_add 64 alloc_start (size l) with
  | None => mret 0
  | Some alloc_end =>
      if bool_decide (alloc_end > heap_end bump) then mret 0
      else
        count ← lift (uadd 64 (allocations bump) 1);
        _ ← modify (fun '(b, m) => (set_allocations count (set_next alloc_end b), m));
        mret alloc_start
  end.

Definition dealloc_body (ptr : Z) (l : Layout) : M (BumpAllocator * mem) unit :=
  bump ← gets fst;
  count ← lift (usub 64 (allocations bump) 1);
  _ ← modify (fun '(b, m) => (set_allocations count b, m));
  when (count =? 0) (modify (fun '(b, m) => (set_next (heap_start b) b, m))).

#[export] Instance global_alloc : GlobalAlloc BumpAllocator := {
  alloc l := with_lock (alloc_body l);
  dealloc p l := with_lock (dealloc_body p l);
}.

(** ** Behaviour of the two methods *)

Lemma alloc_body_eq b m l :
  pow2 (align l) -> 0 <= next b -> next b + align l < 2 ^ 64 ->
  0 <= allocations b < 2 ^ 64 - 1 -> 0 <= size l ->
  let start := align_ceil (next b) (align l) in
  alloc_body l (b, m) =
    if bool_decide (start + size l < 2 ^ 64 /\ start + size l <= heap_end b) then
      (Done start, (set_allocations (allocations b + 1) (set_next (start + size l) b), m))
    else (Done 0, (b, m)).
Proof.
  intros Hp Hn Ha Hc Hs start. unfold alloc_body. rewrite gets_bind. cbn [fst].
  rewrite (lift_bind _ _ _ _ (align_up_ok _ _ Hp Hn Ha)). fold start.
  destruct (decide (start + size l < 2 ^ 64)).
  - rewrite checked_add_ok by done.
    destruct (decide (start + size l <= heap_end b)).
    + rewrite bool_decide_false by lia.
      rewrite (lift_bind _ _ _ _ (uadd_ok 64 (allocations b) 1 ltac:(lia))).
      by rewrite bool_decide_true.
    + rewrite bool_decide_true by lia. by rewrite bool_decide_false by lia.
  - rewrite checked_add_None by lia. by rewrite bool_decide_false by lia.
Qed.

Lemma dealloc_body_eq b m p l :
  0 < allocations b < 2 ^ 64 ->
  dealloc_body p l (b, m) =
    (Done tt, (if bool_decide (allocations b = 1)
               then set_next (heap_start b) (set_allocations 0 b)
               else set_allocations (allocations b - 1) b, m)).
Proof.
  intros Hc. unfold dealloc_body. rewrite gets_bind. cbn [fst].
  rewrite (lift_bind _ _ _ _ (usub_ok 64 (allocations b) 1 ltac:(lia))).
  rewrite modify_bind. unfold when.
  destruct (Z.eqb_spec (allocations b - 1) 0) as [E|E].
  - rewrite bool_decide_true by lia. rewrite E. done.
  - by rewrite bool_decide_false by lia.
Qed.

(** ** The invariant *)
Record bump_inv (lo hi : Z) (b : BumpAllocator) (live : gmap Z Layout) : Prop := {
  bi_start : heap_start b = lo;
  bi_end : heap_end b = hi;
  bi_next : lo <= next b <= hi;
  bi_count : allocations b = Z.of_nat (base.size live);
  bi_bound : allocations b <= next b - lo;
  bi_live : forall p l, live !! p = Some l -> lo <= p /\ 0 < size l /\ p + size l <= next b;
}.

(** A heap in the lower half of the address space. *)
Definition heap_ok (lo hi : Z) : Prop := 0 < lo <= hi /\ hi <= 2 ^ 63.

Definition inv (lo hi : Z) (x : Locked BumpAllocator) (m : mem) (live : gmap Z Layout) : Prop :=
  held x = false /\ bump_inv lo hi (inner x) live.

Lemma bump_init_inv b m lo sz :
  allocations b = 0 -> heap_ok lo (lo + sz) ->
  exists b', init lo sz (b, m) = (Done tt, (b', m)) /\ bump_inv lo (lo + sz) b' ∅.
Proof.
  unfold heap_ok. intros Hb Hh. unfold init, saturating_add.
  rewrite Z.min_l by lia. eexists. split; [done|].
  split; cbn; rewrite ?map_size_empty; try lia. intros *. by rewrite lookup_empty.
Qed.

Lemma alloc_inv lo hi b l live :
  heap_ok lo hi -> bump_inv lo hi b live -> layout_ok l ->
  let start := align_ceil (next b) (align l) in
  start + size l <= hi ->
  (forall q lq, live !! q = Some lq -> disj (block start l) (block q lq)) /\
  live !! start = None /\
  bump_inv lo hi (set_allocations (allocations b + 1) (set_next (start + size l) b))
    (<[start := l]> live).
Proof.
  intros Hh Hi (Hv & Hs & _) start Hend.
  assert (Hst : next b <= start).
  { apply align_ceil_spec. apply pow2_pos, Hv. }
  split_and!.
  - intros q lq Hq%(bi_live _ _ _ _ Hi). right. unfold ends. simpl. lia.
  - destruct (live !! start) as [k|] eqn:E; [|done].
    apply (bi_live _ _ _ _ Hi) in E. lia.
  - assert (Hno : live !! start = None).
    { destruct (live !! start) as [k|] eqn:E; [|done].
      apply (bi_live _ _ _ _ Hi) in E. lia. }
    destruct Hi as [? ? ? Hcnt ? Hlive]. split; cbn; try lia.
    + rewrite map_size_insert_None by done. lia.
    + intros p k [[<- <-]|[_ Hk]]%lookup_insert_Some; [lia|].
      apply Hlive in Hk. lia.
Qed.

Lemma dealloc_inv lo hi b p l live :
  heap_ok lo hi -> bump_inv lo hi b live -> live !! p = Some l ->
  0 < allocations b < 2 ^ 64 /\
  bump_inv lo hi (if bool_decide (allocations b = 1)
                  then set_next (heap_start b) (set_allocations 0 b)
                  else set_allocations (allocations b - 1) b) (delete p live).
Proof.
  unfold heap_ok. intros Hh Hi Hp. destruct Hi as [Hst ? ? Hcnt ? Hlive].
  pose proof (map_size_delete_Some (M := gmap Z) p live (mk_is_Some _ _ Hp)) as Hsz.
  assert (Hne : base.size live <> 0%nat).
  { intros E%map_size_empty_inv. subst live. by rewrite lookup_empty in Hp. }
  split; [lia|]. case_bool_decide; split; cbn; rewrite ?Hst; try lia.
  - intros q k Hq. exfalso. assert (base.size (delete p live) = 0%nat) as Hz by lia.
    apply map_size_empty_inv in Hz. rewrite Hz in Hq. by rewrite lookup_empty in Hq.
  - intros q k [_ Hq]%lookup_delete_Some. by apply Hlive.
Qed.

Lemma bump_contract lo hi :
  heap_ok lo hi -> alloc_contract (alloc (H := BumpAllocator)) dealloc (inv lo hi).
Proof.
  intros Hh. split.
  - intros [h b] m live l [Hf Hi] Hl. cbn in Hf, Hi. subst h.
    pose proof Hl as ((Hs0 & Hp & Hs1) & Hs2 & _). pose proof (pow2_pos _ Hp) as Hap.
    unfold heap_ok, isize_bound in *.
    destruct (align_ceil_spec (next b) (align l) Hap) as [Hal Hge].
    assert (Hb : lo <= next b <= hi /\ 0 <= allocations b < 2 ^ 64 - 1)
      by (destruct Hi; lia).
    pose proof (alloc_body_eq b m l Hp ltac:(lia) ltac:(lia) ltac:(lia) Hs0) as E.
    cbn zeta in E. cbn [alloc global_alloc].
    case_bool_decide as Hc.
    + eexists _, _, _. split; [by apply with_lock_free|]. split; [done|].
      right. destruct (alloc_inv lo hi b l live Hh Hi Hl) as (? & ? & ?);
        [rewrite <- (bi_end _ _ _ _ Hi); lia|].
      split_and!; [lia|done..].
    + eexists _, _, _. split; [by apply with_lock_free|]. split; [done|]. by left.
  - intros [h b] m live p l [Hf Hi] Hp. cbn in Hf, Hi. subst h.
    destruct (dealloc_inv lo hi b p l live Hh Hi Hp) as [Hc Hi'].
    eexists _, _. split; [apply with_lock_free, dealloc_body_eq; done|].
    split; [done|]. by split.
  - intros x m m' live Hi _. exact Hi.
Qed.
(** Allocation, branch by branch.  From an unlocked allocator whose bump
    pointer plus the alignment fits a [usize], [alloc] returns the next
    aligned address and advances the pointer and the counter when the block
    ends inside the heap, and returns null and changes nothing when the end
    of the block overflows or lies beyond the heap. *)
Theorem bump_alloc_spec b m l
    (Hv : valid_layout l) (Hn : 0 <= next b /\ next b + align l < 2 ^ 64)
    (Hc : 0 <= allocations b < 2 ^ 64 - 1) :
  let start := align_ceil (next b) (align l) in
  alloc l (Locked_new b, m) =
    if bool_decide (start + size l < 2 ^ 64 /\ start + size l <= heap_end b) then
      (Done start, (Locked_new (set_allocations (allocations b + 1)
                                  (set_next (start + size l) b)), m))
    else (Done 0, (Locked_new b, m)).
Proof.
  destruct Hv as (Hs & Hp & _). destruct Hn as [Hn0 Hn1]. cbn zeta.
  pose proof (alloc_body_eq b m l Hp Hn0 Hn1 Hc Hs) as E. cbn zeta in E.
  cbn [alloc global_alloc].
  case_bool_decide; by apply with_lock_free.
Qed.

(** Freeing.  The last outstanding block resets the bump pointer to the
    start of the heap, any other only decrements the counter, and freeing
    with no block outstanding underflows the counter: with overflow checks
    it panics, without them the counter becomes [usize::MAX]. *)
Theorem bump_dealloc_spec b m p l (Hc : 0 <= allocations b < 2 ^ 64) :
  (dealloc p l (Locked_new b, m)).1 =
    (if bool_decide (allocations b = 0 /\ overflow_checks = true)
     then Panic ArithmeticOverflow else Done tt) /\
  (allocations b = 1 ->
     (dealloc p l (Locked_new b, m)).2
     = (Locked_new (set_next (heap_start b) (set_allocations 0 b)), m)) /\
  (1 < allocations b ->
     (dealloc p l (Locked_new b, m)).2
     = (Locked_new (set_allocations (allocations b - 1) b), m)) /\
  (allocations b = 0 -> overflow_checks = false ->
     (dealloc p l (Locked_new b, m)).2 = (Locked_new (set_allocations (2 ^ 64 - 1) b), m)).
Proof.
  cbn [dealloc global_alloc].
  destruct (decide (allocations b = 0)) as [Hz|Hz].
  - assert (E : usub 64 0 1 = if overflow_checks then Panic ArithmeticOverflow
                               else Done (2 ^ 64 - 1)) by done.
    unfold dealloc_body, with_lock, lock, mbind, M_bind, lift, gets, modify. cbn.
    rewrite Hz, E. destruct overflow_checks; cbn; split_and!; try lia; try done.
  - pose proof (dealloc_body_eq b m p l ltac:(lia)) as E.
    rewrite (with_lock_free _ _ _ _ _ _ E). cbn.
    rewrite bool_decide_false by lia.
    split_and!; [done| | |lia].
    + intros ?. by rewrite bool_decide_true.
    + intros ?. by rewrite bool_decide_false by lia.
Qed.

(** C31: over every history of client calls on a freshly initialised bump
    allocator, the blocks handed out are aligned, disjoint and inside the
    heap, and no call panics, hangs or overflows. *)
Theorem bump_history_safe lo sz m (Hh : heap_ok lo (lo + sz)) :
  exists b, init lo sz (new, m) = (Done tt, (b, m)) /\
  forall x m' live, rtc (client_step alloc dealloc) (Locked_new b, m, ∅) (x, m', live) ->
    live_ok live /\
    (forall p l, live !! p = Some l -> within (block p l) (lo, sz)) /\
    (forall l, layout_ok l -> exists p s, alloc l (x, m') = (Done p, s)) /\
    (forall p l, live !! p = Some l -> exists s, dealloc p l (x, m') = (Done tt, s)).
Proof.
  destruct (bump_init_inv new m lo sz eq_refl Hh) as (b & E & Hi). exists b. split; [done|].
  intros x m' live Hr.
  destruct (client_history alloc dealloc _ (bump_contract _ _ Hh) (Locked_new b) m _ _ _
              (conj eq_refl Hi) Hr) as (Hlo & [_ Hinv] & Hp).
  split; [done|]. split; [|done].
  intros p l Hl%(bi_live _ _ _ _ Hinv). destruct Hinv. unfold within, ends. simpl. lia.
Qed.
End bump.

(** ** Witnesses: the heap of the kernels *)
Definition heap0 : BumpAllocator :=
  {| heap_start := HEAP_START; heap_end := HEAP_START + HEAP_SIZE;
     next := HEAP_START + 5; allocations := 1 |}.

Lemma bump_alloc_spec_witness :
  alloc (GlobalAlloc := global_alloc (H := true)) {| size := 24; align := 16 |} (Locked_new heap0, ∅)
  = (Done (HEAP_START + 16), (Locked_new (set_allocations 2 (set_next (HEAP_START + 40) heap0)), ∅)).
Proof.
  refine (bump_alloc_spec (H := true) heap0 ∅ {| size := 24; align := 16 |} _ _ _).
  - apply (bool_decide_unpack _). vm_compute. exact I.
  - split; cbv; congruence.
  - split; cbv; congruence.
Defined.

Lemma bump_dealloc_spec_witness :
  (dealloc (GlobalAlloc := global_alloc (H := true)) 0 {| size := 1; align := 1 |} (Locked_new new, ∅)).1
  = Panic ArithmeticOverflow.
Proof.
  refine (proj1 (bump_dealloc_spec (H := true) new ∅ 0 {| size := 1; align := 1 |} _)).
  split; cbv; congruence.
Defined.

Lemma bump_history_safe_witness :
  exists b, init HEAP_START HEAP_SIZE (new, ∅) = (Done tt, (b, ∅)) /\
    next b = HEAP_START.
Proof.
  destruct (bump_history_safe (H := true) HEAP_START HEAP_SIZE ∅) as (b & E & _).
  - split; [split|]; cbv; congruence.
  - exists b. split; [exact E|]. injection E as <-. reflexivity.
Defined.
End Bump.
