(* ===== verification/LinkedList.v ===== *)
(** * The linked-list allocator (src/something_os/src/allocator/linked_list.rs)

    Free regions form a singly linked list whose nodes are stored in the free
    memory itself: the model keeps them in the word store, so that the
    interaction of the list with the clients' writes is part of what is proved.
    The list is tied to a mathematical list of regions by [chain]. *)

From S2P Require Import Prelude Store Allocator.

(** [Option<&'static mut ListNode>] is one word, null for [None]; a node is two
    words, its [size] and its [next]. *)
Record LinkedListAllocator := { head_size : Z; head_next : Z }.

(** [mem::size_of::<ListNode>()] and [mem::align_of::<ListNode>()]. *)
Definition node_size : Z := 16.
Definition node_align : Z := 8.

(** A [&mut ListNode]: the dummy head inside the allocator, or a node in memory. *)
Inductive node_ref := Head | Node (addr : Z).

Module LinkedList.
Section linked_list.
Context `{BuildProfile}.

Definition in_mem {A} (c : M mem A) : M (LinkedListAllocator * mem) A :=
  zoom snd (fun m s => (s.1, m)) c.

Definition get_next (r : node_ref) : M (LinkedListAllocator * mem) Z :=
  match r with
  | Head => gets (fun s => head_next s.1)
  | Node a => in_mem (read_word (a + 8))
  end.

Definition set_next (r : node_ref) (v : Z) : M (LinkedListAllocator * mem) unit :=
  match r with
  | Head => modify (fun s => ({| head_size := head_size s.1; head_next := v |}, s.2))
  | Node a => in_mem (write_word (a + 8) v)
  end.

(** [Option::take] on a [next] field. *)
Definition take_next (r : node_ref) : M (LinkedListAllocator * mem) Z :=
  v ← get_next r;
  _ ← set_next r 0;
  mret v.

Definition node_size_of (a : Z) : M (LinkedListAllocator * mem) Z := in_mem (read_word a).

Definition start_addr (a : Z) : Z := a.
Definition end_addr (a size : Z) : outcome Z := uadd 64 (start_addr a) size.

Definition new : LinkedListAllocator := {| head_size := 0; head_next := 0 |}.

Definition add_free_region (addr size : Z) : M (LinkedListAllocator * mem) unit :=
  up ← lift (align_up addr node_align);
  _ ← lift (assert_ (up =? addr));
  _ ← lift (assert_ (node_size <=? size));
  next ← take_next Head;
  _ ← in_mem (write_word addr size);
  _ ← in_mem (write_word (addr + 8) next);
  set_next Head addr.

Definition init (heap_start heap_size : Z) : M (LinkedListAllocator * mem) unit :=
  add_free_region heap_start heap_size.

(** [None] stands for [Err(())]. *)
Definition alloc_from_region (addr rsize size align : Z) : outcome (option Z) :=
  alloc_start ← align_up (start_addr addr) align;
  match checked_add 64 alloc_start size with
  | None => mret None
  | Some alloc_end =>
      region_end ← end_addr addr rsize;
      if bool_decide (alloc_end > region_end) then mret None
      else
        region_end ← end_addr addr rsize;
        excess_size ← usub 64 region_end alloc_end;
        if bool_decide (excess_size > 0) && bool_decide (excess_size < node_size)
        then mret None
        else mret (Some alloc_start)
  end.

(** The [while let] loop, [current] being the node before the region looked
    at; the result is the region's node and the start of the allocation. *)
Fixpoint find_region_loop (fuel : nat) (current : node_ref) (size align : Z)
    : M (LinkedListAllocator * mem) (option (Z * Z)) :=
  match fuel with
  | O => fail NoFuel
  | S fuel =>
      region ← get_next current;
      if region =? 0 then mret None
      else
        rsize ← node_size_of region;
        fit ← lift (alloc_from_region region rsize size align);
        match fit with
        | Some alloc_start =>
            next ← take_next (Node region);
            r ← take_next current;
            _ ← lift (unwrap (if r =? 0 then None else Some r));
            _ ← set_next current next;
            mret (Some (r, alloc_start))
        | None => find_region_loop fuel (Node region) size align
        end
  end.

(** Every node occupies a word of its own, so there are at most as many
    nodes as written words: that much fuel is enough. *)
Definition find_region (size align : Z) : M (LinkedListAllocator * mem) (option (Z * Z)) :=
  fun s => find_region_loop (S (base.size s.2)) Head size align s.

Definition size_align (l : Layout) : outcome (Z * Z) :=
  l ← unwrap (align_to l node_align);
  let l := pad_to_align l in
  mret (Z.max (size l) node_size, align l).

Definition alloc_body (l : Layout) : M (LinkedListAllocator * mem) Z :=
  '(size, align) ← lift (size_align l);
  found ← find_region size align;
  match found with
  | Some (region, alloc_start) =>
      alloc_end ← lift (unwrap (checked_add 64 alloc_start size));
      rsize ← node_size_of region;
      region_end ← lift (end_addr region rsize);
      excess_size ← lift (usub 64 region_end alloc_end);
      _ ← when (bool_decide (excess_size > 0)) (add_free_region alloc_end excess_size);
      mret alloc_start
  | None => mret 0
  end.

Definition dealloc_body (ptr : Z) (l : Layout) : M (LinkedListAllocator * mem) unit :=
  '(size, _) ← lift (size_align l);
  add_free_region ptr size.

#[export] Instance global_alloc : GlobalAlloc LinkedListAllocator := {
  alloc l := with_lock (alloc_body l);
  dealloc p l := with_lock (dealloc_body p l);
}.

(** ** The list in memory *)

(** [chain m p rs]: from the pointer [p], memory holds the nodes of the
    regions [rs], in order. *)
Fixpoint chain (m : mem) (p : Z) (rs : list (Z * Z)) : Prop :=
  match rs with
  | [] => p = 0
  | r :: rs =>
      p = r.1 /\ 0 < r.1 /\ r.1 mod 8 = 0 /\ m !! r.1 = Some r.2 /\
      exists q, m !! (r.1 + 8) = Some q /\ chain m q rs
  end.

Lemma chain_frame m m' p rs :
  (forall r, r ∈ rs -> m' !! r.1 = m !! r.1 /\ m' !! (r.1 + 8) = m !! (r.1 + 8)) ->
  chain m p rs -> chain m' p rs.
Proof.
  revert p. induction rs as [|r rs IH]; intros p Hm; [done|].
  intros (? & ? & ? & Hsz & q & Hq & Hc).
  destruct (Hm r) as [E1 E2]; [left|].
  simpl. rewrite E1, E2. split_and!; [done..|]. exists q. split; [done|].
  apply IH; [|done]. intros r' Hr. apply Hm. by right.
Qed.

(** The words of the nodes at the addresses [l] do not overlap. *)
Definition sep (l : list Z) : Prop := pairwise_disj ((fun a => (a, node_size)) <$> l).

Definition node_of (r : node_ref) : list Z :=
  match r with Head => [] | Node a => [a] end.

Definition next_of (s : LinkedListAllocator * mem) (r : node_ref) : option Z :=
  match r with Head => Some (head_next s.1) | Node a => s.2 !! (a + 8) end.

Definition ref_ok (r : node_ref) : Prop :=
  match r with Head => True | Node a => 0 < a /\ a mod 8 = 0 end.

Lemma get_next_ok r v s :
  ref_ok r -> next_of s r = Some v -> get_next r s = (Done v, s).
Proof.
  destruct r as [|a], s as [al m]; simpl.
  - by intros _ [= <-].
  - intros [? ?] Hv. unfold in_mem, zoom. simpl. rewrite (read_word_ok (a + 8) v); [done|lia| |done].
    rewrite <- Z.add_mod_idemp_l, H1 by done. done.
Qed.

Definition put_next (r : node_ref) (v : Z) (s : LinkedListAllocator * mem) :=
  match r with
  | Head => ({| head_size := head_size s.1; head_next := v |}, s.2)
  | Node a => (s.1, <[a + 8 := v]> s.2)
  end.

Lemma set_next_ok r v s : ref_ok r -> set_next r v s = (Done tt, put_next r v s).
Proof.
  destruct r as [|a], s as [al m]; simpl; [done|].
  intros [? Ha]. unfold in_mem, zoom. simpl. rewrite write_word_ok; [done|lia|].
  rewrite <- Z.add_mod_idemp_l, Ha by done. done.
Qed.

Lemma take_next_ok r v s :
  ref_ok r -> next_of s r = Some v -> take_next r s = (Done v, put_next r 0 s).
Proof.
  intros Hr Hv. unfold take_next.
  rewrite (bind_done _ _ _ _ _ (get_next_ok r v s Hr Hv)).
  by rewrite (bind_done _ _ _ _ _ (set_next_ok r 0 s Hr)).
Qed.

(** ** First fit, on the mathematical list *)
Definition fits (r : Z * Z) (size align : Z) : option Z :=
  let start := align_ceil r.1 align in
  let excess := ends r - (start + size) in
  if bool_decide (excess = 0 \/ node_size <= excess) then Some start else None.

Fixpoint first_fit (rs : list (Z * Z)) (size align : Z)
    : option (list (Z * Z) * (Z * Z) * Z * list (Z * Z)) :=
  match rs with
  | [] => None
  | r :: rs =>
      match fits r size align with
      | Some start => Some ([], r, start, rs)
      | None =>
          match first_fit rs size align with
          | Some (pre, r', start, post) => Some (r :: pre, r', start, post)
          | None => None
          end
      end
  end.

Lemma first_fit_Some rs size align pre r start post :
  first_fit rs size align = Some (pre, r, start, post) ->
  rs = pre ++ r :: post /\ fits r size align = Some start /\
  Forall (fun r => fits r size align = None) pre.
Proof.
  revert pre. induction rs as [|r0 rs IH]; intros pre; simpl; [done|].
  destruct (fits r0 size align) eqn:E.
  - intros [= <- <- <- <-]. by rewrite E.
  - destruct (first_fit rs size align) as [[[[pre' r'] st] post']|]; [|done].
    intros [= <- <- <- <-]. destruct (IH pre' eq_refl) as (-> & ? & ?).
    split_and!; [done..|]. by constructor.
Qed.

Lemma first_fit_None rs size align :
  first_fit rs size align = None <-> Forall (fun r => fits r size align = None) rs.
Proof.
  induction rs as [|r rs IH]; simpl; [split; by constructor|].
  rewrite Forall_cons. destruct (fits r size align) eqn:E; [split; [done|by intros [? _]]|].
  destruct (first_fit rs size align) as [[[[? ?] ?] ?]|]; [|by rewrite <- IH].
  split; [done|]. intros [_ ?%IH]. done.
Qed.

Lemma alloc_from_region_ok r size align :
  pow2 align -> 0 < r.1 -> 0 <= r.2 -> ends r <= 2 ^ 63 -> 0 < size -> size + align <= 2 ^ 63 ->
  alloc_from_region r.1 r.2 size align = Done (fits r size align).
Proof.
  unfold ends. intros Hp ? ? ? ? ?. pose proof (pow2_pos _ Hp) as Hal.
  destruct (align_ceil_spec r.1 align Hal) as [_ Hge].
  unfold alloc_from_region, start_addr, fits, node_size, ends. rewrite align_up_ok by (done || lia).
  simpl. rewrite checked_add_ok by lia. unfold end_addr, start_addr.
  rewrite uadd_ok by lia. simpl. case_bool_decide.
  { rewrite bool_decide_false by (lia). done. }
  rewrite usub_ok by lia. simpl.
  destruct (decide (r.1 + r.2 - (align_ceil r.1 align + size) = 0 \/
                    16 <= r.1 + r.2 - (align_ceil r.1 align + size))) as [Hd|Hd].
  - rewrite (bool_decide_true _ Hd).
    case_bool_decide; [|done]. rewrite bool_decide_false by lia. done.
  - rewrite (bool_decide_false _ Hd). by rewrite !bool_decide_true by lia.
Qed.

(** ** The loop finds the first fit and unlinks it *)
Lemma sep_cons_inv a l b :
  sep (a :: l) -> b ∈ l -> a <> b + 8 /\ b <> a + 8 /\ a + 8 <> b + 8.
Proof.
  intros [Hf _] Hb. rewrite Forall_fmap, Forall_forall in Hf.
  specialize (Hf b Hb). unfold disj, ends, node_size in Hf. simpl in Hf. lia.
Qed.

Lemma sep_app_r l k : sep (l ++ k) -> sep k.
Proof.
  unfold sep. rewrite fmap_app. induction l as [|a l IH]; [done|]. intros [_ ?]. by apply IH.
Qed.

Lemma next_of_put r v s : next_of (put_next r v s) r = Some v.
Proof. destruct r; simpl; [done|]. apply lookup_insert_eq. Qed.

Lemma put_next_mem r v s w :
  (forall a, a ∈ node_of r -> w <> a + 8) -> (put_next r v s).2 !! w = s.2 !! w.
Proof.
  destruct r as [|a]; simpl; [done|]. intros Hw. apply lookup_insert_ne.
  intros <-. by apply (Hw a); [left|].
Qed.

Lemma put_next_head r v s :
  head_size (put_next r v s).1 = head_size s.1 /\
  match r with Head => True | Node _ => (put_next r v s).1 = s.1 end.
Proof. by destruct r. Qed.

(** The effect of unlinking the region after [cur]. *)
Definition unlink (cur : node_ref) (a q : Z) (s : LinkedListAllocator * mem) :=
  put_next cur q (put_next cur 0 (put_next (Node a) 0 s)).

Lemma unlink_mem cur a q s w :
  w <> a + 8 -> (forall b, b ∈ node_of cur -> w <> b + 8) ->
  (unlink cur a q s).2 !! w = s.2 !! w.
Proof.
  intros Ha Hc. unfold unlink. rewrite !put_next_mem; [done| |done|done].
  by intros b ->%list_elem_of_singleton.
Qed.

Lemma next_of_put_ne cur a v s :
  (forall b, b ∈ node_of cur -> b + 8 <> a + 8) ->
  next_of (put_next (Node a) v s) cur = next_of s cur.
Proof.
  destruct cur as [|c]; simpl; [done|]. intros Hc. apply lookup_insert_ne.
  intros E. by apply (Hc c); [left|].
Qed.

Lemma node_read_ok a v s :
  0 < a -> a mod 8 = 0 -> s.2 !! a = Some v -> node_size_of a s = (Done v, s).
Proof.
  destruct s as [al m]. intros. unfold node_size_of, in_mem, zoom. simpl.
  by rewrite (read_word_ok a v).
Qed.

Lemma unlink_ok cur a q s (start : Z) :
  ref_ok cur -> 0 < a -> a mod 8 = 0 -> next_of s cur = Some a ->
  s.2 !! (a + 8) = Some q -> (forall b, b ∈ node_of cur -> b + 8 <> a + 8) ->
  (next ← take_next (Node a);
   r ← take_next cur;
   _ ← lift (unwrap (if r =? 0 then None else Some r));
   _ ← set_next cur next;
   mret (Some (r, start))) s = (Done (Some (a, start)), unlink cur a q s).
Proof.
  intros Hc Ha Ha8 Hn Hq Hne.
  rewrite (bind_done _ _ _ _ _ (take_next_ok (Node a) q s (conj Ha Ha8) Hq)).
  assert (Hn1 : next_of (put_next (Node a) 0 s) cur = Some a)
    by (by rewrite next_of_put_ne).
  rewrite (bind_done _ _ _ _ _ (take_next_ok cur a _ Hc Hn1)).
  rewrite (proj2 (Z.eqb_neq a 0)) by lia. cbn [unwrap].
  rewrite lift_done.
  by rewrite (bind_done _ _ _ _ _ (set_next_ok cur q _ Hc)).
Qed.

Definition region_bounded (r : Z * Z) : Prop := 0 <= r.2 /\ ends r <= 2 ^ 63.

(** What [find_region_loop] leaves behind, from the node [cur] on. *)
Definition found_spec (cur : node_ref) (rs rest : list (Z * Z))
    (s s' : LinkedListAllocator * mem) : Prop :=
  (exists p', next_of s' cur = Some p' /\ chain s'.2 p' rest) /\
  head_size s'.1 = head_size s.1 /\
  match cur with Head => True | Node _ => s'.1 = s.1 end /\
  (forall w, (forall a, a ∈ node_of cur ++ rs.*1 -> w <> a + 8) -> s'.2 !! w = s.2 !! w).

Lemma unlink_found cur r post q s :
  sep (node_of cur ++ r.1 :: post.*1) -> chain s.2 q post ->
  found_spec cur (r :: post) post s (unlink cur r.1 q s).
Proof.
  intros Hs Hch. split; [|split; [|split]].
  - exists q. split; [apply next_of_put|].
    apply (chain_frame s.2); [|done]. intros r' Hr'.
    assert (Hin : r'.1 ∈ post.*1) by by apply list_elem_of_fmap_2.
    pose proof (sep_cons_inv r.1 (post.*1) r'.1 (sep_app_r _ _ Hs) Hin).
    destruct cur as [|c]; simpl in Hs.
    + split; apply unlink_mem; [lia|by intros b ?%elem_of_nil|lia|by intros b ?%elem_of_nil].
    + pose proof (sep_cons_inv c (r.1 :: post.*1) r'.1 Hs ltac:(by right)).
      split; apply unlink_mem; try lia; intros b ->%list_elem_of_singleton; lia.
  - by destruct cur.
  - by destruct cur.
  - intros w Hw. apply unlink_mem.
    + apply Hw. apply elem_of_app. right. left.
    + intros b Hb. apply Hw. apply elem_of_app. by left.
Qed.

Lemma found_step cur r rs rest s s' :
  sep (node_of cur ++ r.1 :: rs.*1) -> ref_ok cur ->
  0 < r.1 -> r.1 mod 8 = 0 -> s.2 !! r.1 = Some r.2 -> next_of s cur = Some r.1 ->
  found_spec (Node r.1) rs rest s s' ->
  found_spec cur (r :: rs) (r :: rest) s s'.
Proof.
  intros Hs Hc Hr0 Hr8 Hsz Hn ((p' & Hp' & Hch) & Hhs & Hh & Hfr). simpl in Hp'.
  assert (Hkeep : s'.2 !! r.1 = Some r.2).
  { rewrite <- Hsz. apply Hfr. intros a [->%list_elem_of_singleton|Ha]%elem_of_app; [lia|].
    pose proof (sep_cons_inv r.1 _ a (sep_app_r _ _ Hs) Ha). lia. }
  split; [|split; [|split]].
  - exists r.1. split.
    + destruct cur as [|c]; simpl in *; [by rewrite Hh|]. rewrite <- Hn. apply Hfr.
      intros a Ha. pose proof (sep_cons_inv c _ a Hs Ha). lia.
    + simpl. split_and!; [done..|]. by exists p'.
  - done.
  - destruct cur; [done|]. done.
  - intros w Hw. apply Hfr. intros a Ha. apply Hw. apply elem_of_app. by right.
Qed.

Lemma find_region_loop_ok fuel cur size align rs s p :
  pow2 align -> 0 < size -> size + align <= 2 ^ 63 ->
  (length rs < fuel)%nat -> ref_ok cur -> next_of s cur = Some p -> chain s.2 p rs ->
  Forall region_bounded rs -> sep (node_of cur ++ rs.*1) ->
  match first_fit rs size align with
  | None => find_region_loop fuel cur size align s = (Done None, s)
  | Some (pre, r, start, post) =>
      exists s', find_region_loop fuel cur size align s = (Done (Some (r.1, start)), s') /\
        found_spec cur rs (pre ++ post) s s'
  end.
Proof.
  intros Hp Hs0 Hs1. revert cur p rs.
  induction fuel as [|fuel IH]; intros cur p rs Hf Hc Hn Hch Hb Hsep; [lia|].
  cbn [find_region_loop]. rewrite (bind_done _ _ _ _ _ (get_next_ok cur p s Hc Hn)).
  destruct rs as [|r rs].
  { simpl in Hch. subst p. done. }
  destruct Hch as (-> & Hr0 & Hr8 & Hsz & q & Hq & Hch).
  rewrite (proj2 (Z.eqb_neq r.1 0)) by lia.
  rewrite (bind_done _ _ _ _ _ (node_read_ok r.1 r.2 s Hr0 Hr8 Hsz)).
  apply Forall_cons in Hb as [[Hb1 Hb2] Hb].
  rewrite (lift_bind _ _ _ _ (alloc_from_region_ok r size align Hp Hr0 Hb1 Hb2 Hs0 Hs1)).
  cbn [first_fit]. destruct (fits r size align) as [start|].
  - exists (unlink cur r.1 q s). split; [|by apply unlink_found].
    apply unlink_ok; [done..|]. intros b Hbin.
    destruct cur as [|c]; [by apply elem_of_nil in Hbin|].
    apply list_elem_of_singleton in Hbin as ->.
    pose proof (sep_cons_inv c (r.1 :: rs.*1) r.1 Hsep ltac:(left)). lia.
  - assert (Hrec := IH (Node r.1) q rs ltac:(simpl in Hf; lia) (conj Hr0 Hr8) Hq Hch Hb
                      (sep_app_r (node_of cur) _ Hsep)).
    destruct (first_fit rs size align) as [[[[pre r'] start] post]|]; [|done].
    destruct Hrec as (s' & E & Hspec). exists s'. split; [done|].
    by apply (found_step cur r rs (pre ++ post)).
Qed.

(** ** [size_align] and [add_free_region] *)
Definition ralign (l : Layout) : Z := Z.max (align l) node_align.
Definition rsize (l : Layout) : Z := Z.max (align_ceil (size l) (ralign l)) node_size.

Lemma ralign_pow2 l : pow2 (align l) -> pow2 (ralign l) /\ (align l | ralign l) /\ (8 | ralign l).
Proof.
  intros Hp. assert (H8 : pow2 8) by (exists 3; lia). unfold ralign, node_align.
  destruct (Z.max_spec (align l) 8) as [[? ->]|[? ->]].
  - split_and!; [done| |done]. apply pow2_divide; [done..|lia].
  - split_and!; [done..|]. apply pow2_divide; [done..|lia].
Qed.

Lemma size_align_ok l : layout_ok l -> size_align l = Done (rsize l, ralign l).
Proof.
  intros ((? & Hp & ?) & ? & ?). unfold isize_bound in *.
  destruct (ralign_pow2 l Hp) as [Hpr _]. unfold size_align, align_to.
  rewrite from_size_align_ok; [done|done|unfold isize_bound, node_align; lia].
Qed.

Lemma rsize_spec l :
  layout_ok l ->
  size l <= rsize l /\ node_size <= rsize l /\ (8 | rsize l) /\ rsize l + ralign l <= 2 ^ 63.
Proof.
  intros ((? & Hp & ?) & ? & ?). unfold isize_bound in *.
  destruct (ralign_pow2 l Hp) as (Hpr & _ & H8). pose proof (pow2_pos _ Hpr) as Hpos.
  destruct (align_ceil_spec (size l) (ralign l) Hpos) as [Hd [Hlo Hhi]].
  unfold rsize, node_size. split_and!; [lia|lia| |].
  - destruct (Z.max_spec (align_ceil (size l) (ralign l)) 16) as [[? ->]|[? ->]].
    + by exists 2.
    + by transitivity (ralign l).
  - (* the padded size is a multiple of the alignment below 2^63 *)
    assert (size l + ralign l <= 2 ^ 63) by (unfold ralign, node_align; lia).
    assert (Hm : (ralign l | 2 ^ 63)).
    { apply pow2_divide; [done|by exists 63|lia]. }
    assert (align_ceil (size l) (ralign l) <= 2 ^ 63 - ralign l).
    { apply align_ceil_least; [done| |lia]. by apply Z.divide_sub_r. }
    destruct (decide (ralign l <= 2 ^ 62)); [lia|].
    destruct Hpr as (k & Hk & Ek). rewrite Ek in *.
    assert (62 < k) by (apply (Z.pow_lt_mono_r_iff 2); lia).
    assert (2 ^ 63 <= 2 ^ k) by (apply Z.pow_le_mono_r; lia). lia.
Qed.

Definition push_region (addr size : Z) (s : LinkedListAllocator * mem) :=
  ({| head_size := head_size s.1; head_next := addr |},
   <[addr + 8 := head_next s.1]> (<[addr := size]> s.2)).

Lemma add_free_region_ok addr size s :
  0 < addr -> (8 | addr) -> addr + 8 < 2 ^ 64 -> node_size <= size ->
  add_free_region addr size s = (Done tt, push_region addr size s).
Proof.
  intros H0 H8 Hb Hs. unfold add_free_region, node_align.
  assert (E : align_up addr 8 = Done addr).
  { apply align_up_fixpoint; [by exists 3|lia|lia|done]. }
  rewrite (lift_bind _ _ _ _ E). unfold assert_. rewrite Z.eqb_refl, lift_done.
  rewrite (proj2 (Z.leb_le node_size size)) by lia. rewrite lift_done.
  rewrite (bind_done _ _ _ _ _ (take_next_ok Head (head_next s.1) s I eq_refl)).
  destruct s as [al m]. unfold in_mem, zoom. cbn.
  apply Z.mod_divide in H8; [|done].
  unfold mbind, M_bind. cbn. rewrite (write_word_ok addr) by done. cbn.
  rewrite (write_word_ok (addr + 8)); [done|lia|].
  rewrite <- Z.add_mod_idemp_l, H8 by done. done.
Qed.

(** ** The invariant *)
Definition region_ok (lo hi : Z) (r : Z * Z) : Prop :=
  lo <= r.1 /\ ends r <= hi /\ (8 | r.1) /\ (8 | r.2) /\ node_size <= r.2.

(** The memory a live block really takes: its padded size. *)
Definition rblock (p : Z) (l : Layout) : Z * Z := (p, rsize l).
Definition rblocks (live : gmap Z Layout) : list (Z * Z) :=
  (fun pl => rblock pl.1 pl.2) <$> map_to_list live.

Record heap_inv (lo hi : Z) (s : LinkedListAllocator * mem) (rs : list (Z * Z))
    (live : gmap Z Layout) : Prop := {
  hi_chain : chain s.2 (head_next s.1) rs;
  hi_regions : Forall (region_ok lo hi) rs;
  hi_disj : pairwise_disj (rs ++ rblocks live);
  hi_live : forall p l, live !! p = Some l -> layout_ok l /\ region_ok lo hi (rblock p l);
}.

(** The heap lies in the lower half of the address space. *)
Definition heap_ok (lo hi : Z) : Prop := 0 < lo /\ hi <= 2 ^ 63.

Definition inv (lo hi : Z) (x : Locked LinkedListAllocator) (m : mem) (live : gmap Z Layout)
    : Prop :=
  held x = false /\ exists rs, heap_inv lo hi (inner x, m) rs live.


Lemma region_ok_node lo hi r : region_ok lo hi r -> within (r.1, node_size) r.
Proof. unfold region_ok, within, ends. simpl. lia. Qed.

Lemma sep_regions lo hi rs : Forall (region_ok lo hi) rs -> pairwise_disj rs -> sep rs.*1.
Proof.
  unfold sep. induction 1 as [|r rs Hr Hrs IH]; [done|]. intros [Hf Hd].
  split; [|by apply IH]. rewrite !Forall_fmap. apply Forall_forall. intros r' Hr'.
  rewrite Forall_forall in Hf, Hrs. simpl.
  eapply disj_within; [by eapply region_ok_node|].
  eapply disj_within_r; [by eapply region_ok_node, Hrs|]. by apply Hf.
Qed.

Lemma pairwise_disj_app l k :
  pairwise_disj (l ++ k) <->
  pairwise_disj l /\ pairwise_disj k /\ forall i j, i ∈ l -> j ∈ k -> disj i j.
Proof.
  induction l as [|i l IH]; simpl.
  - split; [intros ?; split_and!; [done..|by intros ? ? ?%elem_of_nil]|by intros (_ & ? & _)].
  - rewrite Forall_app, IH, !Forall_forall. split.
    + intros [[H1 H2] (H3 & H4 & H5)]. split_and!; [done..|].
      intros i' j [->|?]%elem_of_cons ?; auto.
    + intros ([H1 H2] & H3 & H4). split_and!; try done.
      * intros j ?. apply H4; [by left|done].
      * intros i' j ??. apply H4; [by right|done].
Qed.

Lemma rblocks_elem live i :
  i ∈ rblocks live <-> exists p l, live !! p = Some l /\ i = rblock p l.
Proof.
  unfold rblocks. rewrite list_elem_of_fmap. split.
  - intros ([p l] & -> & Hp%elem_of_map_to_list). eauto.
  - intros (p & l & Hp & ->). exists (p, l). by rewrite elem_of_map_to_list.
Qed.

Lemma rblocks_insert live p l :
  live !! p = None -> rblocks (<[p := l]> live) ≡ₚ rblock p l :: rblocks live.
Proof. intros ?. unfold rblocks. by rewrite map_to_list_insert. Qed.

Lemma rblocks_delete live p l :
  live !! p = Some l -> rblocks live ≡ₚ rblock p l :: rblocks (delete p live).
Proof. intros Hp. unfold rblocks. by rewrite <- (map_to_list_delete _ _ _ Hp). Qed.

Lemma rblock_covers p l : layout_ok l -> within (block p l) (rblock p l).
Proof. intros ?%rsize_spec. unfold within, ends, block, rblock. simpl. lia. Qed.

Lemma untouched lo hi s rs live r w :
  heap_inv lo hi s rs live -> r ∈ rs -> r.1 <= w -> w + 8 <= ends r -> ~ touches_live live w.
Proof.
  intros [_ _ Hd Hl] Hr Hw1 Hw2 (p & l & Hp & Ht).
  apply pairwise_disj_app in Hd as (_ & _ & Hd).
  assert (Hdj : disj r (rblock p l)) by (apply Hd; [done|]; apply rblocks_elem; eauto).
  destruct (Hl p l Hp) as [Hlo _]. pose proof (rblock_covers p l Hlo).
  unfold touches, disj, within, ends in *. simpl in *. lia.
Qed.

Lemma untouched_node lo hi s rs live r w :
  heap_inv lo hi s rs live -> r ∈ rs -> w = r.1 \/ w = r.1 + 8 -> ~ touches_live live w.
Proof.
  intros Hi Hr Hw. eapply untouched; [done..| |];
    pose proof (hi_regions _ _ _ _ _ Hi) as Hf; rewrite Forall_forall in Hf;
    specialize (Hf r Hr); unfold region_ok, node_size, ends in *; lia.
Qed.

Lemma heap_inv_frame lo hi al m m' rs live :
  heap_inv lo hi (al, m) rs live -> (forall w, ~ touches_live live w -> m' !! w = m !! w) ->
  heap_inv lo hi (al, m') rs live.
Proof.
  intros Hi Hm. pose proof Hi as [Hc Hr Hd Hl]. split; [|done..].
  apply (chain_frame m); [|done]. intros r Hin.
  split; apply Hm; eapply untouched_node; eauto.
Qed.

(** The free list lies in the heap. *)
Lemma inv_local lo hi x m m' live :
  (forall a, lo <= a < hi -> m' !! a = m !! a) -> inv lo hi x m live -> inv lo hi x m' live.
Proof.
  intros Hm [Hx (rs & [Hc Hr Hd Hl])]. split; [done|]. exists rs. split; [|done..].
  apply (chain_frame m); [|done]. intros r Hin.
  rewrite Forall_forall in Hr. specialize (Hr r Hin).
  split; apply Hm; unfold region_ok, node_size, ends in *; lia.
Qed.

Lemma chain_length m p rs : chain m p rs -> sep rs.*1 -> (length rs <= base.size m)%nat.
Proof.
  intros Hc Hs. assert (Hnd : NoDup rs.*1).
  { clear Hc. induction rs as [|r rs IH]; simpl; [constructor|].
    constructor; [|by apply IH, (sep_app_r [r.1])].
    intros Hin. pose proof Hs as [Hf _]. rewrite Forall_fmap, Forall_forall in Hf.
    specialize (Hf r.1 Hin). unfold disj, ends, node_size in Hf. simpl in Hf. lia. }
  assert (Hsub : forall r, r ∈ rs -> is_Some (m !! r.1)).
  { clear Hs Hnd. revert p Hc. induction rs as [|r0 rs IH]; intros p Hc r Hr;
      [by apply elem_of_nil in Hr|].
    destruct Hc as (_ & _ & _ & E & q & _ & Hc).
    apply elem_of_cons in Hr as [->|Hr]; [by rewrite E|by eapply IH]. }
  rewrite <- (length_fmap fst rs), <- (size_list_to_set (C := gset Z)) by done.
  rewrite <- size_dom. apply subseteq_size. intros a.
  rewrite elem_of_list_to_set, list_elem_of_fmap. intros (r & -> & Hr).
  apply elem_of_dom. by apply Hsub.
Qed.

(** ** Allocation *)
Lemma fits_geometry lo hi r l start :
  region_ok lo hi r -> layout_ok l -> fits r (rsize l) (ralign l) = Some start ->
  within (rblock start l) r /\ (align l | start) /\ (8 | start) /\
  (ends r - ends (rblock start l) = 0 \/
   node_size <= ends r - ends (rblock start l) /\ (8 | ends r - ends (rblock start l))).
Proof.
  intros (? & ? & Hr8 & Hrs & ?) Hl. pose proof Hl as ((? & Hp & ?) & ? & ?).
  destruct (ralign_pow2 l Hp) as (Hpr & Hdiv & H8). pose proof (pow2_pos _ Hpr) as Hpos.
  destruct (align_ceil_spec r.1 (ralign l) Hpos) as [Hd [Hlo Hhi]].
  destruct (rsize_spec l Hl) as (? & ? & ? & ?). unfold node_size in *.
  unfold fits, within, rblock, node_size, ends in *. cbn [fst snd] in *.
  case_bool_decide as Hex; [|done]. intros [= <-].
  assert ((8 | align_ceil r.1 (ralign l))) by (by transitivity (ralign l)).
  split_and!; [lia|lia|by transitivity (ralign l)|done|].
  destruct Hex as [?|?]; [by left|right]. split; [done|].
  repeat (apply Z.divide_sub_r || apply Z.divide_add_r); done.
Qed.

Lemma find_region_inv lo hi s rs live l :
  heap_ok lo hi -> heap_inv lo hi s rs live -> layout_ok l ->
  match first_fit rs (rsize l) (ralign l) with
  | None => find_region (rsize l) (ralign l) s = (Done None, s)
  | Some (pre, r, start, post) =>
      exists s1, find_region (rsize l) (ralign l) s = (Done (Some (r.1, start)), s1) /\
        found_spec Head rs (pre ++ post) s s1
  end.
Proof.
  intros [Hlo Hhi] [Hc Hr Hd _] Hl. pose proof Hl as ((? & Hp & ?) & Hsz & ?).
  destruct (rsize_spec l Hl) as (? & ? & _ & ?).
  apply pairwise_disj_app in Hd as (Hd & _). pose proof (sep_regions _ _ _ Hr Hd) as Hs.
  unfold find_region. eapply find_region_loop_ok;
    [by apply ralign_pow2|unfold node_size in *; lia|done| |done|done|done| |done].
  - apply chain_length in Hc; [lia|done].
  - apply (Forall_impl _ _ _ Hr). unfold region_ok, region_bounded, node_size. lia.
Qed.

Lemma chain_lookup m p rs r :
  chain m p rs -> r ∈ rs -> m !! r.1 = Some r.2 /\ 0 < r.1 /\ r.1 mod 8 = 0.
Proof.
  revert p. induction rs as [|r0 rs IH]; intros p Hc Hin; [by apply elem_of_nil in Hin|].
  destruct Hc as (_ & ? & ? & ? & q & _ & Hc).
  apply elem_of_cons in Hin as [->|Hin]; [done|by eapply IH].
Qed.

Lemma sep_ne l a b : sep l -> a ∈ l -> b ∈ l -> a <> b + 8.
Proof.
  induction l as [|c l IH]; intros Hs Ha Hb; [by apply elem_of_nil in Ha|].
  apply elem_of_cons in Ha as [->|Ha]; apply elem_of_cons in Hb as [->|Hb].
  - lia.
  - pose proof (sep_cons_inv _ _ _ Hs Hb). lia.
  - pose proof (sep_cons_inv _ _ _ Hs Ha). lia.
  - apply IH; [by destruct Hs|done..].
Qed.

Lemma found_size rs rest s s1 p r :
  found_spec Head rs rest s s1 -> chain s.2 p rs -> sep rs.*1 -> r ∈ rs ->
  node_size_of r.1 s1 = (Done r.2, s1).
Proof.
  intros (_ & _ & _ & Hfr) Hc Hs Hin.
  destruct (chain_lookup _ _ _ _ Hc Hin) as (E & ? & ?).
  apply node_read_ok; [done..|]. rewrite <- E. apply Hfr. intros a Ha.
  apply (sep_ne rs.*1); [done| |done]. by apply list_elem_of_fmap_2.
Qed.

Lemma heap_inv_sep lo hi s rs live : heap_inv lo hi s rs live -> sep rs.*1.
Proof.
  intros [_ Hr Hd _]. apply pairwise_disj_app in Hd as (Hd & _). by eapply sep_regions.
Qed.

Definition carve (e t : Z) (s : LinkedListAllocator * mem) :=
  if bool_decide (t > 0) then push_region e t s else s.

Lemma alloc_body_ok lo hi s rs live l :
  heap_ok lo hi -> heap_inv lo hi s rs live -> layout_ok l ->
  match first_fit rs (rsize l) (ralign l) with
  | None => alloc_body l s = (Done 0, s)
  | Some (pre, r, start, post) =>
      exists s1, found_spec Head rs (pre ++ post) s s1 /\
        alloc_body l s = (Done start, carve (ends (rblock start l))
                                        (ends r - ends (rblock start l)) s1)
  end.
Proof.
  intros Hh Hi Hl. pose proof (find_region_inv lo hi s rs live l Hh Hi Hl) as Hfind.
  unfold alloc_body. rewrite (lift_bind _ _ _ _ (size_align_ok l Hl)). cbn beta iota.
  destruct (first_fit rs (rsize l) (ralign l)) as [[[[pre r] start] post]|] eqn:Hff.
  2:{ by rewrite (bind_done _ _ _ _ _ Hfind). }
  destruct Hfind as (s1 & E & Hspec). exists s1. split; [done|].
  rewrite (bind_done _ _ _ _ _ E). clear E.
  apply first_fit_Some in Hff as (Ers & Hfits & _).
  assert (Hin : r ∈ rs) by (rewrite Ers; apply elem_of_app; right; left).
  pose proof (found_size _ _ _ _ _ r Hspec (hi_chain _ _ _ _ _ Hi)
                (heap_inv_sep _ _ _ _ _ Hi) Hin) as Hsz.
  pose proof (hi_regions _ _ _ _ _ Hi) as Hr. rewrite Forall_forall in Hr.
  specialize (Hr r Hin).
  destruct (fits_geometry lo hi r l start Hr Hl Hfits) as ([Hw1 Hw2] & _ & H8 & Ht).
  destruct (rsize_spec l Hl) as (_ & ? & H8' & _).
  destruct Hr as (? & ? & ? & ? & ?), Hh.
  unfold rblock, ends, node_size in *. cbn [fst snd] in *.
  rewrite (checked_add_ok 64 start (rsize l)) by lia. cbn [unwrap]. rewrite lift_done.
  rewrite (bind_done _ _ _ _ _ Hsz). unfold end_addr, start_addr.
  rewrite (lift_bind _ _ _ _ (uadd_ok 64 r.1 r.2 ltac:(lia))).
  rewrite (lift_bind _ _ _ _ (usub_ok 64 (r.1 + r.2) (start + rsize l) ltac:(lia))).
  unfold carve. case_bool_decide; cbn [when]; [|done].
  rewrite (bind_done _ _ _ tt (push_region (start + rsize l) (r.1 + r.2 - (start + rsize l)) s1));
    [done|].
  apply add_free_region_ok; [lia|by apply Z.divide_add_r|lia|unfold node_size; lia].
Qed.

Lemma push_chain a n s rs :
  chain s.2 (head_next s.1) rs -> 0 < a -> (8 | a) ->
  (forall r, r ∈ rs -> disj (a, node_size) (r.1, node_size)) ->
  chain (push_region a n s).2 a ((a, n) :: rs).
Proof.
  intros Hc Ha H8 Hd. apply Z.mod_divide in H8; [|done]. simpl.
  split_and!; [done..| |].
  - by rewrite lookup_insert_ne, lookup_insert_eq by lia.
  - exists (head_next s.1). split; [by rewrite lookup_insert_eq|].
    apply (chain_frame s.2); [|done]. intros r Hr. specialize (Hd r Hr).
    unfold disj, ends, node_size in Hd. simpl in Hd.
    by rewrite !lookup_insert_ne by lia.
Qed.

Definition remnant (e t : Z) : list (Z * Z) := if bool_decide (t > 0) then [(e, t)] else [].

Section carved.
Context (lo hi : Z) (s s1 : LinkedListAllocator * mem) (pre post : list (Z * Z)) (r : Z * Z)
  (start : Z) (l : Layout) (live : gmap Z Layout).
Hypothesis Hh : heap_ok lo hi.
Hypothesis Hi : heap_inv lo hi s (pre ++ r :: post) live.
Hypothesis Hl : layout_ok l.
Hypothesis Hfits : fits r (rsize l) (ralign l) = Some start.
Hypothesis Hspec : found_spec Head (pre ++ r :: post) (pre ++ post) s s1.
Let e : Z := ends (rblock start l).
Let t : Z := ends r - e.

Lemma carved_region : region_ok lo hi r.
Proof.
  pose proof (hi_regions _ _ _ _ _ Hi) as Hr. rewrite Forall_forall in Hr.
  apply Hr, elem_of_app. right. left.
Qed.

Lemma carved_rest :
  Forall (disj r) ((pre ++ post) ++ rblocks live) /\
  pairwise_disj ((pre ++ post) ++ rblocks live).
Proof.
  pose proof (hi_disj _ _ _ _ _ Hi) as Hd.
  replace ((pre ++ r :: post) ++ rblocks live) with (pre ++ r :: (post ++ rblocks live)) in Hd
    by (by rewrite <- app_assoc).
  rewrite <- Permutation_middle, app_assoc in Hd. exact Hd.
Qed.

Lemma carved_remnant i :
  i ∈ remnant e t -> i = (e, t) /\ node_size <= t /\ (8 | t) /\ (8 | e) /\ 0 < e /\ within i r.
Proof.
  destruct (fits_geometry lo hi r l start carved_region Hl Hfits) as ([? ?] & _ & H8 & Ht).
  destruct (rsize_spec l Hl) as (_ & ? & H8' & _).
  pose proof carved_region as (? & ? & ? & ? & ?). destruct Hh.
  unfold remnant. case_bool_decide; [|by intros ?%elem_of_nil].
  intros ->%list_elem_of_singleton.
  unfold e, t, within, rblock, ends, node_size in *. cbn [fst snd] in *.
  destruct Ht as [?|[? ?]]; [lia|].
  split_and!; [done|done|done|by apply Z.divide_add_r|lia..].
Qed.

Lemma carved_disj :
  pairwise_disj ((remnant e t ++ pre ++ post) ++ rblock start l :: rblocks live).
Proof.
  destruct carved_rest as [Hf Hp].
  destruct (fits_geometry lo hi r l start carved_region Hl Hfits) as (Hw & _).
  rewrite <- Permutation_middle. cbn [app pairwise_disj]. rewrite <- app_assoc.
  rewrite Forall_app. split; [split|].
  - apply Forall_forall. intros i (-> & ? & _)%carved_remnant.
    left. unfold e. simpl. lia.
  - by eapply Forall_disj_within.
  - destruct (decide (remnant e t = [])) as [->|Hne]; [done|].
    destruct (remnant e t) as [|i [|j k]] eqn:E; [done| |].
    + split; [|done]. eapply Forall_disj_within; [|done].
      apply carved_remnant. rewrite E. left.
    + unfold remnant in E. case_bool_decide; done.
Qed.

Lemma carved_fresh :
  live !! start = None /\
  forall q lq, live !! q = Some lq -> disj (block start l) (block q lq).
Proof.
  destruct carved_rest as [Hf _]. rewrite Forall_forall in Hf.
  destruct (fits_geometry lo hi r l start carved_region Hl Hfits) as (Hw & _).
  assert (Hdq : forall q lq, live !! q = Some lq -> disj (rblock start l) (rblock q lq)).
  { intros q lq Hq. eapply disj_within; [done|]. apply Hf, elem_of_app. right.
    apply rblocks_elem. eauto. }
  pose proof (hi_live _ _ _ _ _ Hi) as Hlive. split.
  - destruct (live !! start) as [k|] eqn:E; [|done]. exfalso.
    pose proof (Hdq _ _ E) as Hd. destruct (Hlive _ _ E) as [Hk _].
    destruct (rsize_spec l Hl) as (_ & ? & _), (rsize_spec k Hk) as (_ & ? & _).
    unfold disj, rblock, ends, node_size in *. simpl in *. lia.
  - intros q lq Hq. destruct (Hlive _ _ Hq) as [Hk _].
    eapply disj_within; [by apply rblock_covers|].
    eapply disj_within_r; [by apply rblock_covers|]. by apply Hdq.
Qed.

Lemma carved_chain :
  chain (carve e t s1).2 (head_next (carve e t s1).1) (remnant e t ++ pre ++ post).
Proof.
  destruct Hspec as ((p' & Hp' & Hc) & _). simpl in Hp'. injection Hp' as <-.
  unfold carve. destruct (decide (t > 0)) as [Ht|Ht].
  2:{ unfold remnant. by rewrite !bool_decide_false. }
  rewrite bool_decide_true by done.
  assert (Hin : (e, t) ∈ remnant e t) by (unfold remnant; rewrite bool_decide_true by done; left).
  destruct (carved_remnant _ Hin) as (_ & ? & ? & ? & ? & Hw).
  replace (remnant e t) with [(e, t)] by (unfold remnant; by rewrite bool_decide_true).
  apply push_chain; [done..|]. intros r' Hr'.
  destruct carved_rest as [Hf _]. rewrite Forall_forall in Hf.
  assert (Hd : disj r r') by (apply Hf, elem_of_app; by left).
  pose proof (hi_regions _ _ _ _ _ Hi) as Hr. rewrite Forall_forall in Hr.
  assert (Hr'' : region_ok lo hi r').
  { apply Hr. apply elem_of_app in Hr' as [?|?]; apply elem_of_app; [by left|].
    right. by right. }
  destruct Hr'' as (? & ? & ? & ? & ?).
  unfold disj, within, ends, node_size in *. cbn [fst snd] in *. lia.
Qed.

Lemma carved_inv :
  heap_inv lo hi (carve e t s1) (remnant e t ++ pre ++ post) (<[start := l]> live).
Proof.
  pose proof (hi_regions _ _ _ _ _ Hi) as Hr. pose proof (hi_live _ _ _ _ _ Hi) as Hlive.
  destruct carved_region as (? & ? & ? & ? & ?).
  destruct (fits_geometry lo hi r l start carved_region Hl Hfits) as ([? ?] & _ & ? & _).
  destruct (rsize_spec l Hl) as (_ & ? & ? & _).
  split.
  - apply carved_chain.
  - rewrite Forall_app. split.
    + apply Forall_forall. intros i Hin. apply carved_remnant in Hin as (-> & ? & ? & ? & ? & Hw).
      unfold region_ok, within, ends in *. simpl in *. split_and!; (done || lia).
    + apply Forall_app in Hr as [? [? ?]%Forall_cons]. by apply Forall_app.
  - rewrite (rblocks_insert live start l) by apply carved_fresh. apply carved_disj.
  - intros p k [[<- <-]|[_ Hk]]%lookup_insert_Some; [|by apply Hlive].
    split; [done|]. unfold region_ok, rblock, ends in *. simpl in *. split_and!; (done || lia).
Qed.

Lemma carved_preserves : preserves live s.2 (carve e t s1).2.
Proof.
  intros w Hw.
  assert (Hcarve : (carve e t s1).2 !! w = s1.2 !! w).
  { unfold carve. case_bool_decide as Ht; [|done].
    assert (Hin : (e, t) ∈ remnant e t)
      by (unfold remnant; rewrite bool_decide_true by done; left).
    destruct (carved_remnant _ Hin) as (_ & ? & ? & ? & ? & Hwi).
    assert (Hinr : r ∈ pre ++ r :: post) by (apply elem_of_app; right; left).
    unfold within, ends, node_size in Hwi, H0. cbn [fst snd] in Hwi.
    simpl. rewrite !lookup_insert_ne; [done| |]; intros <-;
      apply (untouched lo hi s _ live r _ Hi Hinr) in Hw; unfold ends in *; lia. }
  rewrite Hcarve. destruct Hspec as (_ & _ & _ & Hfr). apply Hfr.
  intros a (r' & -> & Hr')%list_elem_of_fmap ->.
  eapply (untouched_node lo hi s _ live r'); [done..| |done]. by right.
Qed.
End carved.

(** ** The contract *)
Lemma alloc_contracted lo hi s rs live l :
  heap_ok lo hi -> heap_inv lo hi s rs live -> layout_ok l ->
  exists p s', alloc_body l s = (Done p, s') /\ preserves live s.2 s'.2 /\
    ((p = 0 /\ s' = s) \/
     (0 < p /\ (align l | p) /\ live !! p = None /\
      (forall q lq, live !! q = Some lq -> disj (block p l) (block q lq)) /\
      exists rs', heap_inv lo hi s' rs' (<[p := l]> live))).
Proof.
  intros Hh Hi Hl. pose proof (alloc_body_ok lo hi s rs live l Hh Hi Hl) as Ha.
  destruct (first_fit rs (rsize l) (ralign l)) as [[[[pre r] start] post]|] eqn:Hff.
  2:{ exists 0, s. split; [done|]. split; [done|by left]. }
  destruct Ha as (s1 & Hspec & E). apply first_fit_Some in Hff as (-> & Hfits & _).
  eexists start, _. split; [exact E|].
  split; [by eapply carved_preserves|]. right.
  pose proof (carved_region _ _ _ _ _ _ _ Hi) as Hr.
  destruct (fits_geometry lo hi r l start Hr Hl Hfits) as ([? ?] & ? & _).
  destruct (carved_fresh _ _ _ _ _ _ _ _ _ Hi Hl Hfits) as [? ?].
  destruct Hr, Hh. simpl in *. split_and!; [lia|done..|].
  eexists. by eapply carved_inv.
Qed.

Lemma dealloc_contracted lo hi s rs live p l :
  heap_ok lo hi -> heap_inv lo hi s rs live -> live !! p = Some l ->
  dealloc_body p l s = (Done tt, push_region p (rsize l) s) /\
  preserves (delete p live) s.2 (push_region p (rsize l) s).2 /\
  heap_inv lo hi (push_region p (rsize l) s) (rblock p l :: rs) (delete p live).
Proof.
  intros Hh Hi Hp. pose proof Hi as [Hc Hr Hd Hl]. destruct (Hl p l Hp) as [Hlo Hrok].
  pose proof Hrok as (? & ? & H8 & ? & ?). destruct Hh.
  unfold rblock, ends, node_size in *. cbn [fst snd] in *.
  rewrite (rblocks_delete _ _ _ Hp), <- Permutation_middle in Hd.
  assert (Hi' : heap_inv lo hi (push_region p (rsize l) s) ((p, rsize l) :: rs) (delete p live)).
  { split.
    - apply push_chain; [done|lia|done|]. intros r Hin. destruct Hd as [Hd _].
      rewrite Forall_forall in Hd. specialize (Hd r (proj2 (elem_of_app _ _ _) (or_introl Hin))).
      rewrite Forall_forall in Hr. specialize (Hr r Hin).
      unfold disj, rblock, region_ok, ends, node_size in *. cbn [fst snd] in *. lia.
    - by constructor.
    - exact Hd.
    - intros q k [_ Hq]%lookup_delete_Some. by apply Hl. }
  split_and!; [| |done].
  - unfold dealloc_body. rewrite (lift_bind _ _ _ _ (size_align_ok l Hlo)).
    apply add_free_region_ok; (done || unfold node_size; lia).
  - intros w Hw. simpl.
    rewrite !lookup_insert_ne; [done| |]; intros Ew;
      (refine (untouched_node lo hi _ _ _ (p, rsize l) w Hi' _ _ Hw); [left|simpl; lia]).
Qed.

Lemma linked_list_contract lo hi :
  heap_ok lo hi -> alloc_contract (alloc (H := LinkedListAllocator)) dealloc (inv lo hi).
Proof.
  intros Hh. split.
  - intros [h al] m live l [Hf (rs & Hi)] Hl. cbn in Hf, Hi. subst h.
    destruct (alloc_contracted _ _ _ _ _ _ Hh Hi Hl) as (p & [al' m'] & E & Hpr & Hcase).
    exists p, (Locked_new al'), m'. split; [by apply with_lock_free|]. split; [done|].
    destruct Hcase as [[-> [= -> ->]]|(? & ? & ? & ? & rs' & ?)].
    + left. split; [done|]. split; [done|]. by exists rs.
    + right. split_and!; [done..|]. split; [done|]. by exists rs'.
  - intros [h al] m live p l [Hf (rs & Hi)] Hp. cbn in Hf, Hi. subst h.
    destruct (dealloc_contracted _ _ _ _ _ _ _ Hh Hi Hp) as (E & Hpr & Hi').
    eexists (Locked_new _), _. split; [by apply with_lock_free|]. split; [done|].
    split; [done|]. by eexists.
  - intros [h al] m m' live [Hf (rs & Hi)] Hm. split; [done|]. exists rs.
    by apply (heap_inv_frame lo hi al m).
Qed.

Lemma list_init_inv lo sz m :
  heap_ok lo (lo + sz) -> (8 | lo) -> (8 | sz) -> node_size <= sz ->
  init lo sz (new, m) = (Done tt, push_region lo sz (new, m)) /\
  heap_inv lo (lo + sz) (push_region lo sz (new, m)) [(lo, sz)] ∅.
Proof.
  intros [? ?] ? ? ?. split.
  { apply add_free_region_ok; unfold node_size in *; (done || lia). }
  split.
  - by apply push_chain; [|done..|intros r ?%elem_of_nil].
  - apply Forall_singleton. unfold region_ok, ends. simpl. split_and!; (done || lia).
  - done.
  - intros *. by rewrite lookup_empty.
Qed.

(** ** Theorems *)

(** [size_align] pads a layout to a multiple of the node alignment and at
    least a node's size, and panics exactly when the padded size does not
    fit the largest object the language allows. *)
Theorem size_align_spec l (Hv : valid_layout l) :
  if bool_decide (size l + ralign l <= isize_bound) then
    exists sz, size_align l = Done (sz, ralign l) /\
      sz = Z.max (align_ceil (size l) (ralign l)) node_size /\
      size l <= sz /\ (8 | sz) /\ (align l | ralign l) /\ (8 | ralign l)
  else size_align l = Panic UnwrapFailed.
Proof.
  destruct Hv as (Hs & Hp & Hb). destruct (ralign_pow2 l Hp) as (Hpr & Hd & H8).
  destruct (align_ceil_spec (size l) (ralign l) (pow2_pos _ Hpr)) as (Hal & Hlo & _).
  unfold size_align, align_to. case_bool_decide as Hc.
  - rewrite from_size_align_ok by done. eexists. split; [done|].
    split; [done|]. cbn [size pad_to_align align]. fold (ralign l).
    split_and!; [unfold node_size; lia| |done..].
    destruct (Z.max_spec (align_ceil (size l) (ralign l)) node_size) as [[? ->]|[? ->]];
      [by exists 2|by transitivity (ralign l)].
  - destruct (from_size_align (size l) (Z.max (align l) node_align)) eqn:E; [|done].
    apply from_size_align_Some in E as (_ & _ & ?). fold (ralign l) in *. lia.
Qed.

(** C10: allocation is first fit.  On a well-formed heap, [alloc] takes the
    first region of the free list in which the padded block fits without
    leaving a remainder too small for a node, unlinks it, pushes the
    remainder behind the block and returns the aligned start; when no region
    fits it returns null and changes nothing.  It never panics, reads no
    uninitialised word and terminates. *)
Theorem linked_list_alloc_first_fit lo hi al m rs live l
    (Hh : heap_ok lo hi) (Hi : heap_inv lo hi (al, m) rs live) (Hl : layout_ok l) :
  match first_fit rs (rsize l) (ralign l) with
  | None => alloc l (Locked_new al, m) = (Done 0, (Locked_new al, m))
  | Some (pre, r, start, post) =>
      exists al' m', alloc l (Locked_new al, m) = (Done start, (Locked_new al', m')) /\
        heap_inv lo hi (al', m')
          (remnant (ends (rblock start l)) (ends r - ends (rblock start l)) ++ pre ++ post)
          (<[start := l]> live) /\
        preserves live m m'
  end.
Proof.
  pose proof (alloc_body_ok lo hi (al, m) rs live l Hh Hi Hl) as Ha.
  destruct (first_fit rs (rsize l) (ralign l)) as [[[[pre r] start] post]|] eqn:Hff.
  2:{ by apply with_lock_free. }
  destruct Ha as (s1 & Hspec & E). apply first_fit_Some in Hff as (-> & Hfits & _).
  pose proof (carved_inv _ _ _ _ _ _ _ _ _ _ Hh Hi Hl Hfits Hspec) as Hci.
  pose proof (carved_preserves _ _ _ _ _ _ _ _ _ _ Hh Hi Hl Hfits Hspec) as Hpr.
  destruct (carve _ _ s1) as [al' m']. exists al', m'.
  split; [by apply with_lock_free|]. by split.
Qed.

Lemma ralign_divide l p : pow2 (align l) -> (align l | p) -> (8 | p) -> (ralign l | p).
Proof.
  intros ???. unfold ralign, node_align.
  by destruct (Z.max_spec (align l) 8) as [[? ->]|[? ->]].
Qed.

Lemma fits_exact p l :
  layout_ok l -> (align l | p) -> (8 | p) -> fits (rblock p l) (rsize l) (ralign l) = Some p.
Proof.
  intros ((? & Hp & ?) & ? & ?) ??. destruct (ralign_pow2 l Hp) as (Hpr & _).
  unfold fits. cbn [fst snd rblock].
  rewrite align_ceil_id; [|by apply pow2_pos|by apply ralign_divide].
  rewrite bool_decide_true; [done|]. left. unfold ends. simpl. lia.
Qed.

(** C38: freeing a block and allocating the same layout again returns the same
    block, and the free list is what it was. *)
Theorem linked_list_free_alloc_roundtrip lo hi al m rs live p l
    (Hh : heap_ok lo hi) (Hi : heap_inv lo hi (al, m) rs live)
    (Hp : live !! p = Some l) (Hal : (align l | p)) :
  exists al1 m1 al2 m2,
    dealloc p l (Locked_new al, m) = (Done tt, (Locked_new al1, m1)) /\
    alloc l (Locked_new al1, m1) = (Done p, (Locked_new al2, m2)) /\
    heap_inv lo hi (al2, m2) rs live.
Proof.
  destruct (dealloc_contracted _ _ _ _ _ _ _ Hh Hi Hp) as (E & _ & Hi1).
  destruct (hi_live _ _ _ _ _ Hi p l Hp) as [Hl (_ & _ & H8 & _)].
  pose proof (alloc_body_ok _ _ _ _ _ l Hh Hi1 Hl) as Ha.
  cbn [first_fit] in Ha. rewrite (fits_exact p l Hl Hal H8) in Ha.
  destruct Ha as (s1 & Hspec & Ea).
  pose proof (fits_exact p l Hl Hal H8) as Hfits.
  pose proof (carved_inv _ _ _ _ [] _ _ _ _ _ Hh Hi1 Hl Hfits Hspec) as Hi2.
  rewrite insert_delete_eq, insert_id in Hi2 by done.
  rewrite Z.sub_diag in Hi2, Ea. simpl in Hi2.
  destruct (push_region p (rsize l) (al, m)) as [al1 m1] eqn:E1.
  destruct (carve _ 0 s1) as [al2 m2].
  exists al1, m1, al2, m2. split_and!; [by apply with_lock_free|by apply with_lock_free|done].
Qed.

(** The number of free bytes. *)
Definition free_bytes (rs : list (Z * Z)) : Z := foldr (fun r n => r.2 + n) 0 rs.

Lemma free_bytes_app rs rs' : free_bytes (rs ++ rs') = free_bytes rs + free_bytes rs'.
Proof. induction rs as [|r rs IH]; cbn; [done|]. unfold free_bytes in *. lia. Qed.

Lemma free_bytes_remnant e t : 0 <= t -> free_bytes (remnant e t) = t.
Proof. intros ?. unfold remnant. case_bool_decide; simpl; lia. Qed.

(** C40: the padding in front of an aligned block is lost.  After allocating a
    block from the region [r] and freeing it again, the free list holds
    [start - r.1] bytes less than before: the bytes between the start of
    the region and the aligned start of the block belong to no region and
    to no block. *)
Theorem linked_list_padding_leak lo hi al m rs live l pre r start post
    (Hh : heap_ok lo hi) (Hi : heap_inv lo hi (al, m) rs live) (Hl : layout_ok l)
    (Hff : first_fit rs (rsize l) (ralign l) = Some (pre, r, start, post)) :
  exists al1 m1 al2 m2 rs2,
    alloc l (Locked_new al, m) = (Done start, (Locked_new al1, m1)) /\
    dealloc start l (Locked_new al1, m1) = (Done tt, (Locked_new al2, m2)) /\
    heap_inv lo hi (al2, m2) rs2 live /\
    free_bytes rs2 = free_bytes rs - (start - r.1).
Proof.
  pose proof (alloc_body_ok lo hi (al, m) rs live l Hh Hi Hl) as Ha. rewrite Hff in Ha.
  destruct Ha as (s1 & Hspec & Ea). apply first_fit_Some in Hff as (-> & Hfits & _).
  pose proof (carved_inv _ _ _ _ _ _ _ _ _ _ Hh Hi Hl Hfits Hspec) as Hi1.
  destruct (carve _ _ s1) as [al1 m1].
  destruct (dealloc_contracted _ _ _ _ _ start l Hh Hi1 (lookup_insert_eq _ _ _)) as (Ed & _ & Hi2).
  destruct (carved_fresh _ _ _ _ _ _ _ _ _ Hi Hl Hfits) as [Hno _].
  rewrite delete_insert_id in Hi2 by done.
  destruct (push_region start (rsize l) (al1, m1)) as [al2 m2].
  exists al1, m1, al2, m2. eexists.
  split_and!; [by apply with_lock_free|by apply with_lock_free|exact Hi2|].
  destruct (fits_geometry lo hi r l start (carved_region _ _ _ _ _ _ _ Hi) Hl Hfits)
    as ([? ?] & _ & _ & Ht).
  rewrite (free_bytes_app pre (r :: post)). cbn [free_bytes foldr].
  fold (free_bytes (remnant (ends (rblock start l)) (ends r - ends (rblock start l)) ++ pre ++ post)).
  rewrite !free_bytes_app, free_bytes_remnant by (unfold node_size in *; lia).
  fold (free_bytes post). unfold ends, rblock. simpl. lia.
Qed.

(** C6: over every history of client calls on a freshly initialised
    linked-list allocator, the blocks handed out are aligned, disjoint from
    each other and inside the heap, and no call panics, hangs, loops for
    ever or reads memory it did not write. *)
Theorem linked_list_history_safe lo sz m
    (Hh : heap_ok lo (lo + sz)) (Hlo : (8 | lo)) (Hsz : (8 | sz)) (Hmin : node_size <= sz) :
  exists al0 m0, init lo sz (new, m) = (Done tt, (al0, m0)) /\
  forall x m' live, rtc (client_step alloc dealloc) (Locked_new al0, m0, ∅) (x, m', live) ->
    live_ok live /\
    (forall p l, live !! p = Some l -> within (block p l) (lo, sz)) /\
    (forall l, layout_ok l -> exists p s, alloc l (x, m') = (Done p, s)) /\
    (forall p l, live !! p = Some l -> exists s, dealloc p l (x, m') = (Done tt, s)).
Proof.
  destruct (list_init_inv lo sz m Hh Hlo Hsz Hmin) as (E & Hi).
  destruct (push_region lo sz (new, m)) as [al0 m0]. exists al0, m0. split; [done|]. intros x m' live Hr.
  assert (H0 : inv lo (lo + sz) (Locked_new al0) m0 ∅) by (split; [done|by eexists]).
  destruct (client_history alloc dealloc _ (linked_list_contract _ _ Hh) _ _ _ _ _ H0 Hr)
    as (Hlive & [_ (rs & Hinv)] & Hp).
  split; [done|]. split; [|done].
  intros p l Hl. destruct (hi_live _ _ _ _ _ Hinv _ _ Hl) as [Hlok (? & ? & _)].
  etrans; [by apply rblock_covers|]. unfold within, ends in *. simpl in *. lia.
Qed.

(** C25: client isolation.  In every reachable state of the heap, neither an
    allocation nor the freeing of another block changes a word of a block
    that stays live; only a client's own store does. *)
Theorem linked_list_client_isolation lo sz m al0 m0 x m1 live x' m2 live' p l w
    (Hh : heap_ok lo (lo + sz)) (Hlo : (8 | lo)) (Hsz : (8 | sz)) (Hmin : node_size <= sz)
    (Hinit : init lo sz (new, m) = (Done tt, (al0, m0)))
    (Hr : rtc (client_step alloc dealloc) (Locked_new al0, m0, ∅) (x, m1, live))
    (Hs : client_step alloc dealloc (x, m1, live) (x', m2, live'))
    (Hp : live !! p = Some l) (Hp' : live' !! p = Some l) (Hw : touches w (block p l)) :
  m2 !! w = m1 !! w \/ exists v, m2 = <[w := v]> m1 /\ live' = live.
Proof.
  destruct (list_init_inv lo sz m Hh Hlo Hsz Hmin) as (E & Hi).
  rewrite Hinit in E. assert (E' : push_region lo sz (new, m) = (al0, m0)) by congruence.
  rewrite E' in Hi.
  assert (H0 : inv lo (lo + sz) (Locked_new al0) m0 ∅) by (split; [done|by eexists]).
  pose proof (client_steps_inv _ _ _ (linked_list_contract _ _ Hh) _ _ Hr
                (conj H0 live_ok_empty)) as Hc.
  by eapply client_step_preserves; [apply (linked_list_contract _ _ Hh)|..].
Qed.
End linked_list.

(** ** Witnesses: a one-page heap at the kernels' heap start *)
Section witnesses.
#[local] Instance dev : BuildProfile := true.

Definition wl : Layout := {| size := 24; align := 64 |}.
Definition ws : LinkedListAllocator * mem := push_region HEAP_START 4096 (new, ∅).
Definition wend : Z := HEAP_START + 4096.

Lemma wl_ok : layout_ok wl.
Proof. apply (bool_decide_unpack _). vm_compute. exact I. Defined.

Lemma wheap_ok : heap_ok HEAP_START wend.
Proof. split; cbv; congruence. Defined.

Lemma ws_init : init HEAP_START 4096 (new, ∅) = (Done tt, ws) /\
  heap_inv HEAP_START wend ws [(HEAP_START, 4096)] ∅.
Proof.
  apply list_init_inv; [apply wheap_ok|by exists (HEAP_START / 8)|by exists 512|cbv; congruence].
Qed.

Lemma size_align_spec_witness :
  valid_layout {| size := 20; align := 4 |} /\
  exists sz, size_align {| size := 20; align := 4 |} = Done (sz, 8) /\ sz = 24.
Proof.
  assert (Hv : valid_layout {| size := 20; align := 4 |})
    by (apply (bool_decide_unpack _); vm_compute; exact I).
  split; [exact Hv|].
  destruct (size_align_spec {| size := 20; align := 4 |} Hv) as (sz & E & Esz & _).
  exists sz. split; [exact E|]. rewrite Esz. vm_compute. reflexivity.
Defined.

Lemma linked_list_alloc_first_fit_witness :
  exists al' m', alloc wl (Locked_new ws.1, ws.2) = (Done HEAP_START, (Locked_new al', m')) /\
    heap_inv HEAP_START wend (al', m') [(HEAP_START + 64, 4032)] {[HEAP_START := wl]}.
Proof.
  pose proof (linked_list_alloc_first_fit HEAP_START wend ws.1 ws.2 [(HEAP_START, 4096)] ∅ wl
                wheap_ok (proj2 ws_init) wl_ok) as T.
  assert (E : first_fit [(HEAP_START, 4096)] (rsize wl) (ralign wl)
              = Some ([], (HEAP_START, 4096), HEAP_START, [])) by (vm_compute; reflexivity).
  rewrite E in T. destruct T as (al' & m' & Ea & Hi & _). exists al', m'.
  split; [exact Ea|exact Hi].
Defined.

Lemma linked_list_free_alloc_roundtrip_witness :
  exists al1 m1 al2 m2 al3 m3,
    alloc wl (Locked_new ws.1, ws.2) = (Done HEAP_START, (Locked_new al1, m1)) /\
    dealloc HEAP_START wl (Locked_new al1, m1) = (Done tt, (Locked_new al2, m2)) /\
    alloc wl (Locked_new al2, m2) = (Done HEAP_START, (Locked_new al3, m3)).
Proof.
  destruct (alloc_body_ok HEAP_START wend ws [(HEAP_START, 4096)] ∅ wl
              wheap_ok (proj2 ws_init) wl_ok) as (s1 & Hspec & E).
  pose proof (carved_inv _ _ _ _ [] [] (HEAP_START, 4096) HEAP_START wl ∅ wheap_ok
                (proj2 ws_init) wl_ok eq_refl Hspec) as Hi.
  destruct (carve _ _ s1) as [al1 m1].
  destruct (linked_list_free_alloc_roundtrip HEAP_START wend al1 m1 _ _ HEAP_START wl
              wheap_ok Hi (lookup_insert_eq _ _ _)) as (al2 & m2 & al3 & m3 & Ed & Ea & _).
  { by exists (HEAP_START / 64). }
  exists al1, m1, al2, m2, al3, m3. split; [|split; [exact Ed|exact Ea]].
  cbn [alloc global_alloc]. apply with_lock_free. exact E.
Defined.

(** A heap that starts 8 bytes past a 64-byte boundary loses 56 bytes. *)
Lemma linked_list_padding_leak_witness :
  exists al1 m1 al2 m2 rs2, alloc wl (Locked_new (push_region (HEAP_START + 8) 4088 (new, ∅)).1,
                                    (push_region (HEAP_START + 8) 4088 (new, ∅)).2)
      = (Done (HEAP_START + 64), (Locked_new al1, m1)) /\
    dealloc (HEAP_START + 64) wl (Locked_new al1, m1) = (Done tt, (Locked_new al2, m2)) /\
    heap_inv (HEAP_START + 8) (HEAP_START + 4096) (al2, m2) rs2 ∅ /\
    free_bytes rs2 = 4088 - 56.
Proof.
  assert (Hh : heap_ok (HEAP_START + 8) (HEAP_START + 4096)) by (split; cbv; congruence).
  destruct (list_init_inv (HEAP_START + 8) 4088 ∅) as [_ Hi];
    [exact Hh|by exists (HEAP_START / 8 + 1)|by exists 511|cbv; congruence|].
  exact (linked_list_padding_leak _ _ _ _ _ ∅ wl [] (HEAP_START + 8, 4088) (HEAP_START + 64) []
           Hh Hi wl_ok ltac:(vm_compute; reflexivity)).
Defined.

Lemma linked_list_history_safe_witness :
  exists al0 m0, init HEAP_START 4096 (new, ∅) = (Done tt, (al0, m0)) /\
    exists p s, alloc wl (Locked_new al0, m0) = (Done p, s).
Proof.
  destruct (linked_list_history_safe HEAP_START 4096 ∅ wheap_ok) as (al0 & m0 & E & Hsafe).
  - by exists (HEAP_START / 8).
  - by exists 512.
  - cbv; congruence.
  - exists al0, m0. split; [exact E|].
    destruct (Hsafe (Locked_new al0) m0 ∅ (rtc_refl _ _)) as (_ & _ & Ha & _).
    exact (Ha wl wl_ok).
Defined.

(** Storing 42 in the first block, then allocating a second one. *)
Definition wst1 : Locked LinkedListAllocator * mem := (alloc wl (Locked_new ws.1, ws.2)).2.
Definition wm1 : mem := <[HEAP_START := 42]> wst1.2.
Definition wst2 : Locked LinkedListAllocator * mem := (alloc wl (wst1.1, wm1)).2.

Lemma linked_list_client_isolation_witness : wst2.2 !! HEAP_START = Some 42.
Proof.
  assert (E1 : alloc wl (Locked_new ws.1, ws.2) = (Done HEAP_START, (wst1.1, wst1.2)))
    by (vm_compute; reflexivity).
  assert (E2 : alloc wl (wst1.1, wm1) = (Done (HEAP_START + 64), (wst2.1, wst2.2)))
    by (vm_compute; reflexivity).
  set (live1 := <[HEAP_START := wl]> ∅ : gmap Z Layout).
  pose proof (step_alloc alloc dealloc _ _ ∅ wl _ _ _ wl_ok E1) as S1.
  rewrite decide_False in S1 by (cbv; congruence).
  assert (Hin : live1 !! HEAP_START = Some wl) by apply lookup_insert_eq.
  assert (S2 : client_step alloc dealloc (wst1.1, wst1.2, live1) (wst1.1, wm1, live1)).
  { apply (step_store _ _ _ _ live1 HEAP_START wl); [exact Hin|split; cbv; congruence]. }
  pose proof (step_alloc alloc dealloc _ _ live1 wl _ _ _ wl_ok E2) as S3.
  rewrite decide_False in S3 by (cbv; congruence).
  assert (Hin' : (<[HEAP_START + 64 := wl]> live1) !! HEAP_START = Some wl)
    by (rewrite lookup_insert_ne by (cbv; congruence); exact Hin).
  assert (Hw : touches HEAP_START (block HEAP_START wl)) by (split; cbv; congruence).
  assert (H8 : (8 | HEAP_START)) by (by exists (HEAP_START / 8)).
  assert (H8' : (8 | 4096)) by (by exists 512).
  assert (Hmin : node_size <= 4096) by (cbv; congruence).
  assert (Hr : rtc (client_step alloc dealloc) (Locked_new ws.1, ws.2, ∅)
                 (wst1.1, wm1, live1)) by (eapply rtc_l; [exact S1|apply rtc_once; exact S2]).
  destruct (linked_list_client_isolation HEAP_START 4096 ∅ ws.1 ws.2 wst1.1 wm1 live1
              wst2.1 wst2.2 (<[HEAP_START + 64 := wl]> live1) HEAP_START wl HEAP_START
              wheap_ok H8 H8' Hmin (proj1 ws_init) Hr S3 Hin Hin' Hw) as [E|(v & _ & Hl)].
  - rewrite E. apply lookup_insert_eq.
  - exfalso. apply (f_equal (fun m => m !! (HEAP_START + 64))) in Hl.
    rewrite lookup_insert_eq in Hl. unfold live1 in Hl.
    rewrite lookup_insert_ne in Hl by (cbv; congruence). discriminate.
Defined.
End witnesses.
End LinkedList.
