(* ===== verification/FixedBlock.v ===== *)
(** * The fixed-size block allocator
      (src/something_os/src/allocator/fixed_size_block.rs)

    Blocks of nine size classes are kept on nine free lists threaded through
    the freed blocks; larger requests and empty lists go to a fallback heap,
    the third-party [linked_list_allocator::Heap].  The fallback is a parameter:
    a class of operations with the allocator contract as the law the theorems
    assume, which the kernels' own linked-list allocator is shown to satisfy. *)

From S2P Require Import Prelude Store Allocator LinkedList.

(** ** The fallback heap *)
Class FirstFitHeap (F : Type) := {
  heap_empty : F;
  heap_init : Z -> Z -> M (F * mem) unit;
  allocate_first_fit : Layout -> M (F * mem) (option Z);
  deallocate : Z -> Layout -> M (F * mem) unit;
}.

(** [Ok(ptr)] never holds a null pointer, so null can stand for [Err(())]. *)
Definition first_fit_ptr `{FirstFitHeap F} (l : Layout) : M (F * mem) Z :=
  o ← allocate_first_fit l;
  mret (default 0 o).

(** ** Size classes *)
Definition BLOCK_SIZES : list Z := [8; 16; 32; 64; 128; 256; 512; 1024; 2048].

(** [Iterator::position]. *)
Fixpoint position {A} (f : A -> bool) (xs : list A) : option nat :=
  match xs with
  | [] => None
  | x :: xs => if f x then Some O else S <$> position f xs
  end.

Definition list_index (l : Layout) : option nat :=
  let required_block_size := Z.max (size l) (align l) in
  position (fun s => required_block_size <=? s) BLOCK_SIZES.

Lemma position_Some {A} (f : A -> bool) xs i :
  position f xs = Some i <->
  exists x, xs !! i = Some x /\ f x = true /\
    forall j y, (j < i)%nat -> xs !! j = Some y -> f y = false.
Proof.
  revert i. induction xs as [|x xs IH]; intros i; simpl.
  { split; [done|]. by intros (x & ? & _). }
  destruct (f x) eqn:E.
  - split.
    + intros [= <-]. exists x. split_and!; [done..|]. lia.
    + intros (y & Hy & Hf & Hlt). destruct i as [|i]; [done|].
      specialize (Hlt O x ltac:(lia) eq_refl). congruence.
  - destruct i as [|i]; simpl.
    + split; [by destruct (position f xs)|]. intros (y & [= <-] & ? & _). congruence.
    + transitivity (position f xs = Some i); [by destruct (position f xs) as [j|]; [split; intros [= <-]|]|].
      rewrite IH. split; intros (y & Hy & Hf & Hlt); exists y; split_and!; try done.
      * intros [|j] z Hj Hz; [by injection Hz as <-|]. apply (Hlt j); [lia|done].
      * intros j z Hj Hz. apply (Hlt (S j)); [lia|done].
Qed.

Lemma position_None {A} (f : A -> bool) xs :
  position f xs = None <-> Forall (fun x => f x = false) xs.
Proof.
  induction xs as [|x xs IH]; simpl; [split; by constructor|].
  rewrite Forall_cons. destruct (f x); [split; [done|by intros [? _]]|].
  rewrite <- IH. destruct (position f xs); [split; [done|by intros [_ ?]]|done].
Qed.

(** [mem::size_of] and [mem::align_of] of the one-word [ListNode]. *)
Definition list_node_size : Z := 8.
Definition list_node_align : Z := 8.

(** ** The allocator *)
Record FixedSizeBlockAllocator (F : Type) := {
  list_heads : list Z;
  fallback_allocator : F;
}.
Arguments Build_FixedSizeBlockAllocator {F}.
Arguments list_heads {F}.
Arguments fallback_allocator {F}.

Module FixedBlock.
Section fixed_block.
Context `{FF : FirstFitHeap F}.

Abbreviation St := (FixedSizeBlockAllocator F * mem)%type.

Definition new : FixedSizeBlockAllocator F :=
  {| list_heads := replicate (length BLOCK_SIZES) 0; fallback_allocator := heap_empty |}.

Definition with_fallback {A} (c : M (F * mem) A) : M St A :=
  zoom (fun s => (fallback_allocator s.1, s.2))
    (fun fm s => ({| list_heads := list_heads s.1; fallback_allocator := fm.1 |}, fm.2)) c.

Definition init (heap_start heap_size : Z) : M St unit :=
  with_fallback (heap_init heap_start heap_size).

Definition fallback_alloc (l : Layout) : M St Z := with_fallback (first_fit_ptr l).

(** Indexing an array panics out of bounds. *)
Definition index {A} (xs : list A) (i : nat) : outcome A :=
  match xs !! i with Some x => Done x | None => Panic IndexOutOfBounds end.

Definition get_head (i : nat) : M St Z :=
  heads ← gets (fun s => list_heads s.1);
  lift (index heads i).

Definition set_head (i : nat) (v : Z) : M St unit :=
  modify (fun s => ({| list_heads := <[i := v]> (list_heads s.1);
                       fallback_allocator := fallback_allocator s.1 |}, s.2)).

Definition in_mem {A} (c : M mem A) : M St A := zoom snd (fun m s => (s.1, m)) c.

(** [list_heads[index].take()] and [node.next.take()]. *)
Definition take_head (i : nat) : M St Z :=
  h ← get_head i;
  _ ← set_head i 0;
  mret h.

Definition take_next (node : Z) : M St Z :=
  v ← in_mem (read_word node);
  _ ← in_mem (write_word node 0);
  mret v.

Definition alloc_body (l : Layout) : M St Z :=
  match list_index l with
  | Some index_ =>
      node ← take_head index_;
      if node =? 0 then
        block_size ← lift (index BLOCK_SIZES index_);
        layout ← lift (unwrap (from_size_align block_size block_size));
        fallback_alloc layout
      else
        next ← take_next node;
        _ ← set_head index_ next;
        mret node
  | None => fallback_alloc l
  end.

Definition dealloc_body (ptr : Z) (l : Layout) : M St unit :=
  match list_index l with
  | Some index_ =>
      next ← take_head index_;
      block_size ← lift (index BLOCK_SIZES index_);
      _ ← lift (assert_ (list_node_size <=? block_size));
      _ ← lift (assert_ (list_node_align <=? block_size));
      _ ← in_mem (write_word ptr next);
      set_head index_ ptr
  | None =>
      ptr ← lift (unwrap (if ptr =? 0 then None else Some ptr));
      with_fallback (deallocate ptr l)
  end.

#[export] Instance global_alloc : GlobalAlloc (FixedSizeBlockAllocator F) := {
  alloc l := with_lock (alloc_body l);
  dealloc p l := with_lock (dealloc_body p l);
}.

(** ** Size classes as layouts *)
Definition blk (i : nat) : Layout :=
  {| size := nth i BLOCK_SIZES 0; align := nth i BLOCK_SIZES 0 |}.

Definition class_layout (l : Layout) : Layout :=
  match list_index l with Some i => blk i | None => l end.

Lemma block_sizes_lookup i s :
  BLOCK_SIZES !! i = Some s -> nth i BLOCK_SIZES 0 = s /\ pow2 s /\ 8 <= s <= 2048 /\ (i < 9)%nat.
Proof.
  intros Hi. assert (Hf : Forall (fun s => pow2 s /\ 8 <= s <= 2048) BLOCK_SIZES).
  { apply (bool_decide_unpack _). vm_compute. exact I. }
  rewrite Forall_lookup in Hf. pose proof (lookup_lt_Some _ _ _ Hi) as Hlt. simpl in Hlt.
  rewrite (nth_lookup_Some _ _ _ _ Hi). destruct (Hf i s Hi). split_and!; (done || lia).
Qed.

Lemma list_index_Some l i :
  list_index l = Some i ->
  exists s, BLOCK_SIZES !! i = Some s /\ size l <= s /\ align l <= s.
Proof.
  intros (s & Hs & Hle & _)%position_Some. apply Z.leb_le in Hle. exists s.
  split; [done|]. lia.
Qed.

Lemma blk_ok i : (i < 9)%nat -> layout_ok (blk i) /\ list_index (blk i) = Some i /\ 8 <= size (blk i).
Proof.
  intros Hi.
  assert (Hf : Forall (fun i => layout_ok (blk i) /\ list_index (blk i) = Some i /\ 8 <= size (blk i))
                 (seq 0 9)) by (apply (bool_decide_unpack _); vm_compute; exact I).
  rewrite Forall_forall in Hf. apply Hf, elem_of_seq. lia.
Qed.

Lemma blk_inj i j : (i < 9)%nat -> (j < 9)%nat -> blk i = blk j -> i = j.
Proof.
  intros Hi Hj E. destruct (blk_ok i Hi) as (_ & Ei & _), (blk_ok j Hj) as (_ & Ej & _). congruence.
Qed.

Lemma class_layout_ok l :
  layout_ok l ->
  layout_ok (class_layout l) /\ size l <= size (class_layout l) /\
  (align l | align (class_layout l)).
Proof.
  intros Hl. unfold class_layout. destruct (list_index l) as [i|] eqn:E; [|done].
  apply list_index_Some in E as (s & Hs & Hsz & Hal).
  apply block_sizes_lookup in Hs as (Hn & Hp & Hb & Hi).
  split; [by apply blk_ok|]. unfold blk. cbn [size align]. rewrite Hn. split; [done|].
  apply pow2_divide; [apply Hl|done..].
Qed.

(** ** The free lists in memory *)
Fixpoint node_chain (m : mem) (h : Z) (c : list Z) : Prop :=
  match c with
  | [] => h = 0
  | a :: c => h = a /\ 0 < a /\ a mod 8 = 0 /\ exists q, m !! a = Some q /\ node_chain m q c
  end.

Lemma node_chain_frame m m' h c :
  (forall a, a ∈ c -> m' !! a = m !! a) -> node_chain m h c -> node_chain m' h c.
Proof.
  revert h. induction c as [|a c IH]; intros h Hm; [done|].
  intros (? & ? & ? & q & Hq & Hc). simpl. split_and!; [done..|].
  exists q. split; [rewrite Hm; [done|left]|]. apply IH; [|done]. intros b ?. apply Hm. by right.
Qed.

(** The blocks on the free lists, with the layouts the fallback knows them by. *)
Definition free_spec (chains : list (list Z)) (free : gmap Z Layout) : Prop :=
  forall p l, free !! p = Some l <-> exists i c, chains !! i = Some c /\ p ∈ c /\ l = blk i.

(** Everything the fallback heap has handed out. *)
Definition owned (live free : gmap Z Layout) : gmap Z Layout := (class_layout <$> live) ∪ free.

(** ** The methods, branch by branch *)
Definition put_head (i : nat) (v : Z) (s : St) : St :=
  ({| list_heads := <[i := v]> (list_heads s.1);
      fallback_allocator := fallback_allocator s.1 |}, s.2).

Lemma take_head_ok i h s :
  list_heads s.1 !! i = Some h -> take_head i s = (Done h, put_head i 0 s).
Proof.
  intros Hh. unfold take_head, get_head. rewrite bind_assoc, gets_bind.
  unfold index. by rewrite Hh.
Qed.

(** Popping the free list of the class. *)
Lemma alloc_body_pop l i h q s :
  list_index l = Some i -> list_heads s.1 !! i = Some h -> 0 < h -> h mod 8 = 0 ->
  s.2 !! h = Some q ->
  alloc_body l s = (Done h, ((put_head i q s).1, <[h := 0]> s.2)).
Proof.
  intros Hi Hh H0 H8 Hq. unfold alloc_body. rewrite Hi.
  rewrite (bind_done _ _ _ _ _ (take_head_ok i h s Hh)).
  rewrite (proj2 (Z.eqb_neq h 0)) by lia. unfold take_next.
  destruct s as [al m]. unfold mbind, M_bind, in_mem, zoom. cbn [fst snd put_head].
  rewrite (read_word_ok h q m H0 H8 Hq). cbn. rewrite (write_word_ok h 0 m H0 H8). cbn.
  by rewrite list_insert_insert_eq.
Qed.

(** Empty list: a block of the class from the fallback heap. *)
Lemma alloc_body_refill l i s :
  list_index l = Some i -> list_heads s.1 !! i = Some 0 ->
  alloc_body l s = fallback_alloc (blk i) s.
Proof.
  intros Hi Hh. unfold alloc_body. rewrite Hi.
  rewrite (bind_done _ _ _ _ _ (take_head_ok i 0 s Hh)). cbn [Z.eqb].
  pose proof (list_index_Some _ _ Hi) as (b & Hb & _).
  unfold index at 1. rewrite Hb. rewrite lift_done.
  pose proof (block_sizes_lookup _ _ Hb) as (Hn & Hp & ? & _).
  rewrite from_size_align_ok by (done || (unfold isize_bound; lia)). cbn [unwrap]. rewrite lift_done.
  unfold blk. rewrite Hn. unfold put_head. rewrite list_insert_id by done.
  by destruct s as [[heads f] m].
Qed.

Lemma alloc_body_large l s :
  list_index l = None -> alloc_body l s = fallback_alloc l s.
Proof. unfold alloc_body. by intros ->. Qed.

Lemma dealloc_body_push p l i h s :
  list_index l = Some i -> list_heads s.1 !! i = Some h -> 0 < p -> p mod 8 = 0 ->
  dealloc_body p l s = (Done tt, ((put_head i p s).1, <[p := h]> s.2)).
Proof.
  intros Hi Hh H0 H8. unfold dealloc_body. rewrite Hi.
  rewrite (bind_done _ _ _ _ _ (take_head_ok i h s Hh)).
  pose proof (list_index_Some _ _ Hi) as (b & Hb & _).
  pose proof (block_sizes_lookup _ _ Hb) as (_ & _ & ? & _).
  unfold index at 1. rewrite Hb, lift_done.
  unfold assert_, list_node_size, list_node_align.
  rewrite (proj2 (Z.leb_le 8 b)) by lia. rewrite !lift_done.
  destruct s as [al m]. unfold mbind, M_bind, in_mem, zoom. cbn [fst snd put_head].
  rewrite (write_word_ok p h m H0 H8). cbn. unfold set_head, modify. cbn.
  by rewrite list_insert_insert_eq.
Qed.

Lemma with_fallback_ok {A} (c : M (F * mem) A) s a f m :
  c (fallback_allocator s.1, s.2) = (Done a, (f, m)) ->
  with_fallback c s = (Done a, ({| list_heads := list_heads s.1; fallback_allocator := f |}, m)).
Proof. intros E. unfold with_fallback. by rewrite (zoom_done _ _ _ _ _ _ E). Qed.

Section contract.
Context (finv : F -> mem -> gmap Z Layout -> Prop).

Record fixed_inv (s : St) (live : gmap Z Layout) (chains : list (list Z))
    (free : gmap Z Layout) : Prop := {
  fi_chains : Forall2 (node_chain s.2) (list_heads s.1) chains;
  fi_length : length chains = 9%nat;
  fi_nodup : Forall (NoDup (A := Z)) chains;
  fi_free : free_spec chains free;
  fi_disj : live ##ₘ free;
  fi_live : forall p l, live !! p = Some l -> layout_ok l;
  fi_owned : live_ok (owned live free);
  fi_fallback : finv (fallback_allocator s.1) s.2 (owned live free);
}.

Definition inv (x : Locked (FixedSizeBlockAllocator F)) (m : mem) (live : gmap Z Layout) : Prop :=
  held x = false /\ exists chains free, fixed_inv (inner x, m) live chains free.

(** *** Facts about the owned blocks *)
Lemma owned_live live free p l :
  live !! p = Some l -> owned live free !! p = Some (class_layout l).
Proof. intros Hp. apply lookup_union_Some_l. by rewrite lookup_fmap, Hp. Qed.

Lemma owned_free live free p l :
  live ##ₘ free -> free !! p = Some l -> owned live free !! p = Some l.
Proof.
  intros Hd Hp. apply lookup_union_Some_r; [|done]. apply map_disjoint_spec.
  intros q x y. rewrite lookup_fmap, fmap_Some. intros (k & Hk & _) Hq.
  by apply (proj1 (map_disjoint_spec live free) Hd q k y).
Qed.

Lemma chain_free chains free i c p :
  free_spec chains free -> chains !! i = Some c -> p ∈ c -> free !! p = Some (blk i).
Proof. intros Hf Hc Hp. apply Hf. eauto. Qed.

Lemma touches_live_mono (live live' : gmap Z Layout) w :
  (forall p l, live !! p = Some l -> exists l', live' !! p = Some l' /\ size l <= size l') ->
  touches_live live w -> touches_live live' w.
Proof.
  intros Hsub (p & l & Hp & Ht). destruct (Hsub p l Hp) as (l' & Hp' & Hs).
  exists p, l'. split; [done|]. unfold touches, block, ends in *. simpl in *. lia.
Qed.

Lemma touches_owned s live chains free w :
  fixed_inv s live chains free -> touches_live live w -> touches_live (owned live free) w.
Proof.
  intros Hi. apply touches_live_mono. intros p l Hp. eexists. split; [by apply owned_live|].
  apply class_layout_ok. by apply (fi_live _ _ _ _ Hi p).
Qed.

Lemma owned_node s live chains free p :
  fixed_inv s live chains free -> is_Some (free !! p) ->
  0 < p /\ p mod 8 = 0 /\ touches_live (owned live free) p /\ ~ touches_live live p.
Proof.
  intros Hi [l Hp]. pose proof (owned_free _ _ _ _ (fi_disj _ _ _ _ Hi) Hp) as Ho.
  destruct (fi_owned _ _ _ _ Hi) as [Hok Hd].
  destruct (Hok _ _ Ho) as (_ & ? & Hal).
  pose proof (proj1 (fi_free _ _ _ _ Hi p l) Hp) as (i & c & Hc & _ & ->).
  apply lookup_lt_Some in Hc. rewrite (fi_length _ _ _ _ Hi) in Hc.
  destruct (blk_ok i Hc) as (Hb & _ & H8).
  split_and!; [done| | |].
  - apply Z.mod_divide; [done|]. transitivity (align (blk i)); [|done].
    apply pow2_divide; [by exists 3|apply Hb|exact H8].
  - exists p, (blk i). split; [done|]. unfold touches, block, ends. simpl in *. lia.
  - intros (q & k & Hq & Ht).
    destruct (class_layout_ok k (fi_live _ _ _ _ Hi q k Hq)) as (_ & Hs & _).
    assert (Hpq : p <> q).
    { intros ->. by apply (proj1 (map_disjoint_spec live free) (fi_disj _ _ _ _ Hi) q k (blk i)). }
    pose proof (Hd p q _ _ Ho (owned_live _ free _ _ Hq) Hpq) as Hdj.
    unfold touches, disj, block, ends in *. cbn [fst snd] in *. lia.
Qed.

Lemma chains_frame m m' heads chains :
  Forall2 (node_chain m) heads chains ->
  (forall j c a, chains !! j = Some c -> a ∈ c -> m' !! a = m !! a) ->
  Forall2 (node_chain m') heads chains.
Proof.
  intros Hch Hm. apply Forall2_same_length_lookup. split; [by eapply Forall2_length|].
  intros j h c Hh Hc. pose proof (Forall2_lookup_lr _ _ _ _ _ _ Hch Hh Hc) as Hn.
  apply (node_chain_frame m); [|done]. intros a Ha. by apply (Hm j c).
Qed.

(** The chains survive any change of memory outside the owned blocks. *)
Lemma fixed_chains_frame s live chains free m' :
  fixed_inv s live chains free -> preserves (owned live free) s.2 m' ->
  Forall2 (node_chain m') (list_heads s.1) chains.
Proof.
  intros Hi Hp. eapply chains_frame; [apply Hi|]. intros j c a Hc Ha. apply Hp.
  apply (owned_node _ _ _ _ _ Hi). exists (blk j). by eapply chain_free; [apply Hi|..].
Qed.

(** ** Bookkeeping of the free lists *)
Lemma chains_update m m' heads chains i h' c' :
  Forall2 (node_chain m) heads chains -> node_chain m' h' c' ->
  (forall j c a, j <> i -> chains !! j = Some c -> a ∈ c -> m' !! a = m !! a) ->
  Forall2 (node_chain m') (<[i := h']> heads) (<[i := c']> chains).
Proof.
  intros Hc Hn Hm. apply Forall2_same_length_lookup.
  split; [rewrite !length_insert; by eapply Forall2_length|].
  intros j h c. rewrite !list_lookup_insert_Some.
  intros [(<- & <- & ?)|(Hne & Hh)] [(? & <- & ?)|(Hne' & Hcj)]; try done.
  apply (node_chain_frame m); [intros a Ha; by apply (Hm j c)|].
  by eapply (Forall2_lookup_lr (node_chain m) heads chains j).
Qed.

Lemma free_spec_pop chains free i h c :
  free_spec chains free -> Forall (NoDup (A := Z)) chains -> length chains = 9%nat ->
  chains !! i = Some (h :: c) -> free_spec (<[i := c]> chains) (delete h free).
Proof.
  intros Hf Hnd Hlen Hc p l. pose proof (lookup_lt_Some _ _ _ Hc) as Hlt.
  rewrite Forall_lookup in Hnd. pose proof (Hnd _ _ Hc) as [Hh _]%NoDup_cons.
  rewrite lookup_delete_Some, (Hf p l). split.
  - intros (Hph & j & k & Hj & Hp & ->). destruct (decide (j = i)) as [->|Hji].
    + rewrite Hc in Hj. injection Hj as <-. exists i, c.
      rewrite list_lookup_insert_eq by done.
      apply elem_of_cons in Hp as [->|Hp]; [done|]. done.
    + exists j, k. by rewrite list_lookup_insert_ne.
  - intros (j & k & Hj%list_lookup_insert_Some & Hp & ->).
    destruct Hj as [(<- & <- & _)|(Hji & Hj)].
    + split; [by intros ->|]. exists i, (h :: c). split_and!; [done|by right|done].
    + split; [|by exists j, k]. intros <-. apply Hji.
      assert (E : Some (blk i) = Some (blk j)).
      { rewrite <- (proj2 (Hf h (blk i))); [apply Hf; eauto|]. exists i, (h :: c).
        split_and!; [done|left|done]. }
      injection E as E. apply blk_inj; [lia|apply lookup_lt_Some in Hj; lia|].
      unfold blk. by f_equal.
Qed.

Lemma free_spec_push chains free i p c :
  free_spec chains free -> chains !! i = Some c -> free !! p = None ->
  free_spec (<[i := p :: c]> chains) (<[p := blk i]> free).
Proof.
  intros Hf Hc Hnone q l. pose proof (lookup_lt_Some _ _ _ Hc) as Hlt.
  rewrite lookup_insert_Some, (Hf q l). split.
  - intros [[<- <-]|(Hne & j & k & Hj & Hq & ->)].
    + exists i, (p :: c). rewrite list_lookup_insert_eq by done. split_and!; [done|left|done].
    + destruct (decide (j = i)) as [->|Hji].
      * rewrite Hc in Hj. injection Hj as <-. exists i, (p :: c).
        rewrite list_lookup_insert_eq by done. split_and!; [done|by right|done].
      * exists j, k. by rewrite list_lookup_insert_ne.
  - intros (j & k & Hj%list_lookup_insert_Some & Hq & ->).
    destruct Hj as [(<- & <- & _)|(Hji & Hj)].
    + apply elem_of_cons in Hq as [->|Hq]; [by left|]. right. split; [|by exists i, c].
      intros <-. assert (Hs : free !! p = Some (blk i)) by (apply Hf; eauto). congruence.
    + right. split; [|by exists j, k].
      intros <-. assert (Hs : free !! p = Some (blk j)) by (apply Hf; eauto). congruence.
Qed.

Lemma owned_pop live free h l :
  live !! h = None -> free !! h = Some (class_layout l) ->
  owned (<[h := l]> live) (delete h free) = owned live free.
Proof.
  intros E Hh. unfold owned. rewrite fmap_insert. apply map_eq. intros q.
  destruct (decide (h = q)) as [<-|Hne].
  - rewrite !lookup_union, lookup_insert_eq, lookup_delete_eq, lookup_fmap, E, Hh. done.
  - by rewrite !lookup_union, lookup_insert_ne, lookup_delete_ne by done.
Qed.

Lemma owned_push live free p l :
  live !! p = Some l ->
  owned (delete p live) (<[p := class_layout l]> free) = owned live free.
Proof.
  intros Hp. unfold owned. rewrite fmap_delete. apply map_eq. intros q.
  destruct (decide (p = q)) as [<-|Hne].
  - rewrite !lookup_union, lookup_insert_eq, lookup_delete_eq, lookup_fmap, Hp. simpl.
    by destruct (free !! p).
  - by rewrite !lookup_union, lookup_insert_ne, lookup_delete_ne by done.
Qed.

Context (FC : alloc_contract first_fit_ptr deallocate finv).

(** The head of the class [i] and the chain it starts. *)
Lemma fixed_head s live chains free l i :
  fixed_inv s live chains free -> list_index l = Some i ->
  exists h c, list_heads s.1 !! i = Some h /\ chains !! i = Some c /\ node_chain s.2 h c.
Proof.
  intros Hi Hl. destruct (list_index_Some _ _ Hl) as (b & Hb & _).
  apply block_sizes_lookup in Hb as (_ & _ & _ & Hlt).
  rewrite <- (fi_length _ _ _ _ Hi) in Hlt.
  destruct (lookup_lt_is_Some_2 chains i Hlt) as [c Hc].
  destruct (Forall2_lookup_r _ _ _ _ _ (fi_chains _ _ _ _ Hi) Hc) as (h & Hh & Hn).
  by exists h, c.
Qed.

Lemma class_of_index l i : list_index l = Some i -> class_layout l = blk i.
Proof. unfold class_layout. by intros ->. Qed.

Lemma class_of_large l : list_index l = None -> class_layout l = l.
Proof. unfold class_layout. by intros ->. Qed.

Lemma free_not_live (live free : gmap Z Layout) p l : live ##ₘ free -> free !! p = Some l -> live !! p = None.
Proof.
  intros Hd Hf. destruct (live !! p) eqn:E; [|done].
  by destruct (proj1 (map_disjoint_spec live free) Hd p l0 l E Hf).
Qed.

Lemma live_not_free (live free : gmap Z Layout) p l : live ##ₘ free -> live !! p = Some l -> free !! p = None.
Proof.
  intros Hd Hl. destruct (free !! p) eqn:E; [|done].
  by destruct (proj1 (map_disjoint_spec live free) Hd p l l0 Hl E).
Qed.

(** A word written at the start of a block of ours is a client's write. *)
Lemma fallback_store f m live free p v :
  finv f m (owned live free) -> touches_live (owned live free) p ->
  finv f (<[p := v]> m) (owned live free).
Proof.
  intros Hf Ht. apply (ac_frame _ _ _ FC f m _ _ Hf).
  intros a Ha. apply lookup_insert_ne. by intros <-.
Qed.

Lemma pop_inv s live chains free l i h c q :
  fixed_inv s live chains free -> layout_ok l -> list_index l = Some i ->
  chains !! i = Some (h :: c) -> s.2 !! h = Some q -> node_chain s.2 q c ->
  fixed_inv ((put_head i q s).1, <[h := 0]> s.2) (<[h := l]> live) (<[i := c]> chains)
    (delete h free).
Proof.
  intros Hi Hl Hli Hc Hq Hn. pose proof Hi as [Hch Hlen Hnd Hf Hd Hlv How Hfb].
  assert (Hfh : free !! h = Some (blk i)) by (eapply chain_free; [done..|left]).
  pose proof (free_not_live _ _ _ _ Hd Hfh) as Hno.
  assert (Eo : owned (<[h := l]> live) (delete h free) = owned live free)
    by (apply owned_pop; [done|by rewrite (class_of_index _ _ Hli)]).
  rewrite Forall_lookup in Hnd. pose proof (Hnd _ _ Hc) as [Hhc Hndc]%NoDup_cons.
  split; cbn [fst snd put_head list_heads fallback_allocator].
  - apply (chains_update s.2); [done| |].
    + apply (node_chain_frame s.2); [|done]. intros a Ha.
      apply lookup_insert_ne. by intros <-.
    + intros j k a Hj Hk Ha. apply lookup_insert_ne. intros <-.
      assert (Efree : free !! h = Some (blk j)) by (by eapply chain_free).
      rewrite Hfh in Efree. injection Efree as E. apply Hj. symmetry.
      apply blk_inj; [apply lookup_lt_Some in Hc; lia|apply lookup_lt_Some in Hk; lia|].
      unfold blk. by f_equal.
  - by rewrite length_insert.
  - apply Forall_insert; [by apply Forall_lookup|done].
  - by eapply free_spec_pop; [|apply Forall_lookup|..].
  - apply map_disjoint_insert_l. split; [by rewrite lookup_delete_eq|].
    by apply map_disjoint_delete_r.
  - intros p k [[<- <-]|[_ Hk]]%lookup_insert_Some; [done|by apply (Hlv p)].
  - by rewrite Eo.
  - rewrite Eo. apply fallback_store; [done|].
    by apply (owned_node _ _ _ _ h Hi).
Qed.

Lemma push_inv s live chains free l i h c p :
  fixed_inv s live chains free -> list_index l = Some i -> live !! p = Some l ->
  chains !! i = Some c -> list_heads s.1 !! i = Some h -> node_chain s.2 h c ->
  0 < p -> p mod 8 = 0 -> touches_live (owned live free) p ->
  fixed_inv ((put_head i p s).1, <[p := h]> s.2) (delete p live) (<[i := p :: c]> chains)
    (<[p := blk i]> free).
Proof.
  intros Hi Hli Hp Hc Hh Hn H0 H8 Ht. pose proof Hi as [Hch Hlen Hnd Hf Hd Hlv How Hfb].
  pose proof (live_not_free _ _ _ _ Hd Hp) as Hno.
  assert (Eo : owned (delete p live) (<[p := blk i]> free) = owned live free)
    by (rewrite <- (class_of_index _ _ Hli); by apply owned_push).
  assert (Hout : forall j k, chains !! j = Some k -> p ∉ k).
  { intros j k Hj Hpk. assert (Hs : free !! p = Some (blk j)) by (by eapply chain_free).
    congruence. }
  split; cbn [fst snd put_head list_heads fallback_allocator].
  - apply (chains_update s.2); [done| |].
    + simpl. split_and!; [done..|]. exists h. rewrite lookup_insert_eq. split; [done|].
      apply (node_chain_frame s.2); [|done]. intros a Ha.
      apply lookup_insert_ne. intros <-. by apply (Hout i c).
    + intros j k a Hj Hk Ha. apply lookup_insert_ne. intros <-. by apply (Hout j k).
  - by rewrite length_insert.
  - apply Forall_insert; [done|]. constructor; [by eapply Hout|].
    by apply (Forall_lookup_1 _ _ i c Hnd).
  - by apply free_spec_push.
  - apply map_disjoint_insert_r. split; [by rewrite lookup_delete_eq|].
    by apply map_disjoint_delete_l.
  - intros q k [_ Hk]%lookup_delete_Some. by apply (Hlv q).
  - by rewrite Eo.
  - rewrite Eo. by apply fallback_store.
Qed.
Lemma class_block_within p l : layout_ok l -> within (block p l) (block p (class_layout l)).
Proof. intros (_ & Hs & _)%class_layout_ok. unfold within, block, ends. simpl. lia. Qed.

Lemma disj_from_class p l q k :
  layout_ok l -> layout_ok k ->
  disj (block p (class_layout l)) (block q (class_layout k)) -> disj (block p l) (block q k).
Proof.
  intros Hl Hk Hd. eapply disj_within; [by apply class_block_within|].
  eapply disj_within_r; [by apply class_block_within|done].
Qed.

Lemma preserves_live s live chains free m' :
  fixed_inv s live chains free -> preserves (owned live free) s.2 m' -> preserves live s.2 m'.
Proof. intros Hi Hp w Hw. apply Hp. by eapply touches_owned. Qed.

(** A new block from the fallback heap. *)
Lemma fallback_alloc_inv s live chains free l :
  fixed_inv s live chains free -> layout_ok l ->
  exists p s', fallback_alloc (class_layout l) s = (Done p, s') /\ preserves live s.2 s'.2 /\
    ((p = 0 /\ fixed_inv s' live chains free) \/
     (0 < p /\ (align l | p) /\ live !! p = None /\
      (forall q lq, live !! q = Some lq -> disj (block p l) (block q lq)) /\
      fixed_inv s' (<[p := l]> live) chains free)).
Proof.
  intros Hi Hl. destruct (class_layout_ok l Hl) as (Hcl & Hsz & Hal).
  pose proof Hi as [Hch Hlen Hnd Hf Hd Hlv How Hfb].
  destruct (ac_alloc _ _ _ FC _ _ _ _ Hfb Hcl) as (p & f & m & E & Hpr & Hcase).
  eexists p, _. split; [by apply with_fallback_ok|]. cbn [fst snd].
  split; [by eapply preserves_live|].
  pose proof (fixed_chains_frame _ _ _ _ _ Hi Hpr) as Hch'.
  destruct Hcase as [[-> Hfb']|(H0 & Hpal & Hno & Hdj & Hfb')].
  { left. split; [done|]. by split. }
  right. assert (Hnl : live !! p = None).
  { destruct (live !! p) eqn:El; [|done]. by rewrite (owned_live live free p l0 El) in Hno. }
  assert (Hnf : free !! p = None).
  { destruct (free !! p) eqn:Ef; [|done]. by rewrite (owned_free live free p l0 Hd Ef) in Hno. }
  assert (Eo : owned (<[p := l]> live) free = <[p := class_layout l]> (owned live free))
    by (unfold owned; by rewrite fmap_insert, insert_union_l).
  split_and!; [done|by transitivity (align (class_layout l))|done| |].
  - intros q lq Hq. apply disj_from_class; [done|by apply (Hlv q)|].
    apply Hdj. by apply owned_live.
  - split; cbn [fst snd list_heads fallback_allocator]; try done.
    + apply map_disjoint_insert_l. by split.
    + intros q k [[<- <-]|[_ Hk]]%lookup_insert_Some; [done|by apply (Hlv q)].
    + rewrite Eo. by apply live_ok_insert.
    + by rewrite Eo.
Qed.

Lemma alloc_contracted_fixed s live chains free l :
  fixed_inv s live chains free -> layout_ok l ->
  exists p s', alloc_body l s = (Done p, s') /\ preserves live s.2 s'.2 /\
    ((p = 0 /\ exists chains' free', fixed_inv s' live chains' free') \/
     (0 < p /\ (align l | p) /\ live !! p = None /\
      (forall q lq, live !! q = Some lq -> disj (block p l) (block q lq)) /\
      exists chains' free', fixed_inv s' (<[p := l]> live) chains' free')).
Proof.
  intros Hi Hl. destruct (list_index l) as [i|] eqn:Hli.
  2:{ rewrite (alloc_body_large l s Hli).
      pose proof (class_of_large l Hli) as Ec.
      destruct (fallback_alloc_inv _ _ _ _ _ Hi Hl) as (p & s' & E & Hpr & Hcase).
      rewrite Ec in E. exists p, s'. split; [done|]. split; [done|].
      destruct Hcase as [[-> ?]|(? & ? & ? & ? & ?)]; [left|right]; eauto 10. }
  destruct (fixed_head _ _ _ _ _ _ Hi Hli) as (h & c & Hh & Hc & Hn).
  destruct c as [|a c].
  - simpl in Hn. subst h. rewrite (alloc_body_refill l i s Hli Hh), <- (class_of_index l i Hli).
    destruct (fallback_alloc_inv _ _ _ _ _ Hi Hl) as (p & s' & E & Hpr & Hcase).
    exists p, s'. split; [done|]. split; [done|].
    destruct Hcase as [[-> ?]|(? & ? & ? & ? & ?)]; [left|right]; eauto 10.
  - destruct Hn as (-> & H0 & H8 & q & Hq & Hn).
    eexists a, _. split; [by eapply alloc_body_pop|].
    assert (Hfa : free !! a = Some (blk i))
      by (eapply chain_free; [apply Hi|done|left]).
    destruct (owned_node _ _ _ _ a Hi (mk_is_Some _ _ Hfa)) as (_ & _ & _ & Hnt).
    split. { intros w Hw. apply lookup_insert_ne. by intros <-. }
    right. pose proof (owned_free _ _ _ _ (fi_disj _ _ _ _ Hi) Hfa) as Hoa.
    destruct (fi_owned _ _ _ _ Hi) as [Hok Hdj].
    destruct (class_layout_ok l Hl) as (_ & _ & Hal). rewrite (class_of_index l i Hli) in Hal.
    split_and!; [done| |by eapply free_not_live; [apply Hi|]| |].
    + transitivity (align (blk i)); [done|]. by apply (Hok a).
    + intros r lr Hr. apply disj_from_class; [done|by apply (fi_live _ _ _ _ Hi r)|].
      rewrite (class_of_index l i Hli). apply Hdj; [done|by apply owned_live|].
      intros ->. by rewrite (free_not_live live free r (blk i) (fi_disj _ _ _ _ Hi) Hfa) in Hr.
    + eexists _, _. by eapply pop_inv.
Qed.

(** Freeing a block that came straight from the fallback heap. *)
Lemma dealloc_large_inv s live chains free p l :
  fixed_inv s live chains free -> live !! p = Some l -> list_index l = None ->
  exists s', dealloc_body p l s = (Done tt, s') /\ preserves (delete p live) s.2 s'.2 /\
    fixed_inv s' (delete p live) chains free.
Proof.
  intros Hi Hp Hli. pose proof Hi as [Hch Hlen Hnd Hf Hd Hlv How Hfb].
  pose proof (owned_live live free p l Hp) as Hop.
  destruct (proj1 How _ _ Hop) as (_ & H0 & _).
  rewrite (class_of_large l Hli) in Hop.
  destruct (ac_dealloc _ _ _ FC _ _ _ p l Hfb Hop) as (f & m & E & Hpr & Hfb').
  pose proof (live_not_free _ _ _ _ Hd Hp) as Hnf.
  assert (Eo : delete p (owned live free) = owned (delete p live) free)
    by (unfold owned; by rewrite delete_union, fmap_delete, (delete_id free)).
  rewrite Eo in *. eexists. split.
  { unfold dealloc_body. rewrite Hli. rewrite (proj2 (Z.eqb_neq p 0)) by lia.
    cbn [unwrap]. rewrite lift_done. by apply with_fallback_ok. }
  cbn [fst snd]. split.
  { intros w Hw. apply Hpr. revert Hw. apply touches_live_mono.
    intros q k Hq. eexists. split; [by apply owned_live|].
    apply lookup_delete_Some in Hq as [_ Hq]. by apply class_layout_ok, (Hlv q). }
  split; cbn; try done.
  - eapply chains_frame; [done..|]. intros j c a Hc Ha. apply Hpr.
    assert (Hfa : free !! a = Some (blk j)) by (by eapply chain_free).
    exists a, (blk j). split; [apply owned_free; [by apply map_disjoint_delete_l|done]|].
    apply lookup_lt_Some in Hc. destruct (blk_ok j ltac:(lia)) as (_ & _ & ?).
    unfold touches, block, ends. simpl in *. lia.
  - by apply map_disjoint_delete_l.
  - intros q k [_ Hk]%lookup_delete_Some. by apply (Hlv q).
  - rewrite <- Eo. by apply live_ok_delete.
Qed.

Lemma dealloc_contracted_fixed s live chains free p l :
  fixed_inv s live chains free -> live !! p = Some l ->
  exists s', dealloc_body p l s = (Done tt, s') /\ preserves (delete p live) s.2 s'.2 /\
    exists chains' free', fixed_inv s' (delete p live) chains' free'.
Proof.
  intros Hi Hp. destruct (list_index l) as [i|] eqn:Hli.
  2:{ destruct (dealloc_large_inv _ _ _ _ _ _ Hi Hp Hli) as (s' & ? & ? & ?). eauto 10. }
  pose proof (owned_live live free p l Hp) as Hop.
  destruct (proj1 (fi_owned _ _ _ _ Hi) _ _ Hop) as (Hcl & H0 & Hal).
  destruct (fixed_head _ _ _ _ _ _ Hi Hli) as (h & c & Hh & Hc & Hn).
  rewrite (class_of_index l i Hli) in *.
  destruct (list_index_Some _ _ Hli) as (b & Hb & _).
  apply block_sizes_lookup in Hb as (_ & _ & _ & Hi9).
  destruct (blk_ok i Hi9) as (Hbok & _ & H8).
  assert (Hp8 : p mod 8 = 0).
  { apply Z.mod_divide; [done|]. transitivity (align (blk i)); [|done].
    apply pow2_divide; [by exists 3|apply Hbok|exact H8]. }
  eexists. split; [by eapply dealloc_body_push|].
  assert (Ht : touches p (block p (blk i))) by (unfold touches, block, ends; simpl in *; lia).
  assert (Hinv := push_inv s live chains free l i h c p Hi Hli Hp Hc Hh Hn H0 Hp8
                    (ex_intro _ p (ex_intro _ (blk i) (conj Hop Ht)))).
  split; [|by eexists _, _].
  intros w Hw. apply lookup_insert_ne. intros <-.
  destruct (owned_node _ _ _ _ p Hinv) as (_ & _ & _ & Hnt); [|done].
  rewrite lookup_insert_eq. by eexists.
Qed.

Lemma fixed_block_contract :
  alloc_contract (alloc (H := FixedSizeBlockAllocator F)) dealloc inv.
Proof.
  split.
  - intros [b al] m live l [Hf (chains & free & Hi)] Hl. cbn in Hf, Hi. subst b.
    destruct (alloc_contracted_fixed _ _ _ _ _ Hi Hl) as (p & [al' m'] & E & Hpr & Hcase).
    exists p, (Locked_new al'), m'. split; [by apply with_lock_free|]. split; [done|].
    destruct Hcase as [[-> Hi']|(? & ? & ? & ? & Hi')]; [left|right]; by split_and!.
  - intros [b al] m live p l [Hf (chains & free & Hi)] Hp. cbn in Hf, Hi. subst b.
    destruct (dealloc_contracted_fixed _ _ _ _ _ _ Hi Hp) as ([al' m'] & E & Hpr & Hi').
    exists (Locked_new al'), m'. split; [by apply with_lock_free|]. split; [done|]. by split.
  - intros [b al] m m' live [Hf (chains & free & Hi)] Hm. split; [done|].
    exists chains, free. pose proof Hi as [Hch Hlen Hnd Hfs Hd Hlv How Hfb]. cbn in *.
    split; cbn; try done.
    + eapply chains_frame; [done|]. intros j c a Hc Ha. apply Hm.
      apply (owned_node _ _ _ _ a Hi). exists (blk j). by eapply chain_free.
    + apply (ac_frame _ _ _ FC _ m _ _ Hfb). intros w Hw. apply Hm.
      intros Ht. apply Hw. by apply (touches_owned _ _ _ _ _ Hi).
Qed.

(** ** Theorems *)

Lemma fixed_init_inv lo sz m f m' :
  heap_init lo sz (heap_empty, m) = (Done tt, (f, m')) -> finv f m' ∅ ->
  init lo sz (new, m) = (Done tt, ({| list_heads := list_heads new; fallback_allocator := f |}, m')) /\
  inv (Locked_new {| list_heads := list_heads new; fallback_allocator := f |}) m' ∅.
Proof.
  intros E Hf. split; [by apply with_fallback_ok|]. split; [done|].
  exists (replicate 9 []), ∅. split; cbn.
  - by repeat constructor.
  - done.
  - repeat constructor.
  - intros p l. rewrite lookup_empty. split; [done|].
    intros (i & c & Hc & Hp & _).
    assert (c = []) as -> by (eapply (Forall_lookup_1 (fun c => c = [])); [|exact Hc]; by repeat constructor).
    by apply elem_of_nil in Hp.
  - apply map_disjoint_empty_l.
  - intros p l. by rewrite lookup_empty.
  - unfold owned. rewrite fmap_empty, map_union_empty. apply live_ok_empty.
  - unfold owned. by rewrite fmap_empty, map_union_empty.
Qed.

(** C11: over every history of client calls on a freshly initialised fixed-size
    block allocator, whatever fallback heap it uses as long as that heap meets
    the allocator contract, the blocks handed out are aligned and disjoint and
    no call panics (in particular [Layout::from_size_align(..).unwrap()], the
    two [assert!]s and the array accesses never fail), hangs or reads
    uninitialised memory. *)
Theorem fixed_block_history_safe lo sz m f m'
    (Hinit : heap_init lo sz (heap_empty, m) = (Done tt, (f, m'))) (Hf : finv f m' ∅) :
  exists al0, init lo sz (new, m) = (Done tt, (al0, m')) /\
  forall x m1 live, rtc (client_step alloc dealloc) (Locked_new al0, m', ∅) (x, m1, live) ->
    live_ok live /\
    (forall l, layout_ok l -> exists p s, alloc l (x, m1) = (Done p, s)) /\
    (forall p l, live !! p = Some l -> exists s, dealloc p l (x, m1) = (Done tt, s)).
Proof.
  destruct (fixed_init_inv lo sz m f m' Hinit Hf) as [E Hi].
  eexists. split; [exact E|]. intros x m1 live Hr.
  destruct (client_history alloc dealloc _ fixed_block_contract _ _ _ _ _ Hi Hr)
    as (? & _ & ? & ?). done.
Qed.

(** C30: where a block comes from.  In a well-formed state, a request of a size
    class whose free list holds a block is served by that block, the fallback
    heap being left alone; with the list empty the fallback heap is asked for a
    block of exactly the class size and alignment; a request above the largest
    class is passed to the fallback heap as it is. *)
Theorem fixed_block_alloc_spec al m live chains free l
    (Hi : fixed_inv (al, m) live chains free) :
  match list_index l with
  | Some i =>
      match chains !! i with
      | Some (a :: c) =>
          exists q, node_chain m q c /\
          alloc_body l (al, m) =
            (Done a, ({| list_heads := <[i := q]> (list_heads al);
                         fallback_allocator := fallback_allocator al |}, <[a := 0]> m))
      | _ => alloc_body l (al, m) = fallback_alloc (blk i) (al, m)
      end
  | None => alloc_body l (al, m) = fallback_alloc l (al, m)
  end.
Proof.
  destruct (list_index l) as [i|] eqn:Hli; [|by apply alloc_body_large].
  destruct (fixed_head _ _ _ _ _ _ Hi Hli) as (h & c & Hh & Hc & Hn). rewrite Hc.
  destruct c as [|a c].
  - simpl in Hn. subst h. by apply alloc_body_refill.
  - destruct Hn as (-> & H0 & H8 & q & Hq & Hn). exists q. split; [done|].
    by apply (alloc_body_pop l i a q (al, m)).
Qed.
End contract.

(** [list_index] picks the smallest class that can hold the layout: its
    block size is at least the size, is a multiple of the alignment, and every
    smaller class is too small; there is none exactly when the size or the
    alignment exceeds 2048. *)
Theorem list_index_spec l (Hv : valid_layout l) :
  match list_index l with
  | Some i =>
      exists s, BLOCK_SIZES !! i = Some s /\ size l <= s /\ (align l | s) /\
        forall j t, (j < i)%nat -> BLOCK_SIZES !! j = Some t -> t < Z.max (size l) (align l)
  | None => 2048 < Z.max (size l) (align l)
  end.
Proof.
  destruct Hv as (_ & Hp & _). unfold list_index.
  destruct (position _ BLOCK_SIZES) as [i|] eqn:E.
  - apply position_Some in E as (s & Hs & Hle & Hlt). apply Z.leb_le in Hle.
    destruct (block_sizes_lookup _ _ Hs) as (_ & Hps & _).
    exists s. split_and!; [done|lia|apply pow2_divide; (done || lia)|].
    intros j t Hj Ht. by apply Z.leb_gt, (Hlt j).
  - apply position_None in E. rewrite Forall_lookup in E.
    specialize (E 8%nat 2048 eq_refl). by apply Z.leb_gt.
Qed.

(** Blocks of a class are reused last in, first out.  Freeing a block and
    then allocating any layout of the same class returns that block and
    restores every free list and the fallback heap. *)
Theorem fixed_block_free_alloc_lifo al m p l l' i
    (Hlen : length (list_heads al) = length BLOCK_SIZES)
    (Hp : 0 < p /\ p mod 8 = 0) (Hl : list_index l = Some i) (Hl' : list_index l' = Some i) :
  exists al1 m1,
    dealloc p l (Locked_new al, m) = (Done tt, (Locked_new al1, m1)) /\
    alloc l' (Locked_new al1, m1) = (Done p, (Locked_new al, <[p := 0]> m)).
Proof.
  destruct Hp as [H0 H8]. destruct (list_index_Some _ _ Hl) as (b & Hb & _).
  apply lookup_lt_Some in Hb as Hlt. rewrite <- Hlen in Hlt.
  destruct (lookup_lt_is_Some_2 _ _ Hlt) as [h Hh].
  eexists _, _. split; [by apply with_lock_free, (dealloc_body_push p l i h (al, m))|].
  assert (E := alloc_body_pop l' i p h ((put_head i p (al, m)).1, <[p := h]> m) Hl'
                 (list_lookup_insert_eq _ _ _ Hlt) H0 H8 (lookup_insert_eq _ _ _)).
  etrans; [exact (with_lock_free _ _ _ _ _ _ E)|].
  cbn [fst snd put_head list_heads fallback_allocator].
  rewrite list_insert_insert_eq, insert_insert_eq, list_insert_id by done.
  by destruct al.
Qed.

End fixed_block.

(** ** The kernels' linked-list allocator as the fallback heap *)
Section linked_list_fallback.
Context `{BuildProfile}.

#[export] Instance linked_list_heap : FirstFitHeap LinkedListAllocator := {
  heap_empty := LinkedList.new;
  heap_init := LinkedList.init;
  allocate_first_fit l :=
    p ← LinkedList.alloc_body l;
    mret (if p =? 0 then None else Some p);
  deallocate := LinkedList.dealloc_body;
}.

Definition linked_list_inv (lo hi : Z) (al : LinkedListAllocator) (m : mem)
    (live : gmap Z Layout) : Prop :=
  exists rs, LinkedList.heap_inv lo hi (al, m) rs live.

Lemma first_fit_ptr_linked_list l s : first_fit_ptr l s = LinkedList.alloc_body l s.
Proof.
  unfold first_fit_ptr. cbn [allocate_first_fit linked_list_heap].
  rewrite bind_assoc. unfold mbind, M_bind.
  destruct (LinkedList.alloc_body l s) as [[p|f| | |] s']; try done.
  unfold mret, M_ret. by destruct (Z.eqb_spec p 0) as [->|].
Qed.

Lemma linked_list_fallback_contract lo hi :
  LinkedList.heap_ok lo hi ->
  alloc_contract first_fit_ptr deallocate (linked_list_inv lo hi).
Proof.
  intros Hh. split.
  - intros al m live l [rs Hi] Hl.
    destruct (LinkedList.alloc_contracted _ _ _ _ _ _ Hh Hi Hl) as (p & [al' m'] & E & Hpr & Hcase).
    exists p, al', m'. split; [by rewrite first_fit_ptr_linked_list|]. split; [done|].
    destruct Hcase as [[-> [= -> ->]]|(? & ? & ? & ? & rs' & ?)].
    + left. split; [done|]. by exists rs.
    + right. split_and!; [done..|]. by exists rs'.
  - intros al m live p l [rs Hi] Hp.
    destruct (LinkedList.dealloc_contracted _ _ _ _ _ _ _ Hh Hi Hp) as (E & Hpr & Hi').
    eexists _, _. split; [exact E|]. split; [done|]. by eexists.
  - intros al m m' live [rs Hi] Hm. exists rs. by apply (LinkedList.heap_inv_frame lo hi al m).
Qed.
End linked_list_fallback.

(** ** Witnesses *)
Section witnesses.
#[local] Instance dev_profile : BuildProfile := true.

Definition fw : LinkedListAllocator * mem := LinkedList.push_region HEAP_START 65536 (LinkedList.new, ∅).

Lemma fw_heap_ok : LinkedList.heap_ok HEAP_START (HEAP_START + 65536).
Proof. split; cbv; congruence. Qed.

Lemma fw_init :
  heap_init HEAP_START 65536 (heap_empty, ∅) = (Done tt, (fw.1, fw.2)) /\
  linked_list_inv HEAP_START (HEAP_START + 65536) fw.1 fw.2 ∅.
Proof.
  destruct (LinkedList.list_init_inv HEAP_START 65536 ∅ fw_heap_ok) as [E Hi].
  - by exists (HEAP_START / 8).
  - by exists 8192.
  - cbv; congruence.
  - split; [exact E|]. by eexists.
Qed.

Definition fl : Layout := {| size := 20; align := 8 |}.

Lemma fixed_block_history_safe_witness :
  exists al0, init HEAP_START 65536 (new, ∅) = (Done tt, (al0, fw.2)) /\
    exists p s, alloc fl (Locked_new al0, fw.2) = (Done p, s).
Proof.
  destruct (fixed_block_history_safe _ (linked_list_fallback_contract _ _ fw_heap_ok)
              HEAP_START 65536 ∅ fw.1 fw.2 (proj1 fw_init) (proj2 fw_init)) as (al0 & E & Hsafe).
  exists al0. split; [exact E|].
  destruct (Hsafe (Locked_new al0) fw.2 ∅ (rtc_refl _ _)) as (_ & Ha & _).
  apply Ha. apply (bool_decide_unpack _). vm_compute. exact I.
Defined.

Lemma fixed_block_alloc_spec_witness :
  alloc_body fl ({| list_heads := list_heads new; fallback_allocator := fw.1 |}, fw.2)
  = fallback_alloc {| size := 32; align := 32 |}
      ({| list_heads := list_heads new; fallback_allocator := fw.1 |}, fw.2).
Proof.
  destruct (fixed_init_inv _ HEAP_START 65536 ∅ fw.1 fw.2 (proj1 fw_init) (proj2 fw_init))
    as (_ & _ & chains & free & Hi).
  pose proof (fixed_block_alloc_spec _ _ _ _ _ _ fl Hi) as T.
  change (list_index fl) with (Some 2%nat) in T. cbn beta iota in T.
  destruct (Forall2_lookup_l _ _ _ 2%nat 0 (fi_chains _ _ _ _ _ Hi) eq_refl) as (c & Hc & Hn).
  rewrite Hc in T. destruct c as [|a c]; [exact T|].
  destruct Hn as (<- & Hpos & _). discriminate Hpos.
Defined.

Lemma list_index_spec_witness :
  valid_layout fl /\ exists s, BLOCK_SIZES !! 2%nat = Some s /\ size fl <= s.
Proof.
  assert (Hv : valid_layout fl) by (apply (bool_decide_unpack _); vm_compute; exact I).
  split; [exact Hv|]. pose proof (list_index_spec fl Hv) as T.
  change (list_index fl) with (Some 2%nat) in T. destruct T as (s & Hs & Hle & _).
  exists s. split; [exact Hs|exact Hle].
Defined.

Lemma fixed_block_free_alloc_lifo_witness :
  exists al1 m1,
    dealloc HEAP_START fl (Locked_new (new (F := LinkedListAllocator)), ∅)
      = (Done tt, (Locked_new al1, m1)) /\
    alloc {| size := 32; align := 1 |} (Locked_new al1, m1)
      = (Done HEAP_START, (Locked_new new, {[HEAP_START := 0]})).
Proof.
  apply (fixed_block_free_alloc_lifo new ∅ HEAP_START fl {| size := 32; align := 1 |} 2).
  - reflexivity.
  - split; reflexivity.
  - reflexivity.
  - reflexivity.
Defined.
End witnesses.
End FixedBlock.
