(* ===== verification/X86.v ===== *)
(** * Hardware and third-party interfaces

    What the kernels use of the machine and of the crates [x86_64] and
    [bootloader], none of which is under src/: address types, page-table
    mapping, port I/O.  The crates' functions are operations of classes, the
    documented behaviour the kernels rely on is stated as laws, and [std_addr]
    and the instances at the end show that the laws can be met. *)

From S2P Require Import Prelude.

(** ** Addresses, pages and frames

    [PhysFrame] and [Page] are represented by their start addresses. *)
Class Addresses := {
  PhysAddr_new : Z -> outcome Z;
  VirtAddr_new : Z -> outcome Z;
  (** [VirtAddr + u64] *)
  VirtAddr_add : Z -> Z -> outcome Z;
  PhysFrame_containing_address : Z -> Z;
  Page_containing_address : Z -> Z;
}.

Definition page_size : Z := 4096.

(** The lower canonical half. *)
Definition canonical_low (a : Z) : Prop := 0 <= a < 2 ^ 47.

Class AddressLaws `{Addresses} : Prop := {
  PhysAddr_new_ok a : 0 <= a < 2 ^ 52 -> PhysAddr_new a = Done a;
  VirtAddr_new_ok a : canonical_low a -> VirtAddr_new a = Done a;
  VirtAddr_add_ok a b : canonical_low (a + b) -> canonical_low a -> VirtAddr_add a b = Done (a + b);
  PhysFrame_containing_ok a : PhysFrame_containing_address a = a - a mod page_size;
  Page_containing_ok a : Page_containing_address a = a - a mod page_size;
}.

(** ** Page-table flags: the two the kernels set *)
Definition PRESENT : Z := 1.
Definition WRITABLE : Z := 2.

(** ** Events

    What the kernels do to the outside, in order: port accesses with the value
    written or read, console lines (the format string and its arguments),
    end-of-interrupt commands, privileged instructions and page-table updates. *)
Inductive width := W8 | W16 | W32.

#[export] Instance width_eq_dec : EqDecision width.
Proof. solve_decision. Defined.

Definition bits (w : width) : Z := match w with W8 => 8 | W16 => 16 | W32 => 32 end.

Inductive event :=
  | Out (w : width) (port value : Z)
  | In (w : width) (port value : Z)
  | Println (fmt : string) (args : list Z)
  | Eoi (irq : Z)
  | Instr (name : string) (args : list Z)
  | MapTo (page frame flags : Z)
  | Flush (page : Z).

#[export] Instance event_eq_dec : EqDecision event.
Proof. solve_decision. Defined.

(** ** Devices

    The devices behind the ports are a state machine the driver talks to. *)
Class Device (D : Type) := {
  dev_out : width -> Z -> Z -> D -> D;
  dev_in : width -> Z -> D -> Z * D;
}.

Record io (D : Type) := { dev : D; trace : list event }.
Arguments dev {D}.
Arguments trace {D}.
Arguments Build_io {D}.

Section ports.
Context `{Device D}.

Definition emit (e : event) : M (io D) unit :=
  modify (fun s => {| dev := dev s; trace := trace s ++ [e] |}).

Definition port_write (w : width) (port v : Z) : M (io D) unit := fun s =>
  (Done tt, {| dev := dev_out w port v (dev s); trace := trace s ++ [Out w port v] |}).

Definition port_read (w : width) (port : Z) : M (io D) Z := fun s =>
  let '(v, d) := dev_in w port (dev s) in
  (Done v, {| dev := d; trace := trace s ++ [In w port v] |}).

Definition println (fmt : string) (args : list Z) : M (io D) unit := emit (Println fmt args).

Lemma port_read_eq w port s :
  port_read w port s =
    (Done (dev_in w port (dev s)).1,
     {| dev := (dev_in w port (dev s)).2;
        trace := trace s ++ [In w port (dev_in w port (dev s)).1] |}).
Proof. unfold port_read. by destruct (dev_in w port (dev s)). Qed.
End ports.

(** ** A concrete reading of the address types *)
#[export] Instance std_addr : Addresses := {
  PhysAddr_new a := if bool_decide (0 <= a < 2 ^ 52) then Done a else Panic ExplicitPanic;
  VirtAddr_new a := if bool_decide (canonical_low a) then Done a else Panic ExplicitPanic;
  VirtAddr_add a b := if bool_decide (canonical_low (a + b)) then Done (a + b) else Panic ExplicitPanic;
  PhysFrame_containing_address a := a - a mod page_size;
  Page_containing_address a := a - a mod page_size;
}.

#[export] Instance std_addr_laws : AddressLaws (H := std_addr).
Proof.
  split; try done; cbn -[Z.pow].
  - intros a Ha. by rewrite bool_decide_true.
  - intros a Ha. by rewrite bool_decide_true.
  - intros a b Ha _. by rewrite bool_decide_true.
Qed.
