(* ===== verification/Frames.v ===== *)
(** * The frame allocators (src/something_os/src/memory.rs)

    [BootInfoFrameAllocator] hands out the usable frames of the bootloader's
    memory map in order, recomputing the list of frames on every call. *)

From S2P Require Import Prelude X86.

(** ** The memory map

    The bootloader's regions, as the code reads them: the values of
    [range.start_addr()] and [range.end_addr()], and whether the region type is
    [MemoryRegionType::Usable]. *)
Record MemoryRegion := { range_start : Z; range_end : Z; usable : bool }.

Record BootInfoFrameAllocator := { memory_map : list MemoryRegion; next : Z }.

Module Frames.
Section frames.
Context `{BuildProfile} `{Addresses}.

(** [(start..end).step_by(step)]. *)
Definition step_by (lo hi step : Z) : list Z :=
  (fun k => lo + step * Z.of_nat k) <$> seq 0 (Z.to_nat ((hi - lo + step - 1) / step)).

Definition init (map : list MemoryRegion) : BootInfoFrameAllocator :=
  {| memory_map := map; next := 0 |}.

(** The iterator chain of [usable_frames], up to the start addresses. *)
Definition frame_addresses (map : list MemoryRegion) : list Z :=
  let usable_regions := filter (fun r => usable r = true) map in
  let addr_ranges := (fun r => (range_start r, range_end r)) <$> usable_regions in
  r ← addr_ranges;
  step_by r.1 r.2 page_size.

(** [nth] of the mapped iterator: the closure runs on every element passed over. *)
Fixpoint frames_nth (addrs : list Z) (n : nat) : outcome (option Z) :=
  match addrs with
  | [] => mret None
  | addr :: addrs =>
      phys ← PhysAddr_new addr;
      let frame := PhysFrame_containing_address phys in
      match n with
      | O => mret (Some frame)
      | S n => frames_nth addrs n
      end
  end.

Definition allocate_frame : M BootInfoFrameAllocator (option Z) :=
  self ← gets id;
  frame ← lift (frames_nth (frame_addresses (memory_map self)) (Z.to_nat (next self)));
  next' ← lift (uadd 64 (next self) 1);
  _ ← modify (fun s => {| memory_map := memory_map s; next := next' |});
  mret frame.

(** [EmptyFrameAllocator]. *)
Definition empty_allocate_frame : M unit (option Z) := mret None.

(** ** Lists of frames *)
Lemma elem_of_step_by lo hi step x :
  0 < step -> x ∈ step_by lo hi step <-> exists k, 0 <= k /\ x = lo + step * k /\ x < hi.
Proof.
  intros Hs. unfold step_by. rewrite list_elem_of_fmap. split.
  - intros (k & -> & Hk%elem_of_seq). exists (Z.of_nat k). split_and!; [lia|done|].
    assert (Z.of_nat k < (hi - lo + step - 1) / step) by lia.
    assert (step * (Z.of_nat k + 1) <= hi - lo + step - 1); [|lia].
    pose proof (Z.mul_div_le (hi - lo + step - 1) step Hs). nia.
  - intros (k & Hk & -> & Hlt). exists (Z.to_nat k). split; [f_equal; lia|].
    apply elem_of_seq. split; [lia|].
    assert (k + 1 <= (hi - lo + step - 1) / step) by (apply Z.div_le_lower_bound; lia). lia.
Qed.

Lemma NoDup_step_by lo hi step : 0 < step -> NoDup (step_by lo hi step).
Proof.
  intros Hs. unfold step_by. apply NoDup_fmap_2_strong; [|apply NoDup_seq].
  intros i j _ _ E. assert (step * (Z.of_nat i - Z.of_nat j) = 0) by lia. nia.
Qed.

(** A memory map as the bootloader provides it: page-aligned regions below the
    physical address limit, no two of which overlap. *)
Definition region_ok (r : MemoryRegion) : Prop :=
  0 <= range_start r /\ range_end r <= 2 ^ 52 /\
  range_start r mod page_size = 0 /\ range_end r mod page_size = 0.

Definition regions_disj (r s : MemoryRegion) : Prop :=
  range_end r <= range_start s \/ range_end s <= range_start r.

Fixpoint map_disjoint_regions (map : list MemoryRegion) : Prop :=
  match map with
  | [] => True
  | r :: map => Forall (regions_disj r) map /\ map_disjoint_regions map
  end.

Definition map_ok (map : list MemoryRegion) : Prop := Forall region_ok map /\ map_disjoint_regions map.

#[export] Instance map_ok_dec map : Decision (map_ok map).
Proof.
  unfold map_ok. apply and_dec.
  - apply Forall_dec. intros r. unfold region_ok. apply _.
  - induction map as [|r map IH]; [by left|]. apply and_dec; [|done].
    apply Forall_dec. intros s. unfold regions_disj. apply _.
Defined.

(** A frame lies inside a usable region of the map. *)
Definition frame_usable (map : list MemoryRegion) (f : Z) : Prop :=
  exists r, r ∈ map /\ usable r = true /\ range_start r <= f /\ f + page_size <= range_end r.

Lemma elem_of_frame_addresses map a :
  a ∈ frame_addresses map <->
  exists r, r ∈ map /\ usable r = true /\ a ∈ step_by (range_start r) (range_end r) page_size.
Proof.
  unfold frame_addresses. rewrite list_elem_of_bind. split.
  - intros (r & Ha & (r' & -> & Hr)%list_elem_of_fmap). apply list_elem_of_filter in Hr as [? ?].
    by exists r'.
  - intros (r & Hr & Hu & Ha). exists (range_start r, range_end r). split; [done|].
    apply list_elem_of_fmap. exists r. split; [done|]. by apply list_elem_of_filter.
Qed.

Lemma frame_address_ok map a :
  Forall region_ok map -> a ∈ frame_addresses map ->
  a mod page_size = 0 /\ 0 <= a < 2 ^ 52 /\ frame_usable map a.
Proof.
  intros Hm (r & Hr & Hu & Ha)%elem_of_frame_addresses.
  rewrite Forall_forall in Hm. destruct (Hm r Hr) as (H1 & H2 & H3 & H4).
  apply elem_of_step_by in Ha as (k & Hk & -> & Hlt); [|done]. unfold page_size in *.
  assert (Ha : (range_start r + 4096 * k) mod 4096 = 0).
  { rewrite Z.mul_comm, Z.mod_add by done. done. }
  split_and!; [done|lia|lia|]. exists r. split_and!; [done|done|lia|].
  unfold page_size. pose proof (Z.div_mod (range_start r + 4096 * k) 4096 ltac:(done)).
  pose proof (Z.div_mod (range_end r) 4096 ltac:(done)). lia.
Qed.

Lemma frame_addresses_cons r map :
  frame_addresses (r :: map) =
    (if usable r then step_by (range_start r) (range_end r) page_size else [])
    ++ frame_addresses map.
Proof.
  unfold frame_addresses. rewrite filter_cons. by destruct (usable r).
Qed.

Lemma NoDup_frame_addresses map : map_ok map -> NoDup (frame_addresses map).
Proof.
  intros [Hm Hd]. induction map as [|r map IH]; [constructor|].
  apply Forall_cons in Hm as [Hr Hm]. destruct Hd as [Hf Hd].
  rewrite frame_addresses_cons. apply NoDup_app. split_and!.
  - destruct (usable r); [by apply NoDup_step_by|constructor].
  - intros a Ha (s & Hs & _ & Has)%elem_of_frame_addresses.
    destruct (usable r); [|by apply elem_of_nil in Ha].
    apply elem_of_step_by in Ha as (j & Hj & E1 & L1); [|done].
    apply elem_of_step_by in Has as (k & Hk & E2 & L2); [|done].
    rewrite Forall_forall in Hf. specialize (Hf s Hs). unfold regions_disj, page_size in *. lia.
  - by apply IH.
Qed.

(** ** The allocator *)
Section laws.
Context {AL : AddressLaws}.

(** There are at most as many frames as physical addresses of 52 bits allow. *)
Lemma frame_addresses_bound map : map_ok map -> Z.of_nat (length (frame_addresses map)) <= 2 ^ 40.
Proof.
  intros Hm. pose (all := (fun i => page_size * Z.of_nat i) <$> seq 0 (Z.to_nat (2 ^ 40))).
  assert (Hsub : frame_addresses map ⊆+ all).
  { apply NoDup_submseteq; [by apply NoDup_frame_addresses|]. intros f Hf.
    destruct (frame_address_ok _ _ (proj1 Hm) Hf) as (Hal & Hr & _). apply list_elem_of_fmap.
    exists (Z.to_nat (f / page_size)). unfold page_size in *.
    pose proof (Z.div_mod f 4096 ltac:(done)). pose proof (Z.div_pos f 4096 ltac:(lia) ltac:(done)).
    split; [lia|]. apply elem_of_seq. lia. }
  apply submseteq_length in Hsub. unfold all in Hsub. rewrite length_fmap, length_seq in Hsub. lia.
Qed.

Lemma frames_nth_ok addrs n :
  Forall (fun a => a mod page_size = 0 /\ 0 <= a < 2 ^ 52) addrs ->
  frames_nth addrs n = Done (addrs !! n).
Proof.
  intros Hf. revert n. induction Hf as [|a addrs [Ha Hr] Hf IH]; intros n; [done|].
  simpl. rewrite PhysAddr_new_ok by done. simpl.
  destruct n as [|n]; [|apply IH]. simpl.
  rewrite PhysFrame_containing_ok, Ha. unfold mret, outcome_ret. by rewrite Z.sub_0_r.
Qed.

Lemma allocate_frame_eq fa :
  Forall region_ok (memory_map fa) -> 0 <= next fa < 2 ^ 64 - 1 ->
  allocate_frame fa =
    (Done (frame_addresses (memory_map fa) !! Z.to_nat (next fa)),
     {| memory_map := memory_map fa; next := next fa + 1 |}).
Proof.
  intros Hm Hn. unfold allocate_frame. rewrite gets_bind. unfold id.
  rewrite (lift_bind _ _ _ (frame_addresses (memory_map fa) !! Z.to_nat (next fa))).
  2:{ apply frames_nth_ok, Forall_forall. intros a Ha.
      destruct (frame_address_ok _ _ Hm Ha) as (? & ? & _). done. }
  by rewrite (lift_bind _ _ _ _ (uadd_ok 64 (next fa) 1 ltac:(lia))).
Qed.

(** [n] calls in a row. *)
Fixpoint allocate_frames (n : nat) : M BootInfoFrameAllocator (list (option Z)) :=
  match n with
  | O => mret []
  | S n => f ← allocate_frame; fs ← allocate_frames n; mret (f :: fs)
  end.

Lemma allocate_frames_eq n fa :
  Forall region_ok (memory_map fa) -> 0 <= next fa -> next fa + Z.of_nat n < 2 ^ 64 ->
  allocate_frames n fa =
    (Done ((fun i => frame_addresses (memory_map fa) !! i) <$> seq (Z.to_nat (next fa)) n),
     {| memory_map := memory_map fa; next := next fa + Z.of_nat n |}).
Proof.
  intros Hm. revert fa Hm. induction n as [|n IH]; intros fa Hm Hnx Hn.
  { destruct fa as [map k]. cbn. by rewrite Z.add_0_r. }
  cbn [allocate_frames]. rewrite (bind_done _ _ _ _ _ (allocate_frame_eq fa Hm ltac:(lia))).
  rewrite (bind_done _ _ _ _ _ (IH {| memory_map := memory_map fa; next := next fa + 1 |} Hm
    ltac:(cbn; lia) ltac:(cbn; lia))). cbn.
  replace (Z.to_nat (next fa + 1)) with (S (Z.to_nat (next fa))) by lia.
  by replace (next fa + 1 + Z.of_nat n) with (next fa + Z.of_nat (S n)) by lia.
Qed.

(** Looking up the first [n] positions of a list. *)
Lemma lookups_prefix {A} (l : list A) n :
  (fun i => l !! i) <$> seq 0 n = (Some <$> take n l) ++ replicate (n - length l) None.
Proof.
  apply list_eq. intros i. rewrite list_lookup_fmap.
  destruct (decide (i < n)%nat) as [Hi|Hi].
  - rewrite (proj2 (lookup_seq 0 n i i)) by lia. simpl.
    destruct (decide (i < length l)%nat) as [Hl|Hl].
    + rewrite lookup_app_l by (rewrite length_fmap, length_take; lia).
      rewrite list_lookup_fmap, lookup_take_lt by done.
      by destruct (lookup_lt_is_Some_2 l i Hl) as [x ->].
    + rewrite (lookup_ge_None_2 l i) by lia.
      rewrite lookup_app_r by (rewrite length_fmap, length_take; lia).
      by rewrite length_fmap, length_take, lookup_replicate_2 by lia.
  - rewrite (lookup_ge_None_2 (seq 0 n)) by (rewrite length_seq; lia). symmetry.
    apply lookup_ge_None_2. rewrite length_app, length_fmap, length_take, length_replicate. lia.
Qed.

(** The usable frames, said without the iterator chain: of each usable region,
    in the order of the map, the frames of all its page numbers, ascending. *)
Definition region_frames (r : MemoryRegion) : list Z :=
  (fun k => page_size * k) <$> seqZ (range_start r / page_size) (range_end r / page_size - range_start r / page_size).

Definition usable_frames (map : list MemoryRegion) : list Z :=
  concat ((fun r => if usable r then region_frames r else []) <$> map).

Lemma step_by_region r : region_ok r -> step_by (range_start r) (range_end r) page_size = region_frames r.
Proof.
  intros (Hlo & Hhi & Hs & He). unfold step_by, region_frames, seqZ, page_size in *. rewrite <- list_fmap_compose.
  pose proof (Z.div_mod (range_start r) 4096 ltac:(done)). pose proof (Z.div_mod (range_end r) 4096 ltac:(done)).
  replace ((range_end r - range_start r + 4096 - 1) / 4096) with (range_end r / 4096 - range_start r / 4096).
  2:{ apply (Z.div_unique _ _ _ 4095); lia. }
  apply list_fmap_ext. intros i k _. cbn. lia.
Qed.

Lemma frame_addresses_eq map : Forall region_ok map -> frame_addresses map = usable_frames map.
Proof.
  induction 1 as [|r map Hr Hm IH]; [done|]. rewrite frame_addresses_cons, IH. unfold usable_frames. cbn [fmap list_fmap concat].
  destruct (usable r); [by rewrite step_by_region|done].
Qed.

(** Every page-aligned address inside a usable region is there. *)
Lemma elem_of_usable_frames map f :
  Forall region_ok map -> f ∈ usable_frames map <-> (page_size | f) /\ frame_usable map f.
Proof.
  intros Hm. rewrite <- frame_addresses_eq by done. split.
  - intros Hf. destruct (frame_address_ok _ _ Hm Hf) as (? & _ & ?). split; [by apply Z.mod_divide|done].
  - intros [[k Hk] (r & Hr & Hu & Hlo & Hhi)]. apply elem_of_frame_addresses. exists r. split_and!; [done..|].
    apply elem_of_step_by; [done|]. rewrite Forall_forall in Hm. destruct (Hm r Hr) as (_ & _ & Hs & _).
    unfold page_size in *. pose proof (Z.div_mod (range_start r) 4096 ltac:(done)).
    exists (k - range_start r / 4096). lia.
Qed.

(** C22: the frame allocator on a well-formed memory map.  [n] calls on a fresh
    allocator return the first [n] usable frames, region by region in map order
    and ascending in each, then [None] for ever.  No frame is left out: these
    are all page-aligned addresses of which the whole page lies in a usable
    region; and no frame is returned twice. *)
Theorem allocate_frames_spec map n (Hm : map_ok map) (Hn : Z.of_nat n < 2 ^ 64) :
  exists fs, allocate_frames n (init map)
             = (Done fs, {| memory_map := map; next := Z.of_nat n |}) /\
    fs = (Some <$> take n (usable_frames map)) ++ replicate (n - length (usable_frames map)) None /\
    (forall f, f ∈ usable_frames map <-> (page_size | f) /\ frame_usable map f) /\
    (forall i j f, fs !! i = Some (Some f) -> fs !! j = Some (Some f) -> i = j) /\
    (forall i f, fs !! i = Some (Some f) -> (page_size | f) /\ frame_usable map f).
Proof.
  rewrite <- (frame_addresses_eq map) by apply Hm. set (frames := frame_addresses map). eexists. split.
  { exact (allocate_frames_eq n (init map) (proj1 Hm) ltac:(done) Hn). }
  cbn [memory_map next init]. change (Z.to_nat 0) with O. fold frames.
  assert (Hlook : forall i f, ((fun i => frames !! i) <$> seq 0 n) !! i = Some (Some f) ->
                    frames !! i = Some f).
  { intros i f. rewrite list_lookup_fmap, fmap_Some. intros (k & Hk & E).
    apply lookup_seq in Hk as [-> _]. done. }
  assert (Hin : forall f, f ∈ frames <-> (page_size | f) /\ frame_usable map f).
  { intros f. unfold frames. rewrite frame_addresses_eq by apply Hm. by apply elem_of_usable_frames, Hm. }
  split_and!.
  - apply lookups_prefix.
  - exact Hin.
  - intros i j f Hi%Hlook Hj%Hlook. eapply NoDup_lookup; [|done..]. by apply NoDup_frame_addresses.
  - intros i f Hi%Hlook%list_elem_of_lookup_2. by apply Hin.
Qed.
End laws.

(** The allocator recomputes the list on every call, and counts calls rather
    than frames: each call, successful or not, advances [next] by one, up to the
    overflow of the counter, where the dev profile panics. *)
Theorem allocate_frame_counts {AL : AddressLaws} fa (Hm : map_ok (memory_map fa)) (Hn : in_range 64 (next fa)) :
  if bool_decide (next fa = 2 ^ 64 - 1) then
    (allocate_frame fa).1 = (if overflow_checks then Panic ArithmeticOverflow else
       Done (frame_addresses (memory_map fa) !! Z.to_nat (next fa)))
  else
    (allocate_frame fa).1 = Done (frame_addresses (memory_map fa) !! Z.to_nat (next fa)) /\
    next (allocate_frame fa).2 = next fa + 1 /\ memory_map (allocate_frame fa).2 = memory_map fa.
Proof.
  unfold in_range in Hn. case_bool_decide as E.
  - unfold allocate_frame. rewrite gets_bind. unfold id.
    rewrite (lift_bind _ _ _ (frame_addresses (memory_map fa) !! Z.to_nat (next fa))).
    2:{ apply frames_nth_ok, Forall_forall. intros a Ha.
        destruct (frame_address_ok _ _ (proj1 Hm) Ha) as (? & ? & _). done. }
    unfold uadd. destruct overflow_checks eqn:Ec.
    + rewrite overflowing_dev by (done || lia). done.
    + rewrite overflowing_release by done. done.
  - rewrite allocate_frame_eq by (try apply Hm; lia). done.
Qed.
End frames.

(** ** Witnesses: two usable regions around a reserved one *)
Definition wmap : list MemoryRegion := [
  {| range_start := 0; range_end := 0x1000; usable := false |};
  {| range_start := 0x1000; range_end := 0x3000; usable := true |};
  {| range_start := 0x3000; range_end := 0x8000; usable := false |};
  {| range_start := 0x8000; range_end := 0x9000; usable := true |} ].

Lemma wmap_ok : map_ok wmap.
Proof. apply (bool_decide_unpack _). vm_compute. exact I. Qed.

Lemma allocate_frames_spec_witness :
  allocate_frames (H := true) (H0 := std_addr) 5 (init wmap)
  = (Done [Some 0x1000; Some 0x2000; Some 0x8000; None; None],
     {| memory_map := wmap; next := 5 |}).
Proof.
  destruct (allocate_frames_spec (H := true) (H0 := std_addr) wmap 5 wmap_ok eq_refl)
    as (fs & E & -> & _).
  rewrite E. reflexivity.
Defined.

Lemma allocate_frame_counts_witness :
  (allocate_frame (H := true) (H0 := std_addr) {| memory_map := wmap; next := 2 ^ 64 - 1 |}).1
  = Panic ArithmeticOverflow.
Proof.
  assert (Hr : in_range 64 (2 ^ 64 - 1)) by (unfold in_range; lia).
  exact (allocate_frame_counts (H := true) (H0 := std_addr)
           {| memory_map := wmap; next := 2 ^ 64 - 1 |} wmap_ok Hr).
Defined.
End Frames.
