(* ===== verification/Paging.v ===== *)
(** * Demand paging of the heap

    [memory::init] and [init_global_memory] (memory.rs, main.rs), the page-fault
    handler (interrupt/handlers.rs), which maps heap pages on first access, and
    [virt_to_phys_u32] (main.rs of the networking kernel).  The page table
    itself is the [x86_64] crate's [OffsetPageTable]: a class of operations. *)

From S2P Require Import Prelude Store Allocator X86 Frames.

(** ** The page-table mapper of the [x86_64] crate *)
Class PageMapper (Mp : Type) := {
  (** [OffsetPageTable::new(level_4_table, offset)], the table by its address. *)
  OffsetPageTable_new : Z -> Z -> Mp;
  (** [map_to(page, frame, flags, frame_allocator)]: [true] is [Ok(flush)]. *)
  map_to : Z -> Z -> Z -> M (Mp * BootInfoFrameAllocator) bool;
  translate_addr : Mp -> Z -> option Z;
  (** [WRITABLE] among the flags that [translate] finds *)
  is_writable : Mp -> Z -> bool;
}.

(** A present page can be mapped: [map_to] returns; it takes at most three
    frames from the allocator, for intermediate tables, and does nothing else to
    it; when it succeeds the page translates to the frame and the translations
    of other pages stand. *)
Class PageMapperLaws (Mp : Type) `{PageMapper Mp} : Prop := {
  map_to_returns page frame flags mp fa :
    page mod page_size = 0 -> frame mod page_size = 0 -> Z.testbit flags 0 = true ->
    Frames.map_ok (memory_map fa) -> 0 <= next fa < 2 ^ 64 - 4 ->
    exists ok mp' fa', map_to page frame flags (mp, fa) = (Done ok, (mp', fa')) /\
      memory_map fa' = memory_map fa /\ next fa <= next fa' <= next fa + 3 /\
      (ok = true ->
         (forall off, 0 <= off < page_size -> translate_addr mp' (page + off) = Some (frame + off)) /\
         (forall a b, ~ (page <= a < page + page_size) -> translate_addr mp a = Some b ->
            translate_addr mp' a = Some b));
}.

Module Paging.
Section paging.
Context `{BuildProfile} `{Addresses} `{PageMapper Mp}.

(** The statics [MAPPER] and [FRAME_ALLOCATOR], and the events. *)
Abbreviation statics := (Locked (option Mp) * (Locked (option BootInfoFrameAllocator) * list event))%type.

(** ** Initialisation *)

(** [active_level_4_table]: the address of the table, from [Cr3] and the offset. *)
Definition active_level_4_table (cr3_frame physical_memory_offset : Z) : outcome Z :=
  VirtAddr_add physical_memory_offset cr3_frame.

Definition memory_init (cr3_frame physical_memory_offset : Z) : outcome Mp :=
  level_4_table ← active_level_4_table cr3_frame physical_memory_offset;
  mret (OffsetPageTable_new level_4_table physical_memory_offset).

(** [*STATIC.lock() = Some(v)]. *)
Definition store_static {A X} (v : A) : M (Locked (option A) * X) unit :=
  with_lock (modify (fun s => (Some v, s.2))).

Definition init_global_memory (cr3_frame phys_mem_offset : Z) (map : list MemoryRegion)
    : M statics unit :=
  mapper ← lift (memory_init cr3_frame phys_mem_offset);
  let frame_allocator := Frames.init map in
  _ ← store_static mapper;
  zoom snd (fun t s => (s.1, t)) (store_static frame_allocator).

(** ** The page-fault handler *)

(** [if let (Some(mapper), Some(frame_allocator)) = ..]. *)
Definition if_both {B} (d : B) (c : M (BootInfoFrameAllocator * (Mp * list event)) B)
    : M (option BootInfoFrameAllocator * (option Mp * list event)) B := fun s =>
  match s with
  | (Some fa, (Some mp, tr)) =>
      let '(o, (fa, (mp, tr))) := c (fa, (mp, tr)) in (o, (Some fa, (Some mp, tr)))
  | _ => (Done d, s)
  end.

Definition emit_ {A B} (e : event) : M (A * (B * list event)) unit :=
  modify (fun s => (s.1, (s.2.1, s.2.2 ++ [e]))).

(** The page is mapped to a fresh frame; [true] when the handler may return. *)
Definition map_heap_page (accessed_address : Z) : M (BootInfoFrameAllocator * (Mp * list event)) bool :=
  let page := Page_containing_address accessed_address in
  frame ← zoom fst (fun fa s => (fa, s.2)) Frames.allocate_frame;
  match frame with
  | None => mret false
  | Some frame =>
      let flags := Z.lor PRESENT WRITABLE in
      _ ← emit_ (MapTo page frame flags);
      ok ← zoom (fun s => (s.2.1, s.1)) (fun t s => (t.2, (t.1, s.2.2))) (map_to page frame flags);
      if ok : bool then
        _ ← emit_ (Flush page);
        mret true
      else mret false
  end.

(** Both locks are taken, [MAPPER] first, and dropped when the block ends. *)
Definition fault_in_heap (accessed_address : Z) : M statics bool :=
  with_lock
    (zoom (fun s => (s.2.1, (s.1, s.2.2))) (fun t _ => (t.2.1, (t.1, t.2.2)))
       (with_lock (if_both false (map_heap_page accessed_address)))).

Definition page_fault_handler (accessed_address error_code : Z) (stack_frame : list Z)
    : M statics unit :=
  heap_start ← lift (VirtAddr_new HEAP_START);
  heap_end ← lift (VirtAddr_add heap_start HEAP_SIZE);
  handled ← (if bool_decide (heap_start <= accessed_address) && bool_decide (accessed_address < heap_end)
             then fault_in_heap accessed_address else mret false);
  if handled : bool then mret tt
  else
    _ ← emit_ (Println "EXCEPTION: PAGE FAULT" []);
    _ ← emit_ (Println "Accessed Address: {:?}" [accessed_address]);
    _ ← emit_ (Println "Error Code: {:?}" [error_code]);
    _ ← emit_ (Println "{:#?}" stack_frame);
    panic ExplicitPanic.

(** ** [virt_to_phys_u32] *)
Definition virt_to_phys_u32 (mapper : Mp) (vaddr_ptr : Z) : outcome Z :=
  virt_addr ← VirtAddr_new vaddr_ptr;
  match translate_addr mapper virt_addr with
  | Some phys_addr => mret (wrap 32 phys_addr)
  | None => Panic ExplicitPanic
  end.

(** ** Behaviour *)
Context {AL : AddressLaws} {ML : PageMapperLaws Mp}.

Definition in_heap (a : Z) : Prop := HEAP_START <= a < HEAP_START + HEAP_SIZE.

Lemma heap_bounds_ok {S A} (k : Z -> Z -> M S A) s :
  (heap_start ← lift (VirtAddr_new HEAP_START);
   heap_end ← lift (VirtAddr_add heap_start HEAP_SIZE);
   k heap_start heap_end) s = k HEAP_START (HEAP_START + HEAP_SIZE) s.
Proof.
  assert (canonical_low HEAP_START) by (unfold canonical_low; cbv; split; congruence).
  assert (canonical_low (HEAP_START + HEAP_SIZE)) by (unfold canonical_low; cbv; split; congruence).
  rewrite (lift_bind _ _ _ _ (VirtAddr_new_ok HEAP_START ltac:(done))).
  by rewrite (lift_bind _ _ _ _ (VirtAddr_add_ok HEAP_START HEAP_SIZE ltac:(done) ltac:(done))).
Qed.

(** The frames of a fault's events. *)
Definition mapped_frames (tr : list event) : list Z :=
  omap (fun e => match e with MapTo _ f _ => Some f | _ => None end) tr.

Lemma mapped_frames_app tr tr' : mapped_frames (tr ++ tr') = mapped_frames tr ++ mapped_frames tr'.
Proof. apply omap_app. Qed.

Lemma map_heap_page_eq a fa mp tr :
  Forall Frames.region_ok (memory_map fa) -> 0 <= next fa < 2 ^ 64 - 1 ->
  let fa1 := {| memory_map := memory_map fa; next := next fa + 1 |} in
  let page := Page_containing_address a in
  map_heap_page a (fa, (mp, tr)) =
    match Frames.frame_addresses (memory_map fa) !! Z.to_nat (next fa) with
    | None => (Done false, (fa1, (mp, tr)))
    | Some f =>
        let '(o, (mp', fa')) := map_to page f 3 (mp, fa1) in
        let tr' := tr ++ [MapTo page f 3] in
        match o with
        | Done true => (Done true, (fa', (mp', tr' ++ [Flush page])))
        | o => (o, (fa', (mp', tr')))
        end
    end.
Proof.
  intros Hm Hn fa1 page. unfold map_heap_page.
  assert (E : zoom fst (fun fa s => (fa, s.2)) Frames.allocate_frame (fa, (mp, tr))
              = (Done (Frames.frame_addresses (memory_map fa) !! Z.to_nat (next fa)), (fa1, (mp, tr)))).
  { unfold zoom. cbn [fst snd]. by rewrite (Frames.allocate_frame_eq fa Hm Hn). }
  rewrite (bind_done _ _ _ _ _ E). destruct (_ !! _) as [f|]; [|done].
  unfold emit_. rewrite modify_bind. unfold mbind at 1, M_bind at 1, zoom at 1. cbn [fst snd].
  change (Z.lor PRESENT WRITABLE) with 3. fold page.
  destruct (map_to page f 3 (mp, fa1)) as [[[|]|e| | |] [mp' fa']]; done.
Qed.

Lemma fault_in_heap_eq a mp fa tr b mp' fa' tr' :
  map_heap_page a (fa, (mp, tr)) = (Done b, (fa', (mp', tr'))) ->
  fault_in_heap a (Locked_new (Some mp), (Locked_new (Some fa), tr))
  = (Done b, (Locked_new (Some mp'), (Locked_new (Some fa'), tr'))).
Proof.
  intros E. unfold fault_in_heap. apply with_lock_free.
  unfold zoom. cbn [fst snd Locked_new]. fold (Locked_new (Some fa)).
  rewrite (with_lock_free (if_both false (map_heap_page a)) (Some fa) (Some fa') (Some mp, tr)
             (Some mp', tr') b); [done|].
  unfold if_both. by rewrite E.
Qed.

Lemma handler_in_heap a ec sf s :
  in_heap a ->
  page_fault_handler a ec sf s =
    (handled ← fault_in_heap a;
     if handled : bool then mret tt
     else
       _ ← emit_ (Println "EXCEPTION: PAGE FAULT" []);
       _ ← emit_ (Println "Accessed Address: {:?}" [a]);
       _ ← emit_ (Println "Error Code: {:?}" [ec]);
       _ ← emit_ (Println "{:#?}" sf);
       panic ExplicitPanic) s.
Proof.
  unfold in_heap. intros [Hlo Hhi]. unfold page_fault_handler. rewrite heap_bounds_ok.
  by rewrite !bool_decide_true by done.
Qed.

Lemma handler_served a ec sf mp fa tr mp' fa' tr' :
  in_heap a -> map_heap_page a (fa, (mp, tr)) = (Done true, (fa', (mp', tr'))) ->
  page_fault_handler a ec sf (Locked_new (Some mp), (Locked_new (Some fa), tr))
  = (Done tt, (Locked_new (Some mp'), (Locked_new (Some fa'), tr'))).
Proof. intros Ha E. rewrite handler_in_heap by done. by rewrite (bind_done _ _ _ _ _ (fault_in_heap_eq _ _ _ _ _ _ _ _ E)). Qed.

Lemma handler_refused a ec sf mp fa tr mp' fa' tr' :
  in_heap a -> map_heap_page a (fa, (mp, tr)) = (Done false, (fa', (mp', tr'))) ->
  (page_fault_handler a ec sf (Locked_new (Some mp), (Locked_new (Some fa), tr))).1 = Panic ExplicitPanic.
Proof. intros Ha E. rewrite handler_in_heap by done. by rewrite (bind_done _ _ _ _ _ (fault_in_heap_eq _ _ _ _ _ _ _ _ E)). Qed.

Lemma handler_outside a ec sf s :
  ~ in_heap a ->
  page_fault_handler a ec sf s =
    (_ ← emit_ (Println "EXCEPTION: PAGE FAULT" []);
     _ ← emit_ (Println "Accessed Address: {:?}" [a]);
     _ ← emit_ (Println "Error Code: {:?}" [ec]);
     _ ← emit_ (Println "{:#?}" sf);
     panic ExplicitPanic) s.
Proof.
  intros Hn. unfold page_fault_handler. rewrite heap_bounds_ok.
  replace (bool_decide (HEAP_START <= a) && bool_decide (a < HEAP_START + HEAP_SIZE)) with false;
    [done|].
  symmetry. apply andb_false_iff. unfold in_heap in Hn.
  destruct (decide (HEAP_START <= a)); [right|left]; apply bool_decide_eq_false; lia.
Qed.

Lemma page_containing_range a :
  0 <= a -> Page_containing_address a mod page_size = 0 /\
  exists off, 0 <= off < page_size /\ a = Page_containing_address a + off.
Proof.
  intros Ha. rewrite Page_containing_ok. unfold page_size.
  pose proof (Z.mod_pos_bound a 4096 ltac:(done)). pose proof (Z.div_mod a 4096 ltac:(done)).
  split; [|exists (a mod 4096); lia].
  replace (a - a mod 4096) with (a / 4096 * 4096) by lia. by apply Z.mod_mul.
Qed.

Lemma frame_aligned map i f :
  Frames.map_ok map -> Frames.frame_addresses map !! i = Some f -> f mod page_size = 0.
Proof.
  intros Hm Hf%list_elem_of_lookup_2. by destruct (Frames.frame_address_ok _ _ (proj1 Hm) Hf).
Qed.

(** C26: a page fault inside the heap that can be served.  With both statics
    initialised and unlocked, a frame left and [map_to] succeeding, the handler
    returns, having mapped the page that contains the faulting address to the
    next usable frame, present and writable, and flushed it from the TLB: the
    faulting address now translates into that frame. *)
Theorem page_fault_handled a ec sf mp fa tr f mp' fa'
    (Ha : in_heap a) (Hm : Frames.map_ok (memory_map fa)) (Hn : 0 <= next fa < 2 ^ 64 - 5)
    (Hf : Frames.frame_addresses (memory_map fa) !! Z.to_nat (next fa) = Some f)
    (Hmap : map_to (Page_containing_address a) f 3
              (mp, {| memory_map := memory_map fa; next := next fa + 1 |}) = (Done true, (mp', fa'))) :
  page_fault_handler a ec sf (Locked_new (Some mp), (Locked_new (Some fa), tr))
  = (Done tt, (Locked_new (Some mp'), (Locked_new (Some fa'),
       (tr ++ [MapTo (Page_containing_address a) f 3]) ++ [Flush (Page_containing_address a)]))) /\
  translate_addr mp' a = Some (f + a mod page_size).
Proof.
  split.
  - pose proof (map_heap_page_eq a fa mp tr (proj1 Hm) ltac:(lia)) as E.
    cbn zeta in E. rewrite Hf, Hmap in E. by apply (handler_served _ _ _ _ _ _ _ _ _ Ha E).
  - assert (Ha0 : 0 <= a) by (unfold in_heap, HEAP_START in Ha; lia).
    destruct (page_containing_range a Ha0) as (Hp & off & Hoff & E).
    destruct (map_to_returns (Page_containing_address a) f 3 mp
                {| memory_map := memory_map fa; next := next fa + 1 |} Hp
                (frame_aligned _ _ _ Hm Hf) eq_refl Hm ltac:(cbn; lia))
      as (ok & mp1 & fa1 & E1 & _ & _ & Hok).
    rewrite Hmap in E1. injection E1 as <- <- <-. destruct (Hok eq_refl) as [Htr _].
    assert (Eoff : a mod page_size = off) by (rewrite Page_containing_ok in E; lia).
    rewrite Eoff, E at 1. by apply Htr.
Qed.

(** What the handler prints before it panics. *)
Definition report (a ec : Z) (sf : list Z) : list event :=
  [Println "EXCEPTION: PAGE FAULT" []; Println "Accessed Address: {:?}" [a];
   Println "Error Code: {:?}" [ec]; Println "{:#?}" sf].

Lemma reported a ec sf l1 l2 tr tr' l1' l2' :
  in_heap a -> fault_in_heap a (l1, (l2, tr)) = (Done false, (l1', (l2', tr'))) ->
  page_fault_handler a ec sf (l1, (l2, tr)) = (Panic ExplicitPanic, (l1', (l2', tr' ++ report a ec sf))).
Proof.
  intros Ha E. rewrite handler_in_heap by done. rewrite (bind_done _ _ _ _ _ E). unfold emit_.
  do 4 (rewrite modify_bind). cbn [fst snd]. by rewrite <- !app_assoc.
Qed.

(** C27: every other page fault.  Outside the heap, before the statics are
    initialised, with no frame left or with [map_to] failing, the handler prints
    the four lines of its report, with the faulting address, the error code and
    the stack frame, and then panics, with both statics unlocked and holding
    what the attempt left in them; a fault inside the heap while the
    interrupted code holds [MAPPER] or [FRAME_ALLOCATOR] hangs the machine, and
    nothing is reported. *)
Theorem page_fault_unhandled a ec sf mp fa tr :
  (~ in_heap a -> forall l1 l2,
     page_fault_handler a ec sf (l1, (l2, tr)) = (Panic ExplicitPanic, (l1, (l2, tr ++ report a ec sf)))) /\
  (in_heap a -> mp = None \/ fa = None ->
     page_fault_handler a ec sf (Locked_new mp, (Locked_new fa, tr))
     = (Panic ExplicitPanic, (Locked_new mp, (Locked_new fa, tr ++ report a ec sf)))) /\
  (forall m f, in_heap a -> mp = Some m -> fa = Some f ->
     Frames.map_ok (memory_map f) -> 0 <= next f < 2 ^ 64 - 1 ->
     let f1 := {| memory_map := memory_map f; next := next f + 1 |} in
     match Frames.usable_frames (memory_map f) !! Z.to_nat (next f) with
     | None =>
         page_fault_handler a ec sf (Locked_new mp, (Locked_new fa, tr))
         = (Panic ExplicitPanic, (Locked_new mp, (Locked_new (Some f1), tr ++ report a ec sf)))
     | Some fr => forall m' f',
         map_to (Page_containing_address a) fr 3 (m, f1) = (Done false, (m', f')) ->
         page_fault_handler a ec sf (Locked_new mp, (Locked_new fa, tr))
         = (Panic ExplicitPanic, (Locked_new (Some m'), (Locked_new (Some f'),
              (tr ++ [MapTo (Page_containing_address a) fr 3]) ++ report a ec sf)))
     end) /\
  (in_heap a -> forall l1 l2, held l1 = true \/ held l2 = true ->
     page_fault_handler a ec sf (l1, (l2, tr)) = (Hang, ({| held := true; inner := inner l1 |}, (l2, tr)))).
Proof.
  split_and!.
  - intros Hn l1 l2. rewrite handler_outside by done. unfold emit_.
    do 4 (rewrite modify_bind). cbn [fst snd]. by rewrite <- !app_assoc.
  - intros Ha Hnone. apply reported; [done|]. destruct mp as [m|], fa as [f|]; try done. by destruct Hnone.
  - intros m f Ha -> -> Hm Hn f1. rewrite <- Frames.frame_addresses_eq by apply Hm.
    pose proof (map_heap_page_eq a f m tr (proj1 Hm) Hn) as E. cbn zeta in E. fold f1 in E.
    destruct (_ !! _) as [fr|]; [|by apply reported, fault_in_heap_eq].
    intros m' f' Emap. rewrite Emap in E. by apply reported, fault_in_heap_eq.
  - intros Ha [h1 v1] [h2 v2] Hheld. rewrite handler_in_heap by done. simpl in Hheld.
    destruct h1; [done|]. by destruct Hheld as [?| ->].
Qed.

(** ** Sequences of faults *)
Fixpoint page_faults (faults : list Z) : M statics unit :=
  match faults with
  | [] => mret tt
  | a :: faults => _ ← page_fault_handler a 2 []; page_faults faults
  end.

(** The mapped frames are distinct and were taken from the list in order. *)
Definition frames_used (fa : BootInfoFrameAllocator) (tr : list event) : Prop :=
  NoDup (mapped_frames tr) /\
  forall f, f ∈ mapped_frames tr ->
    exists i, Frames.frame_addresses (memory_map fa) !! i = Some f /\ Z.of_nat i < next fa.

Lemma frames_used_mono fa fa' tr :
  memory_map fa' = memory_map fa -> next fa <= next fa' -> frames_used fa tr -> frames_used fa' tr.
Proof.
  intros Em Hle [Hnd Hu]. split; [done|]. intros f (i & Hi & Hlt)%Hu. exists i. rewrite Em.
  split; [done|lia].
Qed.

Lemma frames_used_print fa tr fmt args :
  frames_used fa (tr ++ [Println fmt args]) <-> frames_used fa tr.
Proof. unfold frames_used. rewrite mapped_frames_app. cbn. by rewrite app_nil_r. Qed.

Lemma frames_used_step fa fa' tr f e :
  Frames.map_ok (memory_map fa) -> 0 <= next fa -> memory_map fa' = memory_map fa ->
  next fa + 1 <= next fa' ->
  Frames.frame_addresses (memory_map fa) !! Z.to_nat (next fa) = Some f ->
  mapped_frames e = [f] -> frames_used fa tr -> frames_used fa' (tr ++ e).
Proof.
  intros Hm Hn Em Hnx Hf He [Hnd Hu]. unfold frames_used. rewrite mapped_frames_app, He, Em. split.
  - apply NoDup_app. split_and!; [done| |apply NoDup_singleton].
    intros g Hg ->%list_elem_of_singleton. destruct (Hu f Hg) as (i & Hi & Hlt).
    pose proof (NoDup_lookup _ _ _ _ (Frames.NoDup_frame_addresses _ Hm) Hi Hf). lia.
  - intros g [Hg| ->%list_elem_of_singleton]%elem_of_app.
    + destruct (Hu g Hg) as (i & ? & ?). exists i. split; [done|lia].
    + exists (Z.to_nat (next fa)). split; [done|lia].
Qed.

Lemma page_fault_step a ec sf mp fa tr :
  Frames.map_ok (memory_map fa) -> 0 <= next fa < 2 ^ 64 - 5 -> frames_used fa tr ->
  exists o mp' fa' tr',
    page_fault_handler a ec sf (Locked_new (Some mp), (Locked_new (Some fa), tr))
    = (o, (Locked_new (Some mp'), (Locked_new (Some fa'), tr'))) /\
    (o = Done tt \/ o = Panic ExplicitPanic) /\
    memory_map fa' = memory_map fa /\ next fa <= next fa' <= next fa + 4 /\ frames_used fa' tr'.
Proof.
  intros Hm Hn Hu. destruct (decide (in_heap a)) as [Ha|Ha].
  2:{ rewrite handler_outside by done. eexists _, mp, fa, _. split; [done|].
      split_and!; [by right|done|cbn; lia|cbn; lia|]. cbn [fst snd]; by rewrite !frames_used_print. }
  rewrite handler_in_heap by done.
  pose proof (map_heap_page_eq a fa mp tr (proj1 Hm) ltac:(lia)) as Eh. cbn zeta in Eh.
  destruct (Frames.frame_addresses (memory_map fa) !! Z.to_nat (next fa)) as [f|] eqn:Ef.
  2:{ rewrite (bind_done _ _ _ _ _ (fault_in_heap_eq _ _ _ _ _ _ _ _ Eh)).
      eexists _, _, _, _. split; [done|]. cbn [memory_map next].
      split_and!; [by right|done|cbn; lia|cbn; lia|]. cbn [fst snd]; rewrite !frames_used_print.
      by apply (frames_used_mono fa); [|cbn; lia|]. }
  assert (Ha0 : 0 <= a) by (unfold in_heap, HEAP_START in Ha; lia).
  destruct (page_containing_range a Ha0) as (Hp & _).
  destruct (map_to_returns (Page_containing_address a) f 3 mp
              {| memory_map := memory_map fa; next := next fa + 1 |} Hp
              (frame_aligned _ _ _ Hm Ef) eq_refl Hm ltac:(cbn; lia))
    as (ok & mp1 & fa1 & E1 & Em & Hnx & _). cbn [memory_map next] in Em, Hnx.
  rewrite E1 in Eh. destruct ok; rewrite (bind_done _ _ _ _ _ (fault_in_heap_eq _ _ _ _ _ _ _ _ Eh)).
  - eexists _, _, _, _. split; [done|]. split_and!; [by left|done|cbn; lia|cbn; lia|].
    rewrite <- app_assoc. apply (frames_used_step fa _ _ f); [done|lia|done|lia|done|done|done].
  - eexists _, _, _, _. split; [done|]. split_and!; [by right|done|cbn; lia|cbn; lia|].
    cbn [fst snd]. rewrite !frames_used_print. apply (frames_used_step fa _ _ f); [done|lia|done|lia|done|done|done].
Qed.

Lemma page_faults_frames faults mp fa tr :
  Frames.map_ok (memory_map fa) -> 0 <= next fa ->
  next fa + 4 * Z.of_nat (length faults) < 2 ^ 64 - 5 -> frames_used fa tr ->
  exists o mp' fa' tr',
    page_faults faults (Locked_new (Some mp), (Locked_new (Some fa), tr))
    = (o, (Locked_new (Some mp'), (Locked_new (Some fa'), tr'))) /\
    (o = Done tt \/ o = Panic ExplicitPanic) /\
    memory_map fa' = memory_map fa /\ frames_used fa' tr'.
Proof.
  revert mp fa tr. induction faults as [|a faults IH]; intros mp fa tr Hm Hn Hb Hu.
  { eexists _, _, _, _. split; [done|]. split_and!; [by left|done|done]. }
  cbn [length] in Hb.
  destruct (page_fault_step a 2 [] mp fa tr Hm ltac:(lia) Hu)
    as (o & mp1 & fa1 & tr1 & E & Ho & Em & Hnx & Hu1).
  cbn [page_faults]. destruct Ho as [-> | ->].
  - rewrite (bind_done _ _ _ _ _ E). rewrite <- Em in Hm.
    destruct (IH mp1 fa1 tr1 Hm ltac:(lia) ltac:(lia) Hu1) as (o & mp2 & fa2 & tr2 & E2 & ? & Em2 & ?).
    rewrite E2. eexists _, _, _, _. split; [done|]. split_and!; [done|congruence|done].
  - rewrite (bind_panic _ _ _ _ _ E). eexists _, _, _, _. split; [done|]. split_and!; [by right|done|done].
Qed.

(** C8: any sequence of page faults, wherever they fall, on the allocator the
    kernel installs at boot: the handler serves them or panics; it never hangs
    or overflows, it leaves both statics unlocked, the frames it mapped are
    usable frames of the memory map, and no frame is mapped twice, so that two
    heap pages never share a frame. *)
Theorem page_faults_fresh_frames faults mp map
    (Hm : Frames.map_ok map) (Hlen : 4 * Z.of_nat (length faults) < 2 ^ 64 - 5) :
  let s := (Locked_new (Some mp), (Locked_new (Some (Frames.init map)), [])) in
  let '(o, (l1, (l2, tr))) := page_faults faults s in
  (o = Done tt \/ o = Panic ExplicitPanic) /\ held l1 = false /\ held l2 = false /\
  NoDup (mapped_frames tr) /\ Forall (Frames.frame_usable map) (mapped_frames tr).
Proof.
  cbn zeta. destruct (page_faults_frames faults mp (Frames.init map) [])
    as (o & mp' & fa' & tr' & -> & Ho & Em & Hnd & Hu); [done|done|cbn [next Frames.init]; lia| |].
  { split; [constructor|]. by intros f ?%elem_of_nil. }
  split_and!; try done. apply Forall_forall. intros f (i & Hi & _)%Hu.
  rewrite Em in Hi. apply list_elem_of_lookup_2 in Hi.
  by destruct (Frames.frame_address_ok _ _ (proj1 Hm) Hi) as (_ & _ & ?).
Qed.

(** C39: [virt_to_phys_u32] on a pointer: the physical address when it lies below
    4 GiB; above, the high half of the address is silently dropped and the
    result is the address of other memory; an unmapped pointer panics. *)
Theorem virt_to_phys_u32_spec mp v (Hv : canonical_low v) :
  match translate_addr mp v with
  | None => virt_to_phys_u32 mp v = Panic ExplicitPanic
  | Some p => exists r, virt_to_phys_u32 mp v = Done r /\ in_range 32 r /\
      (0 <= p -> (r = p <-> p < 2 ^ 32) /\ p = r + 2 ^ 32 * (p / 2 ^ 32))
  end.
Proof.
  unfold virt_to_phys_u32. rewrite VirtAddr_new_ok by done. cbn [mbind outcome_bind].
  destruct (translate_addr mp v) as [p|]; [|done].
  exists (wrap 32 p). split; [done|]. split; [by apply wrap_range|]. intros Hp.
  assert (E : p = wrap 32 p + 2 ^ 32 * (p / 2 ^ 32)).
  { unfold wrap. pose proof (Z.div_mod p (2 ^ 32) ltac:(done)). lia. }
  split; [|exact E]. pose proof (wrap_range 32 p ltac:(lia)) as Hr. unfold in_range in Hr.
  split; [lia|]. intros Hlt. apply wrap_small. unfold in_range. lia.
Qed.

(** [init_global_memory] installs both statics, whatever they held before,
    and leaves them unlocked: from then on heap page faults are served from the
    first usable frame of the boot memory map. *)
Theorem init_global_memory_spec cr3 off map mp0 fa0 tr
    (Hoff : canonical_low off) (Htable : canonical_low (off + cr3)) :
  init_global_memory cr3 off map (Locked_new mp0, (Locked_new fa0, tr))
  = (Done tt, (Locked_new (Some (OffsetPageTable_new (off + cr3) off)),
               (Locked_new (Some {| memory_map := map; next := 0 |}), tr))).
Proof.
  unfold init_global_memory, memory_init, active_level_4_table.
  by rewrite VirtAddr_add_ok by done.
Qed.
End paging.

(** ** A page table as a finite map, for the witnesses

    An entry is a frame with the flag [WRITABLE]; [map_to] of this mapper takes
    no frames for itself and refuses a page that is already mapped. *)
Definition entry_of (frame flags : Z) : Z := frame + if Z.testbit flags 1 then WRITABLE else 0.
Definition entry_frame (e : Z) : Z := e - e mod page_size.

#[export] Instance gmap_mapper : PageMapper (gmap Z Z) := {
  OffsetPageTable_new _ _ := ∅;
  map_to page frame flags s :=
    match s.1 !! page with
    | Some _ => (Done false, s)
    | None => (Done true, (<[page := entry_of frame flags]> s.1, s.2))
    end;
  translate_addr mp a := (fun e => entry_frame e + a mod page_size) <$> mp !! (a - a mod page_size);
  is_writable mp a := from_option (fun e => Z.testbit e 1) false (mp !! (a - a mod page_size));
}.

Lemma entry_of_ok frame flags :
  frame mod page_size = 0 ->
  entry_frame (entry_of frame flags) = frame /\ Z.testbit (entry_of frame flags) 1 = Z.testbit flags 1.
Proof.
  intros Hf. unfold entry_frame, entry_of, page_size, WRITABLE in *.
  pose proof (Z.div_mod frame 4096 ltac:(done)) as E. rewrite Hf in E.
  set (k := frame / 4096) in *. clearbody k. subst frame. rewrite Z.add_0_r.
  assert (Hm : forall b, 0 <= b < 4 -> (4096 * k + b) mod 4096 = b).
  { intros b Hb. rewrite Z.mul_comm, Z.add_comm, Z.mod_add by done. apply Z.mod_small. lia. }
  assert (Hb : forall b, 0 <= b < 4 -> Z.testbit (4096 * k + b) 1 = Z.testbit b 1).
  { intros b Hb. rewrite <- (Z.mod_pow2_bits_low _ 12 1) by done. by rewrite Hm. }
  destruct (Z.testbit flags 1); rewrite Hm, Hb by done; (split; [lia|done]).
Qed.

#[export] Instance gmap_mapper_laws : PageMapperLaws (gmap Z Z).
Proof.
  split. intros page frame flags mp fa Hp Hf _ _ Hn. cbn -[page_size]. destruct (entry_of_ok frame flags Hf) as [Ef _].
  destruct (mp !! page) eqn:E; eexists _, _, _; (split; [done|]); (split_and!; [done|lia|lia|]); [done|].
  intros _. split.
  - intros off Hoff. assert (Hmod : (page + off) mod page_size = off).
    { rewrite Zplus_mod, Hp, Z.add_0_l, Z.mod_mod by done. by apply Z.mod_small. }
    rewrite Hmod. replace (page + off - off) with page by lia. rewrite lookup_insert_eq. cbn. by rewrite Ef.
  - intros a b Hout. rewrite lookup_insert_ne; [done|]. intros E1. apply Hout.
    pose proof (Z.mod_pos_bound a page_size ltac:(done)). lia.
Qed.

(** ** Witnesses *)
Abbreviation boot_state := (Locked_new (Some (∅ : gmap Z Z)),
  (Locked_new (Some (Frames.init Frames.wmap)), ([] : list event))).
Abbreviation handler := (page_fault_handler (H := true) (H0 := std_addr) (Mp := gmap Z Z)).

Lemma page_fault_handled_witness :
  (handler (HEAP_START + 0x1234) 2 [] boot_state).1 = Done tt.
Proof.
  set (mp' := <[HEAP_START + 0x1000 := 0x1002]> (∅ : gmap Z Z)).
  assert (Hmap : map_to (PageMapper := gmap_mapper) (Page_containing_address (HEAP_START + 0x1234))
                   0x1000 3 ((∅ : gmap Z Z), {| memory_map := Frames.wmap; next := 0 + 1 |})
                 = (Done true, (mp', {| memory_map := Frames.wmap; next := 1 |})))
    by (vm_compute; reflexivity).
  rewrite (proj1 (page_fault_handled (H := true) (H0 := std_addr) (H1 := gmap_mapper)
    (HEAP_START + 0x1234) 2 [] ∅ (Frames.init Frames.wmap) [] 0x1000 mp' _
    ltac:(unfold in_heap, HEAP_START, HEAP_SIZE; lia) Frames.wmap_ok ltac:(cbn; lia) eq_refl Hmap)).
  reflexivity.
Defined.

Lemma page_fault_unhandled_witness :
  handler 0x1000 2 [7] (Locked_new None, (Locked_new None, []))
  = (Panic ExplicitPanic, (Locked_new None, (Locked_new None, report 0x1000 2 [7]))) /\
  (handler HEAP_START 2 [] (Locked_new (Some ∅), ({| held := true; inner := None |}, []))).1 = Hang.
Proof.
  split.
  - apply (proj1 (page_fault_unhandled (H := true) (H0 := std_addr) (Mp := gmap Z Z) 0x1000 2 [7] None None [])).
    unfold in_heap. vm_compute. intuition congruence.
  - rewrite (proj2 (proj2 (proj2 (page_fault_unhandled (H := true) (H0 := std_addr) (Mp := gmap Z Z)
      HEAP_START 2 [] None None [])))).
    + reflexivity.
    + unfold in_heap. vm_compute. intuition congruence.
    + right. reflexivity.
Defined.

Lemma page_faults_fresh_frames_witness :
  mapped_frames (page_faults (H := true) (H0 := std_addr)
    [HEAP_START; HEAP_START + 0x5000; HEAP_START + 8; 0x10] boot_state).2.2.2 = [0x1000; 0x2000; 0x8000] /\
  NoDup [0x1000; 0x2000; 0x8000].
Proof.
  pose proof (page_faults_fresh_frames (H := true) (H0 := std_addr) (Mp := gmap Z Z)
    [HEAP_START; HEAP_START + 0x5000; HEAP_START + 8; 0x10] ∅ Frames.wmap Frames.wmap_ok eq_refl) as P.
  assert (E : mapped_frames (page_faults (H := true) (H0 := std_addr)
    [HEAP_START; HEAP_START + 0x5000; HEAP_START + 8; 0x10] boot_state).2.2.2 = [0x1000; 0x2000; 0x8000])
    by (vm_compute; reflexivity).
  split; [exact E|]. revert E P. cbn zeta.
  destruct (page_faults _ _) as [o [l1 [l2 tr]]]. intros E (_ & _ & _ & Hnd & _).
  rewrite <- E. exact Hnd.
Defined.

Lemma virt_to_phys_u32_spec_witness :
  exists r, virt_to_phys_u32 (H0 := std_addr) ({[ 0x1000 := 2 ^ 32 ]} : gmap Z Z) 0x1008 = Done r /\
    r <> 2 ^ 32 + 8.
Proof.
  destruct (virt_to_phys_u32_spec (H0 := std_addr) ({[ 0x1000 := 2 ^ 32 ]} : gmap Z Z) 0x1008
    ltac:(unfold canonical_low; lia)) as (r & E & Hr & _).
  exists r. split; [exact E|]. unfold in_range in Hr. lia.
Defined.

Lemma init_global_memory_spec_witness :
  (init_global_memory (H0 := std_addr) (Mp := gmap Z Z) 0x2000 0x10000000000 Frames.wmap
     (Locked_new None, (Locked_new None, []))).1 = Done tt.
Proof.
  by rewrite (init_global_memory_spec (H0 := std_addr) (Mp := gmap Z Z) 0x2000 0x10000000000
    Frames.wmap None None [] ltac:(unfold canonical_low; lia) ltac:(unfold canonical_low; lia)).
Defined.
End Paging.
