(* ===== verification/Format.v ===== *)
(** * Formatted output

    What [print!] and [println!] hand to the console: the language's format
    strings with the placeholders the kernels use for integers, [{}] (decimal)
    and [{:#X}] (upper-case hexadecimal with its prefix), as lists of bytes. *)

From S2P Require Import Prelude.

Definition bytes (s : string) : list Z := (fun c => Z.of_N (Ascii.N_of_ascii c)) <$> String.list_ascii_of_string s.

Module Format.

(** ** Numerals *)

Definition digit (d : Z) : Z := if bool_decide (d < 10) then 0x30 + d else 0x37 + d.

(** The digits of [n] in [base], in front of [acc]; a 64-bit integer has at most
    64 of them. *)
Fixpoint digits_go (fuel : nat) (base n : Z) (acc : list Z) : list Z :=
  match fuel with
  | O => acc
  | S fuel =>
      let acc := digit (n mod base) :: acc in
      if bool_decide (n / base = 0) then acc else digits_go fuel base (n / base) acc
  end.
Definition digits (base n : Z) : list Z := digits_go 64 base n [].

Definition display (n : Z) : list Z := digits 10 n.
Definition upper_hex_alt (n : Z) : list Z := bytes "0x" ++ digits 16 n.

(** ** Format strings

    The text of the literal as it stands in the source: [\n] is the newline.
    The result is the list of pieces written one after the other; a
    placeholder of another kind, or one without an argument, is [None]. *)
Fixpoint format_go (fmt : list Z) (args : list Z) (piece : list Z) : option (list (list Z)) :=
  match fmt with
  | [] => Some [piece]
  | 0x5c :: 0x6e :: fmt => format_go fmt args (piece ++ [0x0a])
  | 0x7b :: 0x7d :: fmt =>
      match args with
      | a :: args => rest ← format_go fmt args []; Some (piece :: display a :: rest)
      | [] => None
      end
  | 0x7b :: 0x3a :: 0x23 :: 0x58 :: 0x7d :: fmt =>
      match args with
      | a :: args => rest ← format_go fmt args []; Some (piece :: upper_hex_alt a :: rest)
      | [] => None
      end
  | 0x7b :: _ => None
  | c :: fmt => format_go fmt args (piece ++ [c])
  end.
Definition format (fmt : string) (args : list Z) : option (list (list Z)) := format_go (bytes fmt) args [].

(** [println!]: the text, then a newline. *)
Definition line (fmt : string) (args : list Z) : option (list (list Z)) :=
  pieces ← format fmt args; Some (pieces ++ [[0x0a]]).

(** ** Reading numerals back *)
Definition digit_value (c : Z) : Z := if bool_decide (c < 0x3a) then c - 0x30 else c - 0x37.
Definition value (base : Z) (ds : list Z) : Z := foldl (fun v c => v * base + digit_value c) 0 ds.

Lemma digit_value_digit d : 0 <= d < 16 -> digit_value (digit d) = d.
Proof. intros Hd. unfold digit_value, digit. repeat case_bool_decide; lia. Qed.

Lemma value_app base xs ys : value base (xs ++ ys) = foldl (fun v c => v * base + digit_value c) (value base xs) ys.
Proof. unfold value. by rewrite foldl_app. Qed.

Lemma digits_go_spec fuel base n acc :
  2 <= base <= 16 -> 0 <= n < 2 ^ Z.of_nat fuel ->
  exists ds, digits_go fuel base n acc = ds ++ acc /\ value base ds = n /\
    (fuel <> 0%nat -> ds <> []) /\ Forall (fun c => 0x30 <= c < 0x3a \/ 0x41 <= c < 0x47) ds.
Proof.
  intros Hb. revert n acc. induction fuel as [|fuel IH]; intros n acc Hn.
  - exists []. split_and!; try done. cbn in Hn. unfold value. cbn. lia.
  - cbn [digits_go]. rewrite Nat2Z.inj_succ, Z.pow_succ_r in Hn by lia.
    pose proof (Z.mod_pos_bound n base ltac:(lia)). pose proof (Z.div_mod n base ltac:(lia)).
    assert (0 <= n / base) by (apply Z.div_pos; lia).
    assert (Hd : Forall (fun c => 0x30 <= c < 0x3a \/ 0x41 <= c < 0x47) [digit (n mod base)]).
    { constructor; [|constructor]. unfold digit. case_bool_decide; lia. }
    case_bool_decide as E.
    + exists [digit (n mod base)]. split_and!; try done. unfold value. cbn.
      rewrite digit_value_digit by lia. lia.
    + destruct (IH (n / base) (digit (n mod base) :: acc)) as (ds & -> & Hv & _ & Hf).
      { split; [done|]. apply Z.div_lt_upper_bound; [lia|]. nia. }
      exists (ds ++ [digit (n mod base)]). split_and!.
      * by rewrite <- app_assoc.
      * rewrite value_app, Hv. cbn. rewrite digit_value_digit by lia. lia.
      * intros _ [_ [=]]%app_nil.
      * by apply Forall_app.
Qed.

(** Numerals can be read back: every 64-bit integer is the value of its digits,
    which are at least one and all of them digits. *)
Theorem digits_roundtrip base n (Hb : 2 <= base <= 16) (Hn : in_range 64 n) :
  value base (digits base n) = n /\ digits base n <> [] /\
  Forall (fun c => 0x30 <= c < 0x3a \/ 0x41 <= c < 0x47) (digits base n).
Proof.
  destruct (digits_go_spec 64 base n [] Hb) as (ds & E & Hv & Hne & Hf); [exact Hn|].
  unfold digits. rewrite E, app_nil_r. auto.
Qed.

End Format.
