(* ===== verification/Vga.v ===== *)
(** * The VGA text console

    [vga_buffer/print.rs]: the [Writer] over the 25x80 text buffer, the global
    [WRITER] behind its mutex, and [_print].  The console is related to a
    terminal with unbounded scrollback, of which the buffer shows the last 25
    lines. *)

From S2P Require Import Prelude Store.

(** ** Data *)
Inductive Color :=
  | Black | Blue | Green | Cyan | Red | Magenta | Brown | LightGray
  | DarkGray | LightBlue | LightGreen | LightCyan | LightRed | Pink | Yellow | White.

#[export] Instance Color_eq_dec : EqDecision Color.
Proof. solve_decision. Defined.

Definition Color_as_u8 (c : Color) : Z :=
  match c with
  | Black => 0 | Blue => 1 | Green => 2 | Cyan => 3 | Red => 4 | Magenta => 5 | Brown => 6
  | LightGray => 7 | DarkGray => 8 | LightBlue => 9 | LightGreen => 10 | LightCyan => 11
  | LightRed => 12 | Pink => 13 | Yellow => 14 | White => 15
  end.

(** [ColorCode] is a transparent wrapper of a byte. *)
Definition ColorCode_new (foreground background : Color) : Z :=
  Z.lor (wrap 8 (Z.shiftl (Color_as_u8 background) 4)) (Color_as_u8 foreground).

Record ScreenChar := { ascii_character : Z; char_color : Z }.

#[export] Instance ScreenChar_eq_dec : EqDecision ScreenChar.
Proof. solve_decision. Defined.

Definition BUFFER_HEIGHT : Z := 25.
Definition BUFFER_WIDTH : Z := 80.

(** [Buffer]: the rows of the screen, from the top. *)
Abbreviation Buffer := (list (list ScreenChar)).

Record Writer := {
  row_position : Z;
  column_position : Z;
  color_code : Z;
  buffer : Buffer;
}.

Definition set_pos (row col : Z) (w : Writer) : Writer :=
  {| row_position := row; column_position := col; color_code := color_code w; buffer := buffer w |}.
Definition set_buffer (b : Buffer) (w : Writer) : Writer :=
  {| row_position := row_position w; column_position := column_position w;
     color_code := color_code w; buffer := b |}.

Module Vga.

(** ** The operations *)

(** [buffer.chars[row][col].read()] and [.write(c)], with the bounds checks. *)
Definition chars_read (row col : Z) : M Writer ScreenChar := fun w =>
  match buffer w !! Z.to_nat row with
  | Some r => match r !! Z.to_nat col with
              | Some c => (Done c, w)
              | None => (Panic IndexOutOfBounds, w)
              end
  | None => (Panic IndexOutOfBounds, w)
  end.

Definition chars_write (row col : Z) (c : ScreenChar) : M Writer unit := fun w =>
  match buffer w !! Z.to_nat row with
  | Some r => match r !! Z.to_nat col with
              | Some _ =>
                  (Done tt, set_buffer (<[Z.to_nat row := <[Z.to_nat col := c]> r]> (buffer w)) w)
              | None => (Panic IndexOutOfBounds, w)
              end
  | None => (Panic IndexOutOfBounds, w)
  end.

Definition clear_row (row : Z) : M Writer unit :=
  w ← gets id;
  let blank := {| ascii_character := 0x20; char_color := color_code w |} in
  for_range 0 BUFFER_WIDTH (fun col => chars_write row col blank).

(** The body of the scrolling loop for one row. *)
Definition scroll_row (row : Z) : M Writer unit :=
  for_range 0 BUFFER_WIDTH (fun col =>
    character ← chars_read row col;
    chars_write (row - 1) col character).

Section vga.
Context `{BuildProfile}.

Definition new_line : M Writer unit :=
  w ← gets id;
  _ ← (if bool_decide (row_position w < BUFFER_HEIGHT - 1) then
         r ← lift (uadd 64 (row_position w) 1);
         modify (fun w => set_pos r (column_position w) w)
       else
         _ ← for_range 1 BUFFER_HEIGHT scroll_row;
         _ ← clear_row (BUFFER_HEIGHT - 1);
         modify (fun w => set_pos (BUFFER_HEIGHT - 1) (column_position w) w));
  modify (fun w => set_pos (row_position w) 0 w).

Definition write_byte (byte : Z) : M Writer unit :=
  if bool_decide (byte = 0x0a) then new_line
  else
    w ← gets id;
    _ ← when (bool_decide (BUFFER_WIDTH <= column_position w)) new_line;
    w ← gets id;
    let row := row_position w in
    let col := column_position w in
    _ ← chars_write row col {| ascii_character := byte; char_color := color_code w |};
    c ← lift (uadd 64 (column_position w) 1);
    modify (fun w => set_pos (row_position w) c w).

(** The match of [write_string] on one byte. *)
Definition sanitize (byte : Z) : Z :=
  if (bool_decide (0x20 <= byte) && bool_decide (byte <= 0x7e)) || bool_decide (byte = 0x0a)
  then byte else 0xfe.

Definition write_string (s : list Z) : M Writer unit :=
  for_each s (fun byte => write_byte (sanitize byte)).

(** [fmt::Write]: [true] is [Ok(())]. *)
Definition write_str (s : list Z) : M Writer bool :=
  _ ← write_string s; mret true.

(** [write_fmt] hands the formatted pieces to [write_str] and stops at the
    first error. *)
Fixpoint write_fmt (pieces : list (list Z)) : M Writer bool :=
  match pieces with
  | [] => mret true
  | s :: pieces => ok ← write_str s; if ok : bool then write_fmt pieces else mret false
  end.

(** ** [WRITER] and [_print]

    The interrupt flag of the processor comes first in the state. *)
Definition without_interrupts {X A} (body : M (bool * X) A) : M (bool * X) A :=
  were_enabled ← gets fst;
  _ ← modify (fun s => (false, s.2));
  a ← body;
  _ ← when were_enabled (modify (fun s => (true, s.2)));
  mret a.

Definition _print (args : list (list Z)) : M (bool * Locked Writer) unit :=
  without_interrupts
    (zoom (fun s => (s.2, tt)) (fun t s => (s.1, t.1))
      (with_lock (zoom fst (fun w s => (w, s.2))
        (ok ← write_fmt args;
         if ok : bool then mret tt else panic UnwrapFailed)))).

(** The initial [WRITER], over whatever the text buffer holds. *)
Definition WRITER_init (b : Buffer) : Locked Writer :=
  Locked_new {| row_position := 0; column_position := 0;
                color_code := ColorCode_new Yellow Black; buffer := b |}.

(** ** Well-formed writers: the size of the hardware buffer, the cursor in it;
    the column may be one past the end, the wrap being delayed to the next
    character. *)
Definition buffer_ok (b : Buffer) : Prop :=
  length b = 25%nat /\ Forall (fun r => length r = 80%nat) b.

Definition writer_ok (w : Writer) : Prop :=
  buffer_ok (buffer w) /\ 0 <= row_position w < BUFFER_HEIGHT /\
  0 <= column_position w <= BUFFER_WIDTH.

Lemma buffer_row b i : buffer_ok b -> (i < 25)%nat -> exists r, b !! i = Some r /\ length r = 80%nat.
Proof.
  intros [Hl Hf] Hi. destruct (lookup_lt_is_Some_2 b i ltac:(lia)) as [r Hr].
  exists r. split; [done|]. by apply (Forall_lookup_1 _ _ _ _ Hf Hr).
Qed.

Lemma chars_read_ok w row col r c :
  buffer w !! Z.to_nat row = Some r -> r !! Z.to_nat col = Some c ->
  chars_read row col w = (Done c, w).
Proof. intros Hr Hc. unfold chars_read. by rewrite Hr, Hc. Qed.

Lemma chars_write_ok w row col r c :
  buffer w !! Z.to_nat row = Some r -> (Z.to_nat col < length r)%nat ->
  chars_write row col c w =
    (Done tt, set_buffer (<[Z.to_nat row := <[Z.to_nat col := c]> r]> (buffer w)) w).
Proof.
  intros Hr Hc. unfold chars_write. rewrite Hr. by destruct (lookup_lt_is_Some_2 r _ Hc) as [x ->].
Qed.

(** ** The loops *)

(** The first [k] cells of [src] over those of [dst]. *)
Definition overlay {A} (k : nat) (src dst : list A) : list A := take k src ++ drop k dst.

Lemma length_overlay {A} k (src dst : list A) :
  length src = length dst -> length (overlay k src dst) = length dst.
Proof. intros E. unfold overlay. rewrite length_app, length_take, length_drop. lia. Qed.

Lemma overlay_step {A} k (src dst : list A) x :
  (length src <= length dst)%nat -> src !! k = Some x ->
  <[k := x]> (overlay k src dst) = overlay (S k) src dst.
Proof.
  intros El Hx. pose proof (lookup_lt_Some _ _ _ Hx) as Hk. unfold overlay.
  rewrite (take_S_r src k x Hx), <- app_assoc.
  destruct (lookup_lt_is_Some_2 dst k ltac:(lia)) as [y Hy].
  rewrite (drop_S dst y k Hy). rewrite insert_app_r_alt by (rewrite length_take; lia).
  rewrite length_take. by replace (k - k `min` length src)%nat with O by lia.
Qed.

Lemma overlay_0 {A} (src dst : list A) : overlay 0 src dst = dst.
Proof. done. Qed.

Lemma overlay_full {A} k (src dst : list A) :
  length src = length dst -> k = length src -> overlay k src dst = src.
Proof. intros El ->. unfold overlay. rewrite El, drop_all, firstn_all2 by lia. apply app_nil_r. Qed.

Lemma list_alter_lookup {A} (f : A -> A) i (l : list A) x :
  l !! i = Some x -> alter f i l = <[i := f x]> l.
Proof.
  revert i. induction l as [|y l IH]; intros [|i] E; try done.
  - by injection E as ->.
  - cbn. f_equal. by apply IH.
Qed.

Definition blank_row (color : Z) : list ScreenChar :=
  replicate 80 {| ascii_character := 0x20; char_color := color |}.

Lemma clear_row_eq w row r :
  buffer w !! Z.to_nat row = Some r -> length r = 80%nat ->
  clear_row row w
  = (Done tt, set_buffer (<[Z.to_nat row := blank_row (color_code w)]> (buffer w)) w).
Proof.
  intros Hr El. unfold clear_row. rewrite gets_bind. unfold id.
  set (F i := set_buffer (<[Z.to_nat row := overlay (Z.to_nat i) (blank_row (color_code w)) r]> (buffer w)) w).
  assert (Hrow : (Z.to_nat row < length (buffer w))%nat) by (by apply lookup_lt_Some in Hr).
  assert (E0 : w = F 0).
  { unfold F. change (Z.to_nat 0) with O. rewrite overlay_0, list_insert_id by done. by destruct w. }
  assert (E80 : F BUFFER_WIDTH = set_buffer (<[Z.to_nat row := blank_row (color_code w)]> (buffer w)) w).
  { unfold F. rewrite overlay_full; [done| |done]. by rewrite El. }
  rewrite <- E80. refine (eq_trans (f_equal _ E0) _).
  apply for_range_fun; [done|]. intros i Hi. unfold BUFFER_WIDTH in Hi.
  unfold F at 1. erewrite chars_write_ok.
  - unfold F, set_buffer. cbn [buffer row_position column_position color_code].
    rewrite list_insert_insert_eq. do 3 f_equal.
    replace (Z.to_nat (i + 1)) with (S (Z.to_nat i)) by lia. apply overlay_step.
    + rewrite El. done.
    + apply lookup_replicate_2. lia.
  - cbn [buffer set_buffer]. by apply list_lookup_insert_eq.
  - rewrite length_overlay by (by rewrite El). lia.
Qed.

Lemma scroll_row_eq w row src dst :
  1 <= row -> buffer w !! Z.to_nat row = Some src -> buffer w !! Z.to_nat (row - 1) = Some dst ->
  length src = 80%nat -> length dst = 80%nat ->
  scroll_row row w = (Done tt, set_buffer (<[Z.to_nat (row - 1) := src]> (buffer w)) w).
Proof.
  intros Hrow Hs Hd Els Eld. unfold scroll_row.
  set (F i := set_buffer (<[Z.to_nat (row - 1) := overlay (Z.to_nat i) src dst]> (buffer w)) w).
  assert (Hlen : (Z.to_nat (row - 1) < length (buffer w))%nat) by (by apply lookup_lt_Some in Hd).
  assert (E0 : w = F 0).
  { unfold F. change (Z.to_nat 0) with O. rewrite overlay_0, list_insert_id by done. by destruct w. }
  assert (E80 : F BUFFER_WIDTH = set_buffer (<[Z.to_nat (row - 1) := src]> (buffer w)) w).
  { unfold F. rewrite overlay_full; [done|congruence|by rewrite Els]. }
  rewrite <- E80. refine (eq_trans (f_equal _ E0) _).
  apply for_range_fun; [done|]. intros i Hi. unfold BUFFER_WIDTH in Hi.
  destruct (lookup_lt_is_Some_2 src (Z.to_nat i) ltac:(lia)) as [c Hc].
  assert (Hread : chars_read row i (F i) = (Done c, F i)).
  { eapply chars_read_ok; [|done]. unfold F. cbn [buffer set_buffer].
    rewrite list_lookup_insert_ne by lia. done. }
  rewrite (bind_done _ _ _ _ _ Hread). unfold F at 1. erewrite chars_write_ok.
  - unfold F, set_buffer. cbn [buffer row_position column_position color_code].
    rewrite list_insert_insert_eq. do 3 f_equal.
    replace (Z.to_nat (i + 1)) with (S (Z.to_nat i)) by lia. by apply overlay_step; [lia|].
  - cbn [buffer set_buffer]. by apply list_lookup_insert_eq.
  - rewrite length_overlay by congruence. lia.
Qed.
Lemma lookup_overlay_r {A} k (src dst : list A) i :
  (k <= i)%nat -> (k <= length src)%nat -> overlay k src dst !! i = dst !! i.
Proof.
  intros Hi Hk. unfold overlay. rewrite lookup_app_r by (rewrite length_take; lia).
  rewrite lookup_drop, length_take. f_equal. lia.
Qed.

Lemma scroll_eq w :
  buffer_ok (buffer w) ->
  for_range 1 BUFFER_HEIGHT scroll_row w
  = (Done tt, set_buffer (overlay 24 (drop 1 (buffer w)) (buffer w)) w).
Proof.
  intros Hok. set (b := buffer w) in *.
  set (F i := set_buffer (overlay (Z.to_nat (i - 1)) (drop 1 b) b) w).
  assert (E1 : w = F 1). { unfold F. by destruct w. }
  refine (eq_trans (f_equal _ E1) _). change 24%nat with (Z.to_nat (BUFFER_HEIGHT - 1)).
  apply (for_range_fun F); [done|]. intros i Hi. unfold BUFFER_HEIGHT in Hi.
  destruct (buffer_row b (Z.to_nat i) Hok ltac:(lia)) as (src & Hsrc & Elsrc).
  destruct (buffer_row b (Z.to_nat (i - 1)) Hok ltac:(lia)) as (dst & Hdst & Eldst).
  assert (Hlen : length (drop 1 b) = 24%nat) by (rewrite length_drop, (proj1 Hok); done).
  erewrite (scroll_row_eq (F i) i src dst); [|lia| | |done|done].
  - unfold F, set_buffer. cbn [buffer row_position column_position color_code]. do 3 f_equal.
    replace (i + 1 - 1) with (Z.succ (i - 1)) by lia. rewrite Z2Nat.inj_succ by lia.
    apply overlay_step; [rewrite Hlen, (proj1 Hok); lia|].
    rewrite lookup_drop. rewrite <- Hsrc. f_equal. lia.
  - unfold F. cbn [buffer set_buffer]. rewrite lookup_overlay_r by lia. done.
  - unfold F. cbn [buffer set_buffer]. rewrite lookup_overlay_r by lia. done.
Qed.

Lemma new_line_eq w :
  writer_ok w ->
  new_line w = (Done tt,
    if bool_decide (row_position w < 24) then set_pos (row_position w + 1) 0 w
    else {| row_position := 24; column_position := 0; color_code := color_code w;
            buffer := drop 1 (buffer w) ++ [blank_row (color_code w)] |}).
Proof.
  intros (Hb & Hr & Hc). unfold BUFFER_HEIGHT in *. unfold new_line. rewrite gets_bind. unfold id.
  change (BUFFER_HEIGHT - 1) with 24. case_bool_decide as Hd.
  - rewrite bind_assoc, (lift_bind _ _ _ _ (uadd_ok 64 (row_position w) 1 ltac:(lia))). done.
  - rewrite bind_assoc, (bind_done _ _ _ _ _ (scroll_eq w Hb)), bind_assoc.
    pose proof (buffer_row _ 24 Hb ltac:(lia)) as (r & Hr24 & El).
    erewrite bind_done; [|eapply (clear_row_eq _ 24 r); [|done]].
    2:{ cbn [buffer set_buffer]. rewrite lookup_overlay_r; [done|done|].
        rewrite length_drop, (proj1 Hb). lia. }
    rewrite modify_bind. unfold modify, set_pos, set_buffer.
    cbn [buffer row_position column_position color_code]. do 3 f_equal.
    unfold overlay. rewrite (firstn_all2 (drop 1 (buffer w))) by (rewrite length_drop, (proj1 Hb); lia).
    rewrite (drop_S _ _ _ Hr24), (drop_ge (buffer w) (S 24)) by (pose proof (proj1 Hb); lia).
    rewrite insert_app_r_alt by (rewrite length_drop, (proj1 Hb); done).
    by rewrite length_drop, (proj1 Hb).
Qed.

Lemma buffer_ok_scroll b c : buffer_ok b -> buffer_ok (drop 1 b ++ [blank_row c]).
Proof.
  intros [Hl Hf]. split.
  - rewrite length_app, length_drop, Hl. done.
  - apply Forall_app. split; [by apply Forall_drop|]. by repeat constructor.
Qed.

(** The writer after [new_line], and after a character. *)
Definition newline_fun (w : Writer) : Writer :=
  if bool_decide (row_position w < 24) then set_pos (row_position w + 1) 0 w
  else {| row_position := 24; column_position := 0; color_code := color_code w;
          buffer := drop 1 (buffer w) ++ [blank_row (color_code w)] |}.

Lemma newline_fun_ok w : writer_ok w -> writer_ok (newline_fun w).
Proof.
  intros (Hb & Hr & Hc). unfold newline_fun, writer_ok, BUFFER_HEIGHT, BUFFER_WIDTH in *.
  case_bool_decide; cbn; [split_and!; [done|lia..]|].
  split; [by apply buffer_ok_scroll|]. lia.
Qed.

Definition put_fun (byte : Z) (w : Writer) : Writer :=
  {| row_position := row_position w; column_position := column_position w + 1;
     color_code := color_code w;
     buffer := alter (<[Z.to_nat (column_position w) :=
                 {| ascii_character := byte; char_color := color_code w |}]>)
                 (Z.to_nat (row_position w)) (buffer w) |}.

Lemma write_byte_eq w byte :
  writer_ok w ->
  write_byte byte w = (Done tt,
    if bool_decide (byte = 0x0a) then newline_fun w
    else put_fun byte (if bool_decide (80 <= column_position w) then newline_fun w else w)).
Proof.
  intros Hok. unfold write_byte. case_bool_decide; [by rewrite new_line_eq|].
  rewrite gets_bind. unfold id. change BUFFER_WIDTH with 80. unfold when.
  assert (Hstep : forall w, writer_ok w -> column_position w < 80 ->
    (w' ← gets id; _ ← chars_write (row_position w') (column_position w')
                         {| ascii_character := byte; char_color := color_code w' |};
     c ← lift (uadd 64 (column_position w') 1);
     modify (fun w => set_pos (row_position w) c w)) w = (Done tt, put_fun byte w)).
  { clear w Hok. intros w (Hb & Hr & Hc) Hlt. unfold BUFFER_HEIGHT in Hr. rewrite gets_bind. unfold id.
    destruct (buffer_row (buffer w) (Z.to_nat (row_position w)) Hb ltac:(lia)) as (r & Hrow & El).
    erewrite bind_done; [|eapply (chars_write_ok _ _ _ r); [done|lia]].
    rewrite (lift_bind _ _ _ _ (uadd_ok 64 (column_position w) 1 ltac:(lia))).
    unfold modify, set_pos, set_buffer, put_fun. cbn. do 3 f_equal.
    by rewrite (list_alter_lookup _ _ _ r). }
  case_bool_decide as Hw.
  - rewrite (bind_done _ _ _ _ _ (new_line_eq w Hok)). fold (newline_fun w).
    apply Hstep; [by apply newline_fun_ok|]. unfold newline_fun. by case_bool_decide.
  - rewrite bind_ret. apply Hstep; [done|lia].
Qed.

(** ** The terminal with unbounded scrollback

    [lines] is everything ever shown, oldest first; the screen is its last 25
    lines and the cursor is on one of them. *)
Record term := { lines : Buffer; cur_row : Z; cur_col : Z; term_color : Z }.

Definition scrolled (t : term) : Z := Z.of_nat (length (lines t)) - 25.

Definition term_ok (t : term) : Prop :=
  0 <= scrolled t /\ Forall (fun r => length r = 80%nat) (lines t) /\
  scrolled t <= cur_row t < Z.of_nat (length (lines t)) /\ 0 <= cur_col t <= 80.

Definition term_new_line (t : term) : term :=
  {| lines := if bool_decide (cur_row t + 1 < Z.of_nat (length (lines t))) then lines t
              else lines t ++ [blank_row (term_color t)];
     cur_row := cur_row t + 1; cur_col := 0; term_color := term_color t |}.

Definition term_put (byte : Z) (t : term) : term :=
  {| lines := alter (<[Z.to_nat (cur_col t) :=
                {| ascii_character := byte; char_color := term_color t |}]>)
                (Z.to_nat (cur_row t)) (lines t);
     cur_row := cur_row t; cur_col := cur_col t + 1; term_color := term_color t |}.

Definition term_byte (t : term) (byte : Z) : term :=
  if bool_decide (byte = 0x0a) then term_new_line t
  else term_put byte (if bool_decide (80 <= cur_col t) then term_new_line t else t).

Definition term_write (s : list Z) (t : term) : term := foldl term_byte t (sanitize <$> s).

(** What the screen shows of a terminal. *)
Definition show (t : term) : Writer :=
  {| row_position := cur_row t - scrolled t; column_position := cur_col t;
     color_code := term_color t; buffer := drop (Z.to_nat (scrolled t)) (lines t) |}.

(** Every writer shows some terminal. *)
Definition term_of (w : Writer) : term :=
  {| lines := buffer w; cur_row := row_position w; cur_col := column_position w;
     term_color := color_code w |}.

Lemma show_term_of w : writer_ok w -> show (term_of w) = w /\ term_ok (term_of w).
Proof.
  intros ([Hl Hf] & Hr & Hc). unfold BUFFER_HEIGHT, BUFFER_WIDTH in *.
  assert (E : scrolled (term_of w) = 0) by (unfold scrolled; cbn; lia). split.
  - unfold show. rewrite E. cbn. rewrite Z.sub_0_r, drop_0. by destruct w.
  - unfold term_ok. rewrite E. cbn. split_and!; [done|done|lia..].
Qed.

Lemma show_ok t : term_ok t -> writer_ok (show t).
Proof.
  intros (Hs & Hf & Hr & Hc). unfold writer_ok, buffer_ok, show, BUFFER_HEIGHT, BUFFER_WIDTH.
  cbn [buffer row_position column_position]. unfold scrolled in *.
  rewrite length_drop. split_and!; [lia|by apply Forall_drop|lia..].
Qed.

Lemma term_new_line_ok t : term_ok t -> term_ok (term_new_line t).
Proof.
  intros (Hs & Hf & Hr & Hc). unfold term_ok, scrolled, term_new_line in *.
  cbn [lines cur_row cur_col]. case_bool_decide.
  - split_and!; [lia|done|lia..].
  - rewrite length_app. cbn [length]. split_and!; [lia| |lia..].
    apply Forall_app. split; [done|]. by repeat constructor.
Qed.

Lemma Forall_length_alter {A} (f : list A -> list A) i (b : list (list A)) n :
  (forall r, length (f r) = length r) -> Forall (fun r => length r = n) b ->
  Forall (fun r => length r = n) (alter f i b).
Proof.
  intros Hf Hb. revert i. induction Hb as [|r b Hr Hb IH]; intros [|i]; cbn; constructor; auto.
  by rewrite Hf.
Qed.

Lemma term_put_ok byte t : term_ok t -> cur_col t < 80 -> term_ok (term_put byte t).
Proof.
  intros (Hs & Hf & Hr & Hc) Hlt. unfold term_ok, scrolled, term_put in *.
  cbn [lines cur_row cur_col]. rewrite length_alter. split_and!; [lia| |lia..].
  apply Forall_length_alter; [|done]. intros r. apply length_insert.
Qed.

Lemma show_new_line t : term_ok t -> newline_fun (show t) = show (term_new_line t).
Proof.
  intros (Hs & Hf & Hr & Hc). unfold newline_fun. cbn [row_position show].
  unfold term_new_line, show, set_pos, scrolled in *. cbn [lines cur_row cur_col term_color
    row_position column_position color_code buffer].
  case_bool_decide; case_bool_decide; try lia; cbn [lines cur_row].
  - f_equal. lia.
  - rewrite length_app. cbn [length].
    replace (Z.to_nat (Z.of_nat (length (lines t) + 1) - 25))
      with (1 + Z.to_nat (Z.of_nat (length (lines t)) - 25))%nat by lia.
    f_equal; [lia|]. rewrite drop_drop, drop_app_le by lia. do 2 f_equal. lia.
Qed.

Lemma drop_alter_ge {A} (f : A -> A) (k i : nat) (l : list A) :
  drop k (alter f (k + i)%nat l) = alter f i (drop k l).
Proof. revert l. induction k as [|k IH]; intros [|x l]; cbn; [done..|by destruct i|apply IH]. Qed.

Lemma show_put byte t : term_ok t -> put_fun byte (show t) = show (term_put byte t).
Proof.
  intros (Hs & Hf & Hr & Hc). unfold put_fun, term_put, show, scrolled in *.
  cbn [lines cur_row cur_col term_color row_position column_position color_code buffer].
  rewrite length_alter. f_equal. rewrite <- drop_alter_ge. do 2 f_equal. lia.
Qed.

Lemma term_byte_ok t byte : term_ok t -> term_ok (term_byte t byte).
Proof.
  intros Hok. unfold term_byte. case_bool_decide; [by apply term_new_line_ok|].
  case_bool_decide as Hw.
  - apply term_put_ok; [by apply term_new_line_ok|done].
  - apply term_put_ok; [done|lia].
Qed.

Lemma write_byte_show t byte :
  term_ok t -> write_byte byte (show t) = (Done tt, show (term_byte t byte)).
Proof.
  intros Hok. rewrite write_byte_eq by (by apply show_ok). f_equal. unfold term_byte.
  case_bool_decide; [by apply show_new_line|]. cbn [column_position show]. case_bool_decide.
  - rewrite show_new_line by done. apply show_put. by apply term_new_line_ok.
  - by apply show_put.
Qed.

Lemma write_string_show s t :
  term_ok t -> write_string s (show t) = (Done tt, show (term_write s t)) /\ term_ok (term_write s t).
Proof.
  unfold write_string, term_write. revert t. induction s as [|b s IH]; intros t Hok; [done|].
  cbn [for_each fmap list_fmap foldl]. rewrite (bind_done _ _ _ _ _ (write_byte_show t _ Hok)).
  apply IH. by apply term_byte_ok.
Qed.

(** C7: the console implements a terminal.  Writing a string never panics,
    neither on an index nor on the cursor arithmetic, and what the screen shows
    afterwards is the last 25 lines of the terminal with unbounded scrollback
    to which the string, with its unprintable bytes replaced, was written. *)
Theorem console_refines_terminal s t (Hok : term_ok t) :
  write_string s (show t) = (Done tt, show (term_write s t)) /\
  term_ok (term_write s t) /\ writer_ok (show (term_write s t)).
Proof.
  destruct (write_string_show s t Hok) as [E Hok']. split_and!; [done|done|by apply show_ok].
Qed.

(** ** Facts about the terminal *)
Lemma term_byte_history t byte :
  term_ok t -> cur_row t <= cur_row (term_byte t byte) /\
  (forall i, (i < Z.to_nat (cur_row t))%nat -> lines (term_byte t byte) !! i = lines t !! i) /\
  term_color (term_byte t byte) = term_color t.
Proof.
  intros (Hs & Hf & Hr & Hc).
  assert (Hnl : forall i, (i < Z.to_nat (cur_row t))%nat -> lines (term_new_line t) !! i = lines t !! i).
  { intros i Hi. unfold term_new_line. cbn [lines]. case_bool_decide; [done|].
    apply lookup_app_l. lia. }
  unfold term_byte. case_bool_decide; [by split_and!; [cbn; lia|..]|].
  case_bool_decide; cbn [term_put cur_row lines term_new_line term_color]; split_and!; try done; try lia.
  - intros i Hi. rewrite list_lookup_alter_ne by lia. by apply Hnl.
  - intros i Hi. by rewrite list_lookup_alter_ne by lia.
Qed.

(** Text is only ever written at the cursor.  The lines above the cursor,
    on the screen or scrolled off it, are final: writing does not change them,
    and the cursor never moves up. *)
Theorem terminal_history s t i (Hok : term_ok t) (Hi : (i < Z.to_nat (cur_row t))%nat) :
  lines (term_write s t) !! i = lines t !! i /\ cur_row t <= cur_row (term_write s t) /\
  term_color (term_write s t) = term_color t.
Proof.
  unfold term_write. revert t Hok Hi. induction (sanitize <$> s) as [|b bs IH]; intros t Hok Hi.
  { split_and!; [done|cbn; lia|done]. }
  cbn [foldl]. destruct (term_byte_history t b Hok) as (Hle & Hl & Hcol).
  destruct (IH (term_byte t b) (term_byte_ok t b Hok) ltac:(lia)) as (E & Hle' & Hcol').
  split_and!; [|lia|congruence]. rewrite E. by apply Hl.
Qed.

(** A line of text without control characters, put from some column. *)
Definition printable (b : Z) : Prop := 0x20 <= b <= 0x7e.
Definition text_char (color b : Z) : ScreenChar := {| ascii_character := b; char_color := color |}.

Lemma sanitize_printable s : Forall printable s -> sanitize <$> s = s.
Proof.
  induction 1 as [|b s [Hlo Hhi] _ IH]; [done|]. cbn. rewrite IH. f_equal.
  unfold sanitize. by rewrite !bool_decide_true by done.
Qed.

Lemma term_text s t r :
  term_ok t -> Forall printable s -> cur_col t + Z.of_nat (length s) <= 80 ->
  lines t !! Z.to_nat (cur_row t) = Some r ->
  foldl term_byte t s =
    {| lines := <[Z.to_nat (cur_row t) :=
                   take (Z.to_nat (cur_col t)) r ++ (text_char (term_color t) <$> s)
                   ++ drop (Z.to_nat (cur_col t) + length s) r]> (lines t);
       cur_row := cur_row t; cur_col := cur_col t + Z.of_nat (length s);
       term_color := term_color t |}.
Proof.
  revert t r. induction s as [|b s IH]; intros t r Hok Hp Hlen Hr.
  { cbn. rewrite Nat.add_0_r, take_drop, list_insert_id by done.
    destruct t. cbn. f_equal. lia. }
  apply Forall_cons in Hp as [[Hb _] Hp]. cbn [length] in Hlen. cbn [foldl].
  assert (Hlr : length r = 80%nat) by (by apply (Forall_lookup_1 _ _ _ _ (proj1 (proj2 Hok)) Hr)).
  pose proof Hok as (_ & _ & Hrow & Hcol).
  assert (E : term_byte t b = term_put b t).
  { unfold term_byte. by rewrite !bool_decide_false by lia. }
  rewrite E. rewrite (IH (term_put b t) (<[Z.to_nat (cur_col t) := text_char (term_color t) b]> r)).
  - cbn [term_put lines cur_row cur_col term_color].
    rewrite (list_alter_lookup _ _ _ r) by done. rewrite list_insert_insert_eq.
    f_equal; [|cbn [length]; lia]. f_equal.
    replace (Z.to_nat (cur_col t + 1)) with (S (Z.to_nat (cur_col t))) by lia.
    rewrite (take_S_r _ _ (text_char (term_color t) b)) by (apply list_lookup_insert_eq; lia).
    rewrite take_insert_ge by lia. rewrite <- app_assoc. cbn [app fmap list_fmap length].
    do 3 f_equal. rewrite drop_insert_lt by lia. f_equal. lia.
  - apply term_put_ok; [done|lia].
  - done.
  - cbn [term_put cur_col]. lia.
  - cbn [term_put lines cur_row]. rewrite list_lookup_alter_eq, Hr. done.
Qed.

(** [println!] of one line of text.  From the first column, a line of at
    most 80 printable characters followed by a newline is shown, in the current
    colour, on the row just above the new cursor, which is at the first column
    of the next row, or of the last one after scrolling; a line of exactly 80
    characters takes one row, not two. *)
Theorem println_shows_line w s old
    (Hok : writer_ok w) (Hcol : column_position w = 0) (Hp : Forall printable s)
    (Hlen : (length s <= 80)%nat) (Hold : buffer w !! Z.to_nat (row_position w) = Some old) :
  exists w', write_string (s ++ [0x0a]) w = (Done tt, w') /\
    column_position w' = 0 /\ row_position w' = Z.min (row_position w + 1) 24 /\
    buffer w' !! Z.to_nat (row_position w' - 1)
      = Some ((text_char (color_code w) <$> s) ++ drop (length s) old).
Proof.
  destruct (show_term_of w Hok) as [Ew Ht].
  assert (Es : sanitize <$> (s ++ [0x0a]) = s ++ [0x0a])
    by (by rewrite fmap_app, sanitize_printable by done).
  pose proof (write_string_show (s ++ [0x0a]) _ Ht) as [E _]. rewrite Ew in E.
  exists (show (term_write (s ++ [0x0a]) (term_of w))). split; [done|]. clear E.
  unfold term_write. rewrite Es, foldl_app.
  rewrite (term_text s (term_of w) old Ht Hp ltac:(cbn; lia) Hold).
  cbn [foldl term_of cur_row cur_col lines term_color]. rewrite Hcol.
  change (Z.to_nat 0) with O. rewrite take_0, app_nil_l, Nat.add_0_l.
  set (T := Build_term _ _ _ _). change (term_byte T 0x0a) with (term_new_line T).
  destruct Hok as ([Hbl Hbf] & Hrow & _). unfold BUFFER_HEIGHT in Hrow.
  assert (HsT : scrolled T = 0) by (unfold scrolled, T; cbn [lines]; rewrite length_insert; lia).
  assert (HT : term_ok T).
  { unfold term_ok. rewrite HsT. unfold T. cbn [lines cur_row cur_col]. rewrite length_insert, Hbl.
    split_and!; try lia. apply Forall_insert; [done|].
    rewrite length_app, length_fmap, length_drop, (Forall_lookup_1 _ _ _ _ Hbf Hold). lia. }
  rewrite <- show_new_line by done. unfold newline_fun, show. rewrite HsT.
  cbn [row_position column_position color_code buffer].
  assert (HrT : cur_row T = row_position w) by done. rewrite HrT, Z.sub_0_r. change (Z.to_nat 0) with O. rewrite drop_0.
  case_bool_decide as Hd; cbn [set_pos column_position row_position buffer]; split_and!; try lia.
  - rewrite Z.add_simpl_r. unfold T. cbn [lines]. apply list_lookup_insert_eq. lia.
  - unfold T. cbn [lines]. rewrite lookup_app_l by (rewrite length_drop, length_insert, Hbl; cbn; lia).
    rewrite lookup_drop. replace (1 + Z.to_nat (24 - 1))%nat with (Z.to_nat (row_position w)) by lia.
    apply list_lookup_insert_eq. lia.
Qed.

(** ** What can be on the screen *)
Definition cells (P : ScreenChar -> Prop) (b : Buffer) : Prop := Forall (Forall P) b.

Lemma cells_new_line P t :
  P (text_char (term_color t) 0x20) -> cells P (lines t) -> cells P (lines (term_new_line t)).
Proof.
  intros Hb Hc. unfold term_new_line. cbn [lines]. case_bool_decide; [done|].
  apply Forall_app. split; [done|]. constructor; [|done]. unfold blank_row. by apply Forall_replicate.
Qed.

Lemma cells_put P byte t :
  P (text_char (term_color t) byte) -> cells P (lines t) -> cells P (lines (term_put byte t)).
Proof.
  intros Hb Hc. unfold term_put, cells. cbn [lines]. apply Forall_alter; [done|].
  intros r _ Hr. by apply Forall_insert.
Qed.

Lemma term_byte_color t b : term_color (term_byte t b) = term_color t.
Proof. unfold term_byte. by repeat case_bool_decide. Qed.

Lemma cells_byte (P : ScreenChar -> Prop) b t :
  (forall b, printable b \/ b = 0xfe -> P (text_char (term_color t) b)) ->
  cells P (lines t) -> cells P (lines (term_byte t (sanitize b))).
Proof.
  intros HP Hc. assert (Hblank : P (text_char (term_color t) 0x20)) by (apply HP; left; done).
  unfold term_byte. case_bool_decide as Hnl; [by apply cells_new_line|].
  assert (Hs : printable (sanitize b) \/ sanitize b = 0xfe).
  { unfold sanitize, printable in *. repeat case_bool_decide; cbn in *; lia. }
  case_bool_decide; apply cells_put; try by apply HP.
  - by apply cells_new_line.
  - done.
Qed.

(** Only printable characters reach the screen.  Whatever bytes are written,
    every cell of the buffer afterwards holds what some cell held before, or a
    printable ASCII character or the block 0xfe, in the writer's colour. *)
Theorem write_string_cells w s (P : ScreenChar -> Prop) w'
    (Hok : writer_ok w) (HP : cells P (buffer w))
    (Hnew : forall b, printable b \/ b = 0xfe -> P (text_char (color_code w) b))
    (Hw : write_string s w = (Done tt, w')) : cells P (buffer w') /\ color_code w' = color_code w.
Proof.
  destruct (show_term_of w Hok) as [Ew Ht].
  pose proof (write_string_show s _ Ht) as [E _]. rewrite Ew, Hw in E. injection E as ->.
  assert (G : forall t, term_color t = color_code w -> cells P (lines t) ->
    cells P (lines (term_write s t)) /\ term_color (term_write s t) = color_code w).
  { clear Hw. unfold term_write. induction s as [|b s IH]; intros t Hc Hcells; [done|].
    cbn [fmap list_fmap foldl]. apply IH; [by rewrite term_byte_color|].
    apply cells_byte; [|done]. by rewrite Hc. }
  destruct (G (term_of w) eq_refl HP) as [G1 G2]. split; [|done].
  cbn [show buffer]. by apply Forall_drop.
Qed.

(** ** [_print] *)
Lemma term_write_app s1 s2 t : term_write (s1 ++ s2) t = term_write s2 (term_write s1 t).
Proof. unfold term_write. by rewrite fmap_app, foldl_app. Qed.

Lemma write_fmt_show args t :
  term_ok t -> write_fmt args (show t) = (Done true, show (term_write (concat args) t)) /\
               term_ok (term_write (concat args) t).
Proof.
  revert t. induction args as [|s args IH]; intros t Hok; [done|]. cbn [write_fmt].
  destruct (write_string_show s t Hok) as [E Hok']. unfold write_str.
  rewrite bind_assoc, (bind_done _ _ _ _ _ E), bind_ret. cbn [concat]. rewrite term_write_app.
  by apply IH.
Qed.

Lemma print_show args b t :
  term_ok t ->
  _print args (b, Locked_new (show t)) = (Done tt, (b, Locked_new (show (term_write (concat args) t)))).
Proof.
  intros Hok. unfold _print, without_interrupts. rewrite gets_bind, modify_bind. cbn [fst snd].
  erewrite bind_done.
  2:{ unfold zoom at 1. cbn [fst snd]. erewrite with_lock_free; [done|].
      unfold zoom. cbn [fst snd]. rewrite (bind_done _ _ _ _ _ (proj1 (write_fmt_show args t Hok))).
      done. }
  by destruct b.
Qed.

(** [print!].  On a free console it never fails (the [unwrap] of
    [write_fmt] is always [Ok]); it writes the formatted pieces in order,
    leaves the console free and the interrupt flag as it was; and if the
    console is held, which on one processor means by the very code that was
    interrupted, it hangs with interrupts off, for ever. *)
Theorem print_spec args b w (Hok : writer_ok w) :
  _print args (b, Locked_new w)
  = (Done tt, (b, Locked_new (show (term_write (concat args) (term_of w))))) /\
  writer_ok (show (term_write (concat args) (term_of w))) /\
  _print args (b, {| held := true; inner := w |}) = (Hang, (false, {| held := true; inner := w |})).
Proof.
  destruct (show_term_of w Hok) as [Ew Ht]. split_and!.
  - rewrite <- Ew at 1. by apply print_show.
  - apply show_ok. by apply write_fmt_show.
  - done.
Qed.

End vga.

(** A colour code is a faithful encoding of its two colours: the foreground
    is the low and the background the high half of the attribute byte, and two
    codes are equal only for equal pairs of colours. *)
Theorem color_code_roundtrip fg bg :
  let c := ColorCode_new fg bg in
  in_range 8 c /\ c mod 16 = Color_as_u8 fg /\ c / 16 = Color_as_u8 bg /\
  (forall fg' bg', ColorCode_new fg' bg' = c <-> fg' = fg /\ bg' = bg).
Proof.
  cbn zeta. unfold in_range. split_and!; [by destruct fg, bg..|].
  intros fg' bg'. split; [|by intros [-> ->]]. intros E.
  assert (Ef : Color_as_u8 fg' = Color_as_u8 fg).
  { transitivity (ColorCode_new fg' bg' mod 16); [by destruct fg', bg'|]. rewrite E. by destruct fg, bg. }
  assert (Eb : Color_as_u8 bg' = Color_as_u8 bg).
  { transitivity (ColorCode_new fg' bg' / 16); [by destruct fg', bg'|]. rewrite E. by destruct fg, bg. }
  clear E. split; [clear Eb; by destruct fg', fg|clear Ef; by destruct bg', bg].
Qed.

(** ** Witnesses: a blank screen, the cursor on its last row *)
Definition wbuf : Buffer := replicate 25 (blank_row 7).
Definition wwriter : Writer :=
  {| row_position := 24; column_position := 0; color_code := 14; buffer := wbuf |}.

Lemma wwriter_ok : writer_ok wwriter.
Proof. split_and!; try done. by repeat constructor. Qed.

Lemma wterm_ok : term_ok (term_of wwriter).
Proof. by apply show_term_of, wwriter_ok. Qed.

Lemma console_refines_terminal_witness :
  (write_string (H := true) [0x48; 0x0a; 0x07] wwriter).1 = Done tt.
Proof.
  pose proof (console_refines_terminal (H := true) [0x48; 0x0a; 0x07] (term_of wwriter) wterm_ok) as [E _].
  change (show (term_of wwriter)) with wwriter in E. by rewrite E.
Defined.

Lemma terminal_history_witness :
  lines (term_write [0x48; 0x0a; 0x49] (term_of wwriter)) !! 3%nat = wbuf !! 3%nat.
Proof.
  exact (proj1 (terminal_history [0x48; 0x0a; 0x49] (term_of wwriter) 3 wterm_ok ltac:(cbn; lia))).
Defined.

Lemma println_shows_line_witness :
  exists w', write_string (H := true) [0x48; 0x69; 0x0a] wwriter = (Done tt, w') /\ column_position w' = 0.
Proof.
  assert (Hp : Forall printable [0x48; 0x69]) by (repeat constructor; done).
  destruct (println_shows_line (H := true) wwriter [0x48; 0x69] (blank_row 7) wwriter_ok eq_refl Hp
    ltac:(cbn; lia) eq_refl) as (w' & E & Hc & _).
  exists w'. split; [exact E|exact Hc].
Defined.

Lemma write_string_cells_witness :
  cells (fun c => 0x20 <= ascii_character c) (buffer (write_string (H := true) [0x01; 0x02] wwriter).2).
Proof.
  refine (proj1 (write_string_cells (H := true) wwriter [0x01; 0x02] _ _ wwriter_ok _ _ _)).
  - repeat constructor; done.
  - intros b [[? ?]| ->]; cbn; lia.
  - destruct (write_string_show (H := true) [0x01; 0x02] (term_of wwriter) wterm_ok) as [E _].
    change (show (term_of wwriter)) with wwriter in E. rewrite E. reflexivity.
Defined.

Lemma print_spec_witness :
  (_print (H := true) [[0x48]; [0x0a]] (true, Locked_new wwriter)).1 = Done tt.
Proof. rewrite (proj1 (print_spec (H := true) [[0x48]; [0x0a]] true wwriter wwriter_ok)). reflexivity. Defined.
End Vga.
