(* ===== verification/Sched.v ===== *)
(** * The process table and the round-robin scheduler

    [process.rs] without its assembly, and [preempt_round_robin] of
    interrupt/handlers.rs.  The scheduler is related to a queue whose head is
    the running process; [spawn] is shown to forge a complete interrupt frame
    on the new process's stack.  The deque has its buffer on the heap, and
    pushing to a full one moves it to a larger block ([push_back_grows]). *)

From S2P Require Import Prelude Store Allocator.

(** ** Data *)
Inductive ProcessState := Ready | Running.

#[export] Instance ProcessState_eq_dec : EqDecision ProcessState.
Proof. solve_decision. Defined.

(** The fields in the order of the [repr(C)] layout. *)
Record ProcessContext := {
  r15 : Z; r14 : Z; r13 : Z; r12 : Z; rbx : Z; rbp : Z; rip : Z; rsp : Z; rflags : Z;
}.

#[export] Instance ProcessContext_eq_dec : EqDecision ProcessContext.
Proof. solve_decision. Defined.

Definition ProcessContext_zero : ProcessContext :=
  {| r15 := 0; r14 := 0; r13 := 0; r12 := 0; rbx := 0; rbp := 0; rip := 0; rsp := 0; rflags := 0 |}.

(** [_stack] is the boxed stack: its address and length. *)
Record Process := {
  id : Z;
  state : ProcessState;
  context : ProcessContext;
  _stack : Z * Z;
}.

#[export] Instance Process_eq_dec : EqDecision Process.
Proof. solve_decision. Defined.

(** The allocation behind a [VecDeque]: where it is and how many elements fit. *)
Record RawVec := { buf_ptr : Z; buf_cap : Z }.

#[export] Instance RawVec_eq_dec : EqDecision RawVec.
Proof. solve_decision. Defined.

(** The deque is its elements, in order, and its buffer. *)
Record Scheduler := { processes : list Process; current_index : Z; buffer : RawVec }.

#[export] Instance Scheduler_eq_dec : EqDecision Scheduler.
Proof. solve_decision. Defined.

(** Field updates. *)
Definition with_rsp (v : Z) (c : ProcessContext) : ProcessContext :=
  {| r15 := r15 c; r14 := r14 c; r13 := r13 c; r12 := r12 c; rbx := rbx c; rbp := rbp c;
     rip := rip c; rsp := v; rflags := rflags c |}.
Definition set_context (f : ProcessContext -> ProcessContext) (p : Process) : Process :=
  {| id := id p; state := state p; context := f (context p); _stack := _stack p |}.
Definition set_state (st : ProcessState) (p : Process) : Process :=
  {| id := id p; state := st; context := context p; _stack := _stack p |}.

(** The table with other processes in the same buffer. *)
Definition with_processes (l : list Process) (s : Scheduler) : Scheduler :=
  {| processes := l; current_index := current_index s; buffer := buffer s |}.

(** ** The heap behind [Box::new] and [VecDeque]: the registered
    [#[global_allocator]], a third-party crate *)
Class GlobalHeap (G W : Type) := {
  heap_alloc : Layout -> M (G * W) Z;
  heap_realloc : Z -> Layout -> Z -> M (G * W) Z;
}.

Module Sched.
Section sched.
Context `{BuildProfile}.

(** ** Creation *)

(** [SCHEDULER] starts as [None]; [Scheduler::init] replaces it. *)
Definition SCHEDULER_init : Locked (option Scheduler) := Locked_new None.

(** [VecDeque::new()] allocates nothing: the pointer dangles, at the alignment. *)
Definition VecDeque_new : RawVec := {| buf_ptr := 8; buf_cap := 0 |}.

Definition init (_physical_memory_offset : Z) : M (Locked (option Scheduler) * unit) unit :=
  with_lock (modify (fun s =>
    (Some {| processes := []; current_index := 0; buffer := VecDeque_new |}, s.2))).

(** [size_of::<Process>()]: the identifier, the context, the box and the state,
    padded to the alignment of a word. *)
Definition process_size : Z := 8 + 72 + 16 + 8.

(** The standard library's growth: twice the capacity, at least four elements. *)
Definition grow_to (cap : Z) : Z := Z.max 4 (Z.max (cap * 2) (cap + 1)).

Definition array_layout (cap : Z) : Layout := {| size := process_size * cap; align := 8 |}.

(** What it asks the heap for: a first block, or to move the old one. *)
Definition grow_request `{GlobalHeap G W} (buf : RawVec) (layout : Layout) : M (G * W) Z :=
  if bool_decide (buf_cap buf = 0) then heap_alloc layout
  else heap_realloc (buf_ptr buf) (array_layout (buf_cap buf)) (size layout).

Definition grow `{GlobalHeap G W} : M (Scheduler * (G * W)) unit :=
  buf ← gets (fun s => buffer s.1);
  let cap := grow_to (buf_cap buf) in
  match from_size_align (process_size * cap) 8 with
  | None => panic ExplicitPanic
  | Some layout =>
      ptr ← zoom snd (fun h s => (s.1, h)) (grow_request buf layout);
      if bool_decide (ptr = 0) then panic ExplicitPanic
      else modify (fun s => ({| processes := processes s.1; current_index := current_index s.1;
                                buffer := {| buf_ptr := ptr; buf_cap := cap |} |}, s.2))
  end.

(** [VecDeque::push_back]. *)
Definition is_full (s : Scheduler) : bool :=
  bool_decide (Z.of_nat (length (processes s)) = buf_cap (buffer s)).

Definition push_back `{GlobalHeap G W} (p : Process) : M (Scheduler * (G * W)) unit :=
  full ← gets (fun s => is_full s.1);
  _ ← when full grow;
  modify (fun s => (with_processes (processes s.1 ++ [p]) s.1, s.2)).

(** A zero-sized box holds no memory: its pointer dangles, too. *)
Definition spawn_root `{GlobalHeap G W} : M (Scheduler * (G * W)) unit :=
  let root_process :=
    {| id := 0; state := Running; context := ProcessContext_zero; _stack := (1, 0) |} in
  _ ← push_back root_process;
  modify (fun s => ({| processes := processes s.1; current_index := 0; buffer := buffer s.1 |}, s.2)).

(** ** [spawn] *)
Definition STACK_SIZE : Z := 4096 * 4.

(** [Box::new([0u8; STACK_SIZE])]. *)
Definition zero_fill `{WordStore W} (base words : Z) : M W unit :=
  for_range 0 words (fun i => store (base + 8 * i) 0).

Definition box_stack `{WordStore W} `{GlobalHeap G W} : M (G * W) Z :=
  stack ← heap_alloc {| size := STACK_SIZE; align := 1 |};
  if bool_decide (stack = 0) then panic ExplicitPanic
  else
    _ ← zoom snd (fun m s => (s.1, m)) (zero_fill stack (STACK_SIZE / 8));
    mret stack.

(** The loop that forges the general purpose registers. *)
Fixpoint forge_gprs `{WordStore W} (n : nat) (ptr : Z) : M W Z :=
  match n with
  | O => mret ptr
  | S n =>
      let ptr := ptr - 8 in
      _ ← store ptr 0;
      forge_gprs n ptr
  end.

(** The block that computes [stack_top]. *)
Definition forge_frame `{WordStore W} (stack entry_point : Z) : M W Z :=
  let ptr := stack + STACK_SIZE in
  let ptr := ptr - 8 in
  _ ← store ptr 0x10;
  let ptr := ptr - 8 in
  top ← lift (uadd 64 ptr 16);
  _ ← store ptr top;
  let ptr := ptr - 8 in
  _ ← store ptr 0x200;
  let ptr := ptr - 8 in
  _ ← store ptr 0x08;
  let ptr := ptr - 8 in
  _ ← store ptr entry_point;
  forge_gprs 15 ptr.

(** [NEXT_PID.fetch_add(1)], which wraps around. *)
Definition fetch_add : M Z Z := fun n => (Done n, wrap 64 (n + 1)).

Abbreviation spawn_state G W := (Scheduler * (Z * (G * W)))%type.

Definition spawn `{WordStore W} `{GlobalHeap G W} (entry_point : Z) : M (spawn_state G W) Z :=
  pid ← zoom (fun s => s.2.1) (fun n s => (s.1, (n, s.2.2))) fetch_add;
  stack ← zoom (fun s => s.2.2) (fun h s => (s.1, (s.2.1, h))) box_stack;
  stack_top ← zoom (fun s => s.2.2.2) (fun m s => (s.1, (s.2.1, (s.2.2.1, m))))
                (forge_frame stack entry_point);
  let context := with_rsp stack_top ProcessContext_zero in
  let process := {| id := pid; state := Ready; context := context; _stack := (stack, STACK_SIZE) |} in
  _ ← zoom (fun s => (s.1, s.2.2)) (fun t s => (t.1, (s.2.1, t.2))) (push_back process);
  mret pid.

(** ** Switching *)

(** [processes[i]], with the bounds check. *)
Definition index_proc (i : Z) : M Scheduler Process := fun s =>
  match processes s !! Z.to_nat i with
  | Some p => (Done p, s)
  | None => (Panic IndexOutOfBounds, s)
  end.

Definition update_proc (i : Z) (f : Process -> Process) : M Scheduler unit := fun s =>
  match processes s !! Z.to_nat i with
  | Some p => (Done tt, with_processes (<[Z.to_nat i := f p]> (processes s)) s)
  | None => (Panic IndexOutOfBounds, s)
  end.

Definition set_current (i : Z) : M Scheduler unit :=
  modify (fun s => {| processes := processes s; current_index := i; buffer := buffer s |}).

(** [(old_index + 1) % sched.processes.len()]. *)
Definition next_of (old_index : Z) : M Scheduler Z :=
  n ← lift (uadd 64 old_index 1);
  len ← gets (fun s => Z.of_nat (length (processes s)));
  if bool_decide (len = 0) then panic DivisionByZero else mret (n mod len).

Definition preempt_body (old_rsp : Z) : M Scheduler Z :=
  sched ← gets (fun s => s);
  if bool_decide (Z.of_nat (length (processes sched)) < 2) then mret old_rsp
  else
    let old_index := current_index sched in
    _ ← update_proc old_index (set_context (with_rsp old_rsp));
    _ ← update_proc old_index (set_state Ready);
    next_index ← next_of old_index;
    _ ← set_current next_index;
    _ ← update_proc next_index (set_state Running);
    p ← index_proc next_index;
    mret (rsp (context p)).

(** Run on the value behind a taken guard; the guard is dropped at the end. *)
Definition guarded {A B} (body : M A B) (a : A) : M (Locked (option A)) B := fun l =>
  match body a with
  | (Done b, a') => (Done b, (unlock (Some a') l).2)
  | (o, a') => (o, {| held := true; inner := Some a' |})
  end.

Definition preempt_round_robin (old_rsp : Z) : M (Locked (option Scheduler)) Z :=
  guard ← try_lock;
  match guard with
  | Some (Some sched) => guarded (preempt_body old_rsp) sched
  | Some None => _ ← unlock None; mret old_rsp
  | None => mret old_rsp
  end.

(** The critical section of [execute_switch] and of [Scheduler::switch]: the
    indices whose contexts [old_ptr] and [new_ptr] point to, [None] for null. *)
Definition switch_body : M Scheduler (option (Z * Z)) :=
  sched ← gets (fun s => s);
  if bool_decide (Z.of_nat (length (processes sched)) < 2) then mret None
  else
    let old_index := current_index sched in
    next_index ← next_of old_index;
    _ ← set_current next_index;
    _ ← update_proc old_index (set_state Ready);
    _ ← update_proc next_index (set_state Running);
    _ ← index_proc old_index;
    _ ← index_proc next_index;
    mret (Some (old_index, next_index)).

Definition select_switch : M (Locked (option Scheduler)) (option (Z * Z)) :=
  guard ← lock;
  match guard with
  | Some sched => guarded switch_body sched
  | None => _ ← unlock None; mret None
  end.

(** ** Well-formed tables: the current index is in range and the running
    process is the current one, and no other. *)
Definition sched_ok (s : Scheduler) : Prop :=
  0 <= current_index s < Z.of_nat (length (processes s)) /\
  Z.of_nat (length (processes s)) < 2 ^ 63 /\
  forall i p, processes s !! i = Some p -> (state p = Running <-> i = Z.to_nat (current_index s)).

(** ** The queue: the running process first, then the others in the order in
    which they will run. *)
Definition ring (s : Scheduler) : list Process :=
  drop (Z.to_nat (current_index s)) (processes s) ++ take (Z.to_nat (current_index s)) (processes s).

Definition rsp_of (p : Process) : Z := rsp (context p).

(** One turn of the round robin: the head goes to the back. *)
Definition rotate (f : Process -> Process) (q : list Process) : list Process :=
  match q with
  | p :: p' :: q => set_state Running p' :: q ++ [set_state Ready (f p)]
  | q => q
  end.

Lemma length_ring s : length (ring s) = length (processes s).
Proof. unfold ring. rewrite length_app, length_drop, length_take. lia. Qed.

Lemma update_proc_ok i f s p :
  processes s !! Z.to_nat i = Some p ->
  update_proc i f s = (Done tt, with_processes (<[Z.to_nat i := f p]> (processes s)) s).
Proof. intros E. unfold update_proc. by rewrite E. Qed.

Lemma index_proc_ok i s p : processes s !! Z.to_nat i = Some p -> index_proc i s = (Done p, s).
Proof. intros E. unfold index_proc. by rewrite E. Qed.

Lemma next_of_ok i s :
  0 <= i < Z.of_nat (length (processes s)) -> Z.of_nat (length (processes s)) < 2 ^ 63 ->
  next_of i s = (Done ((i + 1) mod Z.of_nat (length (processes s))), s).
Proof.
  intros Hi Hl. unfold next_of. rewrite (lift_bind _ _ _ _ (uadd_ok 64 i 1 ltac:(lia))), gets_bind.
  by rewrite bool_decide_false by lia.
Qed.

(** The successor of [i] around a table of [n], and its place after [i]. *)
Lemma next_cases i n :
  0 <= i < n -> 2 <= n ->
  (i + 1 < n /\ (i + 1) mod n = i + 1) \/ (i + 1 = n /\ (i + 1) mod n = 0).
Proof.
  intros Hi Hn. destruct (decide (i + 1 < n)); [left|right].
  - split; [done|]. apply Z.mod_small. lia.
  - assert (i + 1 = n) as -> by lia. split; [done|]. by apply Z.mod_same; lia.
Qed.

(** The table after a turn. *)
Definition turned (f : Process -> Process) (s : Scheduler) : Scheduler :=
  let n := (current_index s + 1) mod Z.of_nat (length (processes s)) in
  {| processes := alter (set_state Running) (Z.to_nat n)
                    (alter (fun p => set_state Ready (f p)) (Z.to_nat (current_index s)) (processes s));
     current_index := n;
     buffer := buffer s |}.

Lemma alter_as_insert {A} (f : A -> A) i (l : list A) x :
  l !! i = Some x -> alter f i l = <[i := f x]> l.
Proof.
  revert i. induction l as [|y l IH]; intros [|i] E; try done.
  - by injection E as ->.
  - cbn. f_equal. by apply IH.
Qed.

Lemma rotate_alter f (l : list Process) (i : nat) :
  (i < length l)%nat -> (2 <= length l)%nat ->
  let n := if decide (S i < length l)%nat then S i else O in
  let l' := alter (set_state Running) n (alter (fun p => set_state Ready (f p)) i l) in
  drop n l' ++ take n l' = rotate f (drop i l ++ take i l).
Proof.
  intros Hi Hl n l'. destruct (lookup_lt_is_Some_2 l i Hi) as [p Hp].
  assert (Hdec : l = take i l ++ p :: drop (S i) l) by (by rewrite take_drop_middle).
  assert (Ht : length (take i l) = i) by (rewrite length_take; lia).
  unfold l', n. case_decide as Hd.
  - destruct (lookup_lt_is_Some_2 l (S i) Hd) as [p' Hp'].
    rewrite (drop_S l p i Hp), (drop_S l p' (S i) Hp'). cbn [app rotate].
    assert (El : alter (set_state Running) (S i) (alter (fun p => set_state Ready (f p)) i l)
      = (take i l ++ [set_state Ready (f p)]) ++ set_state Running p' :: drop (S (S i)) l).
    { rewrite (alter_as_insert _ i l p Hp).
      rewrite (alter_as_insert _ (S i) _ p') by (rewrite list_lookup_insert_ne by lia; done).
      rewrite Hdec at 1. rewrite (drop_S l p' (S i) Hp').
      rewrite insert_app_r_alt by lia. rewrite Ht, Nat.sub_diag. cbn.
      rewrite <- app_assoc. cbn.
      rewrite insert_app_r_alt by lia. rewrite Ht.
      replace (S i - i)%nat with 1%nat by lia. done. }
    rewrite El. rewrite drop_app_length', take_app_length' by (rewrite length_app, Ht; cbn; lia).
    cbn. by rewrite <- app_assoc.
  - assert (Ei : S i = length l) by lia.
    rewrite drop_0, take_0, app_nil_r, (drop_S l p i Hp), (drop_ge l) by lia.
    destruct l as [|p' l]; [cbn in Hl; lia|]. destruct i as [|i]; [cbn in Ei, Hl; lia|].
    cbn in Ei, Hp. cbn [take app rotate alter list_alter].
    cbn. f_equal. rewrite (alter_as_insert _ _ _ p Hp).
    rewrite <- (take_drop_middle l i p Hp) at 1. rewrite insert_app_r_alt by (rewrite length_take; lia).
    rewrite length_take. replace (i - i `min` length l)%nat with O by lia. cbn.
    by rewrite (drop_ge l) by lia.
Qed.

Lemma ring_turned f s :
  sched_ok s -> 2 <= Z.of_nat (length (processes s)) -> ring (turned f s) = rotate f (ring s).
Proof.
  intros (Hc & Hl & _) Hn. unfold ring, turned. cbn [with_processes processes current_index buffer].
  rewrite <- (rotate_alter f (processes s) (Z.to_nat (current_index s))) by lia.
  destruct (next_cases (current_index s) (Z.of_nat (length (processes s))) Hc Hn) as [[? ->]|[? ->]].
  - rewrite decide_True by lia. by replace (Z.to_nat (current_index s + 1)) with (S (Z.to_nat (current_index s))) by lia.
  - rewrite decide_False by lia. done.
Qed.

Lemma turned_ok f s :
  sched_ok s -> 2 <= Z.of_nat (length (processes s)) -> sched_ok (turned f s).
Proof.
  intros (Hc & Hl & Hst) Hn. unfold sched_ok, turned. cbn [with_processes processes current_index buffer].
  rewrite !length_alter.
  set (n := (current_index s + 1) mod Z.of_nat (length (processes s))).
  assert (Hr : 0 <= n < Z.of_nat (length (processes s))) by (apply Z.mod_pos_bound; lia).
  assert (Hne : Z.to_nat n <> Z.to_nat (current_index s)).
  { destruct (next_cases (current_index s) (Z.of_nat (length (processes s))) Hc Hn) as [[? E]|[? E]];
      fold n in E; lia. }
  split_and!; [lia..|]. intros i p Hi. destruct (decide (i = Z.to_nat n)) as [->|Hin].
  - rewrite list_lookup_alter_eq in Hi. apply fmap_Some in Hi as (q & _ & ->). done.
  - rewrite list_lookup_alter_ne in Hi by done. split; [|done]. intros Hrun.
    destruct (decide (i = Z.to_nat (current_index s))) as [->|Hic].
    + rewrite list_lookup_alter_eq in Hi. apply fmap_Some in Hi as (q & _ & ->). done.
    + rewrite list_lookup_alter_ne in Hi by done. by apply (Hst i p Hi) in Hrun.
Qed.

(** The process that a turn selects. *)
Lemma turned_head f s p p' q :
  sched_ok s -> ring s = p :: p' :: q ->
  processes (turned f s) !! Z.to_nat (current_index (turned f s)) = Some (set_state Running p').
Proof.
  intros Hok Er.
  assert (Hn : 2 <= Z.of_nat (length (processes s))) by (rewrite <- length_ring, Er; cbn; lia).
  pose proof (ring_turned f s Hok Hn) as E. rewrite Er in E. cbn [rotate] in E.
  unfold ring in E. pose proof (proj1 (turned_ok f s Hok Hn)) as Hc.
  destruct (lookup_lt_is_Some_2 (processes (turned f s)) (Z.to_nat (current_index (turned f s))) ltac:(lia))
    as [x Hx].
  rewrite (drop_S _ _ _ Hx) in E. cbn in E. rewrite Hx. by injection E as ->.
Qed.

Lemma preempt_body_eq old_rsp s p p' q :
  sched_ok s -> ring s = p :: p' :: q ->
  preempt_body old_rsp s = (Done (rsp (context p')), turned (set_context (with_rsp old_rsp)) s).
Proof.
  intros Hok Er.
  assert (Hn : 2 <= Z.of_nat (length (processes s))) by (rewrite <- length_ring, Er; cbn; lia).
  pose proof (turned_head (set_context (with_rsp old_rsp)) s p p' q Hok Er) as Hhead.
  pose proof Hok as (Hc & Hl & _). unfold preempt_body. rewrite gets_bind, bool_decide_false by lia.
  destruct (lookup_lt_is_Some_2 (processes s) (Z.to_nat (current_index s)) ltac:(lia)) as [p0 Hp0].
  rewrite (bind_done _ _ _ _ _ (update_proc_ok _ _ s p0 Hp0)).
  erewrite bind_done; [|eapply update_proc_ok; cbn [with_processes processes]; by apply list_lookup_insert_eq, lookup_lt_Some in Hp0 || apply list_lookup_insert_eq; lia].
  cbn [with_processes processes current_index buffer]. rewrite list_insert_insert_eq.
  erewrite bind_done; [|apply next_of_ok; cbn [with_processes processes]; rewrite length_insert; lia].
  cbn [with_processes processes]. rewrite length_insert. unfold set_current. rewrite modify_bind. cbn [with_processes processes].
  unfold turned in *. cbn [with_processes processes current_index buffer] in Hhead.
  rewrite (alter_as_insert _ (Z.to_nat (current_index s)) _ p0 Hp0) in *.
  set (l := <[_ := _]> (processes s)) in *. set (n := _ mod _) in *.
  rewrite list_lookup_alter_eq in Hhead. apply fmap_Some in Hhead as (p1 & Hp1 & E1).
  erewrite bind_done; [|by eapply update_proc_ok]. cbn [with_processes processes current_index buffer].
  rewrite (alter_as_insert _ _ _ _ Hp1).
  erewrite bind_done; [|eapply index_proc_ok; cbn [with_processes processes]; apply list_lookup_insert_eq;
    by apply lookup_lt_Some in Hp1].
  rewrite <- E1. done.
Qed.

Lemma switch_body_eq s p p' q :
  sched_ok s -> ring s = p :: p' :: q ->
  switch_body s =
    (Done (Some (current_index s, current_index (turned (fun p => p) s))), turned (fun p => p) s).
Proof.
  intros Hok Er.
  assert (Hn : 2 <= Z.of_nat (length (processes s))) by (rewrite <- length_ring, Er; cbn; lia).
  pose proof (turned_head (fun p => p) s p p' q Hok Er) as Hhead.
  pose proof (proj1 (turned_ok (fun p => p) s Hok Hn)) as Hc'.
  pose proof Hok as (Hc & Hl & _). unfold switch_body. rewrite gets_bind, bool_decide_false by lia.
  destruct (lookup_lt_is_Some_2 (processes s) (Z.to_nat (current_index s)) ltac:(lia)) as [p0 Hp0].
  rewrite (bind_done _ _ _ _ _ (next_of_ok _ s Hc Hl)). unfold set_current. rewrite modify_bind.
  erewrite bind_done; [|by eapply update_proc_ok]. cbn [with_processes processes current_index buffer].
  unfold turned in *. cbn [with_processes processes current_index buffer] in *.
  rewrite (alter_as_insert _ (Z.to_nat (current_index s)) _ p0 Hp0) in *.
  set (l := <[_ := _]> (processes s)) in *. set (n := _ mod _) in *.
  rewrite list_lookup_alter_eq in Hhead. apply fmap_Some in Hhead as (p1 & Hp1 & E1).
  erewrite bind_done; [|by eapply update_proc_ok]. cbn [with_processes processes current_index buffer].
  rewrite (alter_as_insert _ _ _ _ Hp1).
  assert (Hll : length (<[Z.to_nat n := set_state Running p1]> l) = length (processes s))
    by (unfold l; by rewrite !length_insert).
  destruct (lookup_lt_is_Some_2 (<[Z.to_nat n := set_state Running p1]> l)
    (Z.to_nat (current_index s)) ltac:(lia)) as [x Hx].
  erewrite bind_done; [|by eapply index_proc_ok].
  erewrite bind_done; [|eapply index_proc_ok; cbn [with_processes processes]; apply list_lookup_insert_eq;
    by apply lookup_lt_Some in Hp1].
  done.
Qed.

Lemma ring_two s : sched_ok s -> 2 <= Z.of_nat (length (processes s)) ->
  exists p p' q, ring s = p :: p' :: q.
Proof.
  intros Hok Hn. rewrite <- length_ring in Hn. destruct (ring s) as [|p [|p' q]]; cbn in Hn; [lia..|].
  by exists p, p', q.
Qed.

Lemma preempt_turn old_rsp s p p' q :
  sched_ok s -> ring s = p :: p' :: q ->
  preempt_round_robin old_rsp (Locked_new (Some s))
  = (Done (rsp (context p')), Locked_new (Some (turned (set_context (with_rsp old_rsp)) s))).
Proof.
  intros Hok Er. change (preempt_round_robin old_rsp (Locked_new (Some s)))
    with (guarded (preempt_body old_rsp) s {| held := true; inner := Some s |}).
  unfold guarded. by rewrite (preempt_body_eq old_rsp s p p' q Hok Er).
Qed.

Lemma preempt_turn_ring old_rsp s p p' q :
  sched_ok s -> ring s = p :: p' :: q ->
  exists s', preempt_round_robin old_rsp (Locked_new (Some s))
             = (Done (rsp (context p')), Locked_new (Some s')) /\
    sched_ok s' /\
    ring s' = set_state Running p' :: q ++ [set_state Ready (set_context (with_rsp old_rsp) p)].
Proof.
  intros Hok Hring.
  assert (Hn : 2 <= Z.of_nat (length (processes s))) by (rewrite <- length_ring, Hring; cbn; lia).
  exists (turned (set_context (with_rsp old_rsp)) s). split_and!.
  - by apply (preempt_turn _ _ p p' q).
  - by apply turned_ok.
  - rewrite ring_turned by done. by rewrite Hring.
Qed.

(** The scheduler has nobody to switch to. *)
Definition no_switch (l : Locked (option Scheduler)) : Prop :=
  held l = true \/ inner l = None \/
  exists t, inner l = Some t /\ Z.of_nat (length (processes t)) < 2.

Lemma preempt_idle old_rsp l :
  no_switch l ->
  preempt_round_robin old_rsp l = (Done old_rsp, l).
Proof.
  destruct l as [[|] o]; [done|]. unfold no_switch. cbn [held inner].
  intros [?|[-> |(s & -> & Hs)]]; [done|done|].
  change (preempt_round_robin old_rsp {| held := false; inner := Some s |})
    with (guarded (preempt_body old_rsp) s {| held := true; inner := Some s |}).
  unfold guarded, preempt_body. rewrite gets_bind, bool_decide_true by done. done.
Qed.

Lemma select_switch_idle o :
  (o = None \/ exists s, o = Some s /\ Z.of_nat (length (processes s)) < 2) ->
  select_switch (Locked_new o) = (Done None, Locked_new o).
Proof.
  intros [-> |(s & -> & Hs)]; [done|].
  change (select_switch (Locked_new (Some s)))
    with (guarded switch_body s {| held := true; inner := Some s |}).
  unfold guarded, switch_body. rewrite gets_bind, bool_decide_true by done. done.
Qed.

(** The scheduler's turn, in terms of the queue.  With a free lock and at
    least two processes, [preempt_round_robin] saves the stack pointer it is
    given in the running process, puts that process at the back of the queue
    as ready, makes the next one running and returns its saved stack pointer;
    the table stays well-formed and the lock is released. *)
Theorem preempt_refines_queue old_rsp s p p' q (Hok : sched_ok s) (Hring : ring s = p :: p' :: q) :
  exists s', preempt_round_robin old_rsp (Locked_new (Some s))
             = (Done (rsp (context p')), Locked_new (Some s')) /\
    sched_ok s' /\
    ring s' = set_state Running p' :: q ++ [set_state Ready (set_context (with_rsp old_rsp) p)].
Proof. by apply preempt_turn_ring. Qed.

(** The turns that switch nothing.  When the scheduler is locked by the
    interrupted code, not initialised, or has fewer than two processes, the
    timer's turn returns the stack pointer it was given and changes nothing. *)
Theorem preempt_no_switch old_rsp l :
  (held l = true \/ inner l = None \/
   exists s, inner l = Some s /\ Z.of_nat (length (processes s)) < 2) ->
  preempt_round_robin old_rsp l = (Done old_rsp, l).
Proof. apply preempt_idle. Qed.

(** The critical section leaves the table of a turn; storing a context into the
    old process's slot afterwards gives the turn that saves that context. *)
Lemma select_switch_turn s p p' q :
  sched_ok s -> ring s = p :: p' :: q ->
  let t := turned (fun p => p) s in
  select_switch (Locked_new (Some s)) = (Done (Some (current_index s, current_index t)), Locked_new (Some t)) /\
  current_index s <> current_index t /\ 0 <= current_index s /\ 0 <= current_index t /\
  processes t !! Z.to_nat (current_index s) = Some (set_state Ready p) /\
  processes t !! Z.to_nat (current_index t) = Some (set_state Running p') /\
  forall f, <[Z.to_nat (current_index s) := set_context f (set_state Ready p)]> (processes t)
            = processes (turned (set_context f) s) /\
            sched_ok (turned (set_context f) s) /\
            ring (turned (set_context f) s)
              = set_state Running p' :: q ++ [set_state Ready (set_context f p)].
Proof.
  intros Hok Er t.
  assert (Hn : 2 <= Z.of_nat (length (processes s))) by (rewrite <- length_ring, Er; cbn; lia).
  pose proof (turned_head (fun p => p) s p p' q Hok Er) as Hhead. fold t in Hhead.
  pose proof Hok as (Hc & Hl & _).
  assert (Hp : processes s !! Z.to_nat (current_index s) = Some p).
  { destruct (lookup_lt_is_Some_2 (processes s) (Z.to_nat (current_index s)) ltac:(lia)) as [x Hx].
    unfold ring in Er. rewrite (drop_S _ _ _ Hx) in Er. injection Er as -> _. exact Hx. }
  assert (Hne : current_index s <> current_index t).
  { cbn [t turned current_index]. destruct (next_cases _ _ Hc Hn) as [[? ->]|[? ->]]; lia. }
  assert (Hct : 0 <= current_index t) by apply (turned_ok (fun p => p) s Hok Hn).
  split_and!; try done; try lia.
  - change (select_switch (Locked_new (Some s)))
      with (guarded switch_body s {| held := true; inner := Some s |}).
    unfold guarded. by rewrite (switch_body_eq s p p' q Hok Er).
  - unfold t, turned. cbn [with_processes processes]. rewrite list_lookup_alter_ne by (cbn [t turned current_index] in *; lia).
    by rewrite list_lookup_alter_eq, Hp.
  - intros f. split_and!; [|by apply turned_ok|by rewrite ring_turned, Er].
    unfold t, turned. cbn [with_processes processes]. set (n := Z.to_nat (_ mod _)).
    assert (Hnn : n <> Z.to_nat (current_index s)) by (unfold n; cbn [t turned current_index] in *; lia).
    rewrite !(alter_as_insert _ (Z.to_nat (current_index s)) _ p Hp).
    apply list_eq. intros i. destruct (decide (i = Z.to_nat (current_index s))) as [->|Hi].
    + rewrite list_lookup_insert_eq by (rewrite length_alter, length_insert; lia).
      rewrite list_lookup_alter_ne by done. by rewrite list_lookup_insert_eq by lia.
    + rewrite list_lookup_insert_ne by done. destruct (decide (i = n)) as [->|Hin].
      * by rewrite !list_lookup_alter_eq, !list_lookup_insert_ne by done.
      * by rewrite !list_lookup_alter_ne, !list_lookup_insert_ne by done.
Qed.

(** The critical section of the cooperative switch makes the same turn,
    without touching the saved contexts, and points at the contexts of the old
    and the new process; on a scheduler that is locked it never returns. *)
Theorem select_switch_spec s p p' q (Hok : sched_ok s) (Hring : ring s = p :: p' :: q) :
  exists s' i j, select_switch (Locked_new (Some s)) = (Done (Some (i, j)), Locked_new (Some s')) /\
    sched_ok s' /\ ring s' = set_state Running p' :: q ++ [set_state Ready p] /\
    i = current_index s /\ j = current_index s' /\ i <> j /\
    select_switch {| held := true; inner := Some s |} = (Hang, {| held := true; inner := Some s |}).
Proof.
  assert (Hn : 2 <= Z.of_nat (length (processes s))) by (rewrite <- length_ring, Hring; cbn; lia).
  exists (turned (fun p => p) s). eexists _, _. split_and!; [|by apply turned_ok| |done|done| |done].
  - change (select_switch (Locked_new (Some s)))
      with (guarded switch_body s {| held := true; inner := Some s |}).
    unfold guarded. by rewrite (switch_body_eq s p p' q Hok Hring).
  - rewrite ring_turned by done. by rewrite Hring.
  - cbn [turned current_index]. pose proof (proj1 Hok) as Hc.
    destruct (next_cases _ _ Hc Hn) as [[? ->]|[? ->]]; lia.
Qed.

(** ** Several turns *)
Fixpoint ticks (rsps : list Z) : M (Locked (option Scheduler)) (list Z) :=
  match rsps with
  | [] => mret []
  | o :: rsps => r ← preempt_round_robin o; rs ← ticks rsps; mret (r :: rs)
  end.

Definition saved (o : Z) (p : Process) : Process := set_state Ready (set_context (with_rsp o) p).

Lemma saved_set_state o st p : saved o (set_state st p) = saved o p.
Proof. done. Qed.

Lemma tick_step o os s p p' q rs l' :
  sched_ok s -> ring s = p :: p' :: q ->
  ticks os (Locked_new (Some (turned (set_context (with_rsp o)) s))) = (Done rs, l') ->
  ticks (o :: os) (Locked_new (Some s)) = (Done (rsp_of p' :: rs), l').
Proof.
  intros Hok Er E. cbn [ticks]. rewrite (bind_done _ _ _ _ _ (preempt_turn o s p p' q Hok Er)).
  by rewrite (bind_done _ _ _ _ _ E).
Qed.

Lemma ring_head_current s p q :
  sched_ok s -> ring s = p :: q -> processes s !! Z.to_nat (current_index s) = Some p.
Proof.
  intros (Hc & _) Er. unfold ring in Er.
  destruct (lookup_lt_is_Some_2 (processes s) (Z.to_nat (current_index s)) ltac:(lia)) as [x Hx].
  rewrite (drop_S _ _ _ Hx) in Er. by injection Er as -> _.
Qed.

Lemma ring_head_running s p q : sched_ok s -> ring s = p :: q -> state p = Running.
Proof. intros Hok Er. pose proof (ring_head_current s p q Hok Er) as Hp. by apply (proj2 (proj2 Hok) _ _ Hp). Qed.

Lemma set_state_id p : set_state (state p) p = p.
Proof. by destruct p. Qed.

(** The processes [a] at the front of the queue are passed. *)
Lemma ticks_pass os s a b q :
  sched_ok s -> ring s = a ++ b :: q -> length os = length a ->
  exists s', ticks os (Locked_new (Some s))
             = (Done (rsp_of <$> tail (a ++ [b])), Locked_new (Some s')) /\
    sched_ok s' /\ ring s' = set_state Running b :: q ++ zip_with saved os a.
Proof.
  revert os s b q. remember (length a) as n eqn:En. revert a En.
  induction n as [|n IH]; intros a En os s b q Hok Er Hlen.
  { destruct a, os; try done. exists s. split_and!; [done|done|]. cbn in *.
    rewrite app_nil_r, <- (ring_head_running s b q Hok Er), set_state_id. done. }
  destruct a as [|p a], os as [|o os]; try done. injection En as En. injection Hlen as Hlen.
  assert (Hn : 2 <= Z.of_nat (length (processes s)))
    by (rewrite <- length_ring, Er; cbn; rewrite length_app; cbn; lia).
  pose proof (ring_turned (set_context (with_rsp o)) s Hok Hn) as Et. rewrite Er in Et.
  pose proof (turned_ok (set_context (with_rsp o)) s Hok Hn) as Hok'.
  destruct a as [|p' a].
  - destruct (IH [] En os _ (set_state Running b) (q ++ [saved o p]) Hok') as (s' & Ht & Hs' & Er');
      [by rewrite Et|done|].
    exists s'. split_and!; [|done|].
    + by apply (tick_step o os s p b q).
    + rewrite Er', <- app_assoc. by destruct os.
  - destruct (IH (set_state Running p' :: a) En os _ b (q ++ [saved o p]) Hok')
      as (s' & Ht & Hs' & Er').
    + rewrite Et. cbn. f_equal. by rewrite <- app_assoc.
    + done.
    + exists s'. split_and!; [|done|].
      * by apply (tick_step o os s p p' (a ++ b :: q)).
      * rewrite Er', <- app_assoc. by destruct os.
Qed.

Lemma ticks_app os1 os2 l rs1 l1 rs2 l2 :
  ticks os1 l = (Done rs1, l1) -> ticks os2 l1 = (Done rs2, l2) ->
  ticks (os1 ++ os2) l = (Done (rs1 ++ rs2), l2).
Proof.
  revert l rs1. induction os1 as [|o os1 IH]; intros l rs1 E1 E2.
  { by injection E1 as <- <-. }
  cbn [ticks app] in *. apply bind_done_inv in E1 as (r & la & Er & E1).
  apply bind_done_inv in E1 as (rs & lb & Ers & E1). injection E1 as <- <-.
  rewrite (bind_done _ _ _ _ _ Er). by rewrite (bind_done _ _ _ _ _ (IH _ _ Ers E2)).
Qed.

(** C9: fairness.  Over as many turns as there are processes, every process is
    resumed exactly once, in queue order, each from the stack pointer saved for
    it, the interrupted process last and from the very stack pointer it was
    interrupted with; and the queue is back in its order, each process holding
    the stack pointer of its own interruption. *)
Theorem round_robin_cycle s os
    (Hok : sched_ok s) (Hn : (2 <= length (processes s))%nat) (Hlen : length os = length (processes s)) :
  exists s', ticks os (Locked_new (Some s))
             = (Done ((rsp_of <$> tail (ring s)) ++ take 1 os), Locked_new (Some s')) /\
    sched_ok s' /\
    ring s' = match zip_with saved os (ring s) with
              | p :: q => set_state Running p :: q
              | [] => []
              end.
Proof.
  rewrite <- length_ring in Hn, Hlen.
  destruct (exists_last (l := ring s)) as (a & b & Er); [by intros E; rewrite E in Hn; cbn in Hn; lia|].
  destruct (exists_last (l := os)) as (os' & o & ->); [by intros ->; cbn in Hlen; lia|].
  rewrite Er in *. rewrite !length_app in Hlen. rewrite length_app in Hn. cbn in Hlen, Hn.
  destruct (ticks_pass os' s a b [] Hok Er ltac:(lia)) as (s1 & E1 & Hok1 & Er1).
  destruct a as [|p0 a], os' as [|o0 os']; try (cbn in Hlen, Hn; lia).
  cbn [zip_with app] in Er1.
  assert (Hn1 : 2 <= Z.of_nat (length (processes s1))) by (rewrite <- length_ring, Er1; cbn; lia).
  exists (turned (set_context (with_rsp o)) s1). split_and!.
  - apply (ticks_app (o0 :: os') [o] _ _ _ [o0] _ E1).
    by apply (tick_step o [] s1 _ _ _ _ _ Hok1 Er1).
  - by apply turned_ok.
  - rewrite ring_turned, Er1 by done. cbn. by rewrite zip_with_app by (cbn in Hlen; lia).
Qed.

(** ** [spawn] *)

(** The consecutive words [ws] from address [a] up. *)
Definition words_at (m : mem) (a : Z) (ws : list Z) : Prop :=
  forall k w, ws !! k = Some w -> m !! (a + 8 * Z.of_nat k) = Some w.

Lemma words_at_cons m a w ws :
  words_at m a (w :: ws) <-> m !! a = Some w /\ words_at m (a + 8) ws.
Proof.
  unfold words_at. split.
  - intros Hw. split; [by rewrite <- (Hw O w eq_refl), Z.add_0_r|].
    intros k v Hk. rewrite <- (Hw (S k) v Hk). f_equal. lia.
  - intros [Ha Hw] [|k] v Hk.
    + injection Hk as ->. by rewrite Z.add_0_r.
    + rewrite <- (Hw k v Hk). f_equal. lia.
Qed.

Lemma words_at_app m a ws1 ws2 :
  words_at m a (ws1 ++ ws2) <-> words_at m a ws1 /\ words_at m (a + 8 * Z.of_nat (length ws1)) ws2.
Proof.
  revert a. induction ws1 as [|w ws1 IH]; intros a; cbn [app length].
  - rewrite Z.add_0_r. split; [|by intros [_ ?]]. intros ?. by split.
  - rewrite !words_at_cons, IH.
    replace (a + 8 + 8 * Z.of_nat (length ws1)) with (a + 8 * Z.of_nat (S (length ws1))) by lia. tauto.
Qed.

Lemma words_at_frame m m' a ws :
  words_at m a ws -> (forall x, a <= x < a + 8 * Z.of_nat (length ws) -> m' !! x = m !! x) ->
  words_at m' a ws.
Proof.
  intros Hw Hf k w Hk. pose proof (lookup_lt_Some _ _ _ Hk). rewrite Hf by lia. by apply Hw.
Qed.

(** Pushing a word below the words already there. *)
Lemma words_at_push m a v ws :
  words_at m a ws -> words_at (<[a - 8 := v]> m) (a - 8) (v :: ws).
Proof.
  intros Hw. apply words_at_cons. split; [apply lookup_insert_eq|].
  replace (a - 8 + 8) with a by lia. apply (words_at_frame m); [done|].
  intros x Hx. apply lookup_insert_ne. lia.
Qed.

(** [m'] differs from [m] at most inside the interval. *)
Definition same_outside (m m' : mem) (lo hi : Z) : Prop := forall a, ~ (lo <= a < hi) -> m' !! a = m !! a.

Lemma same_outside_insert m m' lo hi a v :
  same_outside m m' lo hi -> lo <= a < hi -> same_outside m (<[a := v]> m') lo hi.
Proof. intros Hs Ha x Hx. rewrite lookup_insert_ne by lia. by apply Hs. Qed.

Lemma same_outside_trans m1 m2 m3 lo hi :
  same_outside m1 m2 lo hi -> same_outside m2 m3 lo hi -> same_outside m1 m3 lo hi.
Proof. intros H12 H23 a Ha. by rewrite H23, H12. Qed.

Lemma same_outside_mono m m' lo hi lo' hi' :
  same_outside m m' lo hi -> lo' <= lo -> hi <= hi' -> same_outside m m' lo' hi'.
Proof. intros Hs ?? a Ha. apply Hs. lia. Qed.

Lemma zero_fill_eq base n m :
  0 < base -> base mod 8 = 0 -> 0 <= n ->
  exists m', zero_fill base n m = (Done tt, m') /\ same_outside m m' base (base + 8 * n) /\
    forall k, 0 <= k < n -> m' !! (base + 8 * k) = Some 0.
Proof.
  intros Hb Hal Hn.
  apply (for_range_inv (fun i m' => same_outside m m' base (base + 8 * n) /\
    forall k, 0 <= k < i -> m' !! (base + 8 * k) = Some 0)); [done|split; [done|lia]|].
  intros i m1 Hi [Hs Hz]. eexists. split.
  - apply write_word_ok; [lia|]. by rewrite Z.mul_comm, Z.mod_add.
  - split; [apply same_outside_insert; [done|lia]|]. intros k Hk.
    destruct (decide (k = i)) as [->|]; [apply lookup_insert_eq|].
    rewrite lookup_insert_ne by lia. apply Hz. lia.
Qed.

Lemma write_below ptr v m :
  8 < ptr -> ptr mod 8 = 0 -> store (ptr - 8) v m = (Done tt, <[ptr - 8 := v]> m).
Proof.
  intros Hp Ha. apply write_word_ok; [lia|].
  replace (ptr - 8) with (ptr + -1 * 8) by lia. by rewrite Z.mod_add.
Qed.

Lemma forge_gprs_eq n ptr m ws :
  8 * Z.of_nat n < ptr -> ptr mod 8 = 0 -> words_at m ptr ws ->
  exists m', forge_gprs n ptr m = (Done (ptr - 8 * Z.of_nat n), m') /\
    words_at m' (ptr - 8 * Z.of_nat n) (replicate n 0 ++ ws) /\
    same_outside m m' (ptr - 8 * Z.of_nat n) ptr.
Proof.
  revert ptr m ws. induction n as [|n IH]; intros ptr m ws Hp Ha Hw; cbn [forge_gprs].
  { exists m. rewrite Z.mul_0_r, Z.sub_0_r. by split_and!. }
  rewrite (bind_done _ _ _ _ _ (write_below ptr 0 m ltac:(lia) Ha)).
  assert (Ha' : (ptr - 8) mod 8 = 0)
    by (replace (ptr - 8) with (ptr + -1 * 8) by lia; by rewrite Z.mod_add).
  destruct (IH (ptr - 8) _ (0 :: ws) ltac:(lia) Ha' (words_at_push m ptr 0 ws Hw)) as (m' & E & Hw' & Hs).
  exists m'. rewrite E. replace (ptr - 8 - 8 * Z.of_nat n) with (ptr - 8 * Z.of_nat (S n)) in * by lia.
  split_and!; [done| |].
  - replace (replicate (S n) 0 ++ ws) with (replicate n 0 ++ 0 :: ws); [done|].
    change (0 :: ws) with ([0] ++ ws). rewrite app_assoc, <- replicate_S_end. done.
  - apply (same_outside_trans _ (<[ptr - 8 := 0]> m)).
    + apply same_outside_insert; [done|lia].
    + apply (same_outside_mono _ _ _ _ _ _ Hs); lia.
Qed.

(** The words of the frame [spawn] forges, from the stack pointer up. *)
Definition fresh_words (entry_point top : Z) : list Z :=
  replicate 15 0 ++ [entry_point; 0x08; 0x200; top; 0x10].

Lemma forge_frame_eq stack entry m :
  0 < stack -> stack mod 8 = 0 -> stack + STACK_SIZE < 2 ^ 64 ->
  exists m', forge_frame stack entry m = (Done (stack + STACK_SIZE - 160), m') /\
    words_at m' (stack + STACK_SIZE - 160) (fresh_words entry (stack + STACK_SIZE)) /\
    same_outside m m' (stack + STACK_SIZE - 160) (stack + STACK_SIZE).
Proof.
  unfold STACK_SIZE. intros Hs Ha Hlt. set (top := stack + 4096 * 4) in *.
  assert (Hmod : forall k, (top - 8 * k) mod 8 = 0).
  { intros k. replace (top - 8 * k) with (stack + (2048 - k) * 8) by lia. by rewrite Z.mod_add. }
  unfold forge_frame. fold (STACK_SIZE). change (stack + STACK_SIZE) with top.
  rewrite (bind_done _ _ _ _ _ (write_below top 0x10 m ltac:(lia) ltac:(rewrite <- (Hmod 0); f_equal; lia))).
  rewrite (lift_bind _ _ _ _ (uadd_ok 64 (top - 8 - 8) 16 ltac:(lia))).
  rewrite (bind_done _ _ _ _ _ (write_below (top - 8) _ _ ltac:(lia) (Hmod 1))).
  rewrite (bind_done _ _ _ _ _ (write_below (top - 8 - 8) _ _ ltac:(lia) ltac:(rewrite <- (Hmod 2); f_equal; lia))).
  rewrite (bind_done _ _ _ _ _ (write_below (top - 8 - 8 - 8) _ _ ltac:(lia) ltac:(rewrite <- (Hmod 3); f_equal; lia))).
  rewrite (bind_done _ _ _ _ _ (write_below (top - 8 - 8 - 8 - 8) _ _ ltac:(lia) ltac:(rewrite <- (Hmod 4); f_equal; lia))).
  replace (top - 8 - 8 + 16) with top by lia.
  set (m5 := <[_ := entry]> _). set (p := top - 8 - 8 - 8 - 8 - 8).
  assert (Hw : words_at m5 p [entry; 0x08; 0x200; top; 0x10]).
  { unfold m5, p. repeat apply words_at_push. intros k w Hk. done. }
  destruct (forge_gprs_eq 15 p m5 _ ltac:(unfold p; lia)
    ltac:(unfold p; rewrite <- (Hmod 5); f_equal; lia) Hw) as (m' & E & Hw' & Hs').
  exists m'. rewrite E. replace (p - 8 * Z.of_nat 15) with (top - 160) in * by (unfold p; lia).
  split_and!; [done|done|]. apply (same_outside_trans _ m5).
  - unfold m5. repeat (apply same_outside_insert; [|lia]). done.
  - apply (same_outside_mono _ _ _ _ _ _ Hs'); unfold p; lia.
Qed.

Lemma sched_ok_push s p :
  sched_ok s -> state p = Ready -> Z.of_nat (length (processes s)) + 1 < 2 ^ 63 ->
  sched_ok (with_processes (processes s ++ [p]) s).
Proof.
  intros (Hc & Hl & Hst) Hp Hlt. unfold sched_ok. cbn [with_processes processes current_index buffer].
  rewrite length_app. cbn [length]. split_and!; [lia..|]. intros i q Hi.
  apply lookup_app_Some in Hi as [Hi|[Hle Hi]]; [by apply Hst|].
  apply list_lookup_singleton_Some in Hi as [Hi ->]. rewrite Hp. split; [done|lia].
Qed.

(** ** [push_back] and its buffer *)
Definition has_room (s : Scheduler) : Prop := Z.of_nat (length (processes s)) < buf_cap (buffer s).

Definition with_buffer (b : RawVec) (s : Scheduler) : Scheduler :=
  {| processes := processes s; current_index := current_index s; buffer := b |}.

Lemma push_back_room `{GlobalHeap G W} p s (h : G * W) :
  has_room s -> push_back p (s, h) = (Done tt, (with_processes (processes s ++ [p]) s, h)).
Proof.
  unfold has_room. intros Hr. unfold push_back, is_full. rewrite gets_bind. cbn [fst].
  by rewrite bool_decide_false by lia.
Qed.

Lemma grow_eq `{GlobalHeap G W} s (h h' : G * W) ptr :
  process_size * grow_to (buf_cap (buffer s)) + 8 <= 2 ^ 63 ->
  grow_request (buffer s) (array_layout (grow_to (buf_cap (buffer s)))) h = (Done ptr, h') ->
  grow (s, h) = if bool_decide (ptr = 0) then (Panic ExplicitPanic, (s, h'))
                else (Done tt, (with_buffer {| buf_ptr := ptr; buf_cap := grow_to (buf_cap (buffer s)) |} s, h')).
Proof.
  intros Hsize E. unfold grow. rewrite gets_bind. cbn [fst]. cbn zeta.
  assert (Hp : pow2 8) by by exists 3.
  rewrite (from_size_align_ok _ 8 Hp Hsize).
  erewrite bind_done; [|apply zoom_done; exact E]. cbn [fst].
  destruct (decide (ptr = 0)); [by rewrite !bool_decide_true|by rewrite !bool_decide_false].
Qed.

(** Growth.  On a full buffer [push_back] asks the heap for room for four
    elements, or moves the buffer to twice its size; then the element is the
    last of the deque, in the new buffer, the others and the current index are
    as before, and there is room for as many elements again.  If the heap
    refuses, it panics and the deque is as it was. *)
Theorem push_back_grows `{GlobalHeap G W} p s (h h' : G * W) ptr
    (Hfull : Z.of_nat (length (processes s)) = buf_cap (buffer s))
    (Hsize : process_size * grow_to (buf_cap (buffer s)) + 8 <= 2 ^ 63)
    (E : grow_request (buffer s) (array_layout (grow_to (buf_cap (buffer s)))) h = (Done ptr, h')) :
  push_back p (s, h) =
    if bool_decide (ptr = 0) then (Panic ExplicitPanic, (s, h'))
    else (Done tt, ({| processes := processes s ++ [p]; current_index := current_index s;
                       buffer := {| buf_ptr := ptr; buf_cap := grow_to (buf_cap (buffer s)) |} |}, h')).
Proof.
  unfold push_back, is_full. rewrite gets_bind. cbn [fst]. rewrite bool_decide_true by done. cbn [when].
  pose proof (grow_eq s h h' ptr Hsize E) as Eg. destruct (decide (ptr = 0)).
  - rewrite bool_decide_true in * by done. exact (bind_panic _ _ _ _ _ Eg).
  - rewrite bool_decide_false in * by done. by rewrite (bind_done _ _ _ _ _ Eg).
Qed.

(** Whatever the heap does, only the buffer and the end of the deque change. *)
Lemma push_back_inv `{GlobalHeap G W} p s (h : G * W) t :
  push_back p (s, h) = (Done tt, t) ->
  exists b h', t = (with_buffer b (with_processes (processes s ++ [p]) s), h') /\
    (b = buffer s /\ Z.of_nat (length (processes s)) <> buf_cap (buffer s) \/
     buf_cap b = grow_to (buf_cap (buffer s)) /\ Z.of_nat (length (processes s)) = buf_cap (buffer s) /\
     process_size * grow_to (buf_cap (buffer s)) + 8 <= 2 ^ 63).
Proof.
  unfold push_back, is_full. rewrite gets_bind. cbn [fst]. case_bool_decide as Hf; cbn [when].
  2:{ rewrite bind_ret. intros [= <-]. exists (buffer s), h. split; [by destruct s|by left]. }
  intros E. apply bind_done_inv in E as ([] & t1 & Eg & [= <-]). unfold grow in Eg. rewrite gets_bind in Eg.
  cbn [fst] in Eg. destruct (from_size_align _ 8) as [layout|] eqn:El; [|done].
  apply from_size_align_Some in El as (-> & _ & Hsz). apply bind_done_inv in Eg as (ptr & t2 & Ez & Eg).
  unfold zoom in Ez. cbn [snd] in Ez. destruct (grow_request _ _ h) as [o h1]. injection Ez as -> <-.
  destruct (bool_decide (ptr = 0)); [done|]. injection Eg as <-. cbn [fst snd].
  eexists _, h1. split; [done|]. right. unfold isize_bound in Hsz. by split_and!.
Qed.

(** The process [spawn] appends. *)
Definition spawned (pid stack : Z) : Process :=
  {| id := pid; state := Ready; context := with_rsp (stack + STACK_SIZE - 160) ProcessContext_zero;
     _stack := (stack, STACK_SIZE) |}.

Lemma spawn_ok `{GlobalHeap G mem} entry s n g m stack g1 m1 :
  has_room s ->
  heap_alloc {| size := STACK_SIZE; align := 1 |} (g, m) = (Done stack, (g1, m1)) ->
  0 < stack /\ stack + STACK_SIZE < 2 ^ 64 -> stack mod 8 = 0 ->
  exists m', spawn entry (s, (n, (g, m))) =
    (Done n, (with_processes (processes s ++ [spawned n stack]) s,
              (wrap 64 (n + 1), (g1, m')))) /\
  words_at m' (stack + STACK_SIZE - 160) (fresh_words entry (stack + STACK_SIZE)) /\
  (forall a, stack <= a < stack + STACK_SIZE - 160 -> a mod 8 = 0 -> m' !! a = Some 0) /\
  same_outside m1 m' stack (stack + STACK_SIZE).
Proof.
  intros Hroom Hheap Hrange Halign. unfold spawn. erewrite bind_done; [|done]. cbn [fst snd].
  destruct (zero_fill_eq stack (STACK_SIZE / 8) m1 ltac:(lia) Halign ltac:(done)) as (m2 & E2 & Hs2 & Hz).
  change (8 * (STACK_SIZE / 8)) with STACK_SIZE in Hs2.
  destruct (forge_frame_eq stack entry m2 ltac:(lia) Halign (proj2 Hrange)) as (m3 & E3 & Hw3 & Hs3).
  exists m3. erewrite bind_done.
  2:{ apply zoom_done. cbn [fst snd]. unfold box_stack. rewrite (bind_done _ _ _ _ _ Hheap).
      rewrite bool_decide_false by lia. erewrite bind_done; [done|]. apply zoom_done, E2. }
  erewrite bind_done; [|apply zoom_done; exact E3].
  erewrite bind_done; [|apply zoom_done; by apply push_back_room]. cbn [fst snd].
  split_and!; try done.
  - intros a Ha Hmod. rewrite Hs3 by lia.
    replace a with (stack + 8 * ((a - stack) / 8)).
    + apply Hz. change (STACK_SIZE / 8) with 2048. unfold STACK_SIZE in *.
      split; [apply Z.div_pos; lia|apply Z.div_lt_upper_bound; lia].
    + rewrite <- Z_div_exact_full_2; [lia|done|]. by rewrite Zminus_mod, Hmod, Halign.
  - apply (same_outside_trans _ m2); [done|].
    apply (same_outside_mono _ _ _ _ _ _ Hs3); unfold STACK_SIZE; lia.
Qed.

Lemma spawn_null `{GlobalHeap G mem} entry s n g m g1 m1 :
  heap_alloc {| size := STACK_SIZE; align := 1 |} (g, m) = (Done 0, (g1, m1)) ->
  spawn entry (s, (n, (g, m))) = (Panic ExplicitPanic, (s, (wrap 64 (n + 1), (g1, m1)))).
Proof.
  intros Hheap. unfold spawn. erewrite bind_done; [|done]. cbn [fst snd].
  rewrite (bind_panic _ _ _ ExplicitPanic (s, (wrap 64 (n + 1), (g1, m1)))); [done|].
  unfold zoom, box_stack. cbn [fst snd]. by rewrite (bind_done _ _ _ _ _ Hheap).
Qed.

(** C23: [spawn], while the deque's buffer has room.  When the heap provides an
    aligned stack, the new process is
    appended as ready with the next identifier; its saved stack pointer leads
    to a complete interrupt frame (fifteen zero registers, the entry point, the
    kernel code and data selectors, a flags word with interrupts enabled, and
    the top of the stack as its stack pointer), the rest of the stack is zero,
    no memory outside the stack is touched, and the table stays well-formed.
    When the heap is exhausted it panics. *)
Theorem spawn_spec `{GlobalHeap G mem} entry s n g m stack g1 m1 (Hroom : has_room s)
    (Hheap : heap_alloc {| size := STACK_SIZE; align := 1 |} (g, m) = (Done stack, (g1, m1)))
    (Hrange : 0 <= stack /\ stack + STACK_SIZE < 2 ^ 64) (Halign : stack mod 8 = 0) :
  let frame := stack + STACK_SIZE - 160 in
  let '(o, (s', (n', (g', m')))) := spawn entry (s, (n, (g, m))) in
  if bool_decide (stack = 0) then o = Panic ExplicitPanic else
  o = Done n /\ n' = wrap 64 (n + 1) /\ g' = g1 /\
  s' = with_processes (processes s ++ [spawned n stack]) s /\
  words_at m' frame (fresh_words entry (stack + STACK_SIZE)) /\
  (forall a, stack <= a < frame -> a mod 8 = 0 -> m' !! a = Some 0) /\
  same_outside m1 m' stack (stack + STACK_SIZE) /\
  (sched_ok s -> Z.of_nat (length (processes s)) + 1 < 2 ^ 63 -> sched_ok s').
Proof.
  cbn zeta. case_bool_decide as Hnull.
  - subst stack. by rewrite (spawn_null entry s n g m g1 m1 Hheap).
  - destruct (spawn_ok entry s n g m stack g1 m1 Hroom Hheap ltac:(lia) Halign) as (m' & -> & Hw & Hz & Hm).
    split_and!; try done. intros Hok Hlen. by apply sched_ok_push.
Qed.

(** ** Histories of the process table *)

(** The scheduler that [init] installs, and what [spawn_root] makes of it in a
    buffer at [b]. *)
Definition empty_table : Scheduler := {| processes := []; current_index := 0; buffer := VecDeque_new |}.
Definition root_table (b : Z) : Scheduler :=
  {| processes := [{| id := 0; state := Running; context := ProcessContext_zero; _stack := (1, 0) |}];
     current_index := 0; buffer := {| buf_ptr := b; buf_cap := 4 |} |}.

Lemma spawn_root_ok `{GlobalHeap G W} (h h' : G * W) b :
  heap_alloc (array_layout 4) h = (Done b, h') ->
  spawn_root (empty_table, h) =
    if bool_decide (b = 0) then (Panic ExplicitPanic, (empty_table, h')) else (Done tt, (root_table b, h')).
Proof.
  intros E. unfold spawn_root.
  pose proof (push_back_grows {| id := 0; state := Running; context := ProcessContext_zero; _stack := (1, 0) |}
    empty_table h h' b eq_refl ltac:(done) E) as Ep.
  destruct (decide (b = 0)).
  - rewrite bool_decide_true in * by done. exact (bind_panic _ _ _ _ _ Ep).
  - rewrite bool_decide_false in * by done. by rewrite (bind_done _ _ _ _ _ Ep).
Qed.

Inductive sched_step `{GlobalHeap G mem} : spawn_state G mem -> spawn_state G mem -> Prop :=
  | step_spawn entry s n h pid s' :
      n < 2 ^ 63 - 1 -> spawn entry (s, (n, h)) = (Done pid, s') -> sched_step (s, (n, h)) s'
  | step_preempt old_rsp s x r s' :
      preempt_body old_rsp s = (Done r, s') -> sched_step (s, x) (s', x)
  | step_yield s x r s' :
      switch_body s = (Done r, s') -> sched_step (s, x) (s', x).

(** The deque fits its buffer. *)
Definition buffer_ok (s : Scheduler) : Prop :=
  Z.of_nat (length (processes s)) <= buf_cap (buffer s) /\ 0 <= buf_cap (buffer s).

Definition history_ok {X} (t : Scheduler * (Z * X)) : Prop :=
  (sched_ok t.1 /\ buffer_ok t.1) /\ Z.of_nat (length (processes t.1)) = t.2.1 /\
  NoDup (id <$> processes t.1) /\ Forall (fun p => id p < t.2.1) (processes t.1).

Lemma fmap_alter_same {A B} (g : A -> B) (f : A -> A) i (l : list A) :
  (forall x, g (f x) = g x) -> g <$> alter f i l = g <$> l.
Proof.
  intros Hf. revert i. induction l as [|x l IH]; intros [|i]; try done; cbn; [by rewrite Hf|].
  f_equal. apply IH.
Qed.

Lemma turned_ids f s :
  (forall p, id (f p) = id p) -> id <$> processes (turned f s) = id <$> processes s.
Proof.
  intros Hf. unfold turned. cbn [with_processes processes]. rewrite !fmap_alter_same; [done| |done].
  intros p. cbn. apply Hf.
Qed.

Lemma Forall_ids (l l' : list Process) n :
  id <$> l = id <$> l' -> Forall (fun p => id p < n) l -> Forall (fun p => id p < n) l'.
Proof.
  intros E Hf. apply (Forall_fmap id (fun i => i < n)). rewrite <- E. by apply Forall_fmap.
Qed.

Lemma history_turned {X} f s (x : Z * X) :
  (forall p, id (f p) = id p) -> 2 <= Z.of_nat (length (processes s)) ->
  history_ok (s, x) -> history_ok (turned f s, x).
Proof.
  intros Hf Hn ([Hok Hbuf] & Hlen & Hnd & Hlt). unfold history_ok in *. cbn [fst snd] in *.
  pose proof (turned_ids f s Hf) as Ei. split_and!.
  - by apply turned_ok.
  - unfold buffer_ok. change (buffer (turned f s)) with (buffer s). unfold turned. cbn [processes]. by rewrite !length_alter.
  - unfold turned. cbn [with_processes processes]. by rewrite !length_alter.
  - by rewrite Ei.
  - by apply (Forall_ids (processes s)).
Qed.

(** The turns on any well-formed table, of whatever length. *)
Lemma bodies_done s old_rsp :
  sched_ok s ->
  (exists r, preempt_body old_rsp s =
     (Done r, if bool_decide (Z.of_nat (length (processes s)) < 2) then s
              else turned (set_context (with_rsp old_rsp)) s)) /\
  (exists r, switch_body s =
     (Done r, if bool_decide (Z.of_nat (length (processes s)) < 2) then s
              else turned (fun p => p) s)).
Proof.
  intros Hok. case_bool_decide as Hlen.
  - unfold preempt_body, switch_body. rewrite !gets_bind, !bool_decide_true by done.
    split; by eexists.
  - destruct (ring_two s Hok ltac:(lia)) as (p & p' & q & Er). split; eexists.
    + by apply (preempt_body_eq _ _ p p' q).
    + by apply (switch_body_eq _ p p' q).
Qed.

Lemma spawn_done_inv `{GlobalHeap G mem} entry s n (h : G * mem) pid t :
  spawn entry (s, (n, h)) = (Done pid, t) ->
  exists p b h', t = (with_buffer b (with_processes (processes s ++ [p]) s), (wrap 64 (n + 1), h')) /\
    id p = n /\ state p = Ready /\ pid = n /\
    (buffer_ok s -> Z.of_nat (length (processes s)) + 1 <= buf_cap b).
Proof.
  unfold spawn. intros E. apply bind_done_inv in E as (pid0 & t1 & E1 & E).
  unfold zoom, fetch_add in E1. cbn in E1. injection E1 as <- <-.
  apply bind_done_inv in E as (stack & t2 & E2 & E). unfold zoom in E2. cbn [fst snd] in E2.
  destruct (box_stack h) as [o h2]. injection E2 as -> <-.
  apply bind_done_inv in E as (top & t3 & E3 & E). unfold zoom in E3. cbn [fst snd] in E3.
  destruct (forge_frame stack entry h2.2) as [o3 m3]. injection E3 as -> <-.
  apply bind_done_inv in E as ([] & t4 & E4 & [= <- <-]). unfold zoom in E4. cbn [fst snd] in E4.
  destruct (push_back _ _) as [o4 [s4 h4]] eqn:E5. injection E4 as -> <-.
  destruct (push_back_inv _ _ _ _ E5) as (b & h5 & [= -> ->] & Hb). eexists _, b, _. split; [done|]. split_and!; [done..|].
  unfold buffer_ok, grow_to in *. intros Hs. destruct Hb as [[-> Hne]|(-> & Hf & _)]; lia.
Qed.

Lemma history_step `{GlobalHeap G mem} t t' : sched_step t t' -> history_ok t -> history_ok t'.
Proof.
  destruct 1 as [entry s n h pid t Hn E|old_rsp s x r s' E|s x r s' E]; intros Hh;
    pose proof Hh as ([Hok Hbuf] & Hlen & Hnd & Hlt); cbn [fst snd] in *.
  - destruct (spawn_done_inv _ _ _ _ _ _ E) as (p & b & h' & -> & Hid & Hst & -> & Hb).
    specialize (Hb Hbuf).
    assert (En : wrap 64 (n + 1) = n + 1) by (apply wrap_small; unfold in_range; lia).
    unfold history_ok. cbn [with_buffer with_processes fst snd processes]. rewrite En, length_app. cbn [length]. split_and!.
    + apply (sched_ok_push s p Hok Hst). lia.
    + unfold buffer_ok in *. cbn [with_buffer with_processes processes buffer]. rewrite length_app. cbn [length]. lia.
    + lia.
    + rewrite fmap_app. apply NoDup_app. split_and!; [done| |apply NoDup_singleton].
      intros i (q & -> & Hq)%list_elem_of_fmap Heq. apply list_elem_of_singleton in Heq.
      rewrite Forall_forall in Hlt. specialize (Hlt q Hq). lia.
    + apply Forall_app. split; [|by constructor; [lia|]].
      apply (Forall_impl _ _ _ Hlt). intros q Hq. lia.
  - destruct (bodies_done s old_rsp Hok) as [[r' E'] _]. rewrite E' in E. injection E as _ <-.
    case_bool_decide; [done|]. apply history_turned; [done|lia|done].
  - destruct (bodies_done s 0 Hok) as [_ [r' E']]. rewrite E' in E. injection E as _ <-.
    case_bool_decide; [done|]. apply history_turned; [done|lia|done].
Qed.

Lemma history_root {X} (b : Z) (h : X) : history_ok (root_table b, (1, h)).
Proof.
  unfold history_ok, buffer_ok, root_table. cbn. split_and!; [|done|done|done| |by repeat constructor].
  - unfold sched_ok. cbn. split_and!; [done..|]. intros [|i] p Hi; [|done].
    by injection Hi as <-.
  - apply NoDup_singleton.
Qed.

(** C24: the process table over any history of spawns, timer turns and
    cooperative switches from the root process on, however often the deque's
    buffer is moved: the processes fit the buffer; exactly one of them is
    running, the one at the current index; process identifiers are unique; and
    no turn can panic, on an index, on the modulus or on the arithmetic. *)
Theorem scheduler_history `{GlobalHeap G mem} b (h : G * mem) s n h' old_rsp
    (Hrun : rtc sched_step (root_table b, (1, h)) (s, (n, h'))) :
  Z.of_nat (length (processes s)) <= buf_cap (buffer s) /\
  (exists p, processes s !! Z.to_nat (current_index s) = Some p /\ state p = Running /\
     forall i q, processes s !! i = Some q -> state q = Running -> i = Z.to_nat (current_index s)) /\
  (forall i j p q, processes s !! i = Some p -> processes s !! j = Some q -> id p = id q -> i = j) /\
  (exists r s', preempt_body old_rsp s = (Done r, s')) /\ (exists r s', switch_body s = (Done r, s')).
Proof.
  assert (Hok : history_ok (s, (n, h'))).
  { revert Hrun. generalize (history_root b h). intros Hroot Hrun.
    induction Hrun as [|t1 t2 t3 Hs _ IH]; [done|]. apply IH. by apply (history_step t1). }
  destruct Hok as ([Hok Hbuf] & _ & Hnd & _). cbn [fst] in *. split_and!.
  - apply Hbuf.
  - destruct Hok as (Hc & _ & Hst).
    destruct (lookup_lt_is_Some_2 (processes s) (Z.to_nat (current_index s)) ltac:(lia)) as [p Hp].
    exists p. split_and!; [done|by apply (Hst _ _ Hp)|]. intros i q Hi Hq. by apply (Hst i q Hi).
  - intros i j p q Hi Hj E. apply (NoDup_lookup (id <$> processes s) i j (id p)); [done|..].
    + by rewrite list_lookup_fmap, Hi.
    + rewrite list_lookup_fmap, Hj, E. done.
  - destruct (bodies_done s old_rsp Hok) as [[r E] _]. by eexists _, _.
  - destruct (bodies_done s 0 Hok) as [_ [r E]]. by eexists _, _.
Qed.
End sched.

(** ** Witnesses: a bump heap for the stacks, a table of three *)
#[local] Instance bump_heap : GlobalHeap Z mem := {
  heap_alloc l '(g, m) := (Done g, (g + size l, m));
  heap_realloc _ _ n '(g, m) := (Done g, (g + n, m));
}.

Definition wproc (i : Z) (st : ProcessState) : Process :=
  {| id := i; state := st; context := with_rsp (0x1000 * i) ProcessContext_zero;
     _stack := (0x1000 * i, 0x1000) |}.
Definition wsched : Scheduler :=
  {| processes := [wproc 0 Ready; wproc 1 Running; wproc 2 Ready]; current_index := 1;
     buffer := {| buf_ptr := 0x800; buf_cap := 4 |} |}.

Lemma wsched_ok : sched_ok wsched.
Proof.
  unfold sched_ok. cbn. split_and!; [done..|].
  intros [|[|[|i]]] p Hi; try done; injection Hi as <-; cbn; split; (done || lia).
Qed.

Lemma wroot_ok : sched_ok (root_table 0x800).
Proof. apply (history_root 0x800 ()). Qed.

Lemma preempt_refines_queue_witness :
  (preempt_round_robin (H := true) 0x1f00 (Locked_new (Some wsched))).1 = Done 0x2000.
Proof.
  destruct (preempt_refines_queue (H := true) 0x1f00 wsched _ _ _ wsched_ok eq_refl) as (s' & E & _).
  rewrite E. reflexivity.
Defined.

Lemma preempt_no_switch_witness :
  preempt_round_robin (H := true) 0x1f00 (Locked_new (Some (root_table 0x800)))
  = (Done 0x1f00, Locked_new (Some (root_table 0x800))).
Proof.
  apply (preempt_no_switch (H := true)). right. right. exists (root_table 0x800). split; reflexivity.
Defined.

Lemma select_switch_spec_witness :
  exists s', select_switch (H := true) (Locked_new (Some wsched)) = (Done (Some (1, 2)), Locked_new (Some s')).
Proof.
  destruct (select_switch_spec (H := true) wsched _ _ _ wsched_ok eq_refl)
    as (s' & i & j & E & _ & Er & -> & -> & _).
  exists s'. rewrite E. injection E as Ej Es. rewrite <- Es. reflexivity.
Defined.

Lemma round_robin_cycle_witness :
  (ticks (H := true) [0x1f00; 0x2f00; 0xf00] (Locked_new (Some wsched))).1
  = Done [0x2000; 0; 0x1f00].
Proof.
  assert (Hn : (2 <= length (processes wsched))%nat) by (cbn; lia).
  destruct (round_robin_cycle (H := true) wsched [0x1f00; 0x2f00; 0xf00] wsched_ok Hn eq_refl)
    as (s' & E & _).
  rewrite E. reflexivity.
Defined.

Lemma spawn_spec_witness :
  (spawn (H := true) 0xcafe (root_table 0x800, (1, (0x10000, ∅)))).1 = Done 1.
Proof.
  pose proof (spawn_spec (H := true) (H0 := bump_heap) 0xcafe (root_table 0x800) 1 0x10000 ∅ 0x10000 0x14000 ∅
    eq_refl eq_refl ltac:(split; done) eq_refl) as T.
  cbn zeta in T. destruct (spawn _ _) as [o [s' [n' [g' m']]]]. exact (proj1 T).
Defined.

(** The fifth process moves the buffer. *)
Definition wfull : Scheduler :=
  {| processes := wproc 0 Running :: ((fun i => wproc i Ready) <$> [1; 2; 3]); current_index := 0;
     buffer := {| buf_ptr := 0x800; buf_cap := 4 |} |}.

Lemma push_back_grows_witness :
  push_back (wproc 4 Ready) (wfull, (0x10000, ∅))
  = (Done tt, ({| processes := processes wfull ++ [wproc 4 Ready]; current_index := 0;
                  buffer := {| buf_ptr := 0x10000; buf_cap := 8 |} |}, (0x10340, ∅))).
Proof.
  exact (push_back_grows (wproc 4 Ready) wfull (0x10000, ∅) (0x10340, ∅) 0x10000 eq_refl
    ltac:(vm_compute; congruence) eq_refl).
Defined.

Lemma scheduler_history_witness :
  exists r s', preempt_body (H := true) 0x77
    (spawn (H := true) 0xcafe (root_table 0x800, (1, (0x10000, ∅)))).2.1 = (Done r, s').
Proof.
  destruct (spawn (H := true) 0xcafe (root_table 0x800, (1, (0x10000, ∅)))) as [o [s' [n' h']]] eqn:Es.
  assert (Eo : o = Done 1).
  { change o with (o, (s', (n', h'))).1. rewrite <- Es. vm_compute. reflexivity. }
  rewrite Eo in Es.
  assert (Hrun : rtc (sched_step (H := true)) (root_table 0x800, (1, (0x10000, ∅))) (s', (n', h'))).
  { apply rtc_once. apply (step_spawn (H := true) 0xcafe (root_table 0x800) 1 (0x10000, ∅) 1); [lia|exact Es]. }
  destruct (scheduler_history (H := true) 0x800 (0x10000, ∅) s' n' h' 0x77 Hrun) as (_ & _ & _ & T & _).
  exact T.
Defined.
End Sched.
