(* ===== verification/DemandPaging.v ===== *)
(** * The heap behind the page-fault handler

    The kernels map no heap page in advance ([init_heap] only tells the
    allocator the bounds): a word of the heap is reached through the page table,
    and the first access to a page runs [page_fault_handler], after which the
    processor retries the instruction.  This file runs code that reads and
    writes words (the class [WordStore] of Store.v) on that machine and shows
    that it cannot tell it from the flat store the other files use, as long as
    there are frames left, and that [spawn] builds its stacks through it. *)

From S2P Require Import Prelude Store Allocator X86 Frames Paging Sched.

(** ** What the paging relies on of [OffsetPageTable], besides [PageMapperLaws]

    [translate_addr] and the flags act on whole pages.  [map_to] gives the page
    the flags it is passed; it succeeds on a page that is
    not mapped when three frames are left for intermediate tables and no huge
    page covers it ([splittable]), and then changes no other translation. *)
Class PageMapperProgress (Mp : Type) `{PageMapper Mp} := {
  splittable : Mp -> Z -> Prop;
  translate_page mp a : canonical_low a ->
    translate_addr mp a = (fun f => f + a mod page_size) <$> translate_addr mp (a - a mod page_size);
  writable_page mp a : canonical_low a -> is_writable mp a = is_writable mp (a - a mod page_size);
  map_to_succeeds page frame flags mp fa :
    page mod page_size = 0 -> frame mod page_size = 0 -> Z.testbit flags 0 = true ->
    Frames.map_ok (memory_map fa) -> 0 <= next fa ->
    next fa + 3 <= Z.of_nat (length (Frames.frame_addresses (memory_map fa))) ->
    splittable mp page -> translate_addr mp page = None ->
    (map_to page frame flags (mp, fa)).1 = Done true;
  map_to_others page frame flags mp fa mp' fa' :
    page mod page_size = 0 -> frame mod page_size = 0 -> Z.testbit flags 0 = true ->
    map_to page frame flags (mp, fa) = (Done true, (mp', fa')) ->
    is_writable mp' page = Z.testbit flags 1 /\
    (forall a, ~ (page <= a < page + page_size) ->
       translate_addr mp' a = translate_addr mp a /\ is_writable mp' a = is_writable mp a) /\
    (forall q, splittable mp q -> splittable mp' q);
}.

(** ** The machine: the statics of the handler and the physical memory *)
Record paged (Mp : Type) := {
  statics : Locked (option Mp) * (Locked (option BootInfoFrameAllocator) * list event);
  ram : gmap Z Z;
}.
Arguments statics {Mp}.
Arguments ram {Mp}.
Arguments Build_paged {Mp}.

Module DemandPaging.

(** ** Simulation of one stateful computation by another

    The second computation ends where the first does, or panics, and it panics
    only where [E] does not hold of its state. *)
Definition simulates {S1 S2 A} (R : S1 -> S2 -> Prop) (E : S2 -> Prop) (Q : A -> Prop)
    (c1 : M S1 A) (c2 : M S2 A) : Prop :=
  forall s1 s2 a s1', R s1 s2 -> c1 s1 = (Done a, s1') ->
    (exists s2', c2 s2 = (Done a, s2') /\ Q a /\ R s1' s2' /\ (E s2 -> E s2')) \/
    (~ E s2 /\ exists s2', c2 s2 = (Panic ExplicitPanic, s2')).

Section simulation.
Context {S1 S2 : Type} (R : S1 -> S2 -> Prop) (E : S2 -> Prop).

Lemma sim_ret {A} (a : A) (Q : A -> Prop) : Q a -> simulates R E Q (mret a) (mret a).
Proof. intros HQ s1 s2 a' s1' HR [= <- <-]. left. by exists s2. Qed.

Lemma sim_lift {A} (o : outcome A) (Q : A -> Prop) :
  (forall a, o = Done a -> Q a) -> simulates R E Q (lift o) (lift o).
Proof. intros HQ s1 s2 a s1' HR. unfold lift. intros [= -> <-]. left. exists s2. by auto. Qed.

Lemma sim_panic {A} f (Q : A -> Prop) : simulates R E Q (panic f) (panic f).
Proof. by intros s1 s2 a s1' HR. Qed.

Lemma sim_post {A} (Q Q' : A -> Prop) c1 c2 :
  (forall a, Q a -> Q' a) -> simulates R E Q c1 c2 -> simulates R E Q' c1 c2.
Proof.
  intros HQ Hc s1 s2 a s1' HR Eq.
  destruct (Hc s1 s2 a s1' HR Eq) as [(s2' & E2 & Hq & HR')|Hp]; [left; exists s2'; split_and!; auto; apply HR'|by right].
Qed.

Lemma sim_bind {A B} (Q : A -> Prop) (Q' : B -> Prop) c1 c2 (k1 : A -> M S1 B) (k2 : A -> M S2 B) :
  simulates R E Q c1 c2 -> (forall a, Q a -> simulates R E Q' (k1 a) (k2 a)) ->
  simulates R E Q' (c1 ≫= k1) (c2 ≫= k2).
Proof.
  intros Hc Hk s1 s2 b s1'' HR Eq. apply bind_done_inv in Eq as (a & s1' & E1 & E2).
  destruct (Hc s1 s2 a s1' HR E1) as [(s2' & E3 & HQ & HR' & HE)|(HE & s2' & E3)].
  - destruct (Hk a HQ s1' s2' b s1'' HR' E2) as [(s2'' & E4 & HQ' & HR'' & HE')|(HE' & s2'' & E4)].
    + left. exists s2''. rewrite (bind_done _ _ _ _ _ E3). split_and!; auto.
    + right. split; [auto|]. exists s2''. by rewrite (bind_done _ _ _ _ _ E3).
  - right. split; [done|]. exists s2'. by rewrite (bind_panic _ _ _ _ _ E3).
Qed.

Lemma sim_for_range lo hi (f1 : Z -> M S1 unit) (f2 : Z -> M S2 unit) :
  (forall i, lo <= i < hi -> simulates R E (fun _ => True) (f1 i) (f2 i)) ->
  simulates R E (fun _ => True) (for_range lo hi f1) (for_range lo hi f2).
Proof.
  intros Hf. unfold for_range.
  assert (Hl : Forall (fun i => lo <= i < hi) (seqZ lo (hi - lo))).
  { apply Forall_forall. intros i ?%elem_of_seqZ. lia. }
  induction Hl as [|i l Hi Hl IH]; [by apply sim_ret|].
  cbn [for_each]. eapply sim_bind; [by apply Hf|]. done.
Qed.
End simulation.

(** A part of the state. *)
Lemma sim_zoom {S1 S2 T1 T2 A} (R : S1 -> S2 -> Prop) (E : S2 -> Prop) (R' : T1 -> T2 -> Prop) (E' : T2 -> Prop)
    (Q : A -> Prop) get1 set1 get2 set2 c1 c2 :
  (forall s1 s2, R s1 s2 -> R' (get1 s1) (get2 s2)) ->
  (forall s1 s2 t1 t2, R s1 s2 -> R' t1 t2 -> R (set1 t1 s1) (set2 t2 s2)) ->
  (forall s, E s <-> E' (get2 s)) -> (forall t s, get2 (set2 t s) = t) ->
  simulates R' E' Q c1 c2 -> simulates R E Q (zoom get1 set1 c1) (zoom get2 set2 c2).
Proof.
  intros Hget Hset HE Hgs Hc s1 s2 a s1' HR Eq. unfold zoom in *.
  destruct (c1 (get1 s1)) as [o t1] eqn:E1. injection Eq as -> <-.
  destruct (Hc _ _ _ _ (Hget _ _ HR) E1) as [(t2 & E2 & HQ & HR' & He)|(He & t2 & E2)]; rewrite E2.
  - left. eexists. split_and!; [done|done|by apply Hset|]. rewrite !HE, Hgs. exact He.
  - right. split; [by rewrite HE|by eexists].
Qed.

(** A part of the state that both share. *)
Lemma sim_zoom_same {S1 S2 T A} (R : S1 -> S2 -> Prop) (E : S2 -> Prop) (Q : A -> Prop)
    get1 set1 get2 set2 (c : M T A) :
  (forall s1 s2, R s1 s2 -> get1 s1 = get2 s2) ->
  (forall s1 s2 t, R s1 s2 -> R (set1 t s1) (set2 t s2)) ->
  (forall s t, E s -> E (set2 t s)) -> (forall t a t', c t = (Done a, t') -> Q a) ->
  simulates R E Q (zoom get1 set1 c) (zoom get2 set2 c).
Proof.
  intros Hget Hset HE HQ s1 s2 a s1' HR Eq. unfold zoom in *. rewrite <- (Hget _ _ HR).
  destruct (c (get1 s1)) as [o t1] eqn:E1. injection Eq as -> <-.
  left. eexists. split_and!; [done|by eapply HQ|by apply Hset|by apply HE].
Qed.

Lemma filter_lt {A} (P P' : A -> Prop) `{!forall x, Decision (P x), !forall x, Decision (P' x)} l x :
  (forall y, y ∈ l -> P' y -> P y) -> x ∈ l -> P x -> ~ P' x ->
  (length (filter P' l) < length (filter P l))%nat.
Proof.
  assert (Hle : forall l, (forall y, y ∈ l -> P' y -> P y) -> (length (filter P' l) <= length (filter P l))%nat).
  { clear x. intros k. induction k as [|y k IH]; intros Himp; [done|]. rewrite !filter_cons.
    specialize (IH (fun z Hz => Himp z ltac:(by right))). pose proof (Himp y ltac:(by left)).
    repeat case_decide; cbn [length]; (lia || tauto). }
  intros Himp Hx HP HP'. induction Hx as [x l|x y l Hx IH]; rewrite !filter_cons.
  - specialize (Hle l (fun z Hz => Himp z ltac:(by right))).
    rewrite decide_False, decide_True by done. cbn [length]. lia.
  - specialize (IH (fun z Hz => Himp z ltac:(by right)) HP HP'). pose proof (Himp y ltac:(by left)).
    repeat case_decide; cbn [length]; (lia || tauto).
Qed.

Section demand_paging.
Context `{BuildProfile} `{Addresses} `{PageMapper Mp}.

(** ** A word of memory

    The translation the processor uses is the one [MAPPER] maintains. *)
Definition translation (s : paged Mp) (a : Z) : option Z :=
  mapper ← inner (statics s).1; translate_addr mapper a.

Definition writable (s : paged Mp) (a : Z) : bool :=
  from_option (fun mapper => is_writable mapper a) false (inner (statics s).1).

Definition on_statics {A} (c : M _ A) : M (paged Mp) A :=
  zoom statics (fun t s => {| statics := t; ram := ram s |}) c.

(** A write needs the page's permission as well. *)
Definition access_to (write : bool) (s : paged Mp) (a : Z) : option Z :=
  if write && negb (writable s a) then None else translation s a.

(** Bit 0: the page is present, and the access is not permitted; bit 1: a write. *)
Definition error_code (write : bool) (s : paged Mp) (a : Z) : Z :=
  from_option (fun _ => 1) 0 (translation s a) + (if write then 2 else 0).

(** The physical address, through a page fault when the access is not possible;
    the instruction is then executed again. *)
Fixpoint resolve (retries : nat) (write : bool) (a : Z) : M (paged Mp) Z :=
  p ← gets (fun s => access_to write s a);
  match p with
  | Some p => mret p
  | None =>
      match retries with
      | O => fail NoFuel
      | S retries =>
          ec ← gets (fun s => error_code write s a);
          _ ← on_statics (Paging.page_fault_handler a ec []);
          resolve retries write a
      end
  end.

Definition ram_read (p : Z) : M (paged Mp) Z := fun s =>
  match ram s !! p with Some v => (Done v, s) | None => (Undefined, s) end.
Definition ram_write (p v : Z) : M (paged Mp) unit :=
  modify (fun s => {| statics := statics s; ram := <[p := v]> (ram s) |}).

#[export] Instance paged_store : WordStore (paged Mp) := {
  load a := if valid_word_ptr a then (p ← resolve 1 false a; ram_read p) else fail Undefined;
  store a v := if valid_word_ptr a then (p ← resolve 1 true a; ram_write p v) else fail Undefined;
}.

(** ** The page table of the heap *)
Context {AL : AddressLaws} {ML : PageMapperLaws Mp} {MP : PageMapperProgress Mp}.

Definition page_of (a : Z) : Z := a - a mod page_size.
Definition heap_page (p : Z) : Prop := p mod page_size = 0 /\ Paging.in_heap p.

Lemma page_of_heap a : Paging.in_heap a -> heap_page (page_of a) /\ canonical_low a.
Proof.
  unfold heap_page, page_of, Paging.in_heap, canonical_low, page_size. change HEAP_SIZE with 104857600.
  change HEAP_START with (4096 * 18325193792). intros Ha.
  pose proof (Z.div_mod a 4096 ltac:(done)). pose proof (Z.mod_pos_bound a 4096 ltac:(done)).
  replace (a - a mod 4096) with (a / 4096 * 4096) by lia. rewrite Z.mod_mul by done. lia.
Qed.

Lemma heap_page_of p : heap_page p -> page_of p = p.
Proof. intros [Hp _]. unfold page_of. lia. Qed.

Lemma page_of_range a b : page_of b <> page_of a -> ~ (page_of a <= b < page_of a + page_size).
Proof.
  unfold page_of, page_size. intros Hne Hb. apply Hne.
  pose proof (Z.div_mod a 4096 ltac:(done)). pose proof (Z.mod_pos_bound a 4096 ltac:(done)).
  pose proof (Z.div_mod b 4096 ltac:(done)). pose proof (Z.mod_pos_bound b 4096 ltac:(done)).
  assert (a / 4096 = b / 4096) by lia. lia.
Qed.

Definition frames_of (fa : BootInfoFrameAllocator) : list Z := Frames.frame_addresses (memory_map fa).

(** Every mapped heap page is writable and has a frame of its own, taken from
    the allocator. *)
Record table_ok (mp : Mp) (fa : BootInfoFrameAllocator) : Prop := {
  tb_map : Frames.map_ok (memory_map fa);
  tb_next : 0 <= next fa <= Z.of_nat (length (frames_of fa)) + 4;
  tb_len : Z.of_nat (length (frames_of fa)) < 2 ^ 64 - 16;
  tb_split p : heap_page p -> splittable mp p;
  tb_used p f : heap_page p -> translate_addr mp p = Some f ->
    exists i, frames_of fa !! i = Some f /\ Z.of_nat i < next fa;
  tb_inj p q f : heap_page p -> heap_page q -> translate_addr mp p = Some f -> translate_addr mp q = Some f -> p = q;
  tb_writable p f : heap_page p -> translate_addr mp p = Some f -> is_writable mp p = true;
}.

Lemma map_table_ok page f mp fa mp' fa' :
  table_ok mp fa -> heap_page page -> frames_of fa !! Z.to_nat (next fa) = Some f ->
  map_to page f 3 (mp, {| memory_map := memory_map fa; next := next fa + 1 |}) = (Done true, (mp', fa')) ->
  table_ok mp' fa' /\ memory_map fa' = memory_map fa /\ next fa <= next fa' <= next fa + 4 /\
  translate_addr mp' page = Some f /\
  (forall a, page_of a <> page -> translate_addr mp' a = translate_addr mp a).
Proof.
  intros [Hmap Hn Hlen Hsplit Hused Hinj Hwr] Hp Hf Hm. pose proof Hp as [Hal _].
  assert (Hfal : f mod page_size = 0) by by eapply (Paging.frame_aligned _ _ _ Hmap).
  pose proof (lookup_lt_Some _ _ _ Hf) as Hlt.
  destruct (map_to_returns page f 3 mp {| memory_map := memory_map fa; next := next fa + 1 |})
    as (ok & mp1 & fa1 & E1 & Em & Hn1 & Htr); [done..|cbn; lia|].
  rewrite Hm in E1. injection E1 as <- <- <-. cbn [memory_map next] in Em, Hn1.
  destruct (Htr eq_refl) as [Htr1 _]. specialize (Htr1 0 ltac:(done)). rewrite !Z.add_0_r in Htr1.
  destruct (map_to_others page f 3 mp _ mp' fa' Hal Hfal eq_refl Hm) as (Hw & Hoth & Hsp).
  assert (Hout : forall a, page_of a <> page -> ~ (page <= a < page + page_size)).
  { intros a Ha. rewrite <- (heap_page_of page Hp). apply page_of_range.
    by rewrite (heap_page_of page Hp). }
  assert (Hoth' : forall a, page_of a <> page -> translate_addr mp' a = translate_addr mp a).
  { intros a Ha. by apply Hoth, Hout. }
  assert (Hcase : forall p g, heap_page p -> translate_addr mp' p = Some g ->
    (p = page /\ g = f) \/ (p <> page /\ translate_addr mp p = Some g)).
  { intros p g Hpp Hg. destruct (decide (p = page)) as [->|Hne]; [left; split; [done|congruence]|].
    right. rewrite Hoth' in Hg by (by rewrite heap_page_of). done. }
  assert (Hfresh : forall p, heap_page p -> translate_addr mp p = Some f -> False).
  { intros p Hpp Hg. destruct (Hused _ _ Hpp Hg) as (i & Hi & Hil).
    pose proof (NoDup_lookup _ _ _ _ (Frames.NoDup_frame_addresses _ Hmap) Hi Hf). lia. }
  split_and!; [|done|lia|lia|done|done]. split; unfold frames_of; rewrite ?Em; try done.
  - unfold frames_of in *. lia.
  - intros p Hpp. by apply Hsp, Hsplit.
  - intros p g Hpp Hg. destruct (Hcase p g Hpp Hg) as [[-> ->]|[_ Hg']].
    + exists (Z.to_nat (next fa)). split; [done|lia].
    + destruct (Hused _ _ Hpp Hg') as (i & ? & ?). exists i. split; [done|lia].
  - intros p q g Hpp Hqq Hg1 Hg2.
    destruct (Hcase p g Hpp Hg1) as [[-> ->]|[_ Hg1']], (Hcase q _ Hqq Hg2) as [[-> Hgq]|[_ Hg2']]; try done.
    + by destruct (Hfresh q Hqq Hg2').
    + subst g. by destruct (Hfresh p Hpp Hg1').
    + by eapply Hinj.
  - intros p g Hpp Hg. destruct (Hcase p g Hpp Hg) as [[-> _]|[Hne Hg']]; [by rewrite Hw|].
    destruct (Hoth p) as [_ ->]; [by apply Hout; rewrite heap_page_of|]. by eapply Hwr.
Qed.

(** ** A fault in the heap

    The frames left; a fault takes at most four. *)
Definition left_ (fa : BootInfoFrameAllocator) : Z := Z.of_nat (length (frames_of fa)) - next fa.

Lemma translate_of_page mp a :
  canonical_low a -> translate_addr mp a = (fun f => f + a mod page_size) <$> translate_addr mp (page_of a).
Proof. apply translate_page. Qed.

Lemma fault_cases ec a mp fa tr :
  Paging.in_heap a -> table_ok mp fa -> translate_addr mp a = None ->
  let st := (Locked_new (Some mp), (Locked_new (Some fa), tr)) in
  (exists mp' fa' tr', Paging.page_fault_handler a ec [] st =
      (Done tt, (Locked_new (Some mp'), (Locked_new (Some fa'), tr'))) /\
    table_ok mp' fa' /\ is_Some (translate_addr mp' a) /\ left_ fa - 4 <= left_ fa' /\
    forall b, page_of b <> page_of a -> translate_addr mp' b = translate_addr mp b) \/
  (left_ fa < 4 /\ (Paging.page_fault_handler a ec [] st).1 = Panic ExplicitPanic).
Proof.
  intros Ha Hok Hnone. cbn zeta. destruct (page_of_heap a Ha) as [Hp Hc]. pose proof Hok as [Hmap Hn Hlen Hsplit _ _ _].
  pose proof (Paging.map_heap_page_eq a fa mp tr (proj1 Hmap) ltac:(lia)) as E. cbn zeta in E.
  rewrite Page_containing_ok in E. fold (page_of a) (frames_of fa) in E.
  assert (Epage : translate_addr mp (page_of a) = None).
  { rewrite translate_of_page in Hnone by done. by destruct (translate_addr mp (page_of a)). }
  unfold left_. destruct (frames_of fa !! Z.to_nat (next fa)) as [f|] eqn:Hf.
  2:{ right. apply lookup_ge_None in Hf. split; [lia|by apply (Paging.handler_refused _ _ _ _ _ _ _ _ _ Ha E)]. }
  assert (Hfal : f mod page_size = 0) by by eapply (Paging.frame_aligned _ _ _ Hmap).
  set (fa1 := {| memory_map := memory_map fa; next := next fa + 1 |}) in *.
  destruct (map_to_returns (page_of a) f 3 mp fa1) as (ok & mp' & fa' & Em & _);
    [apply Hp|done|done|done|cbn; lia|]. rewrite Em in E. destruct ok.
  - left. destruct (map_table_ok _ _ _ _ _ _ Hok Hp Hf Em) as (Hok' & Emap & Hn' & Htr & Hoth).
    eexists _, _, _. split_and!; [by apply (Paging.handler_served _ _ _ _ _ _ _ _ _ Ha E)|done| | |done].
    + by rewrite translate_of_page, Htr.
    + unfold frames_of. rewrite Emap. lia.
  - right. split; [|by apply (Paging.handler_refused _ _ _ _ _ _ _ _ _ Ha E)].
    apply Z.nle_gt. intros Hle. unfold frames_of in *.
    pose proof (map_to_succeeds (page_of a) f 3 mp fa1
      ltac:(apply Hp) Hfal eq_refl Hmap ltac:(cbn [next fa1]; lia) ltac:(cbn [memory_map next fa1]; lia) (Hsplit _ Hp) Epage) as E'.
    by rewrite Em in E'.
Qed.

(** ** The paged heap against the flat one *)
Definition paged_ok (s : paged Mp) : Prop :=
  exists mp fa tr, statics s = (Locked_new (Some mp), (Locked_new (Some fa), tr)) /\ table_ok mp fa.

(** Every word of the heap the flat store has is found through the page table. *)
Definition holds (m : mem) (s : paged Mp) : Prop :=
  forall a v, Paging.in_heap a -> m !! a = Some v ->
    exists p, translation s a = Some p /\ ram s !! p = Some v.

Definition same_heap (m : mem) (s : paged Mp) : Prop := paged_ok s /\ holds m s.

(** Four frames for each page of [P] that is still missing. *)
Definition missing (P : list Z) (s : paged Mp) : list Z := filter (fun p => translation s p = None) P.
Definition frames_left (s : paged Mp) : Z := from_option left_ 0 (inner (statics s).2.1).
Definition enough (P : list Z) (s : paged Mp) : Prop := 4 * Z.of_nat (length (missing P s)) <= frames_left s.

Lemma translation_eq s mp x a : statics s = (Locked_new (Some mp), x) -> translation s a = translate_addr mp a.
Proof. unfold translation. by intros ->. Qed.

(** On the heap a page that is mapped can be written. *)
Lemma access_to_heap s mp fa tr write a :
  statics s = (Locked_new (Some mp), (Locked_new (Some fa), tr)) -> table_ok mp fa -> Paging.in_heap a ->
  access_to write s a = translation s a.
Proof.
  intros Es Hok Ha. destruct (page_of_heap a Ha) as [Hp Hc]. unfold access_to, writable.
  rewrite (translation_eq _ _ _ _ Es), Es. cbn [fst inner Locked_new from_option].
  destruct (translate_addr mp a) as [p|] eqn:E; [|by destruct (_ && _)].
  rewrite translate_of_page in E by done. destruct (translate_addr mp (page_of a)) as [f|] eqn:Ef; [|done].
  rewrite writable_page by done. fold (page_of a). rewrite (tb_writable _ _ Hok _ _ Hp Ef). by rewrite andb_false_r.
Qed.

Lemma translation_inj s a b p :
  paged_ok s -> Paging.in_heap a -> Paging.in_heap b -> translation s a = Some p -> translation s b = Some p -> a = b.
Proof.
  intros (mp & fa & tr & Es & Hok) Ha Hb. rewrite !(translation_eq _ _ _ _ Es).
  destruct (page_of_heap a Ha) as [Hpa Hca], (page_of_heap b Hb) as [Hpb Hcb].
  rewrite (translate_of_page mp a Hca), (translate_of_page mp b Hcb).
  destruct (translate_addr mp (page_of a)) as [fa_|] eqn:Ea; [|discriminate].
  destruct (translate_addr mp (page_of b)) as [fb|] eqn:Eb; [|discriminate]. cbn. intros [= E1] [= E2].
  assert (Hal : forall q f, heap_page q -> translate_addr mp q = Some f -> f mod page_size = 0).
  { intros q f Hq Hf. destruct (tb_used _ _ Hok _ _ Hq Hf) as (i & Hi & _).
    by eapply (Paging.frame_aligned _ _ _ (tb_map _ _ Hok)). }
  pose proof (Hal _ _ Hpa Ea) as Hma. pose proof (Hal _ _ Hpb Eb) as Hmb. unfold page_size in *.
  assert (Hoff : forall f x, f mod 4096 = 0 -> f + x mod 4096 = p -> p mod 4096 = x mod 4096).
  { intros f x Hf <-. rewrite Zplus_mod, Hf, Z.add_0_l, Z.mod_mod by done. by rewrite Z.mod_mod. }
  assert (Emod : a mod 4096 = b mod 4096) by (rewrite <- (Hoff _ _ Hma E1); by apply (Hoff fb)).
  assert (fa_ = fb) as -> by lia. pose proof (tb_inj _ _ Hok _ _ _ Hpa Hpb Ea Eb) as Epg.
  unfold page_of, page_size in Epg. lia.
Qed.

(** ** Access by access *)
Section accesses.
Context (P : list Z) (HP : Forall heap_page P).

Lemma resolve_cases write a m s :
  same_heap m s -> Paging.in_heap a -> page_of a ∈ P ->
  (exists p s', resolve 1 write a s = (Done p, s') /\ same_heap m s' /\ translation s' a = Some p /\
     (enough P s -> enough P s')) \/
  (~ enough P s /\ exists s', resolve 1 write a s = (Panic ExplicitPanic, s')).
Proof.
  intros [(mp & fa & tr & Es & Hok) Hh] Ha HaP. pose proof (translation_eq s mp _ a Es) as Ea.
  destruct (page_of_heap a Ha) as [Hpa Hca].
  cbn [resolve]. rewrite gets_bind, (access_to_heap s mp fa tr write a Es Hok Ha). set (ec := error_code write s a).
  destruct (translation s a) as [p|] eqn:Etr.
  { left. exists p, s. split_and!; try done. split; [|done]. by exists mp, fa, tr. }
  assert (Hpage : translate_addr mp (page_of a) = None).
  { symmetry in Ea. rewrite translate_of_page in Ea by done. by destruct (translate_addr mp (page_of a)). }
  assert (Hleft : frames_left s = left_ fa) by (unfold frames_left; by rewrite Es).
  assert (Hmiss : page_of a ∈ missing P s).
  { apply list_elem_of_filter. split; [|done]. by rewrite (translation_eq s mp _ _ Es). }
  destruct (fault_cases ec a mp fa tr Ha Hok (eq_sym Ea)) as
    [(mp' & fa' & tr' & E & Hok' & [p Hp] & Hl & Hoth)|[Hl E]].
  - left. set (s' := {| statics := (Locked_new (Some mp'), (Locked_new (Some fa'), tr')); ram := ram s |}).
    assert (Etr' : forall b, translation s' b = translate_addr mp' b) by (intros; by eapply (translation_eq s' mp')).
    exists p, s'. split_and!.
    + rewrite gets_bind. fold ec. erewrite bind_done; [|unfold on_statics; apply zoom_done; rewrite Es; exact E].
      rewrite gets_bind. fold s'. by rewrite (access_to_heap s' mp' fa' tr' write a eq_refl Hok' Ha), Etr', Hp.
    + split; [by exists mp', fa', tr'|]. intros b v Hb Hv. destruct (Hh b v Hb Hv) as (q & Hq & Hr).
      exists q. split; [|done]. rewrite Etr', Hoth; [by rewrite <- (translation_eq s mp _ _ Es)|].
      intros Epg. destruct (page_of_heap b Hb) as [_ Hcb].
      rewrite (translation_eq s mp _ _ Es), (translate_of_page _ _ Hcb), Epg, Hpage in Hq. done.
    + by rewrite Etr'.
    + unfold enough. rewrite Hleft. change (frames_left s') with (left_ fa').
      assert (length (missing P s') < length (missing P s))%nat; [|lia].
      apply (filter_lt _ _ _ (page_of a)); [|done|by rewrite (translation_eq s mp _ _ Es)|].
      * intros q Hq. rewrite Etr', (translation_eq s mp _ _ Es).
        destruct (decide (q = page_of a)) as [->|Hne]; [done|]. rewrite Hoth; [done|].
        rewrite (heap_page_of q); [done|]. by apply (proj1 (Forall_forall _ _) HP).
      * rewrite Etr'. intros Hn. rewrite (translate_of_page _ _ Hca), Hn in Hp. done.
  - right. split.
    + unfold enough. rewrite Hleft. destruct (missing P s); [by apply not_elem_of_nil in Hmiss|]. cbn [length]. lia.
    + destruct (Paging.page_fault_handler a ec [] _) as [o st] eqn:E2. cbn [fst] in E. subst o.
      eexists. rewrite gets_bind. fold ec. apply bind_panic. unfold on_statics, zoom. rewrite Es, E2. done.
Qed.

#[local] Abbreviation sim := (simulates same_heap (enough P)).

Lemma store_sim a v : Paging.in_heap a -> page_of a ∈ P -> sim (fun _ => True) (store (W := mem) a v) (store a v).
Proof.
  intros Ha HaP m s [] m' Hm. cbn [store flat_store paged_store]. unfold write_word.
  destruct (valid_word_ptr a); [|done]. intros [= <-].
  destruct (resolve_cases true a m s Hm Ha HaP) as [(p & s' & E & [Hok Hh] & Hp & Hen)|[Hn (s' & E)]].
  - left. rewrite (bind_done _ _ _ _ _ E). eexists. split_and!; [done|done| |done].
    split; [exact Hok|]. intros b w Hb Hw. apply lookup_insert_Some in Hw as [[<- <-]|[Hne Hw]].
    + exists p. split; [exact Hp|apply lookup_insert_eq].
    + destruct (Hh b w Hb Hw) as (q & Hq & Hr). exists q. split; [exact Hq|]. cbn [ram].
      rewrite lookup_insert_ne; [done|]. intros <-. apply Hne. by eapply translation_inj.
  - right. split; [done|]. exists s'. by apply bind_panic.
Qed.

Lemma load_sim a : Paging.in_heap a -> page_of a ∈ P -> sim (fun _ => True) (load (W := mem) a) (load a).
Proof.
  intros Ha HaP m s v m' Hm. cbn [load flat_store paged_store]. unfold read_word.
  destruct (valid_word_ptr a); [|done]. destruct (m !! a) as [w|] eqn:Ew; [|done]. intros [= -> <-].
  destruct (resolve_cases false a m s Hm Ha HaP) as [(p & s' & E & Hs' & Hp & Hen)|[Hn (s' & E)]].
  - left. rewrite (bind_done _ _ _ _ _ E). exists s'. split_and!; try done.
    destruct (proj2 Hs' a v Ha Ew) as (q & Hq & Hr). unfold ram_read. rewrite Hp in Hq. injection Hq as <-. by rewrite Hr.
  - right. split; [done|]. exists s'. by apply bind_panic.
Qed.
End accesses.

(** ** Any sequence of accesses *)
Lemma boot_same_heap map mp rm :
  Frames.map_ok map -> (forall p, heap_page p -> splittable mp p /\ translate_addr mp p = None) ->
  same_heap ∅ {| statics := (Locked_new (Some mp), (Locked_new (Some (Frames.init map)), [])); ram := rm |}.
Proof.
  intros Hm Hmp. split; [|by intros a v _ ?]. exists mp, (Frames.init map), []. split; [done|].
  pose proof (Frames.frame_addresses_bound map Hm) as Hb.
  split; try done; unfold frames_of; cbn [memory_map next Frames.init]; try lia.
  - intros p Hp. by apply Hmp.
  - intros p f Hp Hf. by rewrite (proj2 (Hmp p Hp)) in Hf.
  - intros p q f Hp _ Hf. by rewrite (proj2 (Hmp p Hp)) in Hf.
  - intros p f Hp Hf. by rewrite (proj2 (Hmp p Hp)) in Hf.
Qed.
End demand_paging.

Inductive access := Load (a : Z) | Store (a v : Z).

Definition address (x : access) : Z := match x with Load a | Store a _ => a end.

(** What the loads of a sequence return. *)
Fixpoint run_accesses `{WordStore W} (xs : list access) : M W (list Z) :=
  match xs with
  | [] => mret []
  | Load a :: xs => v ← load a; vs ← run_accesses xs; mret (v :: vs)
  | Store a v :: xs => _ ← store a v; run_accesses xs
  end.

(** The pages a sequence touches. *)
Definition touched (xs : list access) : list Z := remove_dups (page_of ∘ address <$> xs).

Section theorems.
Context `{BuildProfile} `{Addresses} `{PageMapper Mp} {AL : AddressLaws} {ML : PageMapperLaws Mp}
  {MP : PageMapperProgress Mp}.

Lemma run_accesses_sim P xs :
  Forall heap_page P -> Forall (fun x => Paging.in_heap (address x) /\ page_of (address x) ∈ P) xs ->
  simulates same_heap (enough P) (fun _ => True) (run_accesses (W := mem) xs) (run_accesses (W := paged Mp) xs).
Proof.
  intros HP Hxs. induction Hxs as [|x xs [Ha Hp] Hxs IH]; [by apply sim_ret|].
  destruct x as [a|a v]; cbn [run_accesses address] in *.
  - eapply sim_bind; [by apply load_sim|]. intros v _. eapply sim_bind; [exact IH|]. intros vs _. by apply sim_ret.
  - eapply sim_bind; [by apply store_sim|]. by intros [] _.
Qed.

(** C16: From the statics that [init_global_memory] installs, with no heap page
    mapped and whatever is in the frames, any sequence of reads and writes of
    heap words returns what it returns on the flat memory, page faults and all,
    unless there are fewer frames than four for each page touched; then the
    fault handler may panic, and nothing else happens. *)
Theorem demand_paging_transparent xs map mp rm vs m'
    (Hm : Frames.map_ok map) (Hmp : forall p, heap_page p -> splittable mp p /\ translate_addr mp p = None)
    (Hxs : Forall (fun x => Paging.in_heap (address x)) xs)
    (E : run_accesses (W := mem) xs ∅ = (Done vs, m')) :
  let s := {| statics := (Locked_new (Some mp), (Locked_new (Some (Frames.init map)), [])); ram := rm |} in
  (exists s', run_accesses (W := paged Mp) xs s = (Done vs, s') /\ same_heap m' s') \/
  (Z.of_nat (length (Frames.frame_addresses map)) < 4 * Z.of_nat (length (touched xs)) /\
   exists s', run_accesses (W := paged Mp) xs s = (Panic ExplicitPanic, s')).
Proof.
  cbn zeta. pose proof (boot_same_heap map mp rm Hm Hmp) as Hs.
  assert (HP : Forall heap_page (touched xs)).
  { apply Forall_forall. intros p [x [-> Hx]]%elem_of_remove_dups%list_elem_of_fmap. cbn.
    apply page_of_heap. by apply (proj1 (Forall_forall _ _) Hxs). }
  assert (Hxs' : Forall (fun x => Paging.in_heap (address x) /\ page_of (address x) ∈ touched xs) xs).
  { apply Forall_forall. intros x Hx. split; [by apply (proj1 (Forall_forall _ _) Hxs)|].
    apply elem_of_remove_dups, list_elem_of_fmap. by exists x. }
  destruct (run_accesses_sim (touched xs) xs HP Hxs' _ _ _ _ Hs E) as [(s' & E' & _ & Hs' & _)|[Hn Hp]].
  - left. by exists s'.
  - right. split; [|exact Hp]. apply Z.nle_gt. intros Hle. apply Hn. unfold enough, frames_left, left_, frames_of.
    cbn [inner statics Locked_new fst snd from_option memory_map next Frames.init].
    pose proof (length_filter (fun p => translation {| statics := (Locked_new (Some mp),
      (Locked_new (Some (Frames.init map)), [])); ram := rm |} p = None) (touched xs)).
    unfold missing. lia.
Qed.

(** ** [spawn] on the paged heap

    The heap hands out addresses from an area covered by the pages [P], and its
    own accesses to memory are word accesses too: it behaves on the paged memory
    as on the flat one. *)
Section spawn.
Context (P : list Z) (HP : Forall heap_page P).
Context {G : Type} {HG : GlobalHeap G mem} {HG' : GlobalHeap G (paged Mp)}.

Definition in_area (lo hi : Z) : Prop :=
  forall a, lo <= a < hi -> Paging.in_heap a /\ page_of a ∈ P.

Definition same_heaps (x : G * mem) (y : G * paged Mp) : Prop := x.1 = y.1 /\ same_heap x.2 y.2.
Record heap_simulated : Prop := {
  alloc_simulated l :
    simulates same_heaps (fun y => enough P y.2) (fun a => a = 0 \/ in_area a (a + size l))
      (heap_alloc (W := mem) l) (heap_alloc (W := paged Mp) l);
  realloc_simulated p l n :
    simulates same_heaps (fun y => enough P y.2) (fun _ => True)
      (heap_realloc (W := mem) p l n) (heap_realloc (W := paged Mp) p l n);
}.

#[local] Abbreviation sim := (simulates same_heap (enough P)).

Lemma sim_zero_fill base n :
  in_area base (base + 8 * n) -> sim (fun _ => True) (Sched.zero_fill (W := mem) base n) (Sched.zero_fill (W := paged Mp) base n).
Proof.
  intros Ha. apply sim_for_range. intros i Hi. destruct (Ha (base + 8 * i) ltac:(lia)). by apply store_sim.
Qed.

Lemma sim_push {A} (Q : A -> Prop) lo hi a v (k1 : M mem A) (k2 : M (paged Mp) A) :
  in_area lo hi -> lo <= a < hi -> sim Q k1 k2 ->
  sim Q (_ ← store a v; k1) (_ ← store a v; k2).
Proof.
  intros Hl Ha Hk. destruct (Hl a Ha). eapply sim_bind; [by apply store_sim|]. done.
Qed.

Lemma sim_forge_gprs lo n ptr :
  in_area lo ptr -> 8 * Z.of_nat n <= ptr - lo ->
  sim (fun _ => True) (Sched.forge_gprs (W := mem) n ptr) (Sched.forge_gprs (W := paged Mp) n ptr).
Proof.
  revert ptr. induction n as [|n IH]; intros ptr Ha Hn; [by apply sim_ret|]. cbn [Sched.forge_gprs].
  apply (sim_push _ lo ptr); [done|lia|]. apply IH; [|lia]. intros a ?. apply Ha. lia.
Qed.

Lemma sim_forge_frame stack entry :
  in_area stack (stack + Sched.STACK_SIZE) ->
  sim (fun _ => True) (Sched.forge_frame (W := mem) stack entry) (Sched.forge_frame (W := paged Mp) stack entry).
Proof.
  intros Ha. unfold Sched.forge_frame. set (hi := stack + Sched.STACK_SIZE) in *.
  assert (Hs : stack + 16384 = hi) by done.
  eapply (sim_push _ stack hi); [done|lia|]. eapply sim_bind; [by apply (sim_lift _ _ _ (fun _ => True))|]. intros top _.
  do 4 (eapply (sim_push _ stack hi); [done|lia|]). apply (sim_forge_gprs stack); [|lia]. intros a ?. apply Ha. lia.
Qed.

Lemma sim_box_stack : heap_simulated ->
  simulates same_heaps (fun y => enough P y.2) (fun a => in_area a (a + Sched.STACK_SIZE))
    (Sched.box_stack (W := mem)) (Sched.box_stack (W := paged Mp)).
Proof.
  intros Hheap. unfold Sched.box_stack. eapply sim_bind; [by apply alloc_simulated|]. intros stack Hst. cbn [size] in Hst.
  case_bool_decide as Hz; [apply sim_panic|]. destruct Hst as [->|Hst]; [done|].
  eapply sim_bind; [|intros ? _; by apply sim_ret].
  apply (sim_zoom _ _ same_heap (enough P)); try done.
  - by intros x y [_ ?].
  - intros x y t1 t2 [? _] ?. by split.
  - by apply sim_zero_fill.
Qed.

Definition same_states (x : Scheduler * (Z * (G * mem))) (y : Scheduler * (Z * (G * paged Mp))) : Prop :=
  x.1 = y.1 /\ x.2.1 = y.2.1 /\ same_heaps x.2.2 y.2.2.

(** The deque's elements are not in the memory of the model: growing its buffer
    is what the heap does. *)
Definition same_tables (x : Scheduler * (G * mem)) (y : Scheduler * (G * paged Mp)) : Prop :=
  x.1 = y.1 /\ same_heaps x.2 y.2.

Lemma sim_table {A} (Q : A -> Prop) (f : Scheduler -> A) :
  (forall s, Q (f s)) ->
  simulates same_tables (fun y => enough P y.2.2) Q (gets (fun s => f s.1)) (gets (fun s => f s.1)).
Proof. intros HQ x y a x' HR [= <- <-]. left. exists y. rewrite (proj1 HR). by split_and!. Qed.

Lemma sim_update (f : Scheduler -> Scheduler) :
  simulates same_tables (fun y => enough P y.2.2) (fun _ => True) (modify (fun s => (f s.1, s.2))) (modify (fun s => (f s.1, s.2))).
Proof.
  intros x y a x' HR [= <- <-]. left. eexists. split; [done|]. split; [done|]. split; [|done].
  split; cbn [fst snd]; [by rewrite (proj1 HR)|apply HR].
Qed.

Lemma sim_grow : heap_simulated ->
  simulates same_tables (fun y => enough P y.2.2) (fun _ => True)
    (Sched.grow (W := mem)) (Sched.grow (W := paged Mp)).
Proof.
  intros Hheap. unfold Sched.grow. eapply (sim_bind _ _ (fun _ => True)); [by apply (sim_table _ buffer)|].
  intros buf _. cbn zeta. destruct (from_size_align _ 8) as [layout|]; [|apply sim_panic].
  eapply (sim_bind _ _ (fun _ => True)).
  { apply (sim_zoom _ _ same_heaps (fun y => enough P y.2)); [by intros ?? [_ ?]|by intros ???? [? _] ?|done..|].
    unfold Sched.grow_request. case_bool_decide; [|by apply realloc_simulated].
    eapply sim_post; [|by apply alloc_simulated]. done. }
  intros ptr _. case_bool_decide; [apply sim_panic|].
  apply (sim_update (fun s => {| processes := processes s; current_index := current_index s;
    buffer := {| buf_ptr := ptr; buf_cap := Sched.grow_to (buf_cap buf) |} |})).
Qed.

Lemma sim_push_back p : heap_simulated ->
  simulates same_tables (fun y => enough P y.2.2) (fun _ => True)
    (Sched.push_back (W := mem) p) (Sched.push_back (W := paged Mp) p).
Proof.
  intros Hheap. unfold Sched.push_back. eapply (sim_bind _ _ (fun _ => True)).
  { by apply (sim_table _ Sched.is_full). }
  intros full _. eapply (sim_bind _ _ (fun _ => True)).
  { destruct full; [by apply sim_grow|by apply sim_ret]. }
  intros _ _. apply (sim_update (fun s => with_processes (processes s ++ [p]) s)).
Qed.

Lemma sim_spawn_root : heap_simulated ->
  simulates same_tables (fun y => enough P y.2.2) (fun _ => True)
    (Sched.spawn_root (W := mem)) (Sched.spawn_root (W := paged Mp)).
Proof.
  intros Hheap. unfold Sched.spawn_root. cbn zeta. eapply sim_bind; [by apply sim_push_back|]. intros _ _.
  apply (sim_update (fun s => {| processes := processes s; current_index := 0; buffer := buffer s |})).
Qed.

(** The table and the heap, beside the identifiers. *)
Lemma sim_on_table {A} (Q : A -> Prop) c1 c2 :
  simulates same_tables (fun y => enough P y.2.2) Q c1 c2 ->
  simulates same_states (fun y => enough P y.2.2.2) Q
    (zoom (fun s => (s.1, s.2.2)) (fun t s => (t.1, (s.2.1, t.2))) c1)
    (zoom (fun s => (s.1, s.2.2)) (fun t s => (t.1, (s.2.1, t.2))) c2).
Proof.
  apply (sim_zoom _ _ same_tables (fun y => enough P y.2.2)); [|by intros ???? (_ & ? & _) [? ?]|done|by intros []].
  by intros x y (? & _ & ?).
Qed.

Lemma sim_spawn entry : heap_simulated ->
  simulates same_states (fun y => enough P y.2.2.2) (fun _ => True)
    (Sched.spawn (W := mem) entry) (Sched.spawn (W := paged Mp) entry).
Proof.
  intros Hheap. unfold Sched.spawn.
  eapply (sim_bind _ _ (fun _ => True)).
  { apply sim_zoom_same; [by intros ?? (_ & ? & _)|by intros ??? (? & _ & ?)|done|done]. }
  intros pid _. eapply sim_bind.
  { apply (sim_zoom _ _ same_heaps (fun y => enough P y.2)); [by intros ?? (_ & _ & ?)|by intros ???? (? & ? & _) ?|done..|].
    by apply sim_box_stack. }
  intros stack Hst. eapply (sim_bind _ _ (fun _ => True)).
  { apply (sim_zoom _ _ same_heap (enough P)); [by intros ?? (_ & _ & _ & ?)|by intros ???? (? & ? & ? & _) ?|done..|].
    by apply sim_forge_frame. }
  intros top _. eapply (sim_bind _ _ (fun _ => True)); [|intros ? _; by apply sim_ret].
  by apply sim_on_table, sim_push_back.
Qed.

(** [spawn] through page faults: it creates the same process, and the stack
    it zeroes and forges the frame on is found through the page table word for
    word, unless there are fewer frames left than four for each page of the
    heap's area that is not mapped yet; then it may panic in the fault handler. *)
Theorem spawn_demand_paged entry t n g m s pid t' n' g' m' (Hheap : heap_simulated)
    (Hs : same_heap m s) (E : Sched.spawn entry (t, (n, (g, m))) = (Done pid, (t', (n', (g', m'))))) :
  (exists s', Sched.spawn entry (t, (n, (g, s))) = (Done pid, (t', (n', (g', s')))) /\ same_heap m' s') \/
  (frames_left s < 4 * Z.of_nat (length (missing P s)) /\
   exists x, Sched.spawn entry (t, (n, (g, s))) = (Panic ExplicitPanic, x)).
Proof.
  destruct (sim_spawn entry Hheap (t, (n, (g, m))) (t, (n, (g, s))) _ _ (conj eq_refl (conj eq_refl (conj eq_refl Hs))) E)
    as [([t2 [n2 [g2 s']]] & E' & _ & (Et & En & Eg & Hs') & _)|[Hn Hp]].
  - left. cbn in Et, En, Eg. subst. by exists s'.
  - right. split; [|exact Hp]. by apply Z.nle_gt.
Qed.
End spawn.
End theorems.

(** ** Witnesses: the finite-map page table, 31 frames, a heap of four pages *)
#[local] Existing Instances Paging.gmap_mapper Paging.gmap_mapper_laws.

#[export] Instance gmap_mapper_progress : PageMapperProgress (gmap Z Z).
Proof.
  assert (Hpage : forall a, (a - a mod page_size) mod page_size = 0) by (intros; by rewrite Zminus_mod, Z.mod_mod, Z.sub_diag).
  apply (Build_PageMapperProgress _ _ (fun _ _ => True)).
  - intros mp a _. cbn -[page_size]. rewrite Hpage, Z.sub_0_r.
    destruct (mp !! (a - a mod page_size)) as [e|]; [|done]. cbn -[page_size]. f_equal. lia.
  - intros mp a _. cbn -[page_size]. by rewrite Hpage, Z.sub_0_r.
  - intros page frame flags mp fa Hp _ _ _ _ _ _. cbn -[page_size]. rewrite Hp, Z.sub_0_r.
    by destruct (mp !! page).
  - intros page frame flags mp fa mp' fa' Hp Hf _. cbn -[page_size]. destruct (mp !! page); [done|].
    destruct (Paging.entry_of_ok frame flags Hf) as [_ Ew]. intros [= <- <-]. split_and!; [|..|done].
    + by rewrite Hp, Z.sub_0_r, lookup_insert_eq.
    + intros a Ha. rewrite !lookup_insert_ne; [done|..]; intros ->; apply Ha;
        pose proof (Z.mod_pos_bound a page_size ltac:(done)); lia.
Defined.

Definition wmap31 : list MemoryRegion := [{| range_start := 0x1000; range_end := 0x20000; usable := true |}].
Definition wpages : list Z := [HEAP_START; HEAP_START + 4096; HEAP_START + 8192; HEAP_START + 12288].
Definition wpaged : paged (gmap Z Z) :=
  {| statics := (Locked_new (Some ∅), (Locked_new (Some (Frames.init wmap31)), [])); ram := ∅ |}.

Lemma wmap31_ok : Frames.map_ok wmap31.
Proof. apply (bool_decide_unpack _). vm_compute. exact I. Qed.

Lemma wempty p : heap_page p -> splittable (Mp := gmap Z Z) ∅ p /\ translate_addr (∅ : gmap Z Z) p = None.
Proof. by intros _. Qed.

Lemma demand_paging_transparent_witness :
  let xs := [Store HEAP_START 7; Store (HEAP_START + 0x5008) 9; Load HEAP_START; Load (HEAP_START + 0x5008)] in
  exists s', run_accesses (H := paged_store (H := true) (H0 := std_addr)) xs wpaged = (Done [7; 9], s').
Proof.
  cbn zeta. set (xs := [Store HEAP_START 7; _; _; _]).
  destruct (demand_paging_transparent (H := true) (H0 := std_addr) xs wmap31 ∅ ∅ [7; 9] (run_accesses (W := mem) xs ∅).2
    wmap31_ok wempty)
    as [(s' & E & _)|[Hn _]].
  - repeat constructor; vm_compute; intuition congruence.
  - vm_compute. reflexivity.
  - exists s'. exact E.
  - exfalso. revert Hn. vm_compute. congruence.
Defined.

(** The counter heap of four pages, on either memory. *)
Definition wplace (l : Layout) (g : Z) : Z * Z :=
  if bool_decide (HEAP_START <= g) && bool_decide (g + size l <= HEAP_START + 16384) && bool_decide (0 <= size l)
  then (g, g + size l) else (0, g).
#[local] Instance wheap W : GlobalHeap Z W := {
  heap_alloc l '(g, m) := (Done (wplace l g).1, ((wplace l g).2, m));
  heap_realloc _ l n '(g, m) :=
    let b := wplace {| size := n; align := align l |} g in (Done b.1, (b.2, m));
}.

Lemma wpages_ok : Forall heap_page wpages.
Proof. repeat constructor; vm_compute; congruence. Qed.

Lemma wpages_area a : HEAP_START <= a < HEAP_START + 16384 -> Paging.in_heap a /\ page_of a ∈ wpages.
Proof.
  intros Ha. split; [unfold Paging.in_heap, HEAP_SIZE; lia|]. unfold page_of, page_size, wpages.
  assert (Hs : HEAP_START mod 4096 = 0) by done. set (h := HEAP_START) in *. clearbody h.
  pose proof (Z.div_mod a 4096 ltac:(done)). pose proof (Z.mod_pos_bound a 4096 ltac:(done)).
  pose proof (Z.div_mod h 4096 ltac:(done)).
  assert (Hq : a / 4096 = h / 4096 \/ a / 4096 = h / 4096 + 1 \/ a / 4096 = h / 4096 + 2 \/ a / 4096 = h / 4096 + 3) by lia.
  rewrite !elem_of_cons. lia.
Qed.

Lemma wheap_simulated :
  heap_simulated (Mp := gmap Z Z) wpages (HG := wheap _) (HG' := wheap _).
Proof.
  split; [|intros p l n [g m] [g2 s] a x' [Eg Hs]; cbn in Eg; subst g2; intros [= <- <-]; left;
    eexists; split; [done|split; [done|by split]]].
  intros l [g m] [g2 s] a [g1 m1] [Eg Hs]. cbn in Eg, Hs. subst g2. unfold heap_alloc, wheap.
  intros [= <- <- <-]. left. eexists. split; [done|split; [|by split; [split|]]].
  unfold wplace. destruct (_ && _) eqn:E; [right|by left]. intros b Hb. apply wpages_area.
  apply andb_true_iff in E as [[E1%bool_decide_eq_true E2%bool_decide_eq_true]%andb_true_iff _].
  cbn [fst] in Hb. lia.
Qed.

Lemma spawn_demand_paged_witness :
  exists t' s', Sched.spawn (H := true) (H0 := paged_store (H := true) (H0 := std_addr)) (H1 := wheap _) 0xcafe
      (Sched.root_table 0x800, (1, (HEAP_START, wpaged))) = (Done 1, (t', (2, (HEAP_START + 16384, s')))) /\
    processes t' = processes (Sched.root_table 0x800) ++ [Sched.spawned 1 HEAP_START].
Proof.
  destruct (Sched.spawn_ok (H := true) (H0 := wheap _) 0xcafe (Sched.root_table 0x800) 1 HEAP_START ∅ HEAP_START
    (HEAP_START + 16384) ∅ eq_refl eq_refl ltac:(vm_compute; intuition congruence) eq_refl) as (m' & E & _).
  destruct (spawn_demand_paged (H := true) (H0 := std_addr) wpages wpages_ok 0xcafe (Sched.root_table 0x800) 1 HEAP_START ∅ wpaged
    _ _ _ _ _ wheap_simulated (boot_same_heap wmap31 ∅ ∅ wmap31_ok wempty) E) as [(s' & E' & _)|[Hn _]].
  - eexists _, s'. split; [exact E'|done].
  - exfalso. revert Hn. vm_compute. congruence.
Defined.
End DemandPaging.
