(* ===== verification/Gdt.v ===== *)
(** * Segments: the GDT and the TSS

    [gdt/mod.rs].  [GlobalDescriptorTable] and [Descriptor] are the [x86_64]
    crate's; the crate is a class with the documented behaviour of [add_entry]
    as its laws. *)

From S2P Require Import Prelude X86.

(** The descriptors the kernel adds. *)
Inductive Descriptor := kernel_code_segment | kernel_data_segment | user_data_segment
  | user_code_segment | tss_segment.

#[export] Instance Descriptor_eq_dec : EqDecision Descriptor.
Proof. solve_decision. Defined.

(** The crate: a table under construction; [add_entry] returns the selector. *)
Class GdtCrate (T : Type) := {
  gdt_new : T;
  add_entry : T -> Descriptor -> outcome (Z * T);
  (** The descriptor a selector denotes. *)
  descriptor_at : T -> Z -> option Descriptor;
}.

(** Words a descriptor takes: a system segment takes two. *)
Definition gdt_words (d : Descriptor) : Z := match d with tss_segment => 2 | _ => 1 end.
(** The privilege level a selector carries. *)
Definition dpl (d : Descriptor) : Z :=
  match d with user_data_segment | user_code_segment => 3 | _ => 0 end.

(** Eight words, the first of them the null descriptor; entries are appended
    and a selector is the index times eight plus the privilege level. *)
Class GdtLaws (T : Type) `{GdtCrate T} := {
  gdt_used : T -> Z;
  gdt_new_used : gdt_used gdt_new = 1;
  add_entry_ok t d :
    0 < gdt_used t -> gdt_used t + gdt_words d <= 8 ->
    exists t', add_entry t d = Done (8 * gdt_used t + dpl d, t') /\
      gdt_used t' = gdt_used t + gdt_words d /\
      descriptor_at t' (8 * gdt_used t + dpl d) = Some d /\
      (forall s d', descriptor_at t s = Some d' -> descriptor_at t' s = Some d');
}.

Record Selectors := {
  kernel_code_selector : Z;
  kernel_data_selector : Z;
  user_data_selector : Z;
  user_code_selector : Z;
  tss_selector : Z;
}.

Definition DOUBLE_FAULT_IST_INDEX : Z := 0.

(** The fields of [TaskStateSegment] the kernel sets. *)
Record TaskStateSegment := {
  interrupt_stack_table : list Z;
  privilege_stack_table : list Z;
}.

Module Gdt.
Section gdt.
Context `{Addresses} `{GdtCrate T}.

(** [TSS], given the address of [STACK] (and the crate's all-zero [new]). *)
Definition TSS (tss_new : TaskStateSegment) (STACK : Z) : outcome TaskStateSegment :=
  let STACK_SIZE := 4096 * 5 in
  stack_start ← VirtAddr_new STACK;
  stack_end ← VirtAddr_add stack_start STACK_SIZE;
  rsp0 ← VirtAddr_new 0;
  mret {| interrupt_stack_table :=
            <[Z.to_nat DOUBLE_FAULT_IST_INDEX := stack_end]> (interrupt_stack_table tss_new);
          privilege_stack_table := <[0%nat := rsp0]> (privilege_stack_table tss_new) |}.

Definition GDT : outcome (T * Selectors) :=
  '(kernel_code_selector, gdt) ← add_entry gdt_new kernel_code_segment;
  '(kernel_data_selector, gdt) ← add_entry gdt kernel_data_segment;
  '(user_data_selector, gdt) ← add_entry gdt user_data_segment;
  '(user_code_selector, gdt) ← add_entry gdt user_code_segment;
  '(tss_selector, gdt) ← add_entry gdt tss_segment;
  mret (gdt, {| kernel_code_selector := kernel_code_selector;
                kernel_data_selector := kernel_data_selector;
                user_data_selector := user_data_selector;
                user_code_selector := user_code_selector;
                tss_selector := tss_selector |}).

(** [init]: the privileged instructions, in order. *)
Definition init : M (list event) unit :=
  '(_, s) ← lift GDT;
  _ ← modify (fun tr => tr ++ [Instr "lgdt" []]);
  _ ← modify (fun tr => tr ++ [Instr "CS::set_reg" [kernel_code_selector s]]);
  _ ← modify (fun tr => tr ++ [Instr "DS::set_reg" [kernel_data_selector s]]);
  modify (fun tr => tr ++ [Instr "ltr" [tss_selector s]]).

Context {GL : GdtLaws T}.

Definition selectors : Selectors :=
  {| kernel_code_selector := 0x08; kernel_data_selector := 0x10;
     user_data_selector := 0x18 + 3; user_code_selector := 0x20 + 3; tss_selector := 0x28 |}.

Lemma GDT_ok :
  exists gdt, GDT = Done (gdt, selectors) /\
    descriptor_at gdt 0x08 = Some kernel_code_segment /\
    descriptor_at gdt 0x10 = Some kernel_data_segment /\
    descriptor_at gdt (0x18 + 3) = Some user_data_segment /\
    descriptor_at gdt (0x20 + 3) = Some user_code_segment /\
    descriptor_at gdt 0x28 = Some tss_segment.
Proof.
  destruct (add_entry_ok gdt_new kernel_code_segment) as (g1 & E1 & U1 & D1 & _);
    rewrite ?gdt_new_used in *; [done..|].
  destruct (add_entry_ok g1 kernel_data_segment) as (g2 & E2 & U2 & D2 & K2);
    rewrite ?U1 in *; [done..|].
  destruct (add_entry_ok g2 user_data_segment) as (g3 & E3 & U3 & D3 & K3);
    rewrite ?U2 in *; [done..|].
  destruct (add_entry_ok g3 user_code_segment) as (g4 & E4 & U4 & D4 & K4);
    rewrite ?U3 in *; [done..|].
  destruct (add_entry_ok g4 tss_segment) as (g5 & E5 & U5 & D5 & K5);
    rewrite ?U4 in *; [done..|].
  exists g5. split; [|split_and!; auto].
  unfold GDT. rewrite E1. cbn [mbind outcome_bind]. rewrite E2. cbn [mbind outcome_bind].
  rewrite E3. cbn [mbind outcome_bind]. rewrite E4. cbn [mbind outcome_bind]. by rewrite E5.
Qed.

Lemma gdt_init_ok tr :
  init tr = (Done tt, tr ++ [Instr "lgdt" []; Instr "CS::set_reg" [0x08];
                             Instr "DS::set_reg" [0x10]; Instr "ltr" [0x28]]).
Proof.
  destruct GDT_ok as (gdt & E & _).
  unfold init. rewrite E, lift_done, !modify_bind. unfold modify. by rewrite <- !app_assoc.
Qed.

(** C33: the segments.  Building the GDT does not overflow the table; the kernel
    code and data selectors it yields are 0x08 and 0x10, the constants that
    [spawn] writes into the frames it forges, the user selectors carry
    privilege level 3, every selector denotes the segment it is named after,
    and [init] loads exactly these. *)
Theorem gdt_selectors tr :
  exists gdt s, GDT = Done (gdt, s) /\
    s = {| kernel_code_selector := 0x08; kernel_data_selector := 0x10;
           user_data_selector := 0x18 + 3; user_code_selector := 0x20 + 3; tss_selector := 0x28 |} /\
    descriptor_at gdt (kernel_code_selector s) = Some kernel_code_segment /\
    descriptor_at gdt (kernel_data_selector s) = Some kernel_data_segment /\
    descriptor_at gdt (user_data_selector s) = Some user_data_segment /\
    descriptor_at gdt (user_code_selector s) = Some user_code_segment /\
    descriptor_at gdt (tss_selector s) = Some tss_segment /\
    init tr = (Done tt, tr ++ [Instr "lgdt" []; Instr "CS::set_reg" [0x08];
                               Instr "DS::set_reg" [0x10]; Instr "ltr" [0x28]]).
Proof.
  destruct GDT_ok as (gdt & E & H08 & H10 & H1b & H23 & H28).
  exists gdt, selectors. split_and!; try done. apply gdt_init_ok.
Qed.

Context {AL : AddressLaws}.

(** The double-fault stack.  The interrupt stack table holds, at the index
    that the IDT names, the end of the static stack: stacks grow downwards, so
    the 20 KiB below it are the handler's. *)
Theorem tss_double_fault_stack tss_new STACK
    (Hnew : (0 < length (interrupt_stack_table tss_new))%nat)
    (HSTACK : 0 <= STACK /\ STACK + 0x5000 < 2 ^ 47) :
  exists tss, TSS tss_new STACK = Done tss /\
    interrupt_stack_table tss !! Z.to_nat DOUBLE_FAULT_IST_INDEX = Some (STACK + 0x5000) /\
    (forall i, i <> 0%nat -> interrupt_stack_table tss !! i = interrupt_stack_table tss_new !! i).
Proof.
  unfold TSS. cbn zeta. change (4096 * 5) with 0x5000.
  rewrite (VirtAddr_new_ok STACK) by (unfold canonical_low; lia). cbn [mbind outcome_bind].
  rewrite VirtAddr_add_ok by (unfold canonical_low; lia). cbn [mbind outcome_bind].
  rewrite (VirtAddr_new_ok 0) by done. eexists. split; [done|]. cbn. split.
  - by apply list_lookup_insert_eq.
  - intros i Hi. by apply list_lookup_insert_ne.
Qed.
End gdt.

(** ** A concrete table, for the witnesses: the descriptors in order *)
Fixpoint words_of (l : list Descriptor) : Z :=
  match l with [] => 0 | d :: l => gdt_words d + words_of l end.

Fixpoint find_selector (off : Z) (l : list Descriptor) (s : Z) : option Descriptor :=
  match l with
  | [] => None
  | d :: l => if decide (s = 8 * off + dpl d) then Some d else find_selector (off + gdt_words d) l s
  end.

#[local] Instance list_gdt : GdtCrate (list Descriptor) := {
  gdt_new := [];
  add_entry t d :=
    if bool_decide (1 + words_of t + gdt_words d <= 8)
    then Done (8 * (1 + words_of t) + dpl d, t ++ [d]) else Panic ExplicitPanic;
  descriptor_at := find_selector 1;
}.

Lemma words_of_app l d : words_of (l ++ [d]) = words_of l + gdt_words d.
Proof. induction l as [|e l IH]; cbn in *; lia. Qed.

Lemma find_selector_last off l d :
  find_selector off (l ++ [d]) (8 * (off + words_of l) + dpl d) = Some d.
Proof.
  revert off. induction l as [|e l IH]; intros off; cbn.
  - by rewrite decide_True by lia.
  - rewrite decide_False.
    + rewrite <- (IH (off + gdt_words e)). f_equal. lia.
    + assert (0 <= words_of l) by (clear; induction l as [|[] ? ?]; cbn; lia).
      destruct d, e; cbn; lia.
Qed.

Lemma find_selector_keep off l d s d' :
  find_selector off l s = Some d' -> find_selector off (l ++ [d]) s = Some d'.
Proof.
  revert off. induction l as [|e l IH]; intros off; cbn; [done|]. case_decide; [done|apply IH].
Qed.

#[local] Instance list_gdt_laws : GdtLaws (list Descriptor).
Proof.
  refine {| gdt_used := fun t => 1 + words_of t |}; [done|].
  intros t d Hpos Hle. exists (t ++ [d]). cbn. rewrite bool_decide_true by lia.
  rewrite words_of_app. split_and!; [done|lia|apply (find_selector_last 1)|].
  intros s d'. apply find_selector_keep.
Defined.

Lemma gdt_selectors_witness :
  init (T := list Descriptor) []
  = (Done tt, [Instr "lgdt" []; Instr "CS::set_reg" [0x08]; Instr "DS::set_reg" [0x10]; Instr "ltr" [0x28]]).
Proof.
  destruct (gdt_selectors (T := list Descriptor) []) as (gdt & s & _ & _ & _ & _ & _ & _ & _ & E).
  exact E.
Defined.

Lemma tss_double_fault_stack_witness :
  exists tss, TSS (H := std_addr)
    {| interrupt_stack_table := replicate 7 0; privilege_stack_table := replicate 3 0 |} 0x200000
    = Done tss.
Proof.
  destruct (tss_double_fault_stack (H := std_addr)
    {| interrupt_stack_table := replicate 7 0; privilege_stack_table := replicate 3 0 |} 0x200000
    ltac:(cbn; lia) ltac:(lia)) as (tss & E & _).
  exists tss. exact E.
Defined.
End Gdt.
