(* ===== verification/Interrupts.v ===== *)
(** * Interrupt plumbing

    [interrupt/mod.rs] (the IDT, the timer chip, [init_idt]) and the parts of
    [interrupt/handlers.rs] that talk to devices: the vectors, the interrupt
    controllers, the exception handlers and the keyboard.  The assembly entry
    code is in Cpu.v, the page-fault handler in Paging.v. *)

From S2P Require Import Prelude Store X86 Gdt.

(** ** Vectors *)
Definition PIC_1_OFFSET : Z := 32.
Definition PIC_2_OFFSET : Z := PIC_1_OFFSET + 8.

Inductive InterruptIndex := Yield | Timer | Keyboard.

#[export] Instance InterruptIndex_eq_dec : EqDecision InterruptIndex.
Proof. solve_decision. Defined.

(** [as_u8]; [Keyboard] is declared after [Timer], so it is one more. *)
Definition as_u8 (i : InterruptIndex) : Z :=
  match i with
  | Yield => 0x30
  | Timer => PIC_1_OFFSET
  | Keyboard => PIC_1_OFFSET + 1
  end.

Definition as_usize (i : InterruptIndex) : Z := as_u8 i.

Definition YIELD_INTERRUPT_VECTOR : Z := 0x30.

(** ** The handlers, by name *)
Inductive handler :=
  | breakpoint_handler | page_fault_handler | double_fault_handler
  | timer_interrupt_handler | keyboard_interrupt_handler | software_yield_handler.

#[export] Instance handler_eq_dec : EqDecision handler.
Proof. solve_decision. Defined.

(** An entry: the handler and the index of its own stack, if it has one. *)
Record idt_entry := { entry_handler : handler; stack_index : option Z }.

Definition set_handler_fn (h : handler) : idt_entry := {| entry_handler := h; stack_index := None |}.
Definition set_stack_index (i : Z) (e : idt_entry) : idt_entry :=
  {| entry_handler := entry_handler e; stack_index := Some i |}.

(** The vectors of the named fields of [InterruptDescriptorTable], fixed by the
    architecture. *)
Definition vec_breakpoint : Z := 3.
Definition vec_double_fault : Z := 8.
Definition vec_page_fault : Z := 14.

Definition IDT : gmap Z idt_entry :=
  let idt := ∅ in
  let idt := <[vec_breakpoint := set_handler_fn breakpoint_handler]> idt in
  let idt := <[vec_page_fault := set_handler_fn page_fault_handler]> idt in
  let idt := <[vec_double_fault :=
                 set_stack_index DOUBLE_FAULT_IST_INDEX (set_handler_fn double_fault_handler)]> idt in
  let idt := <[as_usize Timer := set_handler_fn timer_interrupt_handler]> idt in
  let idt := <[as_usize Keyboard := set_handler_fn keyboard_interrupt_handler]> idt in
  <[as_usize Yield := set_handler_fn software_yield_handler]> idt.

Module Interrupts.
Section interrupts.
Context `{Device D}.

(** [PICS] and the devices. *)
Abbreviation pics := (Locked unit * io D)%type.

Definition emit_io (e : event) : M (unit * io D) unit := zoom snd (fun t s => (s.1, t)) (emit e).
Definition on_io {A} (c : M (io D) A) : M pics A := zoom snd (fun t s => (s.1, t)) c.

(** [PICS.lock().notify_end_of_interrupt(vector)]. *)
Definition notify_end_of_interrupt (vector : Z) : M pics unit := with_lock (emit_io (Eoi vector)).

Definition signal_eoi : M pics unit := notify_end_of_interrupt (as_u8 Timer).

Definition handle_keyboard_io_and_eoi : M pics unit :=
  scancode ← on_io (port_read W8 0x60);
  _ ← on_io (println "Keyboard pressed! Scancode: {}. Switching process..." [scancode]);
  notify_end_of_interrupt (as_u8 Keyboard).

Definition breakpoint (stack_frame : list Z) : M (io D) unit :=
  println "EXCEPTION: BREAKPOINT\n{:#?}" stack_frame.

Definition double_fault (stack_frame : list Z) (_error_code : Z) : M (io D) unit :=
  panic ExplicitPanic.

(** ** The timer chip *)
Definition init_pit : M (io D) unit :=
  _ ← port_write W8 0x43 0x36;
  let divisor := 11931 in
  _ ← port_write W8 0x40 (wrap 8 (Z.land divisor 0xFF));
  port_write W8 0x40 (wrap 8 (Z.shiftr divisor 8)).

(** ** [init_idt] *)
Definition init_idt : M pics unit :=
  _ ← on_io (emit (Instr "lidt" []));
  _ ← with_lock (emit_io (Instr "ChainedPics::initialize" [PIC_1_OFFSET; PIC_2_OFFSET]));
  _ ← on_io init_pit;
  on_io (emit (Instr "sti" [])).

(** The line of the interrupt controllers that raises a vector. *)
Definition irq_vector (irq : Z) : Z :=
  if bool_decide (irq < 8) then PIC_1_OFFSET + irq else PIC_2_OFFSET + (irq - 8).

(** The vector table.  The timer line and the keyboard line of the
    controllers arrive at the timer and the keyboard handler, the exceptions at
    theirs, the double fault on its own stack and no other handler on it; the
    software yield vector is none of the sixteen the controllers raise; no
    other vector has a handler. *)
Theorem idt_dispatch :
  IDT !! irq_vector 0 = Some (set_handler_fn timer_interrupt_handler) /\
  IDT !! irq_vector 1 = Some (set_handler_fn keyboard_interrupt_handler) /\
  IDT !! YIELD_INTERRUPT_VECTOR = Some (set_handler_fn software_yield_handler) /\
  IDT !! vec_breakpoint = Some (set_handler_fn breakpoint_handler) /\
  IDT !! vec_page_fault = Some (set_handler_fn page_fault_handler) /\
  (forall v e, IDT !! v = Some e ->
     v ∈ [3; 8; 14; 32; 33; 48] /\
     (entry_handler e = double_fault_handler <-> stack_index e = Some DOUBLE_FAULT_IST_INDEX)) /\
  (forall irq, 0 <= irq < 16 -> irq_vector irq <> as_u8 Yield /\ 32 <= irq_vector irq < 256).
Proof.
  split_and!; try reflexivity.
  - intros v e. unfold IDT. rewrite !lookup_insert_Some, lookup_empty.
    assert (Hin : forall x, x ∈ [3; 8; 14; 32; 33; 48] <-> x = 3 \/ x = 8 \/ x = 14 \/ x = 32 \/ x = 33 \/ x = 48).
    { intros x. rewrite !elem_of_cons, elem_of_nil. tauto. }
    rewrite Hin. unfold vec_breakpoint, vec_page_fault, vec_double_fault, as_usize, as_u8, PIC_1_OFFSET.
    intros Hc. repeat destruct Hc as [[<- <-]|[_ Hc]]; try done; split; try lia; done.
  - intros irq Hirq. unfold irq_vector, PIC_1_OFFSET, PIC_2_OFFSET, as_u8. case_bool_decide; unfold PIC_1_OFFSET; lia.
Qed.

(** ** What the timer chip makes of the writes

    Channel 0 in access mode "low byte, then high byte": the command selects
    the mode, the next two data bytes are the divisor. *)
Fixpoint pit_divisor (tr : list event) : option Z :=
  match tr with
  | Out W8 0x43 c :: (Out W8 0x40 lo :: Out W8 0x40 hi :: _) as tr' =>
      if bool_decide (Z.land c 0xF0 = 0x30) then Some (lo + 256 * hi) else pit_divisor tr'
  | _ :: tr => pit_divisor tr
  | [] => None
  end.

(** C32: interrupt start-up.  [init_idt] loads the table, remaps the controllers
    and programs the timer before it enables interrupts, which is the last
    thing it does, with the lock of the controllers free again, so that the
    first tick can signal its end; the timer's divisor is 11931, which is
    within a thousandth of a hertz of 1193182 / 11931, about 100.007 Hz. *)
Theorem init_idt_spec s :
  exists s', init_idt (Locked_new (), s) = (Done tt, (Locked_new (), s')) /\
    exists tr, trace s' = trace s ++ [Instr "lidt" []; Instr "ChainedPics::initialize" [32; 40]]
                          ++ tr ++ [Instr "sti" []] /\
      (forall e, e ∈ tr -> exists p v, e = Out W8 p v) /\
      pit_divisor tr = Some 11931 /\ Z.abs (1193182 * 1000 - 100007 * 11931) < 11931.
Proof.
  eexists. split; [reflexivity|]. exists [Out W8 0x43 0x36; Out W8 0x40 0x9B; Out W8 0x40 0x2E].
  split_and!; [|..|done|done].
  - cbn. by rewrite <- !app_assoc.
  - intros e [-> |[-> |[-> |[]%elem_of_nil]%elem_of_cons]%elem_of_cons]%elem_of_cons; by eexists _, _.
Qed.

Lemma eoi_ok s :
  signal_eoi (Locked_new (), s)
    = (Done tt, (Locked_new (), {| dev := dev s; trace := trace s ++ [Eoi (as_u8 Timer)] |})) /\
  exists d tr, handle_keyboard_io_and_eoi (Locked_new (), s)
    = (Done tt, (Locked_new (), {| dev := d; trace := tr ++ [Eoi (as_u8 Keyboard)] |})).
Proof.
  split; [done|]. unfold handle_keyboard_io_and_eoi. eexists _, _. erewrite bind_done.
  2:{ unfold on_io. apply zoom_done. cbn [snd]. apply port_read_eq. }
  done.
Qed.

(** The end of interrupt.  Each hardware handler acknowledges its own line,
    once, with the lock of the controllers free before and after; the keyboard
    handler reads the scan code first, which empties the controller's buffer;
    with the lock held by the interrupted code both hang. *)
Theorem eoi_spec s :
  let '(code, d) := dev_in W8 0x60 (dev s) in
  signal_eoi (Locked_new (), s)
    = (Done tt, (Locked_new (), {| dev := dev s; trace := trace s ++ [Eoi (irq_vector 0)] |})) /\
  handle_keyboard_io_and_eoi (Locked_new (), s)
    = (Done tt, (Locked_new (), {| dev := d; trace := trace s ++ [In W8 0x60 code;
         Println "Keyboard pressed! Scancode: {}. Switching process..." [code];
         Eoi (irq_vector 1)] |})) /\
  (signal_eoi ({| held := true; inner := () |}, s)).1 = Hang /\
  (handle_keyboard_io_and_eoi ({| held := true; inner := () |}, s)).1 = Hang.
Proof.
  destruct (dev_in W8 0x60 (dev s)) as [code d] eqn:E. split_and!.
  - done.
  - unfold handle_keyboard_io_and_eoi. erewrite bind_done.
    2:{ unfold on_io, zoom. cbn [snd]. rewrite port_read_eq, E. cbn. done. }
    rewrite (bind_done _ _ _ tt (Locked_new (), {| dev := d; trace := (trace s ++ [In W8 0x60 code]) ++
      [Println "Keyboard pressed! Scancode: {}. Switching process..." [code]] |})) by done.
    transitivity (@Done unit tt, (Locked_new (), {| dev := d; trace := ((trace s ++ [In W8 0x60 code]) ++
      [Println "Keyboard pressed! Scancode: {}. Switching process..." [code]]) ++ [Eoi (irq_vector 1)] |}));
      [done|by rewrite <- !app_assoc].
  - done.
  - unfold handle_keyboard_io_and_eoi. rewrite (bind_done _ _ _ code
      ({| held := true; inner := () |}, {| dev := d; trace := trace s ++ [In W8 0x60 code] |})); [done|].
    unfold on_io, zoom. cbn [snd]. rewrite port_read_eq, E. cbn. done.
Qed.
End interrupts.
End Interrupts.
