(* ===== verification/Processes.v ===== *)
(** * The processes under preemption

    The processes of something_os (main.rs) and the end of [kernel_main]
    never return: they are interaction trees, built with [ITree.forever], whose
    events are what they ask of the processor and of the console.  A machine
    runs one of them at a time on the console of Vga.v and switches between
    them on interrupts by [preempt_round_robin] of Sched.v; which registers and
    stacks make that possible is the subject of Cpu.v.  The theorems: no
    interleaving gets stuck, what the screen shows, and that every process goes
    on printing. *)

From ITree Require Import ITree ITreeFacts.
From S2P Require Import Prelude Store Format Vga Sched Interrupts.


#[export] Instance itree_ret {E} : MRet (itree E) := fun A a => Ret a.
#[export] Instance itree_bind {E} : MBind (itree E) := fun A B k t => ITree.bind t k.

(** ** What a process asks for *)
Variant cpuE : Type -> Type :=
  | AreEnabled : cpuE bool
  | Disable : cpuE unit
  | Enable : cpuE unit
  | LockWriter : cpuE unit
  | WriteStr (s : list Z) : cpuE bool
  | UnlockWriter : cpuE unit
  | UnwrapFailed_ : cpuE unit
  | SpinLoop : cpuE unit
  | Hlt : cpuE unit.

Definition ask {A} (e : cpuE A) : itree cpuE A := ITree.trigger e.

(** [x86_64::instructions::interrupts::without_interrupts]. *)
Definition without_interrupts {A} (f : itree cpuE A) : itree cpuE A :=
  saved_intpt_flag ← ask AreEnabled;
  _ ← (if saved_intpt_flag : bool then ask Disable else mret tt);
  ret ← f;
  _ ← (if saved_intpt_flag : bool then ask Enable else mret tt);
  mret ret.

Fixpoint write_fmt (pieces : list (list Z)) : itree cpuE bool :=
  match pieces with
  | [] => mret true
  | s :: pieces =>
      ok ← ask (WriteStr s);
      if ok : bool then write_fmt pieces else mret false
  end.

(** [_print] of vga_buffer/print.rs. *)
Definition _print (args : list (list Z)) : itree cpuE unit :=
  without_interrupts (
    _ ← ask LockWriter;
    ok ← write_fmt args;
    _ ← (if ok : bool then mret tt else ask UnwrapFailed_);
    ask UnlockWriter).

(** [for _ in 0..n { spin_loop() }]. *)
Fixpoint spin (n : nat) : itree cpuE unit :=
  match n with
  | O => mret tt
  | S n => _ ← ask SpinLoop; spin n
  end.

(** The body of the three processes. *)
Definition process_body (letter : list Z) : itree cpuE unit :=
  _ ← without_interrupts (_print [letter]);
  spin (Z.to_nat 50000).

Definition process_alpha : itree cpuE Empty_set := ITree.forever (process_body (bytes "A")).
Definition process_beta : itree cpuE Empty_set := ITree.forever (process_body (bytes "B")).
Definition process_omega : itree cpuE Empty_set := ITree.forever (process_body (bytes "C")).

(** The loop at the end of [kernel_main]. *)
Definition idle_loop : itree cpuE Empty_set := ITree.forever (ask Hlt).

(** What [kernel_main] has left to do once the process table is filled: as
    soon as the table's lock is released, an interrupt can switch away. *)
Definition starting_line : list (list Z) :=
  default [] (Format.line "Starting multi-process testing execution loop!\n" []).
Definition kernel_main_end : itree cpuE Empty_set := _ ← _print starting_line; idle_loop.

(** The [panic] handler: [loop {}]. *)
Definition panic_loop : itree cpuE Empty_set := ITree.spin.

(** [hlt_loop] of interrupt/handlers.rs. *)
Definition hlt_loop : itree cpuE Empty_set := ITree.forever (ask Hlt).

(** ** The machine *)

(** A process with its interrupt flag; the frames that hold the preempted ones
    are named by the stack pointers the scheduler keeps. *)
Record thread := { prog : itree cpuE Empty_set; if_flag : bool }.

Inductive origin := FromProcess (pid : Z) | FromKeyboard.

Record machine := {
  running : thread;
  frames : gmap Z thread;
  sched : Locked (option Scheduler);
  writer : Locked Writer;
  (** [PICS]: the controllers, as the vectors acknowledged to them *)
  pics : Locked (list Z);
  (** everything written to the console, and by whom *)
  history : list (origin * list Z);
}.

Definition set_prog (t : itree cpuE Empty_set) (s : machine) : machine :=
  {| running := {| prog := t; if_flag := if_flag (running s) |}; frames := frames s; sched := sched s;
     writer := writer s; pics := pics s; history := history s |}.
Definition set_if (b : bool) (s : machine) : machine :=
  {| running := {| prog := prog (running s); if_flag := b |}; frames := frames s; sched := sched s;
     writer := writer s; pics := pics s; history := history s |}.
Definition set_writer (w : Locked Writer) (s : machine) : machine :=
  {| running := running s; frames := frames s; sched := sched s; writer := w; pics := pics s; history := history s |}.
Definition set_running (th : thread) (s : machine) : machine :=
  {| running := th; frames := frames s; sched := sched s; writer := writer s; pics := pics s; history := history s |}.
Definition set_sched (l : Locked (option Scheduler)) (s : machine) : machine :=
  {| running := running s; frames := frames s; sched := l; writer := writer s; pics := pics s; history := history s |}.
Definition set_pics (l : Locked (list Z)) (s : machine) : machine :=
  {| running := running s; frames := frames s; sched := sched s; writer := writer s; pics := l; history := history s |}.
Definition record_output (o : origin) (bs : list Z) (s : machine) : machine :=
  {| running := running s; frames := frames s; sched := sched s; writer := writer s; pics := pics s;
     history := history s ++ [(o, bs)] |}.
Definition save_frame (rsp : Z) (s : machine) : machine :=
  {| running := running s; frames := <[rsp := running s]> (frames s); sched := sched s;
     writer := writer s; pics := pics s; history := history s |}.

Module Processes.
Section processes.
Context `{BuildProfile}.

Definition current_pid (s : machine) : Z :=
  match inner (sched s) with
  | Some t => default 0 (id <$> processes t !! Z.to_nat (current_index t))
  | None => 0
  end.

Definition on_writer {A} (c : M (Locked Writer) A) : M machine A := zoom writer set_writer c.

(** What the processor and the console do on an event. *)
Definition handle {A} (e : cpuE A) : M machine A :=
  match e in cpuE A return M machine A with
  | AreEnabled => gets (fun s => if_flag (running s))
  | Disable => modify (set_if false)
  | Enable => modify (set_if true)
  | LockWriter => _ ← on_writer lock; mret tt
  | WriteStr bs =>
      _ ← modify (fun s => record_output (FromProcess (current_pid s)) bs s);
      on_writer (zoom inner (fun w l => {| held := held l; inner := w |}) (Vga.write_str bs))
  | UnlockWriter => on_writer (w ← gets inner; unlock w)
  | UnwrapFailed_ => panic UnwrapFailed
  | SpinLoop => mret tt
  | Hlt => mret tt
  end.

(** One step of the running process. *)
Definition run_step : M machine unit :=
  s ← gets (fun s => s);
  match observe (prog (running s)) with
  | RetF r => match r with end
  | TauF t => modify (set_prog t)
  | VisF e k => a ← handle e; modify (set_prog (k a))
  end.

(** ** Interrupts *)
Inductive request := TimerTick | KeyPress (scancode : Z).

(** The text of [handle_keyboard_io_and_eoi]. *)
Definition key_line (scancode : Z) : outcome (list (list Z)) :=
  unwrap (Format.line "Keyboard pressed! Scancode: {}. Switching process..." [scancode]).

(** [PICS.lock().notify_end_of_interrupt(vector)]. *)
Definition notify_end_of_interrupt (vector : Z) : M machine unit :=
  zoom pics set_pics (acknowledged ← lock; unlock (acknowledged ++ [vector])).

(** The part of a handler before it asks the scheduler: the processor has
    cleared the interrupt flag, the interrupted process is saved at [old_rsp]. *)
Definition device_part (q : request) : M machine unit :=
  match q with
  | TimerTick => notify_end_of_interrupt (as_u8 Timer)
  | KeyPress scancode =>
      pieces ← lift (key_line scancode);
      _ ← modify (record_output FromKeyboard (concat pieces));
      _ ← on_writer (zoom (fun l => (false, l)) (fun t _ => t.2) (Vga._print pieces));
      notify_end_of_interrupt (as_u8 Keyboard)
  end.

Definition interrupt (q : request) (old_rsp : Z) : M machine unit :=
  _ ← modify (save_frame old_rsp);
  _ ← device_part q;
  new_rsp ← zoom sched set_sched (Sched.preempt_round_robin old_rsp);
  s ← gets (fun s => s);
  match frames s !! new_rsp with
  | Some th => modify (set_running th)
  | None => fail Undefined
  end.

(** ** Scripts

    What a process does in one round of its loop, with the answers it gets. *)
Inductive act := AskedIf (b : bool) | Disabled | Enabled | Locked_ | Wrote (bs : list Z) | Unlocked_ | Spun | Halted.

Definition act_ty (a : act) : Type := match a with AskedIf _ | Wrote _ => bool | _ => unit end.
Definition act_event (a : act) : cpuE (act_ty a) :=
  match a with
  | AskedIf _ => AreEnabled | Disabled => Disable | Enabled => Enable | Locked_ => LockWriter
  | Wrote bs => WriteStr bs | Unlocked_ => UnlockWriter | Spun => SpinLoop | Halted => Hlt
  end.
Definition act_answer (a : act) : act_ty a :=
  match a with AskedIf b => b | Wrote _ => true | _ => tt end.

(** The rest of the round, after which the process starts over. *)
Inductive follows (loop : itree cpuE Empty_set) : list act -> itree cpuE Empty_set -> Prop :=
  | follows_end t : observe t = TauF loop -> follows loop [] t
  | follows_act a acts k t :
      observe t = VisF (act_event a) k -> follows loop acts (k (act_answer a)) -> follows loop (a :: acts) t.

Definition print_round (letter : list Z) : list act :=
  [AskedIf true; Disabled; AskedIf false; Locked_; Wrote letter; Unlocked_; Enabled] ++
  replicate (Z.to_nat 50000) Spun.

Lemma spin_follows (loop : itree cpuE Empty_set) n t :
  observe t = observe (ITree.bind (spin n) (fun _ => Tau loop)) -> follows loop (replicate n Spun) t.
Proof.
  revert t. induction n as [|n IH]; intros t E; [by apply follows_end|].
  eapply (follows_act _ Spun); [exact E|]. apply IH. reflexivity.
Qed.

Lemma process_follows letter :
  follows (ITree.forever (process_body letter)) (print_round letter) (ITree.forever (process_body letter)).
Proof.
  unfold print_round, process_body, _print, without_interrupts, ask, mbind, itree_bind, mret, itree_ret. generalize (Z.to_nat 50000). intros n.
  do 7 (eapply follows_act; [cbn; reflexivity|]). apply spin_follows. cbn. reflexivity.
Qed.

Lemma idle_follows : follows idle_loop [Halted] idle_loop.
Proof. eapply follows_act; [cbn; reflexivity|]. apply follows_end. reflexivity. Qed.

(** The end of [kernel_main], up to the first time round its loop. *)
Definition ending : list act :=
  [AskedIf true; Disabled; Locked_] ++ (Wrote <$> starting_line) ++ [Unlocked_; Enabled; Halted].

(** The text and the newline of [println!]. *)
Lemma starting_line_pieces : exists text newline, starting_line = [text; newline].
Proof. eexists _, _. vm_compute. reflexivity. Qed.

Lemma ending_follows : follows idle_loop ending kernel_main_end.
Proof.
  destruct starting_line_pieces as (text & newline & E).
  unfold ending, kernel_main_end, _print, without_interrupts, ask, mbind, itree_bind, mret, itree_ret.
  rewrite E. clear E.
  do 8 (eapply follows_act; [cbn; reflexivity|]). apply follows_end. reflexivity.
Qed.

(** The interrupt flag and the console's lock along a script. *)
Fixpoint good (acts : list act) (iflag locked : bool) : Prop :=
  (locked = true -> iflag = false) /\
  match acts with
  | [] => iflag = true /\ locked = false
  | AskedIf b :: acts => b = iflag /\ good acts iflag locked
  | Disabled :: acts => good acts false locked
  | Enabled :: acts => good acts true locked
  | Locked_ :: acts => locked = false /\ good acts iflag true
  | Wrote _ :: acts => locked = true /\ good acts iflag locked
  | Unlocked_ :: acts => locked = true /\ good acts iflag false
  | Spun :: acts | Halted :: acts => good acts iflag locked
  end.

Lemma ending_good : good ending true false.
Proof.
  destruct starting_line_pieces as (text & newline & E). unfold ending. rewrite E. by repeat split.
Qed.

Lemma print_round_good letter : good (print_round letter) true false.
Proof.
  unfold print_round. generalize (Z.to_nat 50000). intros n.
  assert (Hspin : good (replicate n Spun) true false) by (induction n; cbn; auto).
  cbn [app good]. split_and!; done.
Qed.

#[local] Opaque print_round process_body ending kernel_main_end.

(** ** Roles *)
Record role := { pid : Z; intro : list act; loop : itree cpuE Empty_set; round : list act }.

Definition role_ok (r : role) : Prop := follows (loop r) (round r) (loop r) /\ good (round r) true false.

(** [acts] is what is left of a round, or of what comes before the loop. *)
Definition left_of (r : role) (acts : list act) : Prop :=
  acts `suffix_of` round r \/ acts `suffix_of` intro r.

Lemma left_of_cons r a acts : left_of r (a :: acts) -> left_of r acts.
Proof. intros [Hs|Hs]; [left|right]; by eapply suffix_cons_l. Qed.

(** The process is somewhere in its round; [locked] is the state of the console. *)
Definition at_phase (r : role) (th : thread) (locked : bool) (acts : list act) : Prop :=
  follows (loop r) acts (prog th) /\ good acts (if_flag th) locked /\ left_of r acts.

(** A process and the rest of its round. *)
Abbreviation phase := (role * list act)%type.

Definition waits (fr : gmap Z thread) (p : Process) (x : phase) : Prop :=
  id p = pid x.1 /\ exists th, fr !! Sched.rsp_of p = Some th /\ if_flag th = true /\ at_phase x.1 th false x.2.

Definition waiting_rsps (s : machine) : list Z :=
  match inner (sched s) with Some tab => Sched.rsp_of <$> tail (Sched.ring tab) | None => [] end.

Context (t0 : Vga.term) (Ht0 : Vga.term_ok t0).

(** The screen shows what was written. *)
Definition console_ok (s : machine) : Prop :=
  inner (writer s) = Vga.show (Vga.term_write (concat (snd <$> history s)) t0).

Record machine_ok (r : role) (acts : list act) (rs : list phase) (s : machine) : Prop := {
  mk_table : exists tab p ps, sched s = Locked_new (Some tab) /\ Sched.sched_ok tab /\ Sched.ring tab = p :: ps /\
    id p = pid r /\ Forall2 (waits (frames s)) ps rs;
  mk_running : at_phase r (running s) (held (writer s)) acts;
  mk_roles : Forall role_ok (r :: (fst <$> rs));
  mk_console : console_ok s;
  mk_pics : held (pics s) = false;
}.

(** ** The running process *)
Definition act_output (r : role) (acts : list act) : list (origin * list Z) :=
  match acts with Wrote bs :: _ => [(FromProcess (pid r), bs)] | _ => [] end.

(** One action: the machine answers what the script says. *)
Lemma handle_ok r a acts rs s :
  machine_ok r (a :: acts) rs s ->
  exists s', handle (act_event a) s = (Done (act_answer a), s') /\ good acts (if_flag (running s')) (held (writer s')) /\
    frames s' = frames s /\ sched s' = sched s /\ pics s' = pics s /\ console_ok s' /\
    history s' = history s ++ act_output r (a :: acts).
Proof.
  intros [(tab & p & ps & Hsch & Hok & Hring & Hid & Hw) (Hf & Hg & Hsuf) Hroles Hcon Hpics].
  destruct Hg as [Hmask Hg]. unfold console_ok in *.
  destruct a; cbn [act_event act_answer act_output handle]; rewrite ?app_nil_r.
  - destruct Hg as [-> Hg]. by exists s.
  - eexists. by split_and!.
  - eexists. by split_and!.
  - destruct Hg as [Hh Hg]. destruct s as [th fr sc [h w] pi hist]. cbn in *. subst h.
    eexists. by split_and!.
  - destruct Hg as [Hh Hg].
    destruct (Vga.write_string_show bs (Vga.term_write (concat (snd <$> history s)) t0)) as [E _].
    { by apply (Vga.write_fmt_show (snd <$> history s) t0 Ht0). }
    rewrite modify_bind. unfold on_writer. erewrite zoom_done.
    2:{ apply zoom_done. cbn [record_output writer]. rewrite Hcon. unfold Vga.write_str.
        rewrite (bind_done _ _ _ _ _ E). done. }
    eexists. split; [done|]. cbn [set_writer running writer frames sched history record_output held if_flag inner].
    split_and!; try done.
    + rewrite fmap_app, concat_app. cbn. by rewrite app_nil_r, Vga.term_write_app.
    + do 2 f_equal. unfold current_pid. rewrite Hsch. cbn [inner Locked_new].
      rewrite (Sched.ring_head_current _ _ _ Hok Hring). cbn. by rewrite Hid.
  - destruct Hg as [Hh Hg]. destruct s as [th fr sc [h w] pi hist]. cbn in *. subst h.
    eexists. by split_and!.
  - by exists s.
  - by exists s.
Qed.

(** The rest of the round after a step; an ended round starts over. *)
Definition next_acts (r : role) (acts : list act) : list act :=
  match acts with [] => round r | _ :: acts => acts end.

Lemma run_ok r acts rs s :
  machine_ok r acts rs s ->
  exists s', run_step s = (Done tt, s') /\ machine_ok r (next_acts r acts) rs s' /\
    history s' = history s ++ act_output r acts /\ pics s' = pics s.
Proof.
  intros Hm. pose proof Hm as [Htab (Hf & Hg & Hsuf) Hroles Hcon Hpics].
  unfold run_step. rewrite gets_bind. destruct Hf as [t E|a acts k t E Hf].
  - rewrite E. eexists. split; [done|]. split; [|by rewrite app_nil_r].
    apply Forall_cons in Hroles as Hr. destruct Hr as [[Hl Hgl] _]. destruct Hg as [_ [Hi Hh]].
    split; [exact Htab| |exact Hroles|exact Hcon|exact Hpics]. split_and!; [exact Hl| |by left].
    cbn [set_prog running writer if_flag]. by rewrite Hi, Hh.
  - destruct (handle_ok r a acts rs s Hm) as (s1 & E1 & Hg1 & Hfr & Hsc & Hp1 & Hc1 & Hh1).
    rewrite E, (bind_done _ _ _ _ _ E1). eexists. split; [done|]. split; [|split; [exact Hh1|exact Hp1]].
    split; [|split_and!|exact Hroles|exact Hc1|by cbn; rewrite Hp1].
    + cbn [set_prog sched frames]. by rewrite Hfr, Hsc.
    + exact Hf.
    + exact Hg1.
    + by eapply left_of_cons.
Qed.

(** ** Interrupts *)
Definition irq_output (q : request) : list (origin * list Z) :=
  match q with
  | TimerTick => []
  | KeyPress scancode => match key_line scancode with Done pieces => [(FromKeyboard, concat pieces)] | _ => [] end
  end.

Definition irq_ack (q : request) : Z := as_u8 (match q with TimerTick => Timer | KeyPress _ => Keyboard end).

Lemma key_line_ok scancode : exists pieces, key_line scancode = Done pieces.
Proof. eexists. reflexivity. Qed.

Lemma notify_ok v s :
  held (pics s) = false ->
  notify_end_of_interrupt v s = (Done tt, set_pics (Locked_new (inner (pics s) ++ [v])) s).
Proof. intros Hp. apply zoom_done. unfold lock, mbind, M_bind. by rewrite Hp. Qed.

(** The handler's own output, on a free console, and its acknowledgement. *)
Lemma device_part_ok q s :
  held (writer s) = false -> held (pics s) = false -> console_ok s ->
  exists s', device_part q s = (Done tt, s') /\ running s' = running s /\ frames s' = frames s /\
    sched s' = sched s /\ held (writer s') = false /\ pics s' = Locked_new (inner (pics s) ++ [irq_ack q]) /\
    console_ok s' /\ history s' = history s ++ irq_output q.
Proof.
  intros Hh Hp Hcon. destruct q as [|scancode]; cbn [device_part irq_output].
  { rewrite notify_ok by done. eexists. rewrite app_nil_r. by split_and!. }
  destruct (key_line_ok scancode) as [pieces E]. rewrite E.
  rewrite (lift_bind _ _ _ _ eq_refl), modify_bind. unfold console_ok in *.
  set (t := Vga.term_write (concat (snd <$> history s)) t0) in *.
  assert (Ht : Vga.term_ok t) by by apply (Vga.write_fmt_show (snd <$> history s) t0 Ht0).
  assert (Ew : writer s = Locked_new (Vga.show t)).
  { destruct s as [th fr sc [h w] pi hist]. cbn in Hh, Hcon |- *. by rewrite Hh, Hcon. }
  erewrite bind_done.
  2:{ unfold on_writer. apply zoom_done, zoom_done. cbn [record_output writer]. rewrite Ew.
      by apply (Vga.print_show pieces false t). }
  rewrite notify_ok by done. eexists. split; [done|].
  split_and!; try done. cbn [set_pics set_writer record_output writer history snd inner Locked_new].
  rewrite fmap_app, concat_app. cbn. by rewrite app_nil_r, Vga.term_write_app.
Qed.

Lemma waits_insert fr old th ps rs :
  old ∉ (Sched.rsp_of <$> ps) -> Forall2 (waits fr) ps rs -> Forall2 (waits (<[old := th]> fr)) ps rs.
Proof.
  intros Hold. induction 1 as [|p r ps rs (Hid & th' & Hl & Hp) Hw IH]; [done|].
  cbn [fmap list_fmap] in Hold. apply not_elem_of_cons in Hold as [Hne Hold].
  constructor; [|by apply IH]. split; [done|]. exists th'. by rewrite lookup_insert_ne.
Qed.

Lemma good_free acts b : good acts true b -> b = false.
Proof. destruct b; [|done]. destruct acts; intros [Hm _]; by specialize (Hm eq_refl). Qed.

(** The switch. *)
Lemma interrupt_eq q old tab p p' q' th s :
  sched s = Locked_new (Some tab) -> Sched.sched_ok tab -> Sched.ring tab = p :: p' :: q' ->
  held (writer s) = false -> held (pics s) = false -> console_ok s -> old <> Sched.rsp_of p' ->
  frames s !! Sched.rsp_of p' = Some th ->
  exists s', interrupt q old s = (Done tt, s') /\ running s' = th /\ frames s' = <[old := running s]> (frames s) /\
    sched s' = (Sched.preempt_round_robin old (sched s)).2 /\ held (writer s') = false /\
    pics s' = Locked_new (inner (pics s) ++ [irq_ack q]) /\ console_ok s' /\ history s' = history s ++ irq_output q.
Proof.
  intros Hsch Hok Hring Hfree Hpics Hcon Hne Hl.
  destruct (device_part_ok q (save_frame old s) Hfree Hpics Hcon) as (s1 & E1 & Hr1 & Hf1 & Hs1 & Hh1 & Hp1 & Hc1 & Hhist).
  destruct (Sched.preempt_turn_ring old tab p p' q' Hok Hring) as (tab' & Et & Hok' & Hring').
  unfold interrupt. rewrite modify_bind, (bind_done _ _ _ _ _ E1).
  rewrite (bind_done _ _ _ (Sched.rsp_of p') (set_sched (Locked_new (Some tab')) s1)).
  2:{ apply zoom_done. rewrite Hs1. cbn [save_frame sched]. by rewrite Hsch. }
  rewrite gets_bind. cbn [set_sched frames]. rewrite Hf1. cbn [save_frame frames].
  rewrite lookup_insert_ne, Hl by done. eexists. split; [done|].
  cbn [set_running set_sched running frames sched writer pics history]. rewrite Hf1, Hsch, Et. by split_and!.
Qed.

(** The next process of the queue runs, the interrupted one is last. *)
Lemma interrupt_ok q old r acts r' acts' rs s :
  machine_ok r acts ((r', acts') :: rs) s -> if_flag (running s) = true -> old ∉ waiting_rsps s ->
  exists s', interrupt q old s = (Done tt, s') /\ machine_ok r' acts' (rs ++ [(r, acts)]) s' /\
    if_flag (running s') = true /\ history s' = history s ++ irq_output q /\
    inner (pics s') = inner (pics s) ++ [irq_ack q].
Proof.
  intros [(tab & p & ps & Hsch & Hok & Hring & Hid & Hw) Hrun Hroles Hcon Hpics] Hif Hold.
  unfold waiting_rsps in Hold. rewrite Hsch in Hold. cbn [inner Locked_new] in Hold. rewrite Hring in Hold.
  apply Forall2_cons_inv_r in Hw as (p' & q' & (Hid' & th & Hl & Hif' & Hph) & Hw & ->). cbn [tail] in Hold.
  cbn [fmap list_fmap] in Hold. apply not_elem_of_cons in Hold as [Hne Hold].
  assert (Hfree : held (writer s) = false).
  { destruct Hrun as (_ & Hg & _). rewrite Hif in Hg. by eapply good_free. }
  destruct (interrupt_eq q old tab p p' q' th s Hsch Hok Hring Hfree Hpics Hcon Hne Hl)
    as (s' & E & Hr & Hf & Hs & Hh & Hp & Hc & Hhist).
  destruct (Sched.preempt_turn_ring old tab p p' q' Hok Hring) as (tab' & Et & Hok' & Hring').
  apply (waits_insert _ old (running s)) in Hw; [|done].
  exists s'. split; [exact E|]. split; [|split_and!; [by rewrite Hr|exact Hhist|by rewrite Hp]].
  split; [|by rewrite Hr, Hh| |exact Hc|by rewrite Hp].
  - exists tab', (set_state Running p'), (q' ++ [set_state Ready (set_context (with_rsp old) p)]).
    rewrite Hs, Hsch, Et, Hf. split_and!; try done.
    apply Forall2_app; [exact Hw|]. constructor; [|constructor]. split; [exact Hid|].
    exists (running s). cbn. rewrite lookup_insert_eq. split_and!; [done..|]. by rewrite <- Hfree.
  - cbn [fmap list_fmap] in Hroles. apply Forall_cons in Hroles as [Hr0 Hrs].
    apply Forall_cons in Hrs as [Hr' Hrs]. constructor; [exact Hr'|].
    rewrite fmap_app. apply Forall_app. split; [exact Hrs|by constructor; [|constructor]].
Qed.

(** ** Executions

    An interrupt is taken only while the running process has interrupts
    enabled, and saves it at an address that no waiting process is saved at. *)
Inductive label := Run | Irq (q : request).

Inductive pstep : label -> machine -> machine -> Prop :=
  | pstep_run s s' : run_step s = (Done tt, s') -> pstep Run s s'
  | pstep_irq q old s s' :
      if_flag (running s) = true -> old ∉ waiting_rsps s -> interrupt q old s = (Done tt, s') ->
      pstep (Irq q) s s'.

Inductive psteps : list label -> machine -> machine -> Prop :=
  | psteps_nil s : psteps [] s s
  | psteps_cons l ls s1 s2 s3 : pstep l s1 s2 -> psteps ls s2 s3 -> psteps (l :: ls) s1 s3.

(** What the machine does to the queue of processes, and what is written. *)
Definition queue_step (l : label) (qs : list phase) : list phase :=
  match l, qs with
  | Run, x :: qs => (x.1, next_acts x.1 x.2) :: qs
  | Irq _, x :: qs => qs ++ [x]
  | _, [] => []
  end.
Definition queue_output (l : label) (qs : list phase) : list (origin * list Z) :=
  match l, qs with
  | Run, x :: _ => act_output x.1 x.2
  | Irq q, _ => irq_output q
  | _, [] => []
  end.
Fixpoint queue_run (ls : list label) (qs : list phase) : list phase :=
  match ls with [] => qs | l :: ls => queue_run ls (queue_step l qs) end.
Fixpoint queue_outputs (ls : list label) (qs : list phase) : list (origin * list Z) :=
  match ls with [] => [] | l :: ls => queue_output l qs ++ queue_outputs ls (queue_step l qs) end.

Definition queue_ok (qs : list phase) (s : machine) : Prop :=
  match qs with x :: y :: qs => machine_ok x.1 x.2 (y :: qs) s | _ => False end.

(** The vectors acknowledged: one per interrupt. *)
Definition acks (l : label) : list Z := match l with Run => [] | Irq q => [irq_ack q] end.

Lemma pstep_queue l qs s s' :
  queue_ok qs s -> pstep l s s' ->
  queue_ok (queue_step l qs) s' /\ history s' = history s ++ queue_output l qs /\
  inner (pics s') = inner (pics s) ++ acks l.
Proof.
  destruct qs as [|[r acts] [|[r' acts'] rs]]; [done..|]. cbn [queue_ok fst snd]. intros Hm Hs.
  destruct Hs as [s s' E|q old s s' Hif Hold E].
  - destruct (run_ok r acts ((r', acts') :: rs) s Hm) as (s2 & E2 & Hm2 & Hh2 & Hp2).
    rewrite E2 in E. injection E as <-. split_and!; [done..|]. by rewrite Hp2, app_nil_r.
  - destruct (interrupt_ok q old r acts r' acts' rs s Hm Hif Hold) as (s2 & E2 & Hm2 & _ & Hh2 & Hp2).
    rewrite E2 in E. injection E as <-. split_and!; [|exact Hh2|exact Hp2]. cbn [queue_step app].
    by destruct rs.
Qed.

Lemma psteps_queue ls qs s s' :
  queue_ok qs s -> psteps ls s s' ->
  queue_ok (queue_run ls qs) s' /\ history s' = history s ++ queue_outputs ls qs /\
  inner (pics s') = inner (pics s) ++ (ls ≫= acks).
Proof.
  intros Hq Hs. revert qs Hq. induction Hs as [s|l ls s1 s2 s3 Hl Hls IH]; intros qs Hq.
  { by rewrite !app_nil_r. }
  destruct (pstep_queue _ _ _ _ Hq Hl) as (Hq2 & Hh2 & Hp2). destruct (IH _ Hq2) as (Hq3 & Hh3 & Hp3).
  split_and!; [exact Hq3| |].
  - cbn [queue_outputs]. by rewrite Hh3, Hh2, app_assoc.
  - by rewrite Hp3, Hp2, bind_cons, app_assoc.
Qed.

(** Every state of an execution can go on. *)
Lemma queue_live qs s :
  queue_ok qs s ->
  (exists s', run_step s = (Done tt, s')) /\
  (if_flag (running s) = true ->
     held (writer s) = false /\
     forall q old, old ∉ waiting_rsps s -> exists s', interrupt q old s = (Done tt, s')).
Proof.
  destruct qs as [|[r acts] [|[r' acts'] rs]]; [done..|]. cbn [queue_ok fst snd]. intros Hm. split.
  - destruct (run_ok _ _ _ _ Hm) as (s' & E & _). by exists s'.
  - intros Hif. split.
    + destruct (mk_running _ _ _ _ Hm) as (_ & Hg & _). rewrite Hif in Hg. by eapply good_free.
    + intros q old Hold. destruct (interrupt_ok q old _ _ _ _ _ _ Hm Hif Hold) as (s' & E & _). by exists s'.
Qed.

Lemma queue_console qs s : queue_ok qs s -> console_ok s.
Proof. destruct qs as [|[r acts] [|y rs]]; [done..|]. by intros [_ _ _ Hc _]. Qed.

(** ** Progress *)

(** The process writes at the latest in its [k]-th step from here. *)
Fixpoint prints_in (k : nat) (r : role) (acts : list act) : Prop :=
  match k with
  | O => False
  | S k => match acts with Wrote _ :: _ => True | _ => prints_in k r (next_acts r acts) end
  end.

Lemma prints_in_more k r acts :
  prints_in k r (round r) -> prints_in (length acts + 1 + k) r acts.
Proof.
  intros Hk. induction acts as [|a acts IH]; [exact Hk|].
  cbn [length Nat.add prints_in next_acts]. by destruct a.
Qed.

(** No two interrupts without a step of the process in between; [stepped] tells
    whether the running process has made one. *)
Fixpoint spaced (stepped : bool) (ls : list label) : Prop :=
  match ls with
  | [] => True
  | Run :: ls => spaced true ls
  | Irq _ :: ls => stepped = true /\ spaced false ls
  end.
Definition irqs (ls : list label) : nat :=
  length (filter (fun l => match l with Irq _ => true | Run => false end = true) ls).

(** The [j]-th process in the queue writes within as many turns of the whole
    queue as it needs steps. *)
Lemma queue_progress ls k j stepped qs r acts :
  qs !! j = Some (r, acts) -> prints_in k r acts -> spaced stepped ls ->
  (j + length qs * (k - 1) + (if bool_decide (j = 0%nat) && stepped then length qs else 0) < irqs ls)%nat ->
  exists bs, (FromProcess (pid r), bs) ∈ queue_outputs ls qs.
Proof.
  revert k j stepped qs acts. induction ls as [|l ls IH]; intros k j stepped qs acts Hj Hk Hsp Hn.
  { exfalso. by apply Nat.nlt_0_r in Hn. }
  destruct k as [|k]; [done|]. destruct qs as [|x qs]; [done|]. cbn [length] in *.
  destruct l as [|q]; cbn [queue_outputs queue_output queue_step spaced] in *.
  - change (irqs (Run :: ls)) with (irqs ls) in Hn. destruct j as [|j].
    + injection Hj as ->. cbn [fst snd].
      assert (Hcase : (exists bs acts', acts = Wrote bs :: acts') \/ prints_in k r (next_acts r acts)).
      { cbn [prints_in] in Hk. destruct acts as [|[]]; eauto. }
      destruct Hcase as [(bs & acts' & ->)|Hk']; [exists bs; left|].
      destruct k as [|k]; [done|].
      destruct (IH (S k) 0%nat true ((r, next_acts r acts) :: qs) _ eq_refl Hk' Hsp) as [bs Hin].
      { cbn [length]. rewrite bool_decide_true in * by done. cbn [andb]. nia. }
      exists bs. apply elem_of_app. by right.
    + destruct (IH (S k) (S j) true ((x.1, next_acts x.1 x.2) :: qs) _ Hj Hk Hsp) as [bs Hin].
      { cbn [length]. rewrite bool_decide_false in * by done. cbn [andb] in *. lia. }
      exists bs. apply elem_of_app. by right.
  - change (irqs (Irq q :: ls)) with (S (irqs ls)) in Hn. destruct Hsp as [-> Hsp].
    assert (Hlen : length (qs ++ [x]) = S (length qs)) by (rewrite length_app; cbn; lia).
    destruct j as [|j].
    + injection Hj as ->.
      destruct (IH (S k) (length qs) false (qs ++ [(r, acts)]) acts) as [bs Hin]; [|done..| |].
      { by rewrite lookup_app_r, Nat.sub_diag by lia. }
      { rewrite Hlen, andb_false_r. rewrite bool_decide_true in Hn by done. cbn [andb] in Hn. lia. }
      exists bs. apply elem_of_app. by right.
    + cbn [lookup list_lookup] in Hj.
      destruct (IH (S k) j false (qs ++ [x]) acts) as [bs Hin]; [|done..| |].
      { rewrite lookup_app_l; [done|]. by eapply lookup_lt_Some. }
      { rewrite Hlen, andb_false_r. rewrite bool_decide_false in Hn by done. cbn [andb] in Hn. lia. }
      exists bs. apply elem_of_app. by right.
Qed.

(** ** The processes of something_os *)
Definition booting : role := {| pid := 0; intro := ending; loop := idle_loop; round := [Halted] |}.
Definition printer (n : Z) (letter : list Z) : role :=
  {| pid := n; intro := []; loop := ITree.forever (process_body letter); round := print_round letter |}.
(** A process after a panic. *)
Definition stopped (n : Z) : role := {| pid := n; intro := []; loop := panic_loop; round := [] |}.

Definition boot_queue : list phase :=
  [(booting, intro booting); (printer 1 (bytes "A"), print_round (bytes "A"));
   (printer 2 (bytes "B"), print_round (bytes "B")); (printer 3 (bytes "C"), print_round (bytes "C"))].

(** The machine when [kernel_main] has filled the process table: the boot context
    about to print and to idle, the three processes waiting to start, in the
    order they were spawned in. *)
Record started (s : machine) : Prop := {
  st_running : running s = {| prog := kernel_main_end; if_flag := true |};
  st_table : exists tab p0 p1 p2 p3, sched s = Locked_new (Some tab) /\ Sched.sched_ok tab /\
    Sched.ring tab = [p0; p1; p2; p3] /\ id <$> [p0; p1; p2; p3] = [0; 1; 2; 3] /\
    frames s !! Sched.rsp_of p1 = Some {| prog := process_alpha; if_flag := true |} /\
    frames s !! Sched.rsp_of p2 = Some {| prog := process_beta; if_flag := true |} /\
    frames s !! Sched.rsp_of p3 = Some {| prog := process_omega; if_flag := true |};
  st_history : history s = [];
  st_pics : pics s = Locked_new [];
}.

Lemma printer_ok n letter : role_ok (printer n letter).
Proof. split; [apply process_follows|apply print_round_good]. Qed.

Lemma booting_ok : role_ok booting.
Proof. split; [apply idle_follows|by repeat split]. Qed.

Lemma printer_phase n letter :
  at_phase (printer n letter) {| prog := ITree.forever (process_body letter); if_flag := true |} false
    (print_round letter).
Proof. split_and!; [apply process_follows|apply print_round_good|by left]. Qed.

Lemma started_ok s :
  started s -> writer s = Locked_new (Vga.show t0) -> queue_ok boot_queue s.
Proof.
  intros [Hrun (tab & p0 & p1 & p2 & p3 & Hsch & Hok & Hring & Hids & Hf1 & Hf2 & Hf3) Hhist Hpics] Hw.
  injection Hids as Hid0 Hid1 Hid2 Hid3. cbn [queue_ok boot_queue fst snd]. split.
  - exists tab, p0, [p1; p2; p3]. split_and!; try done.
    repeat constructor; [done| |done| |done|]; eexists; (split; [eassumption|]); (split; [done|]); apply printer_phase.
  - rewrite Hrun, Hw. split_and!; [apply ending_follows|apply ending_good|by right].
  - cbn [fmap list_fmap fst]. constructor; [apply booting_ok|].
    do 3 (constructor; [apply printer_ok|]). constructor.
  - unfold console_ok. by rewrite Hw, Hhist.
  - by rewrite Hpics.
Qed.

Lemma print_round_prints n letter : prints_in 5 (printer n letter) (print_round letter).
Proof. Transparent print_round. unfold print_round. cbn [app prints_in next_acts]. done. Qed.

Lemma length_print_round letter : Z.of_nat (length (print_round letter)) = 50007.
Proof. unfold print_round. rewrite length_app, length_replicate. cbn [length]. lia. Qed.
#[local] Opaque print_round.

(** A process writes within one round, counting the step back to its start. *)
Lemma printer_prints n letter acts :
  acts `suffix_of` print_round letter ->
  exists k, Z.of_nat k <= 50013 /\ prints_in k (printer n letter) acts.
Proof.
  intros Hs. exists (length acts + 1 + 5)%nat. split.
  - apply suffix_length in Hs. pose proof (length_print_round letter). lia.
  - apply prints_in_more. apply print_round_prints.
Qed.

(** ** Executions with any number of interrupts exist *)
Lemma psteps_app ls1 ls2 s1 s2 s3 : psteps ls1 s1 s2 -> psteps ls2 s2 s3 -> psteps (ls1 ++ ls2) s1 s3.
Proof. induction 1 as [|l ls s1 s2' s2 Hl Hls IH]; [done|]. intros H2. cbn. by eapply psteps_cons; [|apply IH]. Qed.

Lemma run_round acts : forall r rs s,
  machine_ok r acts rs s ->
  exists s', psteps (replicate (length acts) Run) s s' /\ machine_ok r [] rs s' /\ if_flag (running s') = true.
Proof.
  induction acts as [|a acts IH]; intros r rs s Hm.
  - exists s. split_and!; [constructor|done|]. by destruct (mk_running _ _ _ _ Hm) as (_ & (_ & Hi & _) & _).
  - destruct (run_ok _ _ _ _ Hm) as (s1 & E1 & Hm1 & _). destruct (IH _ _ _ Hm1) as (s2 & Hs2 & Hm2 & Hi2).
    exists s2. split_and!; [|done|done]. cbn. by eapply psteps_cons; [apply pstep_run|].
Qed.

Lemma run_until_enabled r acts rs s :
  machine_ok r acts rs s ->
  exists n s' acts', psteps (replicate (S n) Run) s s' /\ machine_ok r acts' rs s' /\ if_flag (running s') = true.
Proof.
  intros Hm. destruct (run_ok _ _ _ _ Hm) as (s1 & E1 & Hm1 & _).
  destruct (run_round _ _ _ _ Hm1) as (s2 & Hs2 & Hm2 & Hi2).
  exists (length (next_acts r acts)), s2, []. split_and!; [|done|done].
  cbn. by eapply psteps_cons; [apply pstep_run|].
Qed.

Lemma spaced_run n ls b : spaced true ls -> spaced b (replicate (S n) Run ++ ls).
Proof. revert b. induction n as [|n IH]; intros b Hls; [done|]. by apply (IH true). Qed.

Lemma irqs_run n q ls : irqs (replicate n Run ++ Irq q :: ls) = S (irqs ls).
Proof. unfold irqs. rewrite filter_app, length_app. induction n as [|n IH]; [done|]. exact IH. Qed.

Lemma spaced_weaken ls : spaced false ls -> spaced true ls.
Proof. by destruct ls as [|[] ls]; [|intros|intros [? _]]. Qed.

Lemma executions_exist n qs s :
  queue_ok qs s -> exists ls s', psteps ls s s' /\ spaced false ls /\ irqs ls = n.
Proof.
  revert qs s. induction n as [|n IH]; intros qs s Hq; [exists [], s; by split_and!; [constructor|..]|].
  destruct qs as [|[r acts] [|[r' acts'] rs]]; [done..|]. cbn [queue_ok fst snd] in Hq.
  destruct (run_until_enabled _ _ _ _ Hq) as (m & s1 & acts1 & Hs1 & Hm1 & Hi1).
  set (old := fresh (waiting_rsps s1)).
  assert (Hold : old ∉ waiting_rsps s1) by apply infinite_is_fresh.
  destruct (interrupt_ok TimerTick old _ _ _ _ _ _ Hm1 Hi1 Hold) as (s2 & E2 & Hm2 & _ & _).
  destruct (IH ((r', acts') :: rs ++ [(r, acts1)]) s2) as (ls & s3 & Hs3 & Hsp & Hn).
  { by destruct rs. }
  exists (replicate (S m) Run ++ Irq TimerTick :: ls), s3. split_and!.
  - eapply psteps_app; [exact Hs1|]. eapply psteps_cons; [by eapply pstep_irq|exact Hs3].
  - by apply spaced_run.
  - by rewrite irqs_run, Hn.
Qed.

(** ** Who writes what *)
Definition letters : list (Z * list Z) := [(1, bytes "A"); (2, bytes "B"); (3, bytes "C")].

Definition written_by (e : origin * list Z) : Prop :=
  (exists n letter, (n, letter) ∈ letters /\ e = (FromProcess n, letter)) \/
  (exists piece, piece ∈ starting_line /\ e = (FromProcess 0, piece)) \/
  (exists scancode pieces, key_line scancode = Done pieces /\ e = (FromKeyboard, concat pieces)).

Definition phase_ok (x : phase) : Prop :=
  (x.1 = booting \/ (exists n letter, (n, letter) ∈ letters /\ x.1 = printer n letter) \/
   exists n, x.1 = stopped n) /\ left_of x.1 x.2.

Lemma suffix_head {A} (x : A) l k : x :: l `suffix_of` k -> x ∈ k.
Proof. intros [k' ->]. apply elem_of_app. right. by left. Qed.

Lemma wrote_letter letter bs acts : Wrote bs :: acts `suffix_of` print_round letter -> bs = letter.
Proof.
  intros Hin%suffix_head. revert Hin. Transparent print_round. unfold print_round.
  rewrite elem_of_app, !elem_of_cons, elem_of_nil. intros [Hin|[]%elem_of_replicate]; [|done].
  by repeat destruct Hin as [[=]|Hin]; subst.
Qed.
#[local] Opaque print_round.

Lemma wrote_line bs acts : left_of booting (Wrote bs :: acts) -> bs ∈ starting_line.
Proof.
  intros [Hin%suffix_head|Hin%suffix_head]; cbn [round intro booting] in Hin.
  { by apply list_elem_of_singleton in Hin. }
  revert Hin. Transparent ending. unfold ending. rewrite !elem_of_app, !elem_of_cons, elem_of_nil.
  intros [Hin|[Hin|Hin]]; [by repeat destruct Hin as [[=]|Hin]| |by repeat destruct Hin as [[=]|Hin]].
  apply list_elem_of_fmap in Hin as (piece & [= ->] & Hin). exact Hin.
Qed.
#[local] Opaque ending.

Lemma queue_step_ok l qs : Forall phase_ok qs -> Forall phase_ok (queue_step l qs).
Proof.
  destruct qs as [|[r acts] qs]; [by destruct l|]. rewrite Forall_cons. intros [[Hr Hs] Hqs].
  destruct l; cbn [queue_step fst snd].
  - constructor; [|done]. split; [exact Hr|]. cbn [fst snd] in *.
    destruct acts as [|a acts]; [by left|]. by eapply left_of_cons.
  - apply Forall_app. split; [done|]. by constructor; [|constructor].
Qed.

Lemma queue_output_ok l qs : Forall phase_ok qs -> Forall written_by (queue_output l qs).
Proof.
  intros Hqs. destruct l as [|[|scancode]]; cbn [queue_output irq_output].
  - destruct qs as [|[r acts] qs]; [constructor|]. apply Forall_cons in Hqs as [[Hr Hs] _]. cbn [fst snd] in *.
    destruct acts as [|[] acts]; try constructor; [|constructor].
    destruct Hr as [-> |[(n & letter & Hin & ->)|(n & ->)]].
    + right. left. exists bs. split; [by eapply wrote_line|done].
    + destruct Hs as [->%wrote_letter|[]%suffix_head%not_elem_of_nil]. left. by exists n, letter.
    + by destruct Hs as [[]%suffix_head%not_elem_of_nil|[]%suffix_head%not_elem_of_nil].
  - constructor.
  - destruct (key_line scancode) as [pieces| | | |] eqn:E; constructor; [|constructor].
    right. right. by exists scancode, pieces.
Qed.

Lemma queue_outputs_ok ls qs : Forall phase_ok qs -> Forall written_by (queue_outputs ls qs).
Proof.
  revert qs. induction ls as [|l ls IH]; intros qs Hqs; [constructor|]. cbn [queue_outputs].
  apply Forall_app. split; [by apply queue_output_ok|]. by apply IH, queue_step_ok.
Qed.

Lemma boot_queue_ok : Forall phase_ok boot_queue.
Proof.
  apply Forall_cons_2; [split; [by left|by right]|].
  repeat apply Forall_cons_2; [..|constructor]; (split; [|by left]); right; left; eexists _, _;
    (split; [|reflexivity]); unfold letters; rewrite !elem_of_cons; auto.
Qed.

Lemma queue_run_ok ls qs : Forall phase_ok qs -> Forall phase_ok (queue_run ls qs).
Proof. revert qs. induction ls as [|l ls IH]; intros qs Hqs; [done|]. by apply IH, queue_step_ok. Qed.

(** A process never leaves the queue. *)
Lemma queue_run_roles ls qs : Permutation (fst <$> queue_run ls qs) (fst <$> qs).
Proof.
  revert qs. induction ls as [|l ls IH]; intros qs; [done|]. cbn [queue_run]. rewrite IH.
  destruct qs as [|x qs]; [by destruct l|]. destruct l; cbn [queue_step]; [done|].
  rewrite fmap_app. cbn. symmetry. apply Permutation_cons_append.
Qed.

(** Whoever waits in the queue writes within 50014 turns of it. *)
Lemma letters_fun n l1 l2 : (n, l1) ∈ letters -> (n, l2) ∈ letters -> l1 = l2.
Proof.
  unfold letters. rewrite !elem_of_cons, !elem_of_nil.
  intros Hl1 Hl2. destruct Hl1 as [[= -> ->]|[[= -> ->]|[[= -> ->]|[]]]];
    destruct Hl2 as [[= ->]|[[= ->]|[[= ->]|[]]]]; reflexivity.
Qed.

Lemma printer_booted n letter : (n, letter) ∈ letters -> printer n letter ∈ fst <$> boot_queue.
Proof.
  unfold letters. rewrite !elem_of_cons, elem_of_nil. cbn [boot_queue fmap list_fmap fst]. intros Hin.
  repeat destruct Hin as [[= -> ->]|Hin]; [..|done]; rewrite !elem_of_cons; auto.
Qed.

Lemma queue_run_length ls qs : length (queue_run ls qs) = length qs.
Proof. by rewrite <- (length_fmap fst), queue_run_roles, length_fmap. Qed.

Lemma written_in_turn ls qs n letter :
  Forall phase_ok qs -> length qs = 4%nat -> printer n letter ∈ fst <$> qs -> (n, letter) ∈ letters ->
  spaced true ls -> 4 * 50014 <= Z.of_nat (irqs ls) ->
  (FromProcess n, letter) ∈ queue_outputs ls qs.
Proof.
  intros Hqs Hlen Hrole Hin Hsp Hn.
  apply list_elem_of_fmap in Hrole as ([r acts] & Er & Hx). cbn [fst] in Er. subst r.
  apply list_elem_of_lookup in Hx as [j Hj].
  apply lookup_lt_Some in Hj as Hj4. destruct (Forall_lookup_1 _ _ _ _ Hqs Hj) as [_ Hleft]. cbn [fst snd] in Hleft.
  assert (Hsuf : acts `suffix_of` print_round letter).
  { destruct Hleft as [Hs| ->%suffix_nil_inv]; [exact Hs|apply suffix_nil]. }
  destruct (printer_prints n letter acts Hsuf) as (k & Hk & Hp).
  destruct (queue_progress ls k j true qs _ _ Hj Hp Hsp) as [bs Hbs].
  { destruct (bool_decide (j = 0%nat) && true); lia. }
  cbn [pid printer] in Hbs.
  assert (Hby : written_by (FromProcess n, bs)).
  { by apply (Forall_forall written_by (queue_outputs ls qs)); [apply queue_outputs_ok|]. }
  destruct Hby as [(n' & letter' & Hin' & [= <- ->])|[(? & _ & [= -> _])|(? & ? & _ & [=])]].
  - by rewrite <- (letters_fun _ _ _ Hin' Hin).
  - exfalso. unfold letters in Hin. by rewrite !elem_of_cons, elem_of_nil in Hin; repeat destruct Hin as [[=]|Hin].
Qed.
End processes.

(** ** What holds of every execution *)
Section executions.
Context `{BuildProfile} (w : Writer) (Hw : Vga.writer_ok w).
#[local] Abbreviation t0 := (Vga.term_of w).

Lemma term_of_ok : Vga.term_ok t0.
Proof. apply (Vga.show_term_of w Hw). Qed.

Lemma started_queue s : started s -> writer s = Locked_new w -> queue_ok t0 boot_queue s.
Proof. intros Hs E. apply started_ok; [done|]. by rewrite E, (proj1 (Vga.show_term_of w Hw)). Qed.

Lemma started_run ls s s' :
  started s -> writer s = Locked_new w -> psteps ls s s' ->
  queue_ok t0 (queue_run ls boot_queue) s' /\ history s' = queue_outputs ls boot_queue /\
  inner (pics s') = ls ≫= acks.
Proof.
  intros Hs E Hls. destruct (psteps_queue t0 term_of_ok _ _ _ _ (started_queue _ Hs E) Hls) as (Hq & Hh & Hp).
  split_and!; [exact Hq|by rewrite Hh, (st_history _ Hs)|by rewrite Hp, (st_pics _ Hs)].
Qed.
End executions.

(** C3: From the machine in which [kernel_main] has filled the process table, no
    interleaving of its end and of the processes with timer and keyboard interrupts gets stuck: the running process can
    always take its next step (it never waits for a console that another holds
    and never panics), and whenever it can be interrupted the console is free
    and either handler runs to its end and resumes a saved process. *)
Theorem processes_never_stick `{BuildProfile} w ls s s' (Hw : Vga.writer_ok w)
    (Hs : started s) (E : writer s = Locked_new w) (Hls : psteps ls s s') :
  (exists s2, run_step s' = (Done tt, s2)) /\
  (if_flag (running s') = true ->
     held (writer s') = false /\
     forall q old_rsp, old_rsp ∉ waiting_rsps s' -> exists s2, interrupt q old_rsp s' = (Done tt, s2)).
Proof.
  destruct (started_run w Hw ls s s' Hs E Hls) as [Hq _].
  exact (queue_live _ (term_of_ok w Hw) _ _ Hq).
Qed.

(** C4: Whatever the interleaving, the screen shows the terminal after everything
    written so far, in the order it was written in, and all of it is whole
    writes: a process's own letter, a keyboard handler's line, or a piece of the
    last line of [kernel_main].  Every interrupt is acknowledged exactly once, to the line it came on. *)
Theorem processes_screen `{BuildProfile} w ls s s' (Hw : Vga.writer_ok w)
    (Hs : started s) (E : writer s = Locked_new w) (Hls : psteps ls s s') :
  inner (writer s') = Vga.show (Vga.term_write (concat (snd <$> history s')) (Vga.term_of w)) /\
  Forall written_by (history s') /\ inner (pics s') = ls ≫= acks.
Proof.
  destruct (started_run w Hw ls s s' Hs E Hls) as (Hq & Hh & Hp). split_and!; [| |exact Hp].
  - exact (queue_console _ _ _ Hq).
  - rewrite Hh. apply queue_outputs_ok, boot_queue_ok.
Qed.

(** C2: No process starves: from any reachable point on, an execution with four
    times 50014 interrupts, with a step of the running process between any two
    of them, makes each of the three processes print its letter again. *)
Theorem processes_keep_printing `{BuildProfile} w ls1 ls2 s s1 s2 n letter (Hw : Vga.writer_ok w)
    (Hs : started s) (E : writer s = Locked_new w) (Hls1 : psteps ls1 s s1)
    (Hls2 : psteps ls2 s1 s2) (Hsp : spaced true ls2) (Hn : 4 * 50014 <= Z.of_nat (irqs ls2))
    (Hin : (n, letter) ∈ letters) :
  exists new, history s2 = history s1 ++ new /\ (FromProcess n, letter) ∈ new.
Proof.
  destruct (started_run w Hw ls1 s s1 Hs E Hls1) as [Hq _]. set (qs := queue_run ls1 boot_queue) in *.
  destruct (psteps_queue _ (term_of_ok w Hw) _ _ _ _ Hq Hls2) as (_ & Hh & _). eexists. split; [exact Hh|].
  apply written_in_turn; try done.
  - apply queue_run_ok, boot_queue_ok.
  - apply queue_run_length.
  - unfold qs. rewrite queue_run_roles. by apply printer_booted.
Qed.

(** ** Witnesses: the machine of [kernel_main], a blank screen *)
Definition wtable : Scheduler :=
  {| processes := processes (Sched.root_table 0x800) ++
       [Sched.spawned 1 0x10000; Sched.spawned 2 0x20000; Sched.spawned 3 0x30000];
     current_index := 0; buffer := buffer (Sched.root_table 0x800) |}.
Definition wthread (p : itree cpuE Empty_set) : thread := {| prog := p; if_flag := true |}.
Definition wmachine : machine :=
  {| running := wthread kernel_main_end;
     frames := <[Sched.rsp_of (Sched.spawned 1 0x10000) := wthread process_alpha]> (
       <[Sched.rsp_of (Sched.spawned 2 0x20000) := wthread process_beta]> (
       <[Sched.rsp_of (Sched.spawned 3 0x30000) := wthread process_omega]> ∅));
     sched := Locked_new (Some wtable); writer := Locked_new Vga.wwriter;
     pics := Locked_new []; history := [] |}.

Lemma wtable_ok : Sched.sched_ok wtable.
Proof.
  split_and!; [by vm_compute..|]. intros i p Hi.
  do 4 (destruct i as [|i]; [injection Hi as <-; by vm_compute|]). done.
Qed.

Lemma wmachine_started : started wmachine.
Proof.
  split; [done| |done|done]. eexists wtable, _, _, _, _. split_and!; [done|apply wtable_ok|reflexivity|reflexivity|..].
  - apply lookup_insert_eq.
  - cbn. rewrite lookup_insert_ne by (vm_compute; discriminate). apply lookup_insert_eq.
  - cbn. rewrite !lookup_insert_ne by (vm_compute; discriminate). apply lookup_insert_eq.
Qed.

Lemma wmachine_runs n : exists ls s', psteps (H := true) ls wmachine s' /\ spaced true ls /\ irqs ls = n.
Proof.
  destruct (executions_exist (H := true) _ (term_of_ok _ Vga.wwriter_ok) n boot_queue wmachine) as (ls & s' & ? & ? & ?).
  - by apply started_queue; [apply Vga.wwriter_ok|apply wmachine_started|].
  - exists ls, s'. split_and!; [done|by apply spaced_weaken|done].
Qed.

Lemma processes_never_stick_witness :
  exists ls s', irqs ls = 7%nat /\ psteps (H := true) ls wmachine s' /\
    exists s2, run_step (H := true) s' = (Done tt, s2).
Proof.
  destruct (wmachine_runs 7) as (ls & s' & Hls & _ & Hn). exists ls, s'. split_and!; [exact Hn|exact Hls|].
  exact (proj1 (processes_never_stick (H := true) _ _ _ _ Vga.wwriter_ok wmachine_started eq_refl Hls)).
Defined.

Lemma processes_screen_witness :
  exists ls s', irqs ls = 7%nat /\ psteps (H := true) ls wmachine s' /\ Forall written_by (history s').
Proof.
  destruct (wmachine_runs 7) as (ls & s' & Hls & _ & Hn). exists ls, s'. split_and!; [exact Hn|exact Hls|].
  exact (proj1 (proj2 (processes_screen (H := true) _ _ _ _ Vga.wwriter_ok wmachine_started eq_refl Hls))).
Defined.

Lemma processes_keep_printing_witness :
  exists ls s', psteps (H := true) ls wmachine s' /\ (FromProcess 2, bytes "B") ∈ history s'.
Proof.
  destruct (wmachine_runs (Z.to_nat (4 * 50014))) as (ls & s' & Hls & Hsp & Hn). exists ls, s'. split; [exact Hls|].
  destruct (processes_keep_printing (H := true) _ [] ls wmachine wmachine s' 2 (bytes "B") Vga.wwriter_ok
    wmachine_started eq_refl (psteps_nil _) Hls Hsp ltac:(rewrite Hn, Z2Nat.id; lia)
    ltac:(right; left)) as (new & -> & Hin).
  exact Hin.
Defined.
End Processes.
