(* ===== verification/Printing.v ===== *)
(** * [print!] under interrupts

    The tree of [_print] in Processes.v makes every step that an interrupt can
    come before an event of its own: reading the interrupt flag, clearing it,
    taking the console's lock, each [write_str], releasing the lock, setting the
    flag.  Here one [print!] runs on the console of Vga.v with interrupt
    requests arriving at any of these points, from handlers that print, and
    the tree is shown to do what the function [_print] of Vga.v does. *)

From ITree Require Import ITree ITreeFacts.
From S2P Require Import Prelude Store Format Vga Processes.

Module Printing.

(** ** Contexts in which the event of the hole comes first *)
Record ectx {A B} (C : itree cpuE A -> itree cpuE B) : Prop := {
  ectx_observe t t' : observe t = observe t' -> observe (C t) = observe (C t');
  ectx_vis t X (e : cpuE X) k : observe t = VisF e k -> observe (C t) = VisF e (fun x => C (k x));
}.

Lemma observe_bind {A B} (t : itree cpuE A) (k : A -> itree cpuE B) :
  observe (ITree.bind t k) =
  match observe t with
  | RetF r => observe (k r)
  | TauF t => TauF (ITree.bind t k)
  | VisF e h => VisF e (fun x => ITree.bind (h x) k)
  end.
Proof. unfold observe. cbn. unfold observe. by destruct (_observe t). Qed.

Lemma ectx_id {A} : ectx (fun t : itree cpuE A => t).
Proof. by split. Qed.

Lemma ectx_bind {A B R} (C : itree cpuE B -> itree cpuE R) (k : A -> itree cpuE B) :
  ectx C -> ectx (fun t => C (ITree.bind t k)).
Proof.
  intros HC. split.
  - intros t t' E. apply (ectx_observe _ HC). by rewrite !observe_bind, E.
  - intros t X e k' E. apply (ectx_vis _ HC). by rewrite observe_bind, E.
Qed.

Section printing.
Context `{BuildProfile}.

(** ** One [print!] on the console

    The interrupt flag, and [WRITER]. *)
Abbreviation console := (bool * Locked Writer)%type.

Definition on_writer {A} (c : M (Locked Writer) A) : M console A := zoom snd (fun l s => (s.1, l)) c.

(** What [Processes.handle] does to them on an event. *)
Definition console_event {A} (e : cpuE A) : M console A :=
  match e in cpuE A return M console A with
  | AreEnabled => gets fst
  | Disable => modify (fun s => (false, s.2))
  | Enable => modify (fun s => (true, s.2))
  | LockWriter => _ ← on_writer lock; mret tt
  | WriteStr bs => on_writer (zoom inner (fun w l => {| held := held l; inner := w |}) (Vga.write_str bs))
  | UnlockWriter => on_writer (w ← gets inner; unlock w)
  | UnwrapFailed_ => panic UnwrapFailed
  | SpinLoop => mret tt
  | Hlt => mret tt
  end.

Definition console_of (s : machine) : console := (if_flag (running s), writer s).

Lemma handle_console {A} (e : cpuE A) s :
  console_event e (console_of s) = ((Processes.handle e s).1, console_of (Processes.handle e s).2).
Proof.
  destruct e; try done; cbn [console_event Processes.handle];
    unfold on_writer, Processes.on_writer, mbind, M_bind, zoom, console_of; cbn [snd fst].
  - unfold lock. by destruct (held (writer s)).
  - cbn. by destruct (Vga.write_str s0 (inner (writer s))) as [o w].
Qed.

(** A handler of a maskable interrupt that prints (the keyboard handler): the
    gate clears the interrupt flag, [iretq] sets it again. *)
Definition irq (args : list (list Z)) : M console unit :=
  _ ← modify (fun s => (false, s.2));
  _ ← Vga._print args;
  modify (fun s => (true, s.2)).

(** Requests are taken at once while the flag is set and stay pending otherwise. *)
Definition deliver (requests : list (list (list Z))) : M console (list (list (list Z))) := fun s =>
  if s.1 then (_ ← for_each requests irq; mret []) s else (Done requests, s).

(** A tree, with the requests that arrive before each of its events and before
    it returns; the result comes with what is still pending then. *)
Fixpoint run {A} (n : nat) (t : itree cpuE A) (arrivals : list (list (list (list Z))))
    (pending : list (list (list Z))) : M console (A * list (list (list Z))) :=
  match n with
  | O => fail NoFuel
  | S n =>
      pending ← deliver (pending ++ default [] (head arrivals));
      match observe t with
      | RetF a => mret (a, pending)
      | TauF t => run n t (tail arrivals) pending
      | VisF e k => a ← console_event e; run n (k a) (tail arrivals) pending
      end
  end.

(** ** Event by event *)
Lemma run_observe {A} n (t t' : itree cpuE A) arrivals pending s :
  observe t = observe t' -> run n t arrivals pending s = run n t' arrivals pending s.
Proof. destruct n; [done|]. cbn [run]. by intros ->. Qed.

(** The next event of a context. *)
Lemma run_vis {A B R} (C : itree cpuE B -> itree cpuE R) n t (e : cpuE A) k arrivals pending s :
  ectx C -> observe t = VisF e k ->
  run (S n) (C t) arrivals pending s
  = (pending ← deliver (pending ++ default [] (head arrivals));
     a ← console_event e; run n (C (k a)) (tail arrivals) pending) s.
Proof. intros HC E. cbn [run]. by rewrite (ectx_vis _ HC _ _ _ _ E). Qed.

Lemma run_ask {A B R} (C : itree cpuE B -> itree cpuE R) n (e : cpuE A) k arrivals pending s :
  ectx C ->
  run (S n) (C (ITree.bind (ask e) k)) arrivals pending s
  = (pending ← deliver (pending ++ default [] (head arrivals));
     a ← console_event e; run n (C (k a)) (tail arrivals) pending) s.
Proof.
  intros HC. rewrite (run_vis C _ _ e (fun a => ITree.bind (Ret a) k)) by (done || by rewrite observe_bind).
  apply bind_ext; [done|]. intros p s1. apply bind_ext; [done|]. intros a s2.
  apply run_observe, (ectx_observe _ HC). by rewrite observe_bind.
Qed.

Lemma deliver_none s : deliver [] s = (Done [], s).
Proof. unfold deliver. by destruct s as [[] l]. Qed.

Lemma run_alone {A B R} (C : itree cpuE B -> itree cpuE R) n (e : cpuE A) k s :
  ectx C ->
  run (S n) (C (ITree.bind (ask e) k)) [] [] s = (a ← console_event e; run n (C (k a)) [] []) s.
Proof. intros HC. rewrite run_ask by done. by rewrite (bind_done _ _ _ _ _ (deliver_none s)). Qed.

Lemma run_vis_alone {A B R} (C : itree cpuE B -> itree cpuE R) n t (e : cpuE A) k s :
  ectx C -> observe t = VisF e k -> run (S n) (C t) [] [] s = (a ← console_event e; run n (C (k a)) [] []) s.
Proof. intros HC E. rewrite (run_vis C _ _ _ _ _ _ _ HC E). by rewrite (bind_done _ _ _ _ _ (deliver_none s)). Qed.

Lemma run_ret {A} n (t : itree cpuE A) a arrivals pending s :
  observe t = RetF a ->
  run (S n) t arrivals pending s = (pending ← deliver (pending ++ default [] (head arrivals)); mret (a, pending)) s.
Proof. intros E. cbn [run]. by rewrite E. Qed.

(** ** The tree does what the function does *)
Definition on_buffer {A} (c : M Writer A) : M console A :=
  on_writer (zoom inner (fun w l => {| held := held l; inner := w |}) c).

Lemma write_fmt_alone {R} (C : itree cpuE bool -> itree cpuE R) n args s :
  ectx C ->
  run (length args + n) (C (write_fmt args)) [] [] s
  = (ok ← on_buffer (Vga.write_fmt args); run n (C (Ret ok)) [] []) s.
Proof.
  intros HC. revert s. induction args as [|bs args IH]; intros s.
  { by destruct s as [b [h w]]. }
  change (write_fmt (bs :: args)) with (ITree.bind (ask (WriteStr bs)) (fun ok : bool => if ok then write_fmt args else Ret false)).
  cbn [length Nat.add Vga.write_fmt]. rewrite (run_alone C) by done.
  unfold console_event, Vga.write_str, on_buffer, on_writer, zoom, mbind, M_bind.
  destruct s as [b [h w]]. cbn [fst snd inner held].
  destruct (Vga.write_string bs w) as [[[]| | | |] w1]; [|done..]. cbn [mret M_ret held inner].
  rewrite IH. unfold on_buffer, on_writer, zoom, mbind, M_bind. cbn [fst snd inner held].
  by destruct (Vga.write_fmt args w1) as [[] w2].
Qed.

Lemma write_fmt_true args w ok w' : Vga.write_fmt args w = (Done ok, w') -> ok = true.
Proof.
  revert w. induction args as [|bs args IH]; intros w; cbn [Vga.write_fmt]; [by intros [= <- _]|].
  unfold Vga.write_str, mbind, M_bind. destruct (Vga.write_string bs w) as [[[]| | | |] w1]; [|done..]. apply IH.
Qed.

(** Between the lock and its release; and the whole of [_print]. *)
Definition print_section (args : list (list Z)) : itree cpuE unit :=
  ITree.bind (ask LockWriter) (fun _ => ITree.bind (write_fmt args) (fun ok : bool =>
    ITree.bind (if ok then Ret tt else ask UnwrapFailed_) (fun _ => ask UnlockWriter))).

Definition restore (flag : bool) (ret : unit) : itree cpuE unit :=
  ITree.bind (if flag then ask Enable else Ret tt) (fun _ => Ret ret).

Lemma print_unfold args :
  _print args = ITree.bind (ask AreEnabled) (fun flag : bool => ITree.bind (if flag then ask Disable else Ret tt) (fun _ =>
    ITree.bind (print_section args) (restore flag))).
Proof. reflexivity. Qed.

Lemma section_alone {R} (C : itree cpuE unit -> itree cpuE R) n args s :
  ectx C ->
  run (2 + length args + n) (C (print_section args)) [] [] s
  = (_ ← zoom (fun s => (s.2, tt)) (fun t s => (s.1, t.1))
      (with_lock (zoom fst (fun w s => (w, s.2))
        (ok ← Vga.write_fmt args; if ok : bool then mret tt else panic UnwrapFailed)));
     run n (C (Ret tt)) [] []) s.
Proof.
  intros HC. cbn [Nat.add]. unfold print_section. rewrite (run_alone C) by done.
  destruct s as [b [h w]]. unfold console_event at 1, on_writer at 1, zoom at 1, mbind at 1, M_bind at 1, lock. cbn [snd fst held].
  unfold zoom at 1, with_lock, lock. unfold mbind, M_bind, zoom. cbn [fst snd held]. destruct h; [done|].
  cbn [inner mret M_ret]. replace (S (length args + n)) with (length args + S n)%nat by lia.
  rewrite (write_fmt_alone (fun t => C (ITree.bind t (fun ok : bool =>
    ITree.bind (if ok then Ret tt else ask UnwrapFailed_) (fun _ => ask UnlockWriter))))) by by apply ectx_bind.
  unfold on_buffer, on_writer, mbind, M_bind, zoom. cbn [fst snd inner held].
  destruct (Vga.write_fmt args w) as [[ok| | | |] w1] eqn:Ew; [|done..]. rewrite (write_fmt_true _ _ _ _ Ew).
  cbn [mret M_ret].
  rewrite (run_vis_alone C _ _ UnlockWriter (fun x => Ret x)) by done. reflexivity.
Qed.

Lemma print_alone n args s :
  run (6 + length args + n) (_print args) [] [] s = (_ ← Vga._print args; mret (tt, [])) s.
Proof.
  rewrite print_unfold. cbn [Nat.add].
  rewrite (run_alone (fun t => t)) by apply ectx_id. unfold console_event at 1. rewrite gets_bind.
  unfold Vga._print, Vga.without_interrupts. rewrite bind_assoc, gets_bind.
  pose (K flag (t : itree cpuE unit) := ITree.bind t (restore flag)).
  assert (HK : forall flag, ectx (K flag)) by (intros flag; apply (ectx_bind (fun t => t)), ectx_id).
  destruct s as [[] l]; cbn [fst].
  - rewrite (run_alone (fun t => t)) by apply ectx_id. unfold console_event at 1.
    rewrite bind_assoc, !modify_bind. cbn [snd]. fold (K true (print_section args)).
    replace (S (S (S (S (length args + n))))) with (2 + length args + (2 + n))%nat by lia.
    rewrite (section_alone (K true)) by done. rewrite bind_assoc. apply bind_ext; [done|]. intros [] s1.
    change (K true (Ret tt)) with (ITree.bind (Ret tt) (restore true)).
    rewrite (run_observe _ _ (restore true tt)) by by rewrite observe_bind.
    change (restore true tt) with (ITree.bind (ask Enable) (fun _ => Ret tt)). cbn [Nat.add].
    rewrite (run_alone (fun t => t)) by apply ectx_id. unfold console_event. rewrite bind_assoc. unfold when. rewrite !modify_bind.
    rewrite bind_ret. rewrite (run_ret _ _ tt) by done. by rewrite (bind_done _ _ _ _ _ (deliver_none _)).
  - rewrite (run_observe _ _ (K false (print_section args))).
    2:{ unfold K. by rewrite !observe_bind. }
    rewrite bind_assoc, modify_bind. cbn [snd].
    replace (S (S (S (S (S (length args + n)))))) with (2 + length args + (3 + n))%nat by lia.
    rewrite (section_alone (K false)) by done. rewrite bind_assoc. apply bind_ext; [done|]. intros [] s1.
    cbn [Nat.add]. rewrite (run_ret _ _ tt) by done. by rewrite (bind_done _ _ _ _ _ (deliver_none _)).
Qed.

(** ** Interrupted *)
#[local] Abbreviation show_ b t := (b, Locked_new (Vga.show t)).
#[local] Abbreviation locked b t := (b, {| held := true; inner := Vga.show t |}).
#[local] Abbreviation now arrivals := (default [] (head arrivals)).

Lemma irqs_show requests t :
  Vga.term_ok t ->
  for_each requests irq (show_ true t) = (Done tt, show_ true (Vga.term_write (concat (concat requests)) t)) /\
  Vga.term_ok (Vga.term_write (concat (concat requests)) t).
Proof.
  revert t. induction requests as [|args requests IH]; intros t Hok; [done|]. cbn [for_each].
  assert (E : irq args (show_ true t) = (Done tt, show_ true (Vga.term_write (concat args) t))).
  { unfold irq. rewrite modify_bind. cbn [snd]. by rewrite (bind_done _ _ _ _ _ (Vga.print_show args false t Hok)). }
  rewrite (bind_done _ _ _ _ _ E). cbn [concat]. rewrite concat_app, Vga.term_write_app.
  apply IH. by apply Vga.write_fmt_show.
Qed.

Lemma deliver_enabled requests t :
  Vga.term_ok t -> deliver requests (show_ true t) = (Done [], show_ true (Vga.term_write (concat (concat requests)) t)).
Proof. intros Hok. unfold deliver. cbn [fst]. by rewrite (bind_done _ _ _ _ _ (proj1 (irqs_show requests t Hok))). Qed.

(** An event with interrupts masked, and one with interrupts enabled. *)
Lemma run_masked {A B R} (C : itree cpuE B -> itree cpuE R) n t (e : cpuE A) k arrivals pending l a s' :
  ectx C -> observe t = VisF e k -> console_event e (false, l) = (Done a, s') ->
  run (S n) (C t) arrivals pending (false, l) = run n (C (k a)) (tail arrivals) (pending ++ now arrivals) s'.
Proof.
  intros HC E Ee. rewrite (run_vis C _ _ _ _ _ _ _ HC E).
  rewrite (bind_done _ _ _ (pending ++ now arrivals) (false, l)) by done. by rewrite (bind_done _ _ _ _ _ Ee).
Qed.

Lemma run_enabled {A B R} (C : itree cpuE B -> itree cpuE R) n t (e : cpuE A) k arrivals tm a s' :
  ectx C -> observe t = VisF e k -> Vga.term_ok tm ->
  console_event e (show_ true (Vga.term_write (concat (concat (now arrivals))) tm)) = (Done a, s') ->
  run (S n) (C t) arrivals [] (show_ true tm) = run n (C (k a)) (tail arrivals) [] s'.
Proof.
  intros HC E Hok Ee. rewrite (run_vis C _ _ _ _ _ _ _ HC E).
  rewrite (bind_done _ _ _ _ _ (deliver_enabled _ tm Hok)). by rewrite (bind_done _ _ _ _ _ Ee).
Qed.

Lemma run_pieces {R} (C : itree cpuE bool -> itree cpuE R) n args arrivals pending t :
  ectx C -> Vga.term_ok t ->
  run (length args + n) (C (write_fmt args)) arrivals pending (locked false t)
  = run n (C (Ret true)) (drop (length args) arrivals) (pending ++ concat (take (length args) arrivals))
      (locked false (Vga.term_write (concat args) t)) /\
  Vga.term_ok (Vga.term_write (concat args) t).
Proof.
  intros HC. revert arrivals pending t. induction args as [|bs args IH]; intros arrivals pending t Hok.
  { cbn. by rewrite drop_0, app_nil_r. }
  destruct (Vga.write_string_show bs t Hok) as [E Hok'].
  destruct (IH (tail arrivals) (pending ++ now arrivals) (Vga.term_write bs t) Hok') as [E2 Hok2].
  cbn [length Nat.add concat]. rewrite Vga.term_write_app. split; [|done].
  rewrite (run_masked C _ _ (WriteStr bs) (fun ok => ITree.bind (Ret ok) (fun ok : bool => if ok then write_fmt args else Ret false))
    _ _ _ true (locked false (Vga.term_write bs t)) HC).
  - rewrite (run_observe _ _ (C (write_fmt args))); [|apply (ectx_observe _ HC); by rewrite observe_bind].
    rewrite E2, <- app_assoc. destruct arrivals; cbn; [|done]. by rewrite drop_nil, take_nil.
  - done.
  - unfold console_event, on_writer, zoom, Vga.write_str, mbind, M_bind. cbn [fst snd inner held]. by rewrite E.
Qed.

(** What has arrived so far. *)
Lemma arrived_first {A} n (l : list (list A)) : concat (take (S n) l) = now l ++ concat (take n (tail l)).
Proof. destruct l; [destruct n|]; done. Qed.

Lemma arrived_last {A} n (l : list (list A)) : concat (take (S n) l) = concat (take n l) ++ now (drop n l).
Proof.
  revert l. induction n as [|n IH]; intros [|x l]; cbn [take drop concat head default from_option id]; rewrite ?app_nil_r; try done.
  change (concat (x :: take (S n) l)) with (x ++ concat (take (S n) l)). by rewrite IH, app_assoc.
Qed.

Lemma drop_tail {A} n (l : list A) : drop n (tail l) = drop (S n) l.
Proof. destruct l; [by destruct n|done]. Qed.

Lemma tail_drop {A} n (l : list A) : tail (drop n l) = drop (S n) l.
Proof. revert l. induction n as [|n IH]; intros [|x l]; try done. apply IH. Qed.

(** From the lock to its release, with interrupts masked. *)
Lemma section_masked {R} (C : itree cpuE unit -> itree cpuE R) n args arrivals pending t :
  ectx C -> Vga.term_ok t ->
  run (2 + length args + n) (C (print_section args)) arrivals pending (show_ false t)
  = run n (C (Ret tt)) (drop (2 + length args) arrivals) (pending ++ concat (take (2 + length args) arrivals))
      (show_ false (Vga.term_write (concat args) t)).
Proof.
  intros HC Hok. cbn [Nat.add]. replace (S (length args + n)) with (length args + S n)%nat by lia.
  unfold print_section. set (k1 := fun _ => ITree.bind (write_fmt args) _).
  rewrite (run_masked C _ _ LockWriter (fun x => ITree.bind (Ret x) k1) _ _ _ tt (locked false t)) by (done || by rewrite observe_bind).
  rewrite (run_observe _ _ (C (k1 tt))) by (apply (ectx_observe _ HC); by rewrite observe_bind).
  pose (k2 := fun ok : bool => ITree.bind (if ok then Ret tt else ask UnwrapFailed_) (fun _ => ask UnlockWriter)).
  change (k1 tt) with (ITree.bind (write_fmt args) k2).
  destruct (run_pieces (fun t => C (ITree.bind t k2)) (S n) args (tail arrivals) (pending ++ now arrivals) t) as [E Hok'];
    [by apply ectx_bind|done|]. rewrite E.
  rewrite (run_masked C _ _ UnlockWriter (fun x => Ret x) _ _ _ tt
    (show_ false (Vga.term_write (concat args) t))) by done.
  rewrite <- !app_assoc. f_equal.
  - by rewrite drop_tail, tail_drop.
  - f_equal. by rewrite arrived_first, arrived_last.
Qed.

Lemma print_enabled args n first second rest t :
  Vga.term_ok t -> (length rest <= 4 + length args)%nat ->
  run (6 + length args + n) (_print args) (first :: second :: rest) [] (show_ true t)
  = (Done (tt, []), show_ true (Vga.term_write
      (concat (concat first) ++ concat (concat second) ++ concat args ++ concat (concat (concat rest))) t)).
Proof.
  intros Hok Hlen. rewrite print_unfold. set (k1 := fun flag : bool => ITree.bind _ _). cbn [Nat.add].
  set (t1 := Vga.term_write (concat (concat first)) t). pose proof (proj2 (irqs_show first t Hok)) as Hok1.
  rewrite (run_enabled (fun t => t) _ _ AreEnabled (fun x => ITree.bind (Ret x) k1) _ _ true (show_ true t1))
    by (apply ectx_id || done).
  rewrite (run_observe _ _ (k1 true)) by by rewrite observe_bind.
  pose (k2 := fun _ : unit => ITree.bind (print_section args) (restore true)).
  change (k1 true) with (ITree.bind (ask Disable) k2). cbn [tail].
  set (t2 := Vga.term_write (concat (concat second)) t1). pose proof (proj2 (irqs_show second t1 Hok1)) as Hok2.
  rewrite (run_enabled (fun t => t) _ _ Disable (fun x => ITree.bind (Ret x) k2) _ _ tt (show_ false t2))
    by (apply ectx_id || done).
  rewrite (run_observe _ _ (k2 tt)) by by rewrite observe_bind. cbn [tail].
  replace (S (S (S (S (length args + n))))) with (2 + length args + (2 + n))%nat by lia.
  rewrite (section_masked (fun t => ITree.bind t (restore true))) by (done || apply (ectx_bind (fun t => t)), ectx_id).
  set (t3 := Vga.term_write (concat args) t2). destruct (Vga.write_fmt_show args t2 Hok2) as [_ Hok3].
  rewrite (run_observe _ _ (restore true tt)) by by rewrite observe_bind.
  change (restore true tt) with (ITree.bind (ask Enable) (fun _ => Ret tt)). cbn [Nat.add].
  rewrite (run_masked (fun t => t) _ _ Enable (fun x => ITree.bind (Ret x) (fun _ => Ret tt)) _ _ _ tt (show_ true t3))
    by (apply ectx_id || done).
  rewrite (run_ret _ _ tt) by done. rewrite (bind_done _ _ _ _ _ (deliver_enabled _ t3 Hok3)).
  cbn [app]. rewrite tail_drop, <- !arrived_last, take_ge by lia.
  unfold t3, t2, t1. by rewrite !Vga.term_write_app.
Qed.

Lemma print_disabled args n rest t :
  Vga.term_ok t -> (length rest <= 4 + length args)%nat ->
  run (6 + length args + n) (_print args) rest [] (show_ false t)
  = (Done (tt, concat rest), show_ false (Vga.term_write (concat args) t)).
Proof.
  intros Hok Hlen. rewrite print_unfold. set (k1 := fun flag : bool => ITree.bind _ _). cbn [Nat.add].
  rewrite (run_masked (fun t => t) _ _ AreEnabled (fun x => ITree.bind (Ret x) k1) _ _ _ false (show_ false t))
    by (apply ectx_id || done).
  rewrite (run_observe _ _ (ITree.bind (print_section args) (restore false))) by by rewrite !observe_bind.
  replace (S (S (S (S (S (length args + n)))))) with (2 + length args + (3 + n))%nat by lia.
  rewrite (section_masked (fun t => ITree.bind t (restore false))) by (done || apply (ectx_bind (fun t => t)), ectx_id).
  cbn [Nat.add]. rewrite (run_ret _ _ tt) by done. cbn [app]. rewrite drop_tail, <- arrived_first, <- arrived_last, take_ge by lia.
  done.
Qed.

(** C28: [print!] and interrupts.  The events of the tree of [_print] do to the
    console what they do on the machine of Processes.v.  The tree does exactly
    what the function does, on every console, also on one that is held, where
    both wait for ever with interrupts masked.  And on a free console, however interrupt
    requests arrive before each of its events, every one from a handler that
    prints, nothing deadlocks and every request is served: those that come
    before interrupts are masked at once, the others when they are enabled
    again, so that the text of the interrupted [print!] is never broken up by
    the text of a handler; the console ends up free and interrupts enabled.
    Where interrupts were already masked, all requests are still pending at the
    end, and interrupts still masked. *)
Theorem print_interrupt_safe args n w first second rest (Hok : Vga.writer_ok w)
    (Hn : (6 + length args <= n)%nat) (Hlen : (length rest <= 4 + length args)%nat) :
  (forall A (e : cpuE A) s,
     console_event e (console_of s) = ((Processes.handle e s).1, console_of (Processes.handle e s).2)) /\
  (forall s, run n (_print args) [] [] s = (_ ← Vga._print args; mret (tt, [])) s) /\
  (let text := concat (concat first) ++ concat (concat second) ++ concat args ++ concat (concat (concat rest)) in
   run n (_print args) (first :: second :: rest) [] (true, Locked_new w)
   = (Done (tt, []), (true, Locked_new (Vga.show (Vga.term_write text (Vga.term_of w)))))) /\
  run n (_print args) rest [] (false, Locked_new w)
  = (Done (tt, concat rest), (false, Locked_new (Vga.show (Vga.term_write (concat args) (Vga.term_of w))))).
Proof.
  destruct (Vga.show_term_of w Hok) as [Ew Ht]. replace (Locked_new w) with (Locked_new (Vga.show (Vga.term_of w))) by by rewrite Ew.
  replace n with (6 + length args + (n - 6 - length args))%nat by lia. set (m := (n - 6 - length args)%nat).
  split_and!; [intros A; apply handle_console|intros s; apply print_alone|cbn zeta|].
  - by apply print_enabled.
  - by apply print_disabled.
Qed.
End printing.

(** ** Witness: two keys during the output of one letter *)
Lemma print_interrupt_safe_witness :
  (run (H := true) 8 (_print [bytes "A"]) [[]; []; [[bytes "k"]]; []; [[bytes "l"]]; []; []] []
    (true, Locked_new Vga.wwriter)).1 = Done (tt, []).
Proof.
  destruct (print_interrupt_safe (H := true) [bytes "A"] 8 Vga.wwriter [] [] [[[bytes "k"]]; []; [[bytes "l"]]; []; []]
    Vga.wwriter_ok ltac:(cbn; lia) ltac:(cbn; lia)) as (_ & _ & E & _).
  rewrite E. reflexivity.
Defined.
End Printing.
