(* ===== verification/Cpu.v ===== *)
(** * The processor and the assembly

    The naked interrupt handlers of interrupt/handlers.rs and the
    [context_switch] routine of process.rs, as instruction lists with an
    executable semantics over registers and memory, together with the Rust
    functions around them ([execute_switch], [Scheduler::switch],
    [yield_now], [preempt_now]). *)

From stdpp Require Import functions.
From S2P Require Import Prelude Store Allocator X86 Sched Interrupts.

(** ** Registers *)
Inductive reg := RAX | RBX | RCX | RDX | RSI | RDI | R8 | R9 | R10 | R11 | R12 | R13 | R14 | R15
  | RBP | RSP.

#[export] Instance reg_eq_dec : EqDecision reg.
Proof. solve_decision. Defined.

(** The registers a context is made of. *)
Record vcpu := { regs : reg -> Z; v_rip : Z; v_rflags : Z; v_cs : Z; v_ss : Z }.

(** Equality of the contents; the register file is a function. *)
#[export] Instance vcpu_equiv : Equiv vcpu := fun c d =>
  (forall r, regs c r = regs d r) /\ v_rip c = v_rip d /\ v_rflags c = v_rflags d /\
  v_cs c = v_cs d /\ v_ss c = v_ss d.

#[export] Instance vcpu_equivalence : Equivalence (≡@{vcpu}).
Proof.
  split.
  - intros c. by split_and!.
  - intros c d (Hr & ? & ? & ? & ?). by split_and!.
  - intros c d e (Hr & ? & ? & ? & ?) (Hr' & ? & ? & ? & ?).
    split_and!; [intros r; by rewrite Hr, Hr'|congruence..].
Qed.

(** The interrupt flag, and the flags bit that always reads as one. *)
Definition IF_BIT : Z := 0x200.
Definition cli (f : Z) : Z := Z.ldiff f IF_BIT.
Definition sti (f : Z) : Z := Z.lor f IF_BIT.
Definition load_flags (f : Z) : Z := Z.lor f 2.

(** ** The kernel's state the handlers touch *)
Record kernel (D : Type) := {
  SCHEDULER : Locked (option Scheduler);
  PICS : Locked unit;
  kio : io D;
}.
Arguments SCHEDULER {D}.
Arguments PICS {D}.
Arguments kio {D}.
Arguments Build_kernel {D}.

Record mach (D : Type) := { cpu : vcpu; memory : mem; kern : kernel D }.
Arguments cpu {D}.
Arguments memory {D}.
Arguments kern {D}.
Arguments Build_mach {D}.

(** ** Calls of compiled functions

    By the C calling convention a call keeps [rbx], [rbp], [r12]-[r15] and the
    stack pointer, returns its result in [rax], and may change the other
    registers and [call_stack] bytes below the stack pointer; which values it
    leaves there is up to the compiler. *)
Class CallingConvention := {
  call_stack : Z;
  clobber : reg -> vcpu -> Z;
  scratch : Z -> mem -> mem;
}.

Class CallingLaws `{CallingConvention} : Prop := {
  call_stack_nonneg : 0 <= call_stack;
  scratch_below sp m : Sched.same_outside m (scratch sp m) (sp - call_stack) sp;
}.

Definition callee_saved (r : reg) : bool :=
  match r with RBX | RBP | R12 | R13 | R14 | R15 | RSP => true | _ => false end.

(** ** Instructions *)
Inductive rust_fn := fn_signal_eoi | fn_handle_keyboard_io_and_eoi | fn_preempt_round_robin.

Inductive instr :=
  | Push (r : reg)
  | Pop (r : reg)
  | Call (f : rust_fn)
  | Mov (dst src : reg)
  | Iretq
  (** [mov [rdi + off], r] and [mov r, [rsi + off]], on process contexts *)
  | StoreOld (off : Z) (r : reg)
  | LoadNew (r : reg) (off : Z)
  (** [mov r, [rsp]] and [mov [rsp], r] *)
  | LoadTop (r : reg)
  | StoreTop (r : reg)
  | Ret.

(** The [repr(C)] layout of [ProcessContext]. *)
Definition ctx_load (off : Z) (c : ProcessContext) : option Z :=
  match off with
  | 0 => Some (r15 c) | 8 => Some (r14 c) | 16 => Some (r13 c) | 24 => Some (r12 c)
  | 32 => Some (rbx c) | 40 => Some (rbp c) | 48 => Some (rip c) | 56 => Some (rsp c)
  | 64 => Some (rflags c) | _ => None
  end.

Definition ctx_store (off v : Z) (c : ProcessContext) : ProcessContext :=
  let upd o x := if bool_decide (off = o) then v else x in
  {| r15 := upd 0 (r15 c); r14 := upd 8 (r14 c); r13 := upd 16 (r13 c); r12 := upd 24 (r12 c);
     rbx := upd 32 (rbx c); rbp := upd 40 (rbp c); rip := upd 48 (rip c); rsp := upd 56 (rsp c);
     rflags := upd 64 (rflags c) |}.

Definition set_reg (r : reg) (v : Z) (c : vcpu) : vcpu :=
  {| regs := <[r := v]> (regs c); v_rip := v_rip c; v_rflags := v_rflags c; v_cs := v_cs c; v_ss := v_ss c |}.
Definition set_rip (v : Z) (c : vcpu) : vcpu :=
  {| regs := regs c; v_rip := v; v_rflags := v_rflags c; v_cs := v_cs c; v_ss := v_ss c |}.
Definition set_flags (v : Z) (c : vcpu) : vcpu :=
  {| regs := regs c; v_rip := v_rip c; v_rflags := v; v_cs := v_cs c; v_ss := v_ss c |}.

Module Cpu.
Section cpu.
Context `{BuildProfile} `{CallingConvention} `{Device D}.

Definition get_reg (r : reg) : M (mach D) Z := gets (fun s => regs (cpu s) r).
Definition on_cpu (f : vcpu -> vcpu) : M (mach D) unit :=
  modify (fun s => {| cpu := f (cpu s); memory := memory s; kern := kern s |}).
Definition on_mem {A} (c : M mem A) : M (mach D) A :=
  zoom memory (fun m s => {| cpu := cpu s; memory := m; kern := kern s |}) c.
Definition on_kern {A} (c : M (kernel D) A) : M (mach D) A :=
  zoom kern (fun k s => {| cpu := cpu s; memory := memory s; kern := k |}) c.

Definition push_val (v : Z) : M (mach D) unit :=
  sp ← get_reg RSP;
  _ ← on_mem (write_word (sp - 8) v);
  on_cpu (set_reg RSP (sp - 8)).

Definition pop_val : M (mach D) Z :=
  sp ← get_reg RSP;
  v ← on_mem (read_word sp);
  _ ← on_cpu (set_reg RSP (sp + 8));
  mret v.

(** ** The Rust functions the assembly calls *)
Definition on_pics {A} (c : M (Locked unit * io D) A) : M (kernel D) A :=
  zoom (fun k => (PICS k, kio k))
    (fun t k => {| SCHEDULER := SCHEDULER k; PICS := t.1; kio := t.2 |}) c.
Definition on_sched {A} (c : M (Locked (option Scheduler)) A) : M (kernel D) A :=
  zoom SCHEDULER (fun l k => {| SCHEDULER := l; PICS := PICS k; kio := kio k |}) c.

(** The function on its argument in [rdi]; its result for [rax], if it has one. *)
Definition rust_call (f : rust_fn) (rdi : Z) : M (kernel D) (option Z) :=
  match f with
  | fn_signal_eoi => _ ← on_pics Interrupts.signal_eoi; mret None
  | fn_handle_keyboard_io_and_eoi => _ ← on_pics Interrupts.handle_keyboard_io_and_eoi; mret None
  | fn_preempt_round_robin => r ← on_sched (Sched.preempt_round_robin rdi); mret (Some r)
  end.

(** The registers after a call. *)
Definition after_call (result : option Z) (c : vcpu) : vcpu :=
  {| regs := fun r => if callee_saved r then regs c r
                      else match result, r with Some v, RAX => v | _, _ => clobber r c end;
     v_rip := v_rip c; v_rflags := v_rflags c; v_cs := v_cs c; v_ss := v_ss c |}.

(** [old] and [new] are the indices of the contexts [rdi] and [rsi] point to. *)
Definition on_table {A} (c : M Scheduler A) : M (mach D) A :=
  on_kern (on_sched (fun l =>
    match inner l with
    | Some s => let '(o, s) := c s in (o, {| held := held l; inner := Some s |})
    | None => (Undefined, l)
    end)).

Definition exec (old new : Z) (i : instr) : M (mach D) unit :=
  match i with
  | Push r => v ← get_reg r; push_val v
  | Pop r => v ← pop_val; on_cpu (set_reg r v)
  | Call f =>
      rdi ← get_reg RDI;
      sp ← get_reg RSP;
      r ← on_kern (rust_call f rdi);
      _ ← on_mem (modify (scratch sp));
      on_cpu (after_call r)
  | Mov dst src => v ← get_reg src; on_cpu (set_reg dst v)
  | Iretq =>
      ip ← pop_val; cs ← pop_val; fl ← pop_val; sp ← pop_val; ss ← pop_val;
      on_cpu (fun c => {| regs := <[RSP := sp]> (regs c); v_rip := ip; v_rflags := load_flags fl;
                          v_cs := cs; v_ss := ss |})
  | StoreOld off r =>
      v ← get_reg r;
      on_table (Sched.update_proc old (set_context (ctx_store off v)))
  | LoadNew r off =>
      p ← on_table (Sched.index_proc new);
      match ctx_load off (context p) with
      | Some v => on_cpu (set_reg r v)
      | None => fail Undefined
      end
  | LoadTop r => sp ← get_reg RSP; v ← on_mem (read_word sp); on_cpu (set_reg r v)
  | StoreTop r => sp ← get_reg RSP; v ← get_reg r; on_mem (write_word sp v)
  | Ret => ip ← pop_val; on_cpu (set_rip ip)
  end.

Definition run (code : list instr) : M (mach D) unit := for_each code (exec 0 0).

(** ** The interrupt handlers *)
Definition save_order : list reg :=
  [RBP; R15; R14; R13; R12; R11; R10; R9; R8; RDI; RSI; RDX; RCX; RBX; RAX].
Definition restore_order : list reg :=
  [RAX; RBX; RCX; RDX; RSI; RDI; R8; R9; R10; R11; R12; R13; R14; R15; RBP].

Definition timer_interrupt_handler : list instr :=
  (Push <$> save_order) ++
  [Call fn_signal_eoi; Mov RDI RSP; Call fn_preempt_round_robin; Mov RSP RAX] ++
  (Pop <$> restore_order) ++ [Iretq].

Definition keyboard_interrupt_handler : list instr :=
  (Push <$> save_order) ++
  [Call fn_handle_keyboard_io_and_eoi; Mov RDI RSP; Call fn_preempt_round_robin; Mov RSP RAX] ++
  (Pop <$> restore_order) ++ [Iretq].

(** What the processor does on an interrupt in 64-bit mode, without a change of
    privilege: align the stack, push the interrupted state, mask interrupts. *)
Definition interrupt_entry : M (mach D) unit :=
  c ← gets cpu;
  let sp := regs c RSP in
  _ ← on_cpu (set_reg RSP (sp - sp mod 16));
  _ ← push_val (v_ss c);
  _ ← push_val sp;
  _ ← push_val (v_rflags c);
  _ ← push_val (v_cs c);
  _ ← push_val (v_rip c);
  on_cpu (fun c => set_flags (cli (v_rflags c)) c).

Definition interrupt (handler : list instr) : M (mach D) unit :=
  _ ← interrupt_entry; run handler.

(** ** The cooperative switch *)
Definition context_switch_code : list instr := [
  StoreOld 0 R15; StoreOld 8 R14; StoreOld 16 R13; StoreOld 24 R12; StoreOld 32 RBX;
  StoreOld 40 RBP; StoreOld 56 RSP;
  LoadTop RAX; StoreOld 48 RAX;
  LoadNew R15 0; LoadNew R14 8; LoadNew R13 16; LoadNew R12 24; LoadNew RBX 32; LoadNew RBP 40;
  LoadNew RSP 56;
  LoadNew RAX 48; StoreTop RAX;
  Ret ].

Definition context_switch (old new : Z) : M (mach D) unit :=
  for_each context_switch_code (exec old new).

(** [execute_switch] and [Scheduler::switch], which have the same body; [ra] is
    the return address of the call of [context_switch] in them.  The result
    tells whether the stack was switched: if so, what follows the call is run
    by the process that is resumed. *)
Definition execute_switch (ra : Z) : M (mach D) bool :=
  ptrs ← on_kern (on_sched Sched.select_switch);
  match ptrs with
  | Some (old_ptr, new_ptr) => _ ← push_val ra; _ ← context_switch old_ptr new_ptr; mret true
  | None => mret false
  end.

Definition switch (ra : Z) : M (mach D) bool := execute_switch ra.

Definition disable : M (mach D) unit := on_cpu (fun c => set_flags (cli (v_rflags c)) c).
Definition enable : M (mach D) unit := on_cpu (fun c => set_flags (sti (v_rflags c)) c).

(** [yield_now], up to the point where another process takes over, and
    [preempt_now], which has the same body. *)
Definition yield_now (ra : Z) : M (mach D) unit :=
  _ ← disable;
  switched ← execute_switch ra;
  if switched : bool then mret tt else enable.

Definition preempt_now (ra : Z) : M (mach D) unit := yield_now ra.

(** ** Stack operations *)
Implicit Types s : mach D.

Lemma set_reg_eq r v c : regs (set_reg r v c) r = v.
Proof. apply fn_lookup_insert. Qed.
Lemma set_reg_ne r r' v c : r <> r' -> regs (set_reg r v c) r' = regs c r'.
Proof. apply fn_lookup_insert_ne. Qed.

#[local] Instance set_reg_proper r v : Proper ((≡) ==> (≡)) (set_reg r v).
Proof.
  intros c d (Hr & ? & ? & ? & ?). split_and!; try done. intros r'.
  destruct (decide (r = r')) as [<-|]; [by rewrite !set_reg_eq|by rewrite !set_reg_ne].
Qed.

Lemma set_reg_twice r v w c : set_reg r v (set_reg r w c) ≡ set_reg r v c.
Proof.
  split_and!; try done. intros r'.
  destruct (decide (r = r')) as [<-|]; [by rewrite !set_reg_eq|by rewrite !set_reg_ne].
Qed.

Lemma set_reg_same r c : set_reg r (regs c r) c ≡ c.
Proof.
  split_and!; try done. intros r'.
  destruct (decide (r = r')) as [<-|]; [by rewrite set_reg_eq|by rewrite set_reg_ne].
Qed.

Lemma aligned_sub sp k : sp mod 8 = 0 -> (sp - 8 * k) mod 8 = 0.
Proof. intros Ha. replace (sp - 8 * k) with (sp + - k * 8) by lia. by rewrite Z.mod_add. Qed.

Lemma aligned_add sp k : sp mod 8 = 0 -> (sp + 8 * k) mod 8 = 0.
Proof. intros Ha. replace (sp + 8 * k) with (sp + k * 8) by lia. by rewrite Z.mod_add. Qed.

Lemma push_val_eq v s :
  8 < regs (cpu s) RSP -> regs (cpu s) RSP mod 8 = 0 ->
  push_val v s = (Done tt, {| cpu := set_reg RSP (regs (cpu s) RSP - 8) (cpu s);
                              memory := <[regs (cpu s) RSP - 8 := v]> (memory s); kern := kern s |}).
Proof.
  intros Hsp Ha. unfold push_val, get_reg. rewrite gets_bind. erewrite bind_done.
  2:{ unfold on_mem. apply zoom_done. by apply Sched.write_below. }
  done.
Qed.

Lemma pop_val_eq s v :
  0 < regs (cpu s) RSP -> regs (cpu s) RSP mod 8 = 0 -> memory s !! regs (cpu s) RSP = Some v ->
  pop_val s = (Done v, {| cpu := set_reg RSP (regs (cpu s) RSP + 8) (cpu s);
                          memory := memory s; kern := kern s |}).
Proof.
  intros Hsp Ha Hv. unfold pop_val, get_reg. rewrite gets_bind. erewrite bind_done.
  2:{ unfold on_mem. apply zoom_done. by apply read_word_ok. }
  unfold on_cpu. rewrite modify_bind. done.
Qed.

(** The stack of [s] was extended by [ws] down to [sp]. *)
Record pushed (s s' : mach D) (ws : list Z) : Prop := {
  pushed_cpu : cpu s' ≡ set_reg RSP (regs (cpu s) RSP - 8 * Z.of_nat (length ws)) (cpu s);
  pushed_words : Sched.words_at (memory s') (regs (cpu s) RSP - 8 * Z.of_nat (length ws)) ws;
  pushed_frame : Sched.same_outside (memory s) (memory s')
                   (regs (cpu s) RSP - 8 * Z.of_nat (length ws)) (regs (cpu s) RSP);
  pushed_kern : kern s' = kern s;
}.

Lemma pushed_nil s : pushed s s [].
Proof.
  split; [|by intros k w Hk|done|done]. cbn. rewrite Z.sub_0_r. symmetry. apply set_reg_same.
Qed.

Lemma pushed_rsp s s' ws :
  pushed s s' ws -> regs (cpu s') RSP = regs (cpu s) RSP - 8 * Z.of_nat (length ws).
Proof. intros [(Hr & _) _ _ _]. by rewrite Hr, set_reg_eq. Qed.

Lemma pushed_reg s s' ws r : pushed s s' ws -> r <> RSP -> regs (cpu s') r = regs (cpu s) r.
Proof. intros [(Hr & _) _ _ _] Hn. by rewrite Hr, set_reg_ne. Qed.

Lemma pushed_step s s' ws v :
  pushed s s' ws -> 8 * Z.of_nat (S (length ws)) < regs (cpu s) RSP -> regs (cpu s) RSP mod 8 = 0 ->
  exists s'', push_val v s' = (Done tt, s'') /\ pushed s s'' (v :: ws).
Proof.
  intros Hp Hsp Ha. pose proof (pushed_rsp _ _ _ Hp) as E. destruct Hp as [Hc Hw Hf Hk].
  eexists. split; [apply push_val_eq; rewrite E; [lia|by apply aligned_sub]|].
  rewrite E. cbn [length].
  replace (regs (cpu s) RSP - 8 * Z.of_nat (length ws) - 8)
    with (regs (cpu s) RSP - 8 * Z.of_nat (S (length ws))) by lia.
  split; cbn [cpu memory kern length].
  - rewrite Hc. apply set_reg_twice.
  - replace (regs (cpu s) RSP - 8 * Z.of_nat (S (length ws)))
      with (regs (cpu s) RSP - 8 * Z.of_nat (length ws) - 8) by lia.
    by apply Sched.words_at_push.
  - apply Sched.same_outside_insert; [|lia]. apply (Sched.same_outside_mono _ _ _ _ _ _ Hf); lia.
  - done.
Qed.

Lemma push_regs s s' ws rs old new :
  pushed s s' ws -> RSP ∉ rs ->
  8 * (Z.of_nat (length ws) + Z.of_nat (length rs)) < regs (cpu s) RSP -> regs (cpu s) RSP mod 8 = 0 ->
  exists s'', for_each (Push <$> rs) (exec old new) s' = (Done tt, s'') /\
    pushed s s'' (rev (regs (cpu s) <$> rs) ++ ws).
Proof.
  revert s' ws. induction rs as [|r rs IH]; intros s' ws Hp Hn Hsp Ha; [by exists s'|].
  apply not_elem_of_cons in Hn as [Hr Hn]. cbn [length] in Hsp.
  destruct (pushed_step s s' ws (regs (cpu s) r) Hp ltac:(lia) Ha) as (s1 & E & Hp1).
  destruct (IH s1 _ Hp1 Hn ltac:(cbn [length]; lia) Ha) as (s2 & E2 & Hp2).
  exists s2. split.
  - cbn [fmap list_fmap for_each exec]. rewrite bind_assoc. unfold get_reg. rewrite gets_bind.
    rewrite (pushed_reg _ _ _ _ Hp) by congruence. by rewrite (bind_done _ _ _ _ _ E).
  - cbn [fmap list_fmap rev]. by rewrite <- app_assoc.
Qed.

(** Words popped into registers. *)
Fixpoint set_regs (rs : list reg) (ws : list Z) (c : vcpu) : vcpu :=
  match rs, ws with
  | r :: rs, w :: ws => set_regs rs ws (set_reg r w c)
  | _, _ => c
  end.

Lemma set_regs_notin rs ws c r : r ∉ rs -> regs (set_regs rs ws c) r = regs c r.
Proof.
  revert ws c. induction rs as [|r' rs IH]; intros [|w ws] c Hn; try done. cbn.
  apply not_elem_of_cons in Hn as [? ?]. by rewrite IH, set_reg_ne by done.
Qed.

Lemma set_regs_in rs ws c k r w :
  NoDup rs -> rs !! k = Some r -> ws !! k = Some w -> regs (set_regs rs ws c) r = w.
Proof.
  revert ws c k. induction rs as [|r' rs IH]; intros [|w' ws] c [|k] Hnd Hr Hw; try done; cbn.
  - injection Hr as ->. injection Hw as ->. apply NoDup_cons in Hnd as [Hn _].
    by rewrite set_regs_notin, set_reg_eq.
  - apply NoDup_cons in Hnd as [_ Hnd]. by apply (IH _ _ k).
Qed.

Lemma pop_regs s rs ws rest old new :
  RSP ∉ rs -> length rs = length ws -> 0 < regs (cpu s) RSP -> regs (cpu s) RSP mod 8 = 0 ->
  Sched.words_at (memory s) (regs (cpu s) RSP) (ws ++ rest) ->
  exists s', for_each (Pop <$> rs) (exec old new) s = (Done tt, s') /\
    memory s' = memory s /\ kern s' = kern s /\
    regs (cpu s') RSP = regs (cpu s) RSP + 8 * Z.of_nat (length ws) /\
    (forall r, r <> RSP -> regs (cpu s') r = regs (set_regs rs ws (cpu s)) r).
Proof.
  revert s ws. induction rs as [|r rs IH]; intros s [|w ws] Hn Hlen Hsp Ha Hw; try done.
  { exists s. split_and!; try done. cbn. lia. }
  injection Hlen as Hlen. apply not_elem_of_cons in Hn as [Hr Hn].
  cbn [app] in Hw. apply Sched.words_at_cons in Hw as [Hw0 Hw].
  cbn [fmap list_fmap for_each exec]. 
  set (s1 := {| cpu := set_reg r w (set_reg RSP (regs (cpu s) RSP + 8) (cpu s));
                memory := memory s; kern := kern s |}).
  assert (E1 : (v ← pop_val; on_cpu (set_reg r v)) s = (Done tt, s1)).
  { by rewrite (bind_done _ _ _ _ _ (pop_val_eq s w Hsp Ha Hw0)). }
  assert (Esp : regs (cpu s1) RSP = regs (cpu s) RSP + 8).
  { cbn [s1 cpu]. by rewrite set_reg_ne, set_reg_eq. }
  destruct (IH s1 ws Hn Hlen) as (s' & E & Em & Ek & Er & Ho); rewrite ?Esp.
  { lia. } { by apply (aligned_add _ 1). } { done. }
  exists s'. rewrite (bind_done _ _ _ _ _ E1). split_and!; try done.
  - rewrite Er, Esp. cbn [length]. lia.
  - intros r' Hr'. rewrite Ho by done. cbn [set_regs s1 cpu].
    clear -Hr'. revert ws. 
    assert (G : forall ws c d, (forall r0, r0 <> RSP -> regs c r0 = regs d r0) ->
       regs (set_regs rs ws c) r' = regs (set_regs rs ws d) r').
    { induction rs as [|r1 rs IH]; intros [|w1 ws] c d Hcd; cbn; [by apply Hcd..|].
      apply IH. intros r0 Hr0. destruct (decide (r1 = r0)) as [<-|];
        [by rewrite !set_reg_eq|rewrite !set_reg_ne by done; by apply Hcd]. }
    intros ws. apply G. intros r0 Hr0. destruct (decide (r = r0)) as [<-|];
      [by rewrite !set_reg_eq|rewrite !set_reg_ne by done; done].
Qed.

(** ** Interrupt frames *)

(** A complete context saved at [sp]: what the handlers push, and pop. *)
Definition saved_frame (m : mem) (c : vcpu) (sp : Z) : Prop :=
  exists fl, load_flags fl = v_rflags c /\
    Sched.words_at m sp ((regs c <$> restore_order) ++ [v_rip c; v_cs c; fl; regs c RSP; v_ss c]).

Definition frame_size : Z := 160.

Lemma saved_frame_mono m m' c sp :
  saved_frame m c sp -> (forall a, sp <= a < sp + frame_size -> m' !! a = m !! a) -> saved_frame m' c sp.
Proof.
  intros (fl & Hfl & Hw) Hm. exists fl. split; [done|]. apply (Sched.words_at_frame m); [done|].
  intros a Ha. apply Hm. exact Ha.
Qed.

#[local] Instance saved_frame_proper m : Proper ((≡) ==> (=) ==> iff) (saved_frame m).
Proof.
  intros c d (Hr & Hi & Hf & Hc & Hs) sp ? <-. unfold saved_frame.
  assert (E : regs c <$> restore_order = regs d <$> restore_order) by (cbn; by rewrite !Hr).
  by rewrite E, Hi, Hf, Hc, Hs, Hr.
Qed.

(** The stack pointer after the alignment, and after the frame. *)
Definition aligned_top (c : vcpu) : Z := regs c RSP - regs c RSP mod 16.
Definition frame_sp (c : vcpu) : Z := aligned_top c - frame_size.

Lemma aligned_top_mod c : aligned_top c mod 16 = 0.
Proof.
  unfold aligned_top. rewrite Zminus_mod, Z.mod_mod, Z.sub_diag by done. done.
Qed.

Lemma mod16_mod8 a : a mod 16 = 0 -> a mod 8 = 0.
Proof.
  intros E. rewrite (Z.div_mod a 16), E, Z.add_0_r by done.
  replace (16 * (a / 16)) with (2 * (a / 16) * 8) by lia. by apply Z.mod_mul.
Qed.

Lemma frame_sp_mod c : frame_sp c mod 16 = 0.
Proof.
  unfold frame_sp, frame_size. rewrite Zminus_mod, aligned_top_mod. done.
Qed.

Lemma interrupt_entry_eq s :
  40 < aligned_top (cpu s) ->
  exists s', interrupt_entry s = (Done tt, s') /\
    regs (cpu s') RSP = aligned_top (cpu s) - 40 /\
    (forall r, r <> RSP -> regs (cpu s') r = regs (cpu s) r) /\
    v_rflags (cpu s') = cli (v_rflags (cpu s)) /\
    Sched.words_at (memory s') (aligned_top (cpu s) - 40)
      [v_rip (cpu s); v_cs (cpu s); v_rflags (cpu s); regs (cpu s) RSP; v_ss (cpu s)] /\
    Sched.same_outside (memory s) (memory s') (aligned_top (cpu s) - 40) (aligned_top (cpu s)) /\
    kern s' = kern s.
Proof.
  intros Hsp. set (c := cpu s) in *.
  set (s0 := {| cpu := set_reg RSP (aligned_top c) c; memory := memory s; kern := kern s |}).
  assert (E0 : regs (cpu s0) RSP = aligned_top c) by apply set_reg_eq.
  assert (Ha : regs (cpu s0) RSP mod 8 = 0) by (rewrite E0; apply mod16_mod8, aligned_top_mod).
  destruct (pushed_step s0 s0 [] (v_ss c) (pushed_nil s0)) as (s1 & E1 & P1); [rewrite E0; cbn [length]; lia|done|].
  destruct (pushed_step s0 s1 _ (regs c RSP) P1) as (s2 & E2 & P2); [rewrite E0; cbn [length]; lia|done|].
  destruct (pushed_step s0 s2 _ (v_rflags c) P2) as (s3 & E3 & P3); [rewrite E0; cbn [length]; lia|done|].
  destruct (pushed_step s0 s3 _ (v_cs c) P3) as (s4 & E4 & P4); [rewrite E0; cbn [length]; lia|done|].
  destruct (pushed_step s0 s4 _ (v_rip c) P4) as (s5 & E5 & P5); [rewrite E0; cbn [length]; lia|done|].
  exists {| cpu := set_flags (cli (v_rflags (cpu s5))) (cpu s5); memory := memory s5; kern := kern s5 |}.
  pose proof (pushed_rsp _ _ _ P5) as Hr. rewrite E0 in Hr. cbn [length] in Hr.
  pose proof (fun r => pushed_reg _ _ _ r P5) as Ho.
  destruct P5 as [(_ & _ & Hfl & _) Hw Hf Hk]. rewrite E0 in Hw, Hf. cbn [length] in Hw, Hf.
  split_and!.
  - unfold interrupt_entry. rewrite gets_bind. fold c. rewrite (bind_done _ _ _ tt s0) by done.
    rewrite (bind_done _ _ _ _ _ E1), (bind_done _ _ _ _ _ E2), (bind_done _ _ _ _ _ E3),
      (bind_done _ _ _ _ _ E4), (bind_done _ _ _ _ _ E5). done.
  - cbn [cpu set_flags regs]. rewrite Hr. lia.
  - intros r Hne. cbn [cpu set_flags regs]. rewrite Ho by done. by apply set_reg_ne.
  - cbn [cpu set_flags v_rflags]. by rewrite Hfl.
  - exact Hw.
  - exact Hf.
  - exact Hk.
Qed.

Lemma entry_saves s :
  frame_size < aligned_top (cpu s) -> load_flags (v_rflags (cpu s)) = v_rflags (cpu s) ->
  exists s', (_ ← interrupt_entry; for_each (Push <$> save_order) (exec 0 0)) s = (Done tt, s') /\
    regs (cpu s') RSP = frame_sp (cpu s) /\
    (forall r, r <> RSP -> regs (cpu s') r = regs (cpu s) r) /\
    saved_frame (memory s') (cpu s) (frame_sp (cpu s)) /\
    Sched.same_outside (memory s) (memory s') (frame_sp (cpu s)) (aligned_top (cpu s)) /\
    kern s' = kern s.
Proof.
  unfold frame_size. intros Hsp Hfl.
  destruct (interrupt_entry_eq s ltac:(lia)) as (s1 & E1 & Hr1 & Ho1 & _ & Hw1 & Hf1 & Hk1).
  destruct (push_regs s1 s1 [] save_order 0 0 (pushed_nil s1)) as (s2 & E2 & P2).
  { vm_compute. intros Hin. repeat (apply elem_of_cons in Hin as [Hin|Hin]; [done|]). by apply elem_of_nil in Hin. }
  { rewrite Hr1. cbn. lia. }
  { rewrite Hr1. apply (aligned_sub _ 5). apply mod16_mod8, aligned_top_mod. }
  exists s2. rewrite app_nil_r in P2.
  pose proof (pushed_rsp _ _ _ P2) as Hr2. rewrite Hr1 in Hr2.
  pose proof (fun r => pushed_reg _ _ _ r P2) as Ho2. destruct P2 as [_ Hw2 Hf2 Hk2].
  rewrite Hr1 in Hw2, Hf2. change (8 * Z.of_nat (length (rev (regs (cpu s1) <$> save_order)))) with 120 in *.
  assert (Esp : frame_sp (cpu s) = aligned_top (cpu s) - 40 - 120) by (unfold frame_sp, frame_size; lia).
  split_and!.
  - rewrite (bind_done _ _ _ _ _ E1). exact E2.
  - rewrite Hr2, Esp. done.
  - intros r Hne. by rewrite Ho2, Ho1.
  - exists (v_rflags (cpu s)). split; [done|]. rewrite Esp. apply Sched.words_at_app. split.
    + change (rev (regs (cpu s1) <$> save_order)) with (regs (cpu s1) <$> restore_order) in Hw2.
      replace (regs (cpu s) <$> restore_order) with (regs (cpu s1) <$> restore_order); [done|].
      cbn. by rewrite !Ho1 by done.
    + change (8 * Z.of_nat (length (regs (cpu s) <$> restore_order))) with 120.
      replace (aligned_top (cpu s) - 40 - 120 + 120) with (aligned_top (cpu s) - 40) by lia.
      apply (Sched.words_at_frame (memory s1)); [done|]. cbn [length]. intros a Ha. apply Hf2. lia.
  - rewrite Esp. apply (Sched.same_outside_trans _ (memory s1)).
    + apply (Sched.same_outside_mono _ _ _ _ _ _ Hf1); lia.
    + apply (Sched.same_outside_mono _ _ _ _ _ _ Hf2); lia.
  - congruence.
Qed.

Lemma pop_next s sp w ws :
  regs (cpu s) RSP = sp -> 0 < sp -> sp mod 8 = 0 -> Sched.words_at (memory s) sp (w :: ws) ->
  exists s', pop_val s = (Done w, s') /\ regs (cpu s') RSP = sp + 8 /\
    (forall r, r <> RSP -> regs (cpu s') r = regs (cpu s) r) /\
    memory s' = memory s /\ kern s' = kern s /\
    0 < sp + 8 /\ (sp + 8) mod 8 = 0 /\ Sched.words_at (memory s') (sp + 8) ws.
Proof.
  intros <- Hsp Ha Hw. apply Sched.words_at_cons in Hw as [Hv Hw].
  eexists. split; [by apply pop_val_eq|]. cbn [cpu memory kern].
  split_and!; [apply set_reg_eq|intros r Hr; by apply set_reg_ne|done|done|lia| |done].
  by apply (aligned_add _ 1).
Qed.

Lemma iretq_eq s sp ip cs fl sp' ss old new :
  regs (cpu s) RSP = sp -> 0 < sp -> sp mod 8 = 0 ->
  Sched.words_at (memory s) sp [ip; cs; fl; sp'; ss] ->
  exists s', exec old new Iretq s = (Done tt, s') /\ regs (cpu s') RSP = sp' /\
    (forall r, r <> RSP -> regs (cpu s') r = regs (cpu s) r) /\
    v_rip (cpu s') = ip /\ v_rflags (cpu s') = load_flags fl /\ v_cs (cpu s') = cs /\ v_ss (cpu s') = ss /\
    memory s' = memory s /\ kern s' = kern s.
Proof.
  intros Er Hp Ha Hw.
  destruct (pop_next s _ _ _ Er Hp Ha Hw) as (s2 & E2 & Er2 & Ho2 & Em2 & Ek2 & Hp2 & Ha2 & Hw2).
  destruct (pop_next s2 _ _ _ Er2 Hp2 Ha2 Hw2) as (s3 & E3 & Er3 & Ho3 & Em3 & Ek3 & Hp3 & Ha3 & Hw3).
  destruct (pop_next s3 _ _ _ Er3 Hp3 Ha3 Hw3) as (s4 & E4 & Er4 & Ho4 & Em4 & Ek4 & Hp4 & Ha4 & Hw4).
  destruct (pop_next s4 _ _ _ Er4 Hp4 Ha4 Hw4) as (s5 & E5 & Er5 & Ho5 & Em5 & Ek5 & Hp5 & Ha5 & Hw5).
  destruct (pop_next s5 _ _ _ Er5 Hp5 Ha5 Hw5) as (s6 & E6 & Er6 & Ho6 & Em6 & Ek6 & _).
  eexists. split.
  { cbn [exec]. rewrite (bind_done _ _ _ _ _ E2), (bind_done _ _ _ _ _ E3), (bind_done _ _ _ _ _ E4),
      (bind_done _ _ _ _ _ E5), (bind_done _ _ _ _ _ E6). unfold on_cpu, modify. done. }
  cbn [cpu memory kern regs v_rip v_rflags v_cs v_ss]. split_and!; try congruence.
  - apply fn_lookup_insert.
  - intros r Hne. rewrite fn_lookup_insert_ne by congruence. by rewrite Ho6, Ho5, Ho4, Ho3, Ho2 by done.
Qed.

Lemma exit_restores s c sp old new :
  regs (cpu s) RSP = sp -> 0 < sp -> sp mod 8 = 0 -> saved_frame (memory s) c sp ->
  exists s', for_each ((Pop <$> restore_order) ++ [Iretq]) (exec old new) s = (Done tt, s') /\
    cpu s' ≡ c /\ memory s' = memory s /\ kern s' = kern s.
Proof.
  intros Esp Hsp Ha (fl & Hfl & Hw). rewrite for_each_app.
  destruct (pop_regs s restore_order (regs c <$> restore_order)
    [v_rip c; v_cs c; fl; regs c RSP; v_ss c] old new) as (s1 & E1 & Em & Ek & Er & Ho).
  { vm_compute. intros Hin. repeat (apply elem_of_cons in Hin as [Hin|Hin]; [done|]). by apply elem_of_nil in Hin. }
  { done. } { by rewrite Esp. } { by rewrite Esp. } { by rewrite Esp. }
  rewrite (bind_done _ _ _ _ _ E1).
  change (8 * Z.of_nat (length (regs c <$> restore_order))) with (8 * 15) in Er. rewrite Esp in Er.
  apply Sched.words_at_app in Hw as [_ Hw].
  change (8 * Z.of_nat (length (regs c <$> restore_order))) with (8 * 15) in Hw.
  rewrite <- Em in Hw. pose proof (aligned_add sp 15 Ha) as Ha1.
  destruct (iretq_eq s1 _ _ _ _ _ _ old new Er ltac:(lia) Ha1 Hw)
    as (s2 & E2 & Er2 & Ho2 & Hi2 & Hf2 & Hc2 & Hs2 & Em2 & Ek2).
  exists s2. split_and!; [by cbn [for_each]; rewrite (bind_done _ _ _ _ _ E2)| |congruence..].
  split_and!; [|congruence..]. intros r. destruct (decide (r = RSP)) as [->|Hne]; [done|].
  rewrite Ho2, Ho by done.
  assert (Hin : exists k, restore_order !! k = Some r).
  { apply list_elem_of_lookup. destruct r; try done; repeat (apply elem_of_cons; (by left) || right); done. }
  destruct Hin as [k Hk]. apply (set_regs_in _ _ _ k); [|done|].
  - vm_compute. repeat (constructor; [intros Hin; repeat (apply elem_of_cons in Hin as [Hin|Hin]; [done|]);
      by apply elem_of_nil in Hin|]). constructor.
  - by rewrite list_lookup_fmap, Hk.
Qed.

(** ** A handler that saves, acts, asks the scheduler and restores *)
Definition switching_handler (f : rust_fn) : list instr :=
  (Push <$> save_order) ++
  [Call f; Mov RDI RSP; Call fn_preempt_round_robin; Mov RSP RAX] ++
  (Pop <$> restore_order) ++ [Iretq].

Lemma call_eq f s r k old new :
  rust_call f (regs (cpu s) RDI) (kern s) = (Done r, k) ->
  exec old new (Call f) s = (Done tt, {| cpu := after_call r (cpu s);
                                         memory := scratch (regs (cpu s) RSP) (memory s); kern := k |}).
Proof.
  intros E. cbn [exec]. unfold get_reg. rewrite !gets_bind. erewrite bind_done.
  2:{ unfold on_kern. apply zoom_done. exact E. }
  done.
Qed.

Context {CL : CallingLaws}.

Lemma switching_handler_eq f s k1 r l2 c :
  frame_size + call_stack < aligned_top (cpu s) -> load_flags (v_rflags (cpu s)) = v_rflags (cpu s) ->
  (forall x, rust_call f x (kern s) = (Done None, k1)) ->
  Sched.preempt_round_robin (frame_sp (cpu s)) (SCHEDULER k1) = (Done r, l2) ->
  0 < r -> r mod 8 = 0 ->
  (forall m, saved_frame m (cpu s) (frame_sp (cpu s)) ->
     Sched.same_outside (memory s) m (frame_sp (cpu s) - call_stack) (aligned_top (cpu s)) ->
     saved_frame m c r) ->
  exists s', interrupt (switching_handler f) s = (Done tt, s') /\ cpu s' ≡ c /\
    saved_frame (memory s') (cpu s) (frame_sp (cpu s)) /\
    Sched.same_outside (memory s) (memory s') (frame_sp (cpu s) - call_stack) (aligned_top (cpu s)) /\
    kern s' = {| SCHEDULER := l2; PICS := PICS k1; kio := kio k1 |}.
Proof.
  intros Hroom Hfl Hf Hp Hr Hra Hc. pose proof call_stack_nonneg as Hcs.
  destruct (entry_saves s ltac:(lia) Hfl) as (s1 & E1 & Er1 & Ho1 & Hs1 & Hm1 & Hk1).
  set (s2 := {| cpu := after_call None (cpu s1); memory := scratch (frame_sp (cpu s)) (memory s1); kern := k1 |}).
  assert (E2 : exec 0 0 (Call f) s1 = (Done tt, s2)).
  { rewrite (call_eq f s1 None k1); [by rewrite Er1|]. by rewrite Hk1. }
  set (s3 := {| cpu := set_reg RDI (frame_sp (cpu s)) (cpu s2); memory := memory s2; kern := k1 |}).
  assert (Er2 : regs (cpu s2) RSP = frame_sp (cpu s)) by done.
  assert (E3 : exec 0 0 (Mov RDI RSP) s2 = (Done tt, s3)).
  { cbn [exec]. unfold get_reg. rewrite gets_bind, Er2. done. }
  set (k2 := {| SCHEDULER := l2; PICS := PICS k1; kio := kio k1 |}).
  assert (Ep : rust_call fn_preempt_round_robin (frame_sp (cpu s)) k1 = (Done (Some r), k2)).
  { cbn [rust_call]. erewrite bind_done; [|unfold on_sched; apply zoom_done; exact Hp]. done. }
  set (s4 := {| cpu := after_call (Some r) (cpu s3); memory := scratch (frame_sp (cpu s)) (memory s3); kern := k2 |}).
  assert (Er3 : regs (cpu s3) RSP = frame_sp (cpu s)) by done.
  assert (E4 : exec 0 0 (Call fn_preempt_round_robin) s3 = (Done tt, s4)).
  { rewrite (call_eq _ s3 (Some r) k2); [by rewrite Er3|]. exact Ep. }
  set (s5 := {| cpu := set_reg RSP r (cpu s4); memory := memory s4; kern := k2 |}).
  assert (E5 : exec 0 0 (Mov RSP RAX) s4 = (Done tt, s5)) by done.
  assert (Hscratch : Sched.same_outside (memory s1) (memory s5) (frame_sp (cpu s) - call_stack) (frame_sp (cpu s))).
  { cbn [s5 s4 s3 s2 memory]. eapply Sched.same_outside_trans; apply scratch_below. }
  assert (Hsaved : saved_frame (memory s5) (cpu s) (frame_sp (cpu s))).
  { apply (saved_frame_mono (memory s1)); [done|]. intros a Ha. apply Hscratch. lia. }
  assert (Hout : Sched.same_outside (memory s) (memory s5) (frame_sp (cpu s) - call_stack) (aligned_top (cpu s))).
  { apply (Sched.same_outside_trans _ (memory s1)).
    - apply (Sched.same_outside_mono _ _ _ _ _ _ Hm1); lia.
    - apply (Sched.same_outside_mono _ _ _ _ _ _ Hscratch); unfold frame_sp, frame_size; lia. }
  assert (Er5 : regs (cpu s5) RSP = r) by apply set_reg_eq.
  destruct (exit_restores s5 c r 0 0 Er5 Hr Hra (Hc _ Hsaved Hout)) as (s6 & E6 & Hc6 & Em6 & Ek6).
  exists s6. split_and!; [|done|by rewrite Em6|by rewrite Em6|by rewrite Ek6].
  unfold interrupt, run, switching_handler.
  assert (E1' := E1). apply bind_done_inv in E1' as ([] & s0 & E0 & E1').
  rewrite (bind_done _ _ _ _ _ E0), for_each_app, (bind_done _ _ _ _ _ E1').
  cbn [app]. cbn [for_each].
  rewrite (bind_done _ _ _ _ _ E2), (bind_done _ _ _ _ _ E3), (bind_done _ _ _ _ _ E4),
    (bind_done _ _ _ _ _ E5). exact E6.
Qed.

(** ** The two device interrupts *)
Inductive irq_source := TimerIrq | KeyboardIrq.

Definition irq_fn (q : irq_source) : rust_fn :=
  match q with TimerIrq => fn_signal_eoi | KeyboardIrq => fn_handle_keyboard_io_and_eoi end.

Definition irq_handler (q : irq_source) : list instr :=
  match q with TimerIrq => timer_interrupt_handler | KeyboardIrq => keyboard_interrupt_handler end.

Lemma irq_handler_eq q : irq_handler q = switching_handler (irq_fn q).
Proof. by destruct q. Qed.

(** The vector each acknowledges. *)
Definition irq_ack (q : irq_source) : event :=
  match q with TimerIrq => Eoi (as_u8 Timer) | KeyboardIrq => Eoi (as_u8 Keyboard) end.

(** What each does to the devices. *)
Definition irq_io (q : irq_source) : M (Locked unit * io D) unit :=
  match q with TimerIrq => Interrupts.signal_eoi | KeyboardIrq => Interrupts.handle_keyboard_io_and_eoi end.

Lemma irq_fn_ok q k :
  PICS k = Locked_new () ->
  exists k1, (forall x, rust_call (irq_fn q) x k = (Done None, k1)) /\
    SCHEDULER k1 = SCHEDULER k /\ PICS k1 = Locked_new () /\ last (trace (kio k1)) = Some (irq_ack q) /\
    irq_io q (Locked_new (), kio k) = (Done tt, (Locked_new (), kio k1)).
Proof.
  intros Hp. pose proof (Interrupts.eoi_ok (kio k)) as (E1 & d & tr & E2).
  destruct q.
  - eexists. split.
    { intros x. cbn [irq_fn rust_call]. erewrite bind_done; [|unfold on_pics; apply zoom_done].
      - done.
      - rewrite Hp. exact E1. }
    cbn [PICS SCHEDULER kio trace fst snd]. split_and!; [done|done|by rewrite last_snoc|exact E1].
  - eexists. split.
    { intros x. cbn [irq_fn rust_call]. erewrite bind_done; [|unfold on_pics; apply zoom_done].
      - done.
      - rewrite Hp. exact E2. }
    cbn [PICS SCHEDULER kio trace fst snd]. split_and!; [done|done|by rewrite last_snoc|exact E2].
Qed.

Lemma interrupt_idle_ok q s :
  frame_size + call_stack < aligned_top (cpu s) -> load_flags (v_rflags (cpu s)) = v_rflags (cpu s) ->
  PICS (kern s) = Locked_new () -> Sched.no_switch (SCHEDULER (kern s)) ->
  exists s', interrupt (irq_handler q) s = (Done tt, s') /\ cpu s' ≡ cpu s /\
    Sched.same_outside (memory s) (memory s') (frame_sp (cpu s) - call_stack) (aligned_top (cpu s)) /\
    SCHEDULER (kern s') = SCHEDULER (kern s) /\ PICS (kern s') = Locked_new () /\
    last (trace (kio (kern s'))) = Some (irq_ack q) /\
    irq_io q (Locked_new (), kio (kern s)) = (Done tt, (Locked_new (), kio (kern s'))).
Proof.
  intros Hroom Hfl Hpics Hidle. pose proof call_stack_nonneg as Hcs.
  destruct (irq_fn_ok q (kern s) Hpics) as (k1 & Hf & Hsch & Hp1 & Htr & Hio).
  assert (Hturn : Sched.preempt_round_robin (frame_sp (cpu s)) (SCHEDULER k1)
                  = (Done (frame_sp (cpu s)), SCHEDULER k1))
    by (rewrite Hsch; by apply Sched.preempt_idle).
  rewrite irq_handler_eq.
  destruct (switching_handler_eq (irq_fn q) s k1 (frame_sp (cpu s)) (SCHEDULER k1) (cpu s))
    as (s' & E & Hc & _ & Hm & Hk); try done.
  { unfold frame_sp. lia. } { apply mod16_mod8, frame_sp_mod. }
  exists s'. rewrite Hk. by split_and!.
Qed.

(** C12: an interrupt that switches nothing is invisible.  When the interrupted
    code holds the scheduler's lock, the scheduler is not set up, or there are
    fewer than two processes, the timer and the keyboard handler return to the
    interrupted instruction with every register as it was, flags and stack
    pointer included; they write only below the interrupted stack pointer,
    leave the scheduler alone, and acknowledge the interrupt. *)
Theorem interrupt_transparent q s
    (Hroom : frame_size + call_stack < aligned_top (cpu s))
    (Hfl : load_flags (v_rflags (cpu s)) = v_rflags (cpu s))
    (Hpics : PICS (kern s) = Locked_new ())
    (Hidle : held (SCHEDULER (kern s)) = true \/ inner (SCHEDULER (kern s)) = None \/
       exists t, inner (SCHEDULER (kern s)) = Some t /\ Z.of_nat (length (processes t)) < 2) :
  exists s', interrupt (irq_handler q) s = (Done tt, s') /\ cpu s' ≡ cpu s /\
    (forall a, regs (cpu s) RSP <= a -> memory s' !! a = memory s !! a) /\
    SCHEDULER (kern s') = SCHEDULER (kern s) /\ PICS (kern s') = Locked_new () /\
    last (trace (kio (kern s'))) = Some (irq_ack q).
Proof.
  destruct (interrupt_idle_ok q s Hroom Hfl Hpics Hidle) as (s' & E & Hc & Hm & Hrest).
  exists s'. split_and!; [done..| |apply Hrest|apply Hrest|apply Hrest].
  intros a Ha. apply Hm. pose proof (Z.mod_pos_bound (regs (cpu s) RSP) 16 ltac:(done)).
  unfold aligned_top. lia.
Qed.

(** ** The machine as a set of virtual processors

    A process is its context and its stack; the running one comes first, the
    others in the order in which they will run.  A waiting process's context is
    saved in its stack, at the stack pointer the scheduler keeps for it. *)
Definition waiting (m : mem) (p : Process) (v : vcpu * (Z * Z)) : Prop :=
  saved_frame m v.1 (Sched.rsp_of p) /\ within (Sched.rsp_of p, frame_size) v.2 /\
  0 < Sched.rsp_of p /\ Sched.rsp_of p mod 8 = 0.

Definition represents (s : mach D) (procs : list (vcpu * (Z * Z))) : Prop :=
  exists tab run ws, SCHEDULER (kern s) = Locked_new (Some tab) /\ Sched.sched_ok tab /\
    PICS (kern s) = Locked_new () /\ procs = run :: ws /\ cpu s ≡ run.1 /\
    Forall2 (waiting (memory s)) (tail (Sched.ring tab)) ws /\ pairwise_disj (snd <$> procs).

(** The running process has room on its stack for an interrupt. *)
Definition interruptible (v : vcpu * (Z * Z)) : Prop :=
  0 < v.2.1 /\ v.2.1 <= frame_sp v.1 - call_stack /\ aligned_top v.1 <= ends v.2 /\
  load_flags (v_rflags v.1) = v_rflags v.1.

Lemma aligned_top_equiv c d : c ≡ d -> aligned_top c = aligned_top d /\ frame_sp c = frame_sp d.
Proof. intros (Hr & _). unfold frame_sp, aligned_top. by rewrite !Hr. Qed.

Lemma waiting_mono m m' p v :
  waiting m p v -> (forall a, v.2.1 <= a < ends v.2 -> m' !! a = m !! a) -> waiting m' p v.
Proof.
  intros (Hf & Hw & Hp & Ha) Hm. split_and!; try done. apply (saved_frame_mono m); [done|].
  intros a Hr. apply Hm. unfold within, ends in *. cbn in *. lia.
Qed.

(** Writing inside a block disjoint from their stacks leaves processes waiting. *)
Lemma waiting_others m m' blk q ws :
  Forall2 (waiting m) q ws -> Forall (fun v => disj blk v.2) ws ->
  (forall a, ~ (blk.1 <= a < ends blk) -> m' !! a = m !! a) -> Forall2 (waiting m') q ws.
Proof.
  intros Hws Hd Hm. apply Forall2_same_length_lookup_2; [by apply Forall2_length in Hws|].
  intros i p v Hi Hv. apply (waiting_mono m); [by apply (Forall2_lookup_lr _ _ _ _ _ _ Hws Hi Hv)|].
  pose proof (Forall_lookup_1 _ _ _ _ Hd Hv) as Hdv. cbn in Hdv.
  intros a Ha. apply Hm. unfold disj, ends in *. lia.
Qed.

Lemma ring_length_pos tab : Sched.sched_ok tab -> exists p q, Sched.ring tab = p :: q.
Proof.
  intros (Hc & _). pose proof (Sched.length_ring tab) as E.
  destruct (Sched.ring tab) as [|p q]; [cbn in E; lia|]. by exists p, q.
Qed.

(** The switch, on the representation. *)
Lemma interrupt_switch_step q s run next ws :
  represents s (run :: next :: ws) -> interruptible run ->
  exists s', interrupt (irq_handler q) s = (Done tt, s') /\ represents s' (next :: ws ++ [run]) /\
    (forall a, ~ (run.2.1 <= a < ends run.2) \/ regs run.1 RSP <= a -> memory s' !! a = memory s !! a) /\
    last (trace (kio (kern s'))) = Some (irq_ack q) /\
    SCHEDULER (kern s') = (Sched.preempt_round_robin (frame_sp run.1) (SCHEDULER (kern s))).2.
Proof.
  intros (tab & run' & ws' & Hsch & Hok & Hpics & Eq & Hcpu & Hws & Hdisj) (Hpos & Hlow & Htop & Hfl).
  injection Eq as <- <-. pose proof call_stack_nonneg as Hcs.
  destruct (ring_length_pos tab Hok) as (p & q0 & Er). rewrite Er in Hws. cbn [tail] in Hws.
  apply Forall2_cons_inv_r in Hws as (p' & q' & Hnext & Hws & ->).
  destruct (aligned_top_equiv _ _ Hcpu) as [Etop Esp].
  pose proof Hcpu as (Hregs & _ & Hflags & _).
  destruct (irq_fn_ok q (kern s) Hpics) as (k1 & Hf & Hsch1 & Hp1 & Htr & _).
  destruct (Sched.preempt_turn_ring (frame_sp (cpu s)) tab p p' q' Hok Er) as (tab' & Hturn & Hok' & Er').
  pose proof Hnext as (Hsaved & Hin & Hp0 & Hpa). rewrite <- Hsch, <- Hsch1 in Hturn.
  cbn [fmap list_fmap pairwise_disj] in Hdisj. destruct Hdisj as [Hd1 [Hd2 Hd3]].
  assert (Hothers : forall m, Sched.same_outside (memory s) m (frame_sp (cpu s) - call_stack) (aligned_top (cpu s)) ->
    forall a, ~ (run.2.1 <= a < ends run.2) -> m !! a = memory s !! a).
  { intros m Hm a Ha. apply Hm. rewrite Etop, Esp. lia. }
  rewrite irq_handler_eq.
  destruct (switching_handler_eq (irq_fn q) s k1 (Sched.rsp_of p') (Locked_new (Some tab')) next.1)
    as (s' & E & Hc & Hsv & Hm & Hk); try done.
  { rewrite Etop. unfold frame_sp in Hlow. lia. }
  { by rewrite Hflags. }
  { intros m _ Hm. apply (saved_frame_mono (memory s)); [done|]. intros a Ha.
    apply (Hothers m Hm). apply Forall_cons in Hd1 as [Hd1 _].
    unfold disj, within, ends in *. cbn in *. lia. }
  exists s'. split_and!; [done| | |by rewrite Hk|by rewrite Hk, <- Hsch1, <- Esp, Hturn].
  - exists tab', next, (ws ++ [run]). rewrite Hk. split_and!; [done|done|done|done|done| |].
    + rewrite Er'. cbn [tail]. apply Forall2_app.
      * apply (waiting_others (memory s) _ run.2); [done| |by apply Hothers].
        apply Forall_cons in Hd1 as [_ Hd1]. by rewrite Forall_fmap in Hd1.
      * constructor; [|constructor]. unfold waiting.
        change (Sched.rsp_of (set_state Ready (set_context (with_rsp (frame_sp (cpu s))) p)))
          with (frame_sp (cpu s)).
        split_and!.
        -- rewrite <- Hcpu. done.
        -- rewrite Esp. unfold within, ends, frame_sp, frame_size in *. cbn in *. lia.
        -- rewrite Esp. lia.
        -- apply mod16_mod8, frame_sp_mod.
    + apply (pairwise_disj_perm (snd <$> (run :: next :: ws))); [|by cbn].
      apply fmap_Permutation. change (next :: ws ++ [run]) with ((next :: ws) ++ [run]).
      apply Permutation_cons_append.
  - intros a Ha. apply Hm. rewrite Etop, Esp.
    pose proof (Z.mod_pos_bound (regs run.1 RSP) 16 ltac:(done)).
    unfold aligned_top, frame_sp in *. unfold aligned_top in *. lia.
Qed.

(** Preemption implements virtual processors.  An interrupt taken while the
    first of at least two processes runs returns into the second one, in
    exactly the context it was interrupted in; the first one's context is saved
    in its own stack and it moves to the back; nothing is written outside the
    interrupted process's stack, nor in it at or above its stack pointer. *)
Theorem interrupt_switches q s run next ws
    (Hrep : represents s (run :: next :: ws)) (Hrun : interruptible run) :
  exists s', interrupt (irq_handler q) s = (Done tt, s') /\ represents s' (next :: ws ++ [run]) /\
    (forall a, ~ (run.2.1 <= a < ends run.2) \/ regs run.1 RSP <= a -> memory s' !! a = memory s !! a) /\
    last (trace (kio (kern s'))) = Some (irq_ack q).
Proof.
  intros. destruct (interrupt_switch_step q s run next ws Hrep Hrun) as (s' & ? & ? & ? & ? & _). by exists s'.
Qed.

(** ** Histories of running and being interrupted

    Between interrupts the running process does what it likes to its own
    context, to memory outside the stacks of the others, and to the devices;
    it leaves the scheduler and the controllers' lock alone, and keeps room on
    its stack.  The number counts the interrupts. *)
Abbreviation config := (mach D * list (vcpu * (Z * Z)))%type.

Inductive step : nat -> config -> config -> Prop :=
  | step_run s run ws s' c' :
      cpu s' = c' -> interruptible (c', run.2) ->
      SCHEDULER (kern s') = SCHEDULER (kern s) -> PICS (kern s') = PICS (kern s) ->
      Forall (fun v => forall a, v.2.1 <= a < ends v.2 -> memory s' !! a = memory s !! a) ws ->
      step 0 (s, run :: ws) (s', (c', run.2) :: ws)
  | step_irq q s run ws s' :
      interrupt (irq_handler q) s = (Done tt, s') -> step 1 (s, run :: ws) (s', ws ++ [run]).

Inductive steps : nat -> config -> config -> Prop :=
  | steps_refl cfg : steps 0 cfg cfg
  | steps_cons i j cfg1 cfg2 cfg3 : step i cfg1 cfg2 -> steps j cfg2 cfg3 -> steps (i + j) cfg1 cfg3.

Definition config_ok (cfg : config) : Prop :=
  represents cfg.1 cfg.2 /\ (2 <= length cfg.2)%nat /\ Forall interruptible cfg.2.

Lemma step_ok i cfg cfg' : step i cfg cfg' -> config_ok cfg -> config_ok cfg'.
Proof.
  destruct 1 as [s run ws s' c' Hc Hint Hsch Hpics Hmem|q s run ws s' E];
    intros (Hrep & Hlen & Hall); cbn [fst snd] in *.
  - apply Forall_cons in Hall as [_ Hall]. split_and!; [|done|by constructor].
    destruct Hrep as (tab & run0 & ws0 & Htab & Hok & Hp & Eq & Hcpu & Hws & Hd). injection Eq as <- <-.
    exists tab, (c', run.2), ws. cbn [fst snd].
    split_and!; [congruence|done|congruence|done|by rewrite Hc| |].
    + apply Forall2_same_length_lookup_2; [by apply Forall2_length in Hws|].
      intros k p v Hk Hv. apply (waiting_mono (memory s)); [by apply (Forall2_lookup_lr _ _ _ _ _ _ Hws Hk Hv)|].
      by apply (Forall_lookup_1 _ _ _ _ Hmem Hv).
    + exact Hd.
  - apply Forall_cons in Hall as [Hrun Hall]. destruct ws as [|next ws]; [cbn in Hlen; lia|].
    destruct (interrupt_switch_step q s run next ws Hrep Hrun) as (s1 & E1 & Hrep1 & _).
    rewrite E1 in E. injection E as <-. split_and!; [exact Hrep1| |].
    + cbn [snd]. rewrite length_app. cbn. lia.
    + cbn [snd]. apply Forall_app. split; [done|by constructor].
Qed.

Lemma steps_ok i cfg cfg' : steps i cfg cfg' -> config_ok cfg -> config_ok cfg'.
Proof. induction 1; eauto using step_ok. Qed.

(** A waiting process stays as it is until its turn. *)
Lemma step_waiting i cfg cfg' k v :
  step i cfg cfg' -> config_ok cfg -> cfg.2 !! k = Some v -> (0 < k)%nat -> 
  cfg'.2 !! (k - i)%nat = Some v /\
  (forall a, v.2.1 <= a < ends v.2 -> memory cfg'.1 !! a = memory cfg.1 !! a).
Proof.
  intros Hs (Hrep & Hlen & Hall) Hk Hpos. destruct k as [|k]; [lia|].
  destruct Hs as [s run ws s' c' Hc Hint Hsch Hpics Hmem|q s run ws s' E]; cbn [fst snd] in *.
  - split; [done|]. by apply (Forall_lookup_1 _ _ _ _ Hmem Hk).
  - cbn in Hk. apply Forall_cons in Hall as [Hrun Hall].
    destruct ws as [|next ws]; [cbn in Hlen; lia|].
    destruct (interrupt_switch_step q s run next ws Hrep Hrun) as (s1 & E1 & _ & Hm & _).
    rewrite E1 in E. injection E as <-. replace (S k - 1)%nat with k by lia. split.
    + by apply lookup_app_l_Some.
    + intros a Ha. apply Hm. left. destruct Hrep as (_ & _ & _ & _ & _ & _ & _ & _ & _ & Hd).
      cbn [fmap list_fmap pairwise_disj] in Hd. destruct Hd as [Hd _].
      change (Forall (disj run.2) (snd <$> next :: ws)) in Hd. rewrite Forall_fmap in Hd.
      pose proof (Forall_lookup_1 _ _ _ _ Hd Hk) as Hdk. cbn in Hdk. unfold disj, ends in *. lia.
Qed.

Lemma steps_waiting i cfg cfg' k v :
  steps i cfg cfg' -> config_ok cfg -> cfg.2 !! k = Some v -> (i < k)%nat ->
  cfg'.2 !! (k - i)%nat = Some v /\
  (forall a, v.2.1 <= a < ends v.2 -> memory cfg'.1 !! a = memory cfg.1 !! a).
Proof.
  intros Hs. revert k. induction Hs as [cfg|i j cfg1 cfg2 cfg3 H12 _ IH]; intros k Hok Hk Hlt.
  { by replace (k - 0)%nat with k by lia. }
  destruct (step_waiting _ _ _ _ _ H12 Hok Hk ltac:(lia)) as [Hk2 Hm2].
  destruct (IH (k - i)%nat (step_ok _ _ _ H12 Hok) Hk2 ltac:(lia)) as [Hk3 Hm3].
  replace (k - (i + j))%nat with (k - i - j)%nat by lia. split; [done|].
  intros a Ha. by rewrite Hm3, Hm2.
Qed.

(** C1: a preempted process never notices.  From its interruption on, however
    the other processes run and however the interrupts fall, when its turn
    comes again, after as many interrupts as there are processes, it continues
    in exactly the context it was interrupted in, with its stack from its stack
    pointer up as it left it; and in every state in between, an interrupt is
    handled to its end. *)
Theorem preemption_transparent q q' s run ws s1 s2 procs2 i
    (Hok : config_ok (s, run :: ws))
    (Hfirst : interrupt (irq_handler q) s = (Done tt, s1))
    (Hothers : steps i (s1, ws ++ [run]) (s2, procs2)) (Hi : (S i < length (run :: ws))%nat) :
  exists s3, interrupt (irq_handler q') s2 = (Done tt, s3) /\
    (S (S i) = length (run :: ws) -> cpu s3 ≡ run.1 /\
       forall a, run.2.1 <= a < ends run.2 -> regs run.1 RSP <= a -> memory s3 !! a = memory s !! a).
Proof.
  pose proof Hok as (Hrep & Hlen & Hall). cbn [fst snd] in *.
  pose proof (step_ok _ _ _ (step_irq q s run ws s1 Hfirst) Hok) as Hok1.
  pose proof (steps_ok _ _ _ Hothers Hok1) as Hok2.
  pose proof Hok2 as (Hrep2 & Hlen2 & Hall2). cbn [fst snd] in Hrep2, Hlen2, Hall2.
  destruct procs2 as [|run2 [|next2 ws2]]; [cbn in Hlen2; lia..|].
  pose proof (proj1 (Forall_cons _ _ _) Hall2) as [Hrun2 _].
  destruct (interrupt_switch_step q' s2 run2 next2 ws2 Hrep2 Hrun2) as (s3 & E3 & Hrep3 & Hm3 & _).
  exists s3. split; [done|]. intros En. cbn [length] in En, Hlen.
  assert (Hk : (ws ++ [run]) !! length ws = Some run).
  { rewrite lookup_app_r, Nat.sub_diag by lia. done. }
  destruct (steps_waiting _ _ _ _ _ Hothers Hok1 Hk ltac:(lia)) as [Hk2 Hm2]. cbn [fst snd] in Hk2, Hm2.
  replace (length ws - i)%nat with 1%nat in Hk2 by lia. injection Hk2 as ->.
  split.
  - destruct Hrep3 as (_ & r & w & _ & _ & _ & Eq & Hcpu & _). by injection Eq as <- _.
  - intros a Ha Hsp. destruct ws as [|next ws]; [cbn in Hlen; lia|].
    apply Forall_cons in Hall as [Hrun _].
    destruct (interrupt_switch_step q s run next ws Hrep Hrun) as (s1' & E1 & _ & Hm1 & _).
    rewrite E1 in Hfirst. injection Hfirst as <-.
    rewrite Hm3, Hm2 by (done || (left; destruct Hrep2 as (_ & _ & _ & _ & _ & _ & _ & _ & _ & Hd);
      cbn [fmap list_fmap pairwise_disj] in Hd; destruct Hd as [Hd _]; apply Forall_cons in Hd as [Hd _];
      unfold disj, ends in *; lia)).
    apply Hm1. by right.
Qed.

(** ** A freshly spawned process *)
Definition fresh_cpu (entry top : Z) : vcpu :=
  {| regs := <[RSP := top]> (fun _ => 0); v_rip := entry; v_rflags := load_flags 0x200;
     v_cs := 0x08; v_ss := 0x10 |}.

Lemma fresh_saved m entry top sp :
  Sched.words_at m sp (Sched.fresh_words entry top) -> saved_frame m (fresh_cpu entry top) sp.
Proof.
  intros Hw. exists 0x200. split; [done|].
  replace ((regs (fresh_cpu entry top) <$> restore_order) ++ _) with (Sched.fresh_words entry top); [done|].
  unfold Sched.fresh_words, fresh_cpu. cbn -[Z.add]. reflexivity.
Qed.

Lemma spawned_rsp n stack : Sched.rsp_of (Sched.spawned n stack) = stack + 16224.
Proof.
  unfold Sched.rsp_of. cbn [Sched.spawned context with_rsp rsp].
  change Sched.STACK_SIZE with 16384. lia.
Qed.

Lemma spawned_ok `{GlobalHeap G mem} entry t n g m stack g1 m1 :
  Sched.has_room t -> heap_alloc {| size := Sched.STACK_SIZE; align := 1 |} (g, m) = (Done stack, (g1, m1)) ->
  0 < stack /\ stack + Sched.STACK_SIZE < 2 ^ 64 -> stack mod 8 = 0 ->
  exists m', Sched.spawn entry (t, (n, (g, m))) =
      (Done n, (with_processes (processes t ++ [Sched.spawned n stack]) t, (wrap 64 (n + 1), (g1, m')))) /\
    waiting m' (Sched.spawned n stack)
      (fresh_cpu entry (stack + Sched.STACK_SIZE), (stack, Sched.STACK_SIZE)) /\
    Sched.same_outside m1 m' stack (stack + Sched.STACK_SIZE).
Proof.
  intros Hroom Hheap Hrange Halign.
  destruct (Sched.spawn_ok entry t n g m stack g1 m1 Hroom Hheap Hrange Halign) as (m' & E & Hw & _ & Hm).
  exists m'. split; [exact E|]. split; [|done]. unfold waiting. cbn [fst snd]. split_and!.
  - by apply fresh_saved.
  - rewrite spawned_rsp. unfold within, ends, frame_size. change Sched.STACK_SIZE with 16384.
    cbn [fst snd]. lia.
  - rewrite spawned_rsp. lia.
  - rewrite spawned_rsp. replace (stack + 16224) with (stack + 2028 * 8) by lia. by rewrite Z.mod_add.
Qed.

(** [spawn] forges a context.  The frame [spawn] builds is a complete
    context of the new process: restored by a handler, it starts at the entry
    point with zero registers, on the top of its own stack, in the kernel's
    segments, and with interrupts enabled, so that it can be preempted. *)
Theorem spawned_waiting `{GlobalHeap G mem} entry t n g m stack g1 m1 (Hroom : Sched.has_room t)
    (Hheap : heap_alloc {| size := Sched.STACK_SIZE; align := 1 |} (g, m) = (Done stack, (g1, m1)))
    (Hrange : 0 < stack /\ stack + Sched.STACK_SIZE < 2 ^ 64) (Halign : stack mod 8 = 0) :
  let top := stack + Sched.STACK_SIZE in
  exists t' n' m', Sched.spawn entry (t, (n, (g, m))) = (Done n, (t', (n', (g1, m')))) /\
    processes t' = processes t ++ [Sched.spawned n stack] /\
    waiting m' (Sched.spawned n stack) (fresh_cpu entry top, (stack, Sched.STACK_SIZE)) /\
    Z.testbit (v_rflags (fresh_cpu entry top)) 9 = true /\
    Sched.same_outside m1 m' stack top.
Proof.
  cbn zeta. destruct (spawned_ok entry t n g m stack g1 m1 Hroom Hheap Hrange Halign) as (m' & E & Hw & Hm).
  eexists _, _, m'. split; [exact E|]. by split_and!.
Qed.

(** ** The cooperative switch *)
Section coop.
Context (h : bool) (procs : list Process) (cur : Z) (buf : RawVec) (pics : Locked unit) (dv : io D).
Context (old new : Z) (q : Process).
Context (Hold : (Z.to_nat old < length procs)%nat) (Hne : Z.to_nat old <> Z.to_nat new).
Context (Hq : procs !! Z.to_nat new = Some q).

(** The machine during the routine: the old process's slot is being written. *)
Definition during (c : vcpu) (m : mem) (p : Process) : mach D :=
  {| cpu := c; memory := m; kern :=
     {| SCHEDULER := {| held := h; inner := Some {| processes := <[Z.to_nat old := p]> procs;
                                                    current_index := cur; buffer := buf |} |};
        PICS := pics; kio := dv |} |}.

Lemma store_old_during off r c m p :
  exec old new (StoreOld off r) (during c m p)
  = (Done tt, during c m (set_context (ctx_store off (regs c r)) p)).
Proof.
  cbn [exec]. unfold get_reg. rewrite gets_bind. unfold on_table, on_kern, on_sched, zoom.
  cbn [during kern SCHEDULER inner cpu memory]. rewrite (Sched.update_proc_ok _ _ _ p).
  - cbn [with_processes processes current_index buffer]. by rewrite list_insert_insert_eq.
  - cbn [processes]. by apply list_lookup_insert_eq.
Qed.

Lemma load_new_during r off v c m p :
  ctx_load off (context q) = Some v ->
  exec old new (LoadNew r off) (during c m p) = (Done tt, during (set_reg r v c) m p).
Proof.
  intros Hv. cbn [exec]. erewrite bind_done.
  2:{ unfold on_table, on_kern, on_sched, zoom. cbn [during kern SCHEDULER inner cpu memory].
      rewrite (Sched.index_proc_ok _ _ q); [done|]. cbn [processes]. by rewrite list_lookup_insert_ne. }
  rewrite Hv. done.
Qed.

(** What the routine saves. *)
Definition coop_context (c : vcpu) (ra : Z) (ctx : ProcessContext) : ProcessContext :=
  {| r15 := regs c R15; r14 := regs c R14; r13 := regs c R13; r12 := regs c R12; rbx := regs c RBX;
     rbp := regs c RBP; rip := ra; rsp := regs c RSP; rflags := rflags ctx |}.

(** And what it loads, before the final [ret]. *)
Definition coop_regs (ctx : ProcessContext) (ra : Z) (c : vcpu) : vcpu :=
  set_reg RAX (rip ctx) (set_reg RSP (rsp ctx) (set_reg RBP (rbp ctx) (set_reg RBX (rbx ctx)
    (set_reg R12 (r12 ctx) (set_reg R13 (r13 ctx) (set_reg R14 (r14 ctx) (set_reg R15 (r15 ctx)
      (set_reg RAX ra c)))))))).

Lemma context_switch_during c m p ra :
  0 < regs c RSP -> regs c RSP mod 8 = 0 -> m !! regs c RSP = Some ra ->
  0 < rsp (context q) -> rsp (context q) mod 8 = 0 ->
  context_switch old new (during c m p) =
    (Done tt, during (set_rip (rip (context q)) (set_reg RSP (rsp (context q) + 8) (coop_regs (context q) ra c)))
                (<[rsp (context q) := rip (context q)]> m) (set_context (coop_context c ra) p)).
Proof.
  intros Hsp Ha Hra Hnsp Hna. unfold context_switch, context_switch_code. cbn [for_each].
  do 7 (erewrite bind_done; [|apply store_old_during]).
  rewrite (bind_done _ _ _ tt (during (set_reg RAX ra c) m (set_context (ctx_store 56 (regs c RSP))
    (set_context (ctx_store 40 (regs c RBP)) (set_context (ctx_store 32 (regs c RBX))
    (set_context (ctx_store 24 (regs c R12)) (set_context (ctx_store 16 (regs c R13))
    (set_context (ctx_store 8 (regs c R14)) (set_context (ctx_store 0 (regs c R15)) p))))))))).
  2:{ cbn [exec]. unfold get_reg. rewrite gets_bind. erewrite bind_done; [|unfold on_mem; apply zoom_done;
      cbn [during cpu memory]; by apply read_word_ok]. done. }
  erewrite bind_done; [|apply store_old_during].
  do 8 (erewrite bind_done; [|by apply load_new_during]).
  set (c1 := set_reg RAX (rip (context q)) _).
  set (p1 := set_context (ctx_store 48 _) _).
  assert (E1 : exec old new (StoreTop RAX) (during c1 m p1)
               = (Done tt, during c1 (<[rsp (context q) := rip (context q)]> m) p1)).
  { cbn [exec]. unfold get_reg. rewrite !gets_bind. unfold on_mem.
    unfold zoom. cbn [during cpu memory]. change (regs c1 RSP) with (rsp (context q)).
    change (regs c1 RAX) with (rip (context q)). rewrite (write_word_ok _ _ m Hnsp Hna). done. }
  rewrite (bind_done _ _ _ _ _ E1).
  assert (E2 : exec old new Ret (during c1 (<[rsp (context q) := rip (context q)]> m) p1)
    = (Done tt, during (set_rip (rip (context q)) (set_reg RSP (rsp (context q) + 8) c1))
                  (<[rsp (context q) := rip (context q)]> m) p1)).
  { cbn [exec]. rewrite (bind_done _ _ _ _ _ (pop_val_eq (during c1 _ p1) (rip (context q))
      Hnsp Hna (lookup_insert_eq _ _ _))). done. }
  by rewrite (bind_done _ _ _ _ _ E2).
Qed.
End coop.

(** What [execute_switch] leaves of the switched-out process's context. *)
Definition yielded (ra : Z) (c : vcpu) : ProcessContext -> ProcessContext :=
  coop_context (set_reg RSP (regs c RSP - 8) c) ra.

(** The registers that a resumed context determines. *)
Definition resumed (ctx : ProcessContext) (c : vcpu) : Prop :=
  regs c R15 = r15 ctx /\ regs c R14 = r14 ctx /\ regs c R13 = r13 ctx /\ regs c R12 = r12 ctx /\
  regs c RBX = rbx ctx /\ regs c RBP = rbp ctx /\ regs c RSP = rsp ctx + 8 /\ v_rip c = rip ctx.

Lemma resumed_yielded ra c ctx c' :
  resumed (yielded ra c ctx) c' ->
  v_rip c' = ra /\ forall r, callee_saved r = true -> regs c' r = regs c r.
Proof.
  intros (H15 & H14 & H13 & H12 & Hbx & Hbp & Hrsp & Hrip).
  unfold yielded in *. cbn [coop_context r15 r14 r13 r12 rbx rbp rsp rip] in *. split; [done|].
  intros [] Hr; try done; rewrite ?set_reg_eq, ?set_reg_ne in * by done; try done. lia.
Qed.

Lemma execute_switch_eq ra s tab p p' q :
  SCHEDULER (kern s) = Locked_new (Some tab) -> Sched.sched_ok tab -> Sched.ring tab = p :: p' :: q ->
  8 < regs (cpu s) RSP -> regs (cpu s) RSP mod 8 = 0 ->
  0 < rsp (context p') -> rsp (context p') mod 8 = 0 ->
  exists s', execute_switch ra s = (Done true, s') /\ resumed (context p') (cpu s') /\
    v_rflags (cpu s') = v_rflags (cpu s) /\
    memory s' = <[rsp (context p') := rip (context p')]> (<[regs (cpu s) RSP - 8 := ra]> (memory s)) /\
    SCHEDULER (kern s') = Locked_new (Some (Sched.turned (set_context (yielded ra (cpu s))) tab)) /\
    PICS (kern s') = PICS (kern s).
Proof.
  intros Hsch Hok Er Hsp Ha Hnsp Hna.
  pose proof (Sched.select_switch_turn tab p p' q Hok Er) as Hturn. cbn zeta in Hturn.
  destruct Hturn as (Esel & Hne & Hi & Hj & Hp & Hp' & Hf).
  set (t := Sched.turned (fun p => p) tab) in *.
  set (s1 := {| cpu := cpu s; memory := memory s; kern :=
    {| SCHEDULER := Locked_new (Some t); PICS := PICS (kern s); kio := kio (kern s) |} |}).
  assert (E1 : on_kern (on_sched Sched.select_switch) s
               = (Done (Some (current_index tab, current_index t)), s1)).
  { unfold on_kern, on_sched, zoom. by rewrite Hsch, Esel. }
  unfold execute_switch. rewrite (bind_done _ _ _ _ _ E1).
  rewrite (bind_done _ _ _ _ _ (push_val_eq ra s1 Hsp Ha)). cbn [s1 cpu memory kern].
  set (c1 := set_reg RSP (regs (cpu s) RSP - 8) (cpu s)).
  set (m1 := <[regs (cpu s) RSP - 8 := ra]> (memory s)).
  assert (Ec1 : regs c1 RSP = regs (cpu s) RSP - 8) by apply set_reg_eq.
  pose proof (context_switch_during false (processes t) (current_index t) (buffer t) (PICS (kern s)) (kio (kern s))
    (current_index tab) (current_index t) (set_state Running p') ltac:(by apply lookup_lt_Some in Hp)
    ltac:(lia) Hp' c1 m1 (set_state Ready p) ra) as Hcs.
  rewrite Ec1 in Hcs. specialize (Hcs ltac:(lia) (aligned_sub _ 1 Ha) (lookup_insert_eq _ _ _) Hnsp Hna).
  unfold during in Hcs at 1. rewrite list_insert_id in Hcs by done.
  assert (Eta : forall t : Scheduler, {| processes := processes t; current_index := current_index t; buffer := buffer t |} = t)
    by (by intros []).
  rewrite Eta in Hcs. erewrite bind_done; [|exact Hcs].
  destruct (Hf (yielded ra (cpu s))) as (Etab & _ & _).
  eexists. split; [done|]. unfold during. cbn [cpu memory kern SCHEDULER PICS set_state context].
  split_and!; try done.
  - change (coop_context c1 ra) with (yielded ra (cpu s)). rewrite Etab. done.
Qed.

(** A cooperative round trip.  When a process that yielded is switched to
    again, at any later time, by whichever process yields then, it returns
    from its call of the switch: at its return address, with its stack pointer
    and all the registers the calling convention entitles it to. *)
Theorem cooperative_roundtrip ra s tab p p' q ra2 s2 tab2 x y q2
    (Hsch : SCHEDULER (kern s) = Locked_new (Some tab)) (Hok : Sched.sched_ok tab)
    (Hring : Sched.ring tab = p :: p' :: q)
    (Hsp : 8 < regs (cpu s) RSP /\ regs (cpu s) RSP mod 8 = 0)
    (Hnext : 0 < rsp (context p') /\ rsp (context p') mod 8 = 0)
    (Hsch2 : SCHEDULER (kern s2) = Locked_new (Some tab2)) (Hok2 : Sched.sched_ok tab2)
    (Hring2 : Sched.ring tab2 = x :: y :: q2)
    (Hsp2 : 8 < regs (cpu s2) RSP /\ regs (cpu s2) RSP mod 8 = 0) :
  exists s' tab', execute_switch ra s = (Done true, s') /\
    SCHEDULER (kern s') = Locked_new (Some tab') /\ Sched.sched_ok tab' /\
    Sched.ring tab' = set_state Running p' :: q ++ [set_state Ready (set_context (yielded ra (cpu s)) p)] /\
    (context y = yielded ra (cpu s) (context p) ->
     exists s2', execute_switch ra2 s2 = (Done true, s2') /\ v_rip (cpu s2') = ra /\
       (forall r, callee_saved r = true -> regs (cpu s2') r = regs (cpu s) r)).
Proof.
  destruct Hsp as [Hsp Ha], Hnext as [Hn Hna], Hsp2 as [Hsp2 Ha2].
  destruct (execute_switch_eq ra s tab p p' q Hsch Hok Hring Hsp Ha Hn Hna)
    as (s' & E & _ & _ & _ & Hsch' & _).
  pose proof (Sched.select_switch_turn tab p p' q Hok Hring) as Hturn. cbn zeta in Hturn.
  destruct Hturn as (_ & _ & _ & _ & _ & _ & Hf). destruct (Hf (yielded ra (cpu s))) as (_ & Hok' & Er').
  exists s'. eexists. split_and!; [exact E|exact Hsch'|done|done|]. intros Ey.
  destruct (execute_switch_eq ra2 s2 tab2 x y q2 Hsch2 Hok2 Hring2 Hsp2 Ha2)
    as (s2' & E2 & Hres & _).
  { rewrite Ey. change (0 < regs (cpu s) RSP - 8). lia. }
  { rewrite Ey. by apply (aligned_sub _ 1). }
  exists s2'. split; [done|]. rewrite Ey in Hres. by apply (resumed_yielded _ _ (context p)).
Qed.

(** C37: yielding to a process that never yielded.  [yield_now] expects the next
    process to have been switched out by [yield_now]; a process that was only
    spawned, or only ever preempted, has no return address in its context: the
    switch jumps to address zero, whatever the process's entry point is, and it
    overwrites the first saved register in the process's interrupt frame. *)
Theorem yield_to_spawned_jumps_to_zero ra s tab p p' q
    (Hsch : SCHEDULER (kern s) = Locked_new (Some tab)) (Hok : Sched.sched_ok tab)
    (Hring : Sched.ring tab = p :: p' :: q)
    (Hsp : 8 < regs (cpu s) RSP /\ regs (cpu s) RSP mod 8 = 0)
    (Hnext : 0 < rsp (context p') /\ rsp (context p') mod 8 = 0)
    (Hnever : rip (context p') = 0) :
  exists s', yield_now ra s = (Done tt, s') /\ v_rip (cpu s') = 0 /\
    memory s' !! rsp (context p') = Some 0 /\ Z.testbit (v_rflags (cpu s')) 9 = false.
Proof.
  set (s1 := {| cpu := set_flags (cli (v_rflags (cpu s))) (cpu s); memory := memory s; kern := kern s |}).
  destruct Hsp as [Hsp Ha], Hnext as [Hn Hna].
  destruct (execute_switch_eq ra s1 tab p p' q Hsch Hok Hring Hsp Ha Hn Hna)
    as (s' & E & (_ & _ & _ & _ & _ & _ & _ & Hrip) & Hfl & Hm & _).
  exists s'. unfold yield_now. rewrite (bind_done _ _ _ tt s1) by done.
  rewrite (bind_done _ _ _ _ _ E). split; [done|]. rewrite Hrip, Hm, Hfl, Hnever. split_and!; [done| |].
  - apply lookup_insert_eq.
  - cbn [s1 cpu set_flags v_rflags]. unfold cli, IF_BIT. rewrite Z.ldiff_spec. cbn. by rewrite andb_false_r.
Qed.

(** ** The software yield *)

(** [software_yield_handler]: call the bridge, which yields, and return; [ra] as
    above.  The handler saves no registers itself. *)
Definition software_yield_handler (ra : Z) : M (mach D) unit :=
  _ ← yield_now ra;
  sp ← get_reg RSP;
  _ ← on_mem (modify (scratch sp));
  _ ← on_cpu (after_call None);
  exec 0 0 Iretq.

(** Nothing to switch to: the scheduler is not set up, or it has fewer than two
    processes. *)
Definition alone (k : kernel D) : Prop :=
  inner (SCHEDULER k) = None \/
  exists t, inner (SCHEDULER k) = Some t /\ Z.of_nat (length (processes t)) < 2.

Lemma cli_if f : Z.testbit (cli f) 9 = false.
Proof. unfold cli, IF_BIT. rewrite Z.ldiff_spec. cbn. by rewrite andb_false_r. Qed.

Lemma yield_no_switch ra s :
  held (SCHEDULER (kern s)) = false -> alone (kern s) ->
  yield_now ra s = (Done tt, {| cpu := set_flags (sti (cli (v_rflags (cpu s)))) (cpu s);
                                memory := memory s; kern := kern s |}).
Proof.
  intros Hheld Hin. destruct s as [c m [[h l] pics dv]]. cbn [kern cpu memory] in *.
  unfold alone in Hin. cbn [SCHEDULER held inner] in *. subst h. unfold yield_now, execute_switch.
  rewrite (bind_done _ _ _ tt {| cpu := set_flags (cli (v_rflags c)) c; memory := m;
    kern := {| SCHEDULER := Locked_new l; PICS := pics; kio := dv |} |}) by done.
  rewrite (bind_done _ _ _ false {| cpu := set_flags (cli (v_rflags c)) c; memory := m;
    kern := {| SCHEDULER := Locked_new l; PICS := pics; kio := dv |} |}); [done|].
  erewrite bind_done; [|unfold on_kern, on_sched, zoom; cbn [kern SCHEDULER];
    rewrite (Sched.select_switch_idle l) by done; done].
  done.
Qed.

(** The software yield handler on a complete interrupt frame at [sp], when there
    is nothing to switch to. *)
Lemma software_yield_returns ra s sp ip cs fl usp ss :
  held (SCHEDULER (kern s)) = false -> alone (kern s) ->
  regs (cpu s) RSP = sp -> 0 < sp -> sp mod 8 = 0 ->
  Sched.words_at (memory s) sp [ip; cs; fl; usp; ss] ->
  exists c0 s', software_yield_handler ra s = (Done tt, s') /\
    v_rip (cpu s') = ip /\ v_rflags (cpu s') = load_flags fl /\ regs (cpu s') RSP = usp /\
    forall r, r <> RSP -> regs (cpu s') r = if callee_saved r then regs (cpu s) r else clobber r c0.
Proof.
  intros Hheld Hin Esp Hsp Hal Hw. unfold software_yield_handler.
  rewrite (bind_done _ _ _ _ _ (yield_no_switch ra s Hheld Hin)).
  set (c1 := set_flags (sti (cli (v_rflags (cpu s)))) (cpu s)).
  unfold get_reg. rewrite gets_bind. cbn [cpu].
  set (m2 := scratch (regs c1 RSP) (memory s)).
  rewrite (bind_done _ _ _ tt {| cpu := c1; memory := m2; kern := kern s |}) by done.
  rewrite (bind_done _ _ _ tt {| cpu := after_call None c1; memory := m2; kern := kern s |}) by done.
  assert (Hw2 : Sched.words_at m2 sp [ip; cs; fl; usp; ss]).
  { apply (Sched.words_at_frame (memory s)); [done|]. intros a Ha.
    apply scratch_below. change (regs c1 RSP) with (regs (cpu s) RSP). lia. }
  destruct (iretq_eq {| cpu := after_call None c1; memory := m2; kern := kern s |}
    sp ip cs fl usp ss 0 0 Esp Hsp Hal Hw2) as (s3 & E3 & Er3 & Ho3 & Hi3 & Hf3 & _).
  exists c1, s3. split_and!; [exact E3|done..|].
  intros r Hne. rewrite Ho3 by done. cbn [cpu after_call regs].
  destruct (callee_saved r); [done|by destruct r].
Qed.

(** Yields that do not switch.  With the scheduler's lock held, [yield_now]
    hangs with interrupts off; with fewer than two processes it only enables
    interrupts, even when they were disabled.  The software yield interrupt
    then returns to the interrupted instruction, stack and flags, but of the
    general registers only the ones a call preserves survive: the others hold
    whatever the compiled code left in them. *)
Theorem yield_idle ra s :
  (held (SCHEDULER (kern s)) = true ->
   exists s', yield_now ra s = (Hang, s') /\ Z.testbit (v_rflags (cpu s')) 9 = false) /\
  (held (SCHEDULER (kern s)) = false -> alone (kern s) ->
   (exists c, yield_now ra s = (Done tt, {| cpu := c; memory := memory s; kern := kern s |}) /\
      Z.testbit (v_rflags c) 9 = true /\ forall r, regs c r = regs (cpu s) r) /\
   (40 < aligned_top (cpu s) -> load_flags (v_rflags (cpu s)) = v_rflags (cpu s) ->
    exists c0 s', (_ ← interrupt_entry; software_yield_handler ra) s = (Done tt, s') /\
      v_rip (cpu s') = v_rip (cpu s) /\ v_rflags (cpu s') = v_rflags (cpu s) /\
      forall r, regs (cpu s') r = if callee_saved r then regs (cpu s) r else clobber r c0)).
Proof.
  split; [|intros Hheld Hin; split].
  - destruct s as [c m [[h l] pics dv]]. cbn [kern SCHEDULER held]. intros ->.
    eexists. split; [reflexivity|]. apply cli_if.
  - eexists. split; [by apply yield_no_switch|]. cbn [set_flags v_rflags regs]. split; [|done].
    unfold sti, IF_BIT. rewrite Z.lor_spec. cbn. by rewrite orb_true_r.
  - intros Htop Hfl.
    destruct (interrupt_entry_eq s Htop) as (s1 & E1 & Er1 & Ho1 & _ & Hw1 & _ & Hk1).
    rewrite (bind_done _ _ _ _ _ E1). rewrite <- Hk1 in Hheld, Hin.
    assert (Ha1 : (aligned_top (cpu s) - 40) mod 8 = 0)
      by (apply (aligned_sub _ 5), mod16_mod8, aligned_top_mod).
    destruct (software_yield_returns ra s1 _ _ _ _ _ _ Hheld Hin Er1 ltac:(lia) Ha1 Hw1)
      as (c0 & s' & E & Hip & Hf & Hsp & Hr).
    exists c0, s'. split_and!; [exact E|done|by rewrite Hf|].
    intros r. destruct (decide (r = RSP)) as [->|Hne]; [done|].
    rewrite Hr by done. by case_match; [apply Ho1|].
Qed.
End cpu.

(** ** Witnesses: a process running on the stack 0x6000-0x8000, and one that
    was just spawned on the stack 0x10000-0x14000 *)
#[local] Instance wprofile : BuildProfile := true.
#[local] Instance wconv : CallingConvention :=
  {| call_stack := 64; clobber := fun _ _ => 0xdead; scratch := fun sp m => <[sp - 8 := 0xbeef]> m |}.
#[local] Instance wconv_laws : CallingLaws.
Proof.
  split; [done|]. intros sp m a Ha. cbn in *. apply lookup_insert_ne. lia.
Defined.
#[local] Instance wdevice : Device unit := {| dev_out := fun _ _ _ d => d; dev_in := fun _ _ d => (0x1c, d) |}.

Definition wcpu : vcpu :=
  {| regs := <[RSP := 0x7ff8]> (fun r => if decide (r = RAX) then 7 else 3); v_rip := 0x401000;
     v_rflags := 0x202; v_cs := 8; v_ss := 0x10 |}.
Definition wmem : mem :=
  foldr (fun '(a, v) m => <[a := v]> m) ∅
    (zip (seqZ 0 20 ≫= (fun k => [0x14000 - 160 + 8 * k])) (Sched.fresh_words 0xcafe 0x14000)).
Definition wtab : Scheduler :=
  {| processes := [ {| id := 0; state := Running; context := ProcessContext_zero; _stack := (1, 0) |};
                    Sched.spawned 1 0x10000 ]; current_index := 0; buffer := {| buf_ptr := 0x800; buf_cap := 4 |} |}.
Definition wkern (l : Locked (option Scheduler)) : kernel unit :=
  {| SCHEDULER := l; PICS := Locked_new (); kio := {| dev := (); trace := [] |} |}.
Definition wmach : mach unit :=
  {| cpu := wcpu; memory := wmem; kern := wkern (Locked_new (Some wtab)) |}.
Definition wprocs : list (vcpu * (Z * Z)) :=
  [(wcpu, (0x6000, 0x2000)); (fresh_cpu 0xcafe 0x14000, (0x10000, 0x4000))].

Lemma wtab_ok : Sched.sched_ok wtab.
Proof.
  unfold Sched.sched_ok. cbn. split_and!; [done..|].
  intros [|[|i]] p Hi; try done; injection Hi as <-; cbn; split; (done || lia).
Qed.

Lemma wmem_frame : saved_frame wmem (fresh_cpu 0xcafe 0x14000) (0x14000 - 160).
Proof.
  apply fresh_saved. intros k w Hk.
  do 20 (destruct k as [|k]; [injection Hk as <-; vm_compute; reflexivity|]). done.
Qed.

Lemma wconfig_ok : config_ok (wmach, wprocs).
Proof.
  unfold config_ok. cbn [fst snd]. split_and!; [|cbn; lia|].
  - exists wtab, (wcpu, (0x6000, 0x2000)), [(fresh_cpu 0xcafe 0x14000, (0x10000, 0x4000))].
    split_and!; try done; [apply wtab_ok| |].
    + constructor; [|constructor]. unfold waiting. cbn [fst snd].
      split_and!; [apply wmem_frame|unfold within, ends; vm_compute; intuition congruence|done|done].
    + cbn. split_and!; [|done|done]. constructor; [|done]. left. done.
  - constructor; [|constructor; [|done]].
    + unfold interruptible. cbn. unfold ends. cbn. split_and!; (done || vm_compute; congruence).
    + unfold interruptible. cbn. unfold ends. cbn. split_and!; (done || vm_compute; congruence).
Qed.

Lemma interrupt_transparent_witness :
  exists s', interrupt (irq_handler KeyboardIrq)
    {| cpu := wcpu; memory := ∅; kern := wkern (Locked_new None) |} = (Done tt, s') /\ cpu s' ≡ wcpu.
Proof.
  assert (Hroom : frame_size + call_stack < aligned_top wcpu) by done.
  destruct (interrupt_transparent KeyboardIrq
    {| cpu := wcpu; memory := ∅; kern := wkern (Locked_new None) |} Hroom eq_refl eq_refl
    (or_intror (or_introl eq_refl))) as (s' & E & Hc & _).
  exists s'. split; [exact E|exact Hc].
Defined.

Lemma interrupt_switches_witness :
  exists s', interrupt (irq_handler TimerIrq) wmach = (Done tt, s') /\
    represents s' [(fresh_cpu 0xcafe 0x14000, (0x10000, 0x4000)); (wcpu, (0x6000, 0x2000))].
Proof.
  destruct (interrupt_switches TimerIrq wmach (wcpu, (0x6000, 0x2000))
    (fresh_cpu 0xcafe 0x14000, (0x10000, 0x4000)) [] (proj1 wconfig_ok)
    (Forall_inv (proj2 (proj2 wconfig_ok)))) as (s' & E & Hr & _).
  exists s'. split; [exact E|exact Hr].
Defined.

Lemma preemption_transparent_witness :
  exists s1 s3, interrupt (irq_handler TimerIrq) wmach = (Done tt, s1) /\
    interrupt (irq_handler KeyboardIrq) s1 = (Done tt, s3) /\ cpu s3 ≡ wcpu.
Proof.
  destruct (interrupt_switch_step TimerIrq wmach (wcpu, (0x6000, 0x2000))
    (fresh_cpu 0xcafe 0x14000, (0x10000, 0x4000)) [] (proj1 wconfig_ok)
    (Forall_inv (proj2 (proj2 wconfig_ok)))) as (s1 & E & _).
  destruct (preemption_transparent TimerIrq KeyboardIrq wmach (wcpu, (0x6000, 0x2000))
    [(fresh_cpu 0xcafe 0x14000, (0x10000, 0x4000))] s1 s1 _ 0 wconfig_ok E (steps_refl _)
    ltac:(cbn; lia)) as (s3 & E3 & Hc).
  exists s1, s3. split; [exact E|]. split; [exact E3|]. exact (proj1 (Hc eq_refl)).
Defined.

Lemma spawned_waiting_witness :
  exists t' n' m', Sched.spawn (H1 := Sched.bump_heap) 0xcafe (Sched.root_table 0x800, (1, (0x10000, ∅)))
                   = (Done 1, (t', (n', (0x14000, m')))) /\
    processes t' = processes (Sched.root_table 0x800) ++ [Sched.spawned 1 0x10000].
Proof.
  destruct (spawned_waiting (H2 := Sched.bump_heap) 0xcafe (Sched.root_table 0x800) 1 0x10000 ∅ 0x10000 0x14000 ∅
    eq_refl eq_refl ltac:(split; done) eq_refl) as (t' & n' & m' & E & Hp & _).
  exists t', n', m'. split; [exact E|exact Hp].
Defined.

Definition wtab2 : Scheduler :=
  {| processes := [Sched.wproc 0 Running;
                   set_state Ready (set_context (yielded 0x402000 wcpu) (Sched.wproc 1 Running))];
     current_index := 0; buffer := {| buf_ptr := 0x800; buf_cap := 4 |} |}.

Lemma wtab2_ok : Sched.sched_ok wtab2.
Proof.
  unfold Sched.sched_ok. cbn. split_and!; [done..|].
  intros [|[|i]] p Hi; try done; injection Hi as <-; cbn; split; (done || lia).
Qed.

Lemma cooperative_roundtrip_witness :
  exists s2', execute_switch 0x403000
    {| cpu := wcpu; memory := ∅; kern := wkern (Locked_new (Some wtab2)) |} = (Done true, s2') /\
    v_rip (cpu s2') = 0x402000.
Proof.
  destruct (cooperative_roundtrip 0x402000
    {| cpu := wcpu; memory := ∅; kern := wkern (Locked_new (Some Sched.wsched)) |} Sched.wsched _ _ _
    0x403000 {| cpu := wcpu; memory := ∅; kern := wkern (Locked_new (Some wtab2)) |} wtab2 _ _ _
    eq_refl Sched.wsched_ok eq_refl ltac:(split; done) ltac:(split; done) eq_refl wtab2_ok eq_refl
    ltac:(split; done)) as (s' & tab' & _ & _ & _ & _ & Hback).
  destruct (Hback eq_refl) as (s2' & E & Hrip & _).
  exists s2'. split; [exact E|exact Hrip].
Defined.

Lemma yield_to_spawned_jumps_to_zero_witness :
  exists s', yield_now 0x402000 wmach = (Done tt, s') /\ v_rip (cpu s') = 0.
Proof.
  destruct (yield_to_spawned_jumps_to_zero 0x402000 wmach wtab _ _ _ eq_refl wtab_ok eq_refl
    ltac:(split; done) ltac:(split; done) eq_refl) as (s' & E & Hrip & _).
  exists s'. split; [exact E|exact Hrip].
Defined.

Lemma yield_idle_witness :
  exists s', yield_now 0x402000 {| cpu := wcpu; memory := ∅;
      kern := wkern {| held := true; inner := Some wtab |} |} = (Hang, s') /\
    Z.testbit (v_rflags (cpu s')) 9 = false.
Proof.
  exact (proj1 (yield_idle 0x402000 {| cpu := wcpu; memory := ∅;
      kern := wkern {| held := true; inner := Some wtab |} |}) eq_refl).
Defined.
End Cpu.
