(* ===== verification/Rtl8139.v ===== *)
(** * The RTL8139 network card driver

    [networking/rtl8139.rs] of the networking kernel: initialisation, the PCI
    set-up that precedes it, and packet transmission.  The card and the PCI bus
    are a [Device]; the loops that wait for the card take fuel, and the theorems
    give it as the number of reads after which the card answers. *)

From S2P Require Import Prelude Store X86.

(** ** PCI configuration addresses *)
Definition shl32 (x k : Z) : Z := wrap 32 (Z.shiftl x k).

Definition pci_address (bus slot func offset : Z) : Z :=
  Z.lor (Z.lor (Z.lor (Z.lor (shl32 1 31) (shl32 bus 16)) (shl32 slot 11)) (shl32 func 8)) offset.

(** ** The driver *)
Definition RX_BUFFER_SIZE : Z := 8192 + 16.

Record Rtl8139Driver := { io_base : Z; rx_buffer : list Z; tx_index : Z }.

Module Rtl8139.

Definition new (base : Z) : Rtl8139Driver :=
  {| io_base := base; rx_buffer := replicate (Z.to_nat RX_BUFFER_SIZE) 0; tx_index := 0 |}.

Section rtl8139.
Context `{BuildProfile} `{Device D}.

(** [while !done(port.read()) { spin_loop() }]. *)
Fixpoint poll (fuel : nat) (w : width) (port : Z) (finished : Z -> bool) : M (io D) unit :=
  match fuel with
  | O => fail NoFuel
  | S fuel =>
      v ← port_read w port;
      if finished v then mret tt else poll fuel w port finished
  end.

(** The card answers within [n] reads. *)
Fixpoint answers (n : nat) (w : width) (port : Z) (finished : Z -> bool) (d : D) : bool :=
  match n with
  | O => false
  | S n => let '(v, d) := dev_in w port d in finished v || answers n w port finished d
  end.

(** ** [init]; [rx_ptr] is the address of [self.rx_buffer]. *)
Definition init (fuel : nat) (rx_ptr : Z) (self : Rtl8139Driver) : M (io D) unit :=
  port_cr ← lift (uadd 16 (io_base self) 0x37);
  port_rbstart ← lift (uadd 16 (io_base self) 0x30);
  port_imr ← lift (uadd 16 (io_base self) 0x3C);
  port_isr ← lift (uadd 16 (io_base self) 0x3E);
  port_rcr ← lift (uadd 16 (io_base self) 0x44);
  _ ← println "RTL8139: Starting hardware initialization..." [];
  _ ← port_write W8 port_cr 0x10;
  _ ← poll fuel W8 port_cr (fun v => bool_decide (Z.land v 0x10 = 0));
  _ ← println "RTL8139: Reset complete." [];
  let rx_buffer_phys_addr := wrap 32 rx_ptr in
  _ ← port_write W32 port_rbstart rx_buffer_phys_addr;
  let rcr_config := Z.lor (Z.lor (Z.lor (Z.lor (Z.shiftl 1 7) (Z.shiftl 1 3)) (Z.shiftl 1 2))
                                 (Z.shiftl 1 1)) (Z.shiftl 1 0) in
  _ ← port_write W32 port_rcr rcr_config;
  _ ← port_write W16 port_isr 0xFFFF;
  _ ← port_write W16 port_imr 0x0005;
  _ ← port_write W8 port_cr 0x0C;
  println "RTL8139: Driver successfully initialized and listening for packets." [].

(** ** [send_packet] *)
Definition on_io {A} (c : M (io D) A) : M (Rtl8139Driver * io D) A :=
  zoom snd (fun t s => (s.1, t)) c.

Definition send_packet (fuel : nat) (phys_addr length : Z) : M (Rtl8139Driver * io D) unit :=
  self ← gets fst;
  t ← lift (umul 16 (tx_index self) 4);
  tsad_offset ← lift (uadd 16 0x20 t);
  t ← lift (umul 16 (tx_index self) 4);
  tsd_offset ← lift (uadd 16 0x10 t);
  port_tsad ← lift (uadd 16 (io_base self) tsad_offset);
  port_tsd ← lift (uadd 16 (io_base self) tsd_offset);
  _ ← on_io (port_write W32 port_tsad phys_addr);
  _ ← on_io (port_write W32 port_tsd (Z.land length 0x1FFF));
  _ ← on_io (poll fuel W32 port_tsd (fun v => negb (bool_decide (Z.land v (Z.shiftl 1 13) = 0))));
  i ← lift (uadd 8 (tx_index self) 1);
  _ ← modify (fun s => ({| io_base := io_base s.1; rx_buffer := rx_buffer s.1; tx_index := i mod 4 |}, s.2));
  on_io (println "RTL8139: Real packet data successfully pushed over DMA!" []).

(** ** [init_device] *)
Definition on_static {A} (c : M (io D) A) : M (Locked (option Rtl8139Driver) * io D) A :=
  zoom snd (fun t s => (s.1, t)) c.

(** [local_rx] is the address of the receive buffer inside the local variable
    [driver], on the stack; the value is then moved into the static. *)
Definition init_device (fuel : nat) (local_rx bus slot func : Z)
    : M (Locked (option Rtl8139Driver) * io D) unit :=
  _ ← on_static (port_write W32 0xCF8 (pci_address bus slot func 0x04));
  cmd_status ← on_static (port_read W32 0xCFC);
  let command := Z.lor (Z.lor (wrap 16 (Z.land cmd_status 0xFFFF)) (Z.shiftl 1 2)) (Z.shiftl 1 0) in
  _ ← on_static (port_write W32 0xCFC (Z.lor (Z.land cmd_status 0xFFFF0000) command));
  _ ← on_static (port_write W32 0xCF8 (pci_address bus slot func 0x10));
  bar0 ← on_static (port_read W32 0xCFC);
  if bool_decide (Z.land bar0 1 = 1) then
    let io_base := wrap 16 (Z.land bar0 (unot 32 0x3)) in
    _ ← on_static (println "-> RTL8139 IO Base Address: {:#X}" [io_base]);
    let driver := new io_base in
    _ ← on_static (init fuel local_rx driver);
    _ ← with_lock (modify (fun s => (Some driver, s.2)));
    on_static (println "-> RTL8139 Driver initialized successfully!" [])
  else
    on_static (println "-> Error: RTL8139 is using Memory Mapping, expected I/O Mapping." []).

(** ** Addresses *)

(** Fields that do not overlap: [|] is addition. *)
Lemma lor_add k x y : 0 <= k -> x mod 2 ^ k = 0 -> 0 <= y < 2 ^ k -> Z.lor x y = x + y.
Proof.
  intros Hk Hx Hy. assert (Hl : Z.land x y = 0).
  { apply Z.bits_inj'. intros n Hn. rewrite Z.land_spec, Z.bits_0.
    destruct (Z.lt_ge_cases n k) as [Hlt|Hge].
    - rewrite <- (Z.mod_pow2_bits_low x k n), Hx, Z.bits_0 by lia. done.
    - rewrite <- (Z.mod_small y (2 ^ k)), Z.mod_pow2_bits_high by lia. apply andb_false_r. }
  rewrite <- Z.lxor_lor by done. by rewrite <- Z.add_nocarry_lxor.
Qed.

Lemma shl32_small x k : 0 <= k -> 0 <= x -> x * 2 ^ k < 2 ^ 32 -> shl32 x k = x * 2 ^ k.
Proof.
  intros Hk Hx Hlt. unfold shl32. rewrite Z.shiftl_mul_pow2 by done. apply wrap_small.
  unfold in_range. pose proof (Z.pow_pos_nonneg 2 k). nia.
Qed.

Lemma pci_address_eq bus slot func offset :
  0 <= bus < 256 -> 0 <= slot < 32 -> 0 <= func < 8 -> 0 <= offset < 256 ->
  pci_address bus slot func offset = 2 ^ 31 + bus * 2 ^ 16 + slot * 2 ^ 11 + func * 2 ^ 8 + offset.
Proof.
  intros Hb Hs Hf Ho. unfold pci_address.
  rewrite (shl32_small 1 31), (shl32_small bus 16), (shl32_small slot 11), (shl32_small func 8) by lia.
  assert (Hm : forall a b k, 0 <= k -> a mod 2 ^ k = 0 -> b mod 2 ^ k = 0 -> (a + b) mod 2 ^ k = 0).
  { intros a b k Hk Ha Hb'. by rewrite Zplus_mod, Ha, Hb'. }
  assert (Hx : forall x k j, 0 <= k <= j -> (x * 2 ^ j) mod 2 ^ k = 0).
  { intros x k j Hk. replace (2 ^ j) with (2 ^ (j - k) * 2 ^ k) by (rewrite <- Z.pow_add_r by lia; f_equal; lia).
    rewrite Z.mul_assoc. apply Z.mod_mul. lia. }
  rewrite Z.mul_1_l.
  rewrite (lor_add 31 (2 ^ 31) (bus * 2 ^ 16)); [|done|done|lia].
  rewrite (lor_add 16 _ (slot * 2 ^ 11)); [|done|apply Hm; [done|done|by apply (Hx bus 16 16)]|lia].
  rewrite (lor_add 11 _ (func * 2 ^ 8));
    [|done|apply Hm; [done|apply Hm; [done|done|by apply (Hx bus 11 16)]|by apply (Hx slot 11 11)]|lia].
  rewrite (lor_add 8 _ offset); [done|done| |lia].
  apply Hm; [done|apply Hm; [done|apply Hm; [done|done|by apply (Hx bus 8 16)]|by apply (Hx slot 8 11)]|].
  by apply (Hx func 8 8).
Qed.

(** ** Waiting for the card *)
Definition is_out (e : event) : bool := match e with Out _ _ _ => true | _ => false end.
(** The port writes of a trace. *)
Definition outs (tr : list event) : list event := filter (fun e => is_out e = true) tr.

Lemma outs_app tr tr' : outs (tr ++ tr') = outs tr ++ outs tr'.
Proof. apply filter_app. Qed.

(** The values of [n] reads of a port in a row, and the devices afterwards. *)
Fixpoint reads (n : nat) (w : width) (port : Z) (d : D) : list Z * D :=
  match n with
  | O => ([], d)
  | S n =>
      let '(v, d) := dev_in w port d in
      let '(vs, d) := reads n w port d in (v :: vs, d)
  end.

Lemma reads_length n w port d vs d' : reads n w port d = (vs, d') -> length vs = n.
Proof.
  revert d vs. induction n as [|n IH]; intros d vs; cbn [reads]; [by intros [= <- _]|].
  destruct (dev_in w port d) as [v d1]. destruct (reads n w port d1) as [vs1 d2] eqn:E. intros [= <- <-].
  cbn [length]. by rewrite (IH _ _ E).
Qed.

(** The loop reads until the value says so, and does nothing else. *)
Lemma poll_done fuel w port fin s vs v d :
  reads (S (length vs)) w port (dev s) = (vs ++ [v], d) -> Forall (fun v => fin v = false) vs -> fin v = true ->
  (length vs < fuel)%nat ->
  poll fuel w port fin s = (Done tt, {| dev := d; trace := trace s ++ (In w port <$> vs ++ [v]) |}).
Proof.
  revert fuel s. induction vs as [|v0 vs IH]; intros fuel s E Hvs Hv Hf; (destruct fuel as [|fuel]; [cbn in Hf; lia|]);
    cbn [poll reads length app] in *; rewrite (bind_done _ _ _ _ _ (port_read_eq w port s));
    destruct (dev_in w port (dev s)) as [v1 d1]; cbn [fst snd].
  - injection E as -> ->. rewrite Hv. done.
  - destruct (let '(v2, d2) := dev_in w port d1 in let '(vs0, d3) := reads (length vs) w port d2 in (v2 :: vs0, d3))
      as [vs1 d2] eqn:E1. injection E as -> -> ->. apply Forall_cons in Hvs as [Hv0 Hvs]. rewrite Hv0.
    rewrite (IH fuel {| dev := d1; trace := trace s ++ [In w port v0] |}); [|exact E1|done|done|lia].
    cbn [trace fmap list_fmap]. by rewrite <- app_assoc.
Qed.

Lemma poll_waits fuel w port fin s vs d :
  reads fuel w port (dev s) = (vs, d) -> Forall (fun v => fin v = false) vs ->
  poll fuel w port fin s = (NoFuel, {| dev := d; trace := trace s ++ (In w port <$> vs) |}).
Proof.
  revert s vs. induction fuel as [|fuel IH]; intros s vs; cbn [poll reads].
  { intros [= <- <-] _. unfold fail. cbn. rewrite app_nil_r. by destruct s. }
  rewrite (bind_done _ _ _ _ _ (port_read_eq w port s)). destruct (dev_in w port (dev s)) as [v1 d1]. cbn [fst snd].
  destruct (reads fuel w port d1) as [vs1 d2] eqn:E1. intros [= <- <-] [Hv Hvs]%Forall_cons. rewrite Hv.
  rewrite (IH {| dev := d1; trace := trace s ++ [In w port v1] |} vs1) by done.
  cbn [trace fmap list_fmap]. by rewrite <- app_assoc.
Qed.

Lemma answers_reads n w port fin d :
  answers n w port fin d = true -> exists vs v d', reads (S (length vs)) w port d = (vs ++ [v], d') /\
    Forall (fun v => fin v = false) vs /\ fin v = true /\ (length vs < n)%nat.
Proof.
  revert d. induction n as [|n IH]; intros d; [done|]. cbn [answers]. destruct (dev_in w port d) as [v d1] eqn:E.
  destruct (fin v) eqn:Hv; cbn [orb].
  - intros _. exists [], v, d1. cbn [reads length app]. rewrite E. split_and!; [done|constructor|done|lia].
  - intros (vs & v' & d' & Er & Hvs & Hv' & Hl)%IH. exists (v :: vs), v', d'. cbn [length].
    split_and!; [|by constructor|done|lia]. cbn [reads] in *. rewrite E. by rewrite Er.
Qed.

Lemma outs_ins w port vs : outs (In w port <$> vs) = [].
Proof. by induction vs. Qed.

(** A flag in a register. *)
Lemma land_bit v k : 0 <= k -> bool_decide (Z.land v (2 ^ k) = 0) = negb (Z.testbit v k).
Proof.
  intros Hk. assert (E : Z.land v (2 ^ k) = if Z.testbit v k then 2 ^ k else 0).
  { apply Z.bits_inj'. intros n Hn. rewrite Z.land_spec, Z.pow2_bits_eqb by done.
    destruct (Z.eqb_spec k n) as [->|Hne].
    - destruct (Z.testbit v n); [by rewrite Z.pow2_bits_true|by rewrite Z.bits_0].
    - rewrite andb_false_r. destruct (Z.testbit v k); [by rewrite Z.pow2_bits_false|by rewrite Z.bits_0]. }
  rewrite E. pose proof (Z.pow_pos_nonneg 2 k ltac:(done) Hk). destruct (Z.testbit v k).
  - apply bool_decide_eq_false. lia.
  - by apply bool_decide_eq_true.
Qed.

(** The card's registers lie in the port space. *)
Definition base_ok (base : Z) : Prop := 0 <= base /\ base + 0x44 < 2 ^ 16.

Definition reset_done (v : Z) : bool := bool_decide (Z.land v 0x10 = 0).
Definition sent (v : Z) : bool := negb (bool_decide (Z.land v (Z.shiftl 1 13) = 0)).

Lemma reset_done_bit v : reset_done v = negb (Z.testbit v 4).
Proof. exact (land_bit v 4 ltac:(done)). Qed.

Lemma sent_bit v : sent v = Z.testbit v 13.
Proof. unfold sent. change (Z.shiftl 1 13) with (2 ^ 13). rewrite land_bit by done. apply negb_involutive. Qed.

(** The writes of [init]. *)
Definition init_outs (base rx_ptr : Z) : list event :=
  [Out W8 (base + 0x37) 0x10; Out W32 (base + 0x30) (wrap 32 rx_ptr); Out W32 (base + 0x44) 0x8F;
   Out W16 (base + 0x3E) 0xFFFF; Out W16 (base + 0x3C) 0x0005; Out W8 (base + 0x37) 0x0C].

(** Its whole trace, when the wait for the reset reads [vs]: what comes before
    the wait, and what comes after it. *)
Definition reset_started (base : Z) : list event :=
  [Println "RTL8139: Starting hardware initialization..." []; Out W8 (base + 0x37) 0x10].
Definition reset_completed (base rx_ptr : Z) : list event :=
  [Println "RTL8139: Reset complete." []; Out W32 (base + 0x30) (wrap 32 rx_ptr); Out W32 (base + 0x44) 0x8F;
   Out W16 (base + 0x3E) 0xFFFF; Out W16 (base + 0x3C) 0x0005; Out W8 (base + 0x37) 0x0C;
   Println "RTL8139: Driver successfully initialized and listening for packets." []].
Definition init_trace (base rx_ptr : Z) (vs : list Z) : list event :=
  reset_started base ++ (In W8 (base + 0x37) <$> vs) ++ reset_completed base rx_ptr.

Lemma outs_init_trace base rx_ptr vs : outs (init_trace base rx_ptr vs) = init_outs base rx_ptr.
Proof. unfold init_trace. by rewrite !outs_app, outs_ins. Qed.

(** [init] up to the wait. *)
Lemma init_until fuel rx_ptr self s :
  base_ok (io_base self) ->
  let base := io_base self in
  init fuel rx_ptr self s =
    (_ ← poll fuel W8 (base + 0x37) reset_done;
     _ ← println "RTL8139: Reset complete." [];
     _ ← port_write W32 (base + 0x30) (wrap 32 rx_ptr);
     _ ← port_write W32 (base + 0x44) 0x8F;
     _ ← port_write W16 (base + 0x3E) 0xFFFF;
     _ ← port_write W16 (base + 0x3C) 0x0005;
     _ ← port_write W8 (base + 0x37) 0x0C;
     println "RTL8139: Driver successfully initialized and listening for packets." [])
    {| dev := dev_out W8 (base + 0x37) 0x10 (dev s); trace := trace s ++ reset_started base |}.
Proof.
  intros Hb base. unfold base_ok in Hb. unfold init.
  rewrite (lift_bind _ _ _ _ (uadd_ok 16 (io_base self) 0x37 ltac:(lia))).
  rewrite (lift_bind _ _ _ _ (uadd_ok 16 (io_base self) 0x30 ltac:(lia))).
  rewrite (lift_bind _ _ _ _ (uadd_ok 16 (io_base self) 0x3C ltac:(lia))).
  rewrite (lift_bind _ _ _ _ (uadd_ok 16 (io_base self) 0x3E ltac:(lia))).
  rewrite (lift_bind _ _ _ _ (uadd_ok 16 (io_base self) 0x44 ltac:(lia))).
  do 2 (erewrite bind_done; [|done]). cbn [dev trace]. rewrite <- app_assoc. done.
Qed.

Lemma init_done fuel rx_ptr self s vs v d :
  base_ok (io_base self) ->
  reads (S (length vs)) W8 (io_base self + 0x37) (dev_out W8 (io_base self + 0x37) 0x10 (dev s)) = (vs ++ [v], d) ->
  Forall (fun v => reset_done v = false) vs -> reset_done v = true -> (length vs < fuel)%nat ->
  init fuel rx_ptr self s =
    (Done tt, {| dev := dev_out W8 (io_base self + 0x37) 0x0C (dev_out W16 (io_base self + 0x3C) 0x0005
                   (dev_out W16 (io_base self + 0x3E) 0xFFFF (dev_out W32 (io_base self + 0x44) 0x8F
                   (dev_out W32 (io_base self + 0x30) (wrap 32 rx_ptr) d))));
                 trace := trace s ++ init_trace (io_base self) rx_ptr (vs ++ [v]) |}).
Proof.
  intros Hb Hr Hvs Hv Hf. rewrite init_until by done.
  rewrite (bind_done _ _ _ _ _ (poll_done fuel W8 _ reset_done
    {| dev := dev_out W8 (io_base self + 0x37) 0x10 (dev s); trace := trace s ++ reset_started (io_base self) |} vs v d Hr Hvs Hv Hf)).
  do 6 (erewrite bind_done; [|done]). unfold init_trace, println, emit, modify, reset_completed. cbn [dev trace].
  by rewrite <- !app_assoc.
Qed.

Lemma init_ok fuel rx_ptr self s :
  base_ok (io_base self) ->
  answers fuel W8 (io_base self + 0x37) reset_done (dev_out W8 (io_base self + 0x37) 0x10 (dev s)) = true ->
  exists s', init fuel rx_ptr self s = (Done tt, s') /\
    outs (trace s') = outs (trace s) ++ init_outs (io_base self) rx_ptr.
Proof.
  intros Hb (vs & v & d & Hr & Hvs & Hv & Hl)%answers_reads. eexists.
  split; [by apply (init_done fuel rx_ptr self s vs v d)|]. cbn [trace]. by rewrite outs_app, outs_init_trace.
Qed.

(** Card initialisation.  On a card whose reset completes within the fuel,
    [init] returns, never overflowing a port number, and has written, in this
    order: the reset, the receive buffer (the low half of its virtual address),
    the receive filter 0x8f, the acknowledgement of stale interrupts, the
    interrupt mask and the enabling of both directions, last. *)
Theorem init_spec fuel rx_ptr self s
    (Hbase : base_ok (io_base self))
    (Hreset : answers fuel W8 (io_base self + 0x37) reset_done
                (dev_out W8 (io_base self + 0x37) 0x10 (dev s)) = true) :
  exists s', init fuel rx_ptr self s = (Done tt, s') /\
    outs (trace s') = outs (trace s) ++ init_outs (io_base self) rx_ptr.
Proof. by apply init_ok. Qed.

(** ** Transmission *)
Definition send_outs (base i phys_addr length : Z) : list event :=
  [Out W32 (base + (0x20 + i * 4)) phys_addr; Out W32 (base + (0x10 + i * 4)) (Z.land length 0x1FFF)].

(** The devices once the transfer is started. *)
Definition started (base i phys_addr length : Z) (d : D) : D :=
  dev_out W32 (base + (0x10 + i * 4)) (Z.land length 0x1FFF) (dev_out W32 (base + (0x20 + i * 4)) phys_addr d).

(** The card sends whatever descriptor it is given within [n] reads. *)
Definition card_sends (n : nat) (base : Z) : Prop := forall d i phys_addr length,
  0 <= i < 4 ->
  answers n W32 (base + (0x10 + i * 4)) sent
    (dev_out W32 (base + (0x10 + i * 4)) length (dev_out W32 (base + (0x20 + i * 4)) phys_addr d)) = true.

(** The trace of one transmission, when the wait for it reads [vs]. *)
Definition packet_pushed : event := Println "RTL8139: Real packet data successfully pushed over DMA!" [].
Definition send_trace (base i phys_addr length : Z) (vs : list Z) : list event :=
  send_outs base i phys_addr length ++ (In W32 (base + (0x10 + i * 4)) <$> vs) ++ [packet_pushed].

Lemma outs_send_trace base i a l vs : outs (send_trace base i a l vs) = send_outs base i a l.
Proof. unfold send_trace. by rewrite !outs_app, outs_ins. Qed.

(** [send_packet] up to the wait. *)
Lemma send_until fuel phys_addr length self s :
  base_ok (io_base self) -> 0 <= tx_index self < 4 ->
  send_packet fuel phys_addr length (self, s) =
    (_ ← on_io (poll fuel W32 (io_base self + (0x10 + tx_index self * 4)) sent);
     i ← lift (uadd 8 (tx_index self) 1);
     _ ← modify (fun s => ({| io_base := io_base s.1; rx_buffer := rx_buffer s.1; tx_index := i mod 4 |}, s.2));
     on_io (println "RTL8139: Real packet data successfully pushed over DMA!" []))
    (self, {| dev := started (io_base self) (tx_index self) phys_addr length (dev s);
              trace := trace s ++ send_outs (io_base self) (tx_index self) phys_addr length |}).
Proof.
  unfold base_ok. intros Hb Hi. unfold send_packet. rewrite gets_bind. cbn [fst].
  rewrite (lift_bind _ _ _ _ (umul_ok 16 (tx_index self) 4 ltac:(lia))).
  rewrite (lift_bind _ _ _ _ (uadd_ok 16 0x20 (tx_index self * 4) ltac:(lia))).
  rewrite (lift_bind _ _ _ _ (umul_ok 16 (tx_index self) 4 ltac:(lia))).
  rewrite (lift_bind _ _ _ _ (uadd_ok 16 0x10 (tx_index self * 4) ltac:(lia))).
  rewrite (lift_bind _ _ _ _ (uadd_ok 16 (io_base self) (0x20 + tx_index self * 4) ltac:(lia))).
  rewrite (lift_bind _ _ _ _ (uadd_ok 16 (io_base self) (0x10 + tx_index self * 4) ltac:(lia))).
  do 2 (erewrite bind_done; [|done]). cbn [fst snd dev trace]. rewrite <- app_assoc. done.
Qed.

Lemma send_done fuel phys_addr len self s vs v d :
  base_ok (io_base self) -> 0 <= tx_index self < 4 ->
  reads (S (length vs)) W32 (io_base self + (0x10 + tx_index self * 4))
    (started (io_base self) (tx_index self) phys_addr len (dev s)) = (vs ++ [v], d) ->
  Forall (fun v => sent v = false) vs -> sent v = true -> (length vs < fuel)%nat ->
  send_packet fuel phys_addr len (self, s)
  = (Done tt, ({| io_base := io_base self; rx_buffer := rx_buffer self; tx_index := (tx_index self + 1) mod 4 |},
      {| dev := d; trace := trace s ++ send_trace (io_base self) (tx_index self) phys_addr len (vs ++ [v]) |})).
Proof.
  intros Hb Hi Hr Hvs Hv Hf. rewrite send_until by done.
  set (s1 := {| dev := _; trace := _ |}).
  erewrite (bind_done (on_io _) _ _ tt).
  2:{ unfold on_io, zoom. cbn [fst snd]. by rewrite (poll_done fuel W32 _ sent s1 vs v d Hr Hvs Hv Hf). }
  rewrite (lift_bind _ _ _ _ (uadd_ok 8 (tx_index self) 1 ltac:(lia))), modify_bind.
  unfold on_io, zoom, println, emit, modify. cbn [fst snd dev trace]. unfold s1, send_trace, packet_pushed.
  cbn [dev trace]. by rewrite <- !app_assoc.
Qed.

Lemma send_packet_ok fuel phys_addr length self s :
  base_ok (io_base self) -> 0 <= tx_index self < 4 -> card_sends fuel (io_base self) ->
  exists s', send_packet fuel phys_addr length (self, s)
    = (Done tt, ({| io_base := io_base self; rx_buffer := rx_buffer self;
                    tx_index := (tx_index self + 1) mod 4 |}, s')) /\
    outs (trace s') = outs (trace s) ++ send_outs (io_base self) (tx_index self) phys_addr length.
Proof.
  intros Hb Hi Hcard.
  destruct (answers_reads _ _ _ _ _ (Hcard (dev s) (tx_index self) phys_addr (Z.land length 0x1FFF) Hi))
    as (vs & v & d & Hr & Hvs & Hv & Hl).
  eexists. split; [by apply (send_done fuel phys_addr length self s vs v d)|]. cbn [trace].
  by rewrite outs_app, outs_send_trace.
Qed.

(** C35: the two waits of the driver, for the reset in [init] and for the end of
    a transfer in [send_packet].  If the command register shows the reset bit,
    bit 4, clear for the first time after the values [vs], then [init] returns,
    however much more fuel it has, having read exactly these values between
    the reset and the set-up of the card; and as long as the bit stays set it
    does nothing but read that register.  The same for [send_packet] with the
    status register of the descriptor in use and the card's done bit, bit 13,
    becoming set. *)
Theorem driver_waits rx_ptr phys_addr len self s (Hbase : base_ok (io_base self)) (Hi : 0 <= tx_index self < 4) :
  let base := io_base self in
  let after_reset := dev_out W8 (base + 0x37) 0x10 (dev s) in
  let status := base + (0x10 + tx_index self * 4) in
  let after_start := started base (tx_index self) phys_addr len (dev s) in
  (forall vs v d, reads (S (length vs)) W8 (base + 0x37) after_reset = (vs ++ [v], d) ->
     Forall (fun v => Z.testbit v 4 = true) vs -> Z.testbit v 4 = false ->
     exists s', trace s' = trace s ++ init_trace base rx_ptr (vs ++ [v]) /\
       forall fuel, (length vs < fuel)%nat -> init fuel rx_ptr self s = (Done tt, s')) /\
  (forall fuel vs d, reads fuel W8 (base + 0x37) after_reset = (vs, d) -> Forall (fun v => Z.testbit v 4 = true) vs ->
     init fuel rx_ptr self s
     = (NoFuel, {| dev := d; trace := trace s ++ reset_started base ++ (In W8 (base + 0x37) <$> vs) |})) /\
  (forall vs v d, reads (S (length vs)) W32 status after_start = (vs ++ [v], d) ->
     Forall (fun v => Z.testbit v 13 = false) vs -> Z.testbit v 13 = true ->
     exists s', trace s'.2 = trace s ++ send_trace base (tx_index self) phys_addr len (vs ++ [v]) /\
       forall fuel, (length vs < fuel)%nat -> send_packet fuel phys_addr len (self, s) = (Done tt, s')) /\
  (forall fuel vs d, reads fuel W32 status after_start = (vs, d) -> Forall (fun v => Z.testbit v 13 = false) vs ->
     send_packet fuel phys_addr len (self, s)
     = (NoFuel, (self, {| dev := d; trace := trace s ++ send_outs base (tx_index self) phys_addr len ++ (In W32 status <$> vs) |}))).
Proof.
  cbn zeta. assert (Hreset : forall vs, Forall (fun v => Z.testbit v 4 = true) vs -> Forall (fun v => reset_done v = false) vs).
  { intros vs Hvs. apply (Forall_impl _ _ _ Hvs). intros v E. by rewrite reset_done_bit, E. }
  assert (Hsent : forall vs, Forall (fun v => Z.testbit v 13 = false) vs -> Forall (fun v => sent v = false) vs).
  { intros vs Hvs. apply (Forall_impl _ _ _ Hvs). intros v E. by rewrite sent_bit. }
  split_and!.
  - intros vs v d Hr Hvs%Hreset Hv. eexists.
    split; [|intros fuel Hf; apply (init_done fuel rx_ptr self s vs v d); try done; by rewrite reset_done_bit, Hv]. done.
  - intros fuel vs d Hr Hvs%Hreset. rewrite init_until by done. unfold mbind, M_bind.
    rewrite (poll_waits fuel W8 _ reset_done {| dev := _; trace := _ |} vs d Hr Hvs). cbn [trace]. by rewrite <- app_assoc.
  - intros vs v d Hr Hvs%Hsent Hv. eexists (_, _).
    split; [|intros fuel Hf; apply (send_done fuel phys_addr len self s vs v d); try done; by rewrite sent_bit]. done.
  - intros fuel vs d Hr Hvs%Hsent. rewrite send_until by done. unfold mbind, M_bind, on_io, zoom. cbn [fst snd].
    rewrite (poll_waits fuel W32 _ sent {| dev := _; trace := _ |} vs d Hr Hvs). cbn [trace]. by rewrite <- app_assoc.
Qed.

Fixpoint send_packets (fuel : nat) (packets : list (Z * Z)) : M (Rtl8139Driver * io D) unit :=
  match packets with
  | [] => mret tt
  | (phys_addr, length) :: packets => _ ← send_packet fuel phys_addr length; send_packets fuel packets
  end.

(** What the transmission of packets from descriptor [i] on looks like: the
    address of each, its length, then reads of that descriptor's status until,
    and not beyond, the one that shows it done; only then the next packet. *)
Fixpoint transmitted (base i : Z) (packets : list (Z * Z)) (tr : list event) : Prop :=
  match packets with
  | [] => tr = []
  | (phys_addr, len) :: packets => exists busy done rest,
      Forall (fun v => Z.testbit v 13 = false) busy /\ Z.testbit done 13 = true /\
      tr = [Out W32 (base + 0x20 + 4 * (i mod 4)) phys_addr;
            Out W32 (base + 0x10 + 4 * (i mod 4)) (len mod 2 ^ 13)] ++
           (In W32 (base + 0x10 + 4 * (i mod 4)) <$> busy ++ [done]) ++ [packet_pushed] ++ rest /\
      transmitted base (i + 1) packets rest
  end.

Lemma transmitted_mod base i packets tr : transmitted base (i mod 4) packets tr <-> transmitted base i packets tr.
Proof.
  revert i tr. induction packets as [|[a l] packets IH]; intros i tr; [done|]. cbn [transmitted].
  rewrite Z.mod_mod by done. do 3 (apply exist_proper; intros ?). do 3 (apply and_iff_compat_l).
  rewrite <- (IH (i mod 4 + 1)), <- (IH (i + 1)). by rewrite Zplus_mod_idemp_l.
Qed.

Lemma send_packet_transmits fuel phys_addr len self s :
  base_ok (io_base self) -> 0 <= tx_index self < 4 -> card_sends fuel (io_base self) ->
  exists s' tr, send_packet fuel phys_addr len (self, s)
    = (Done tt, ({| io_base := io_base self; rx_buffer := rx_buffer self; tx_index := (tx_index self + 1) mod 4 |}, s')) /\
    trace s' = trace s ++ tr /\
    forall packets rest, transmitted (io_base self) (tx_index self + 1) packets rest ->
      transmitted (io_base self) (tx_index self) ((phys_addr, len) :: packets) (tr ++ rest).
Proof.
  intros Hbase Hi Hcard.
  destruct (answers_reads _ _ _ _ _ (Hcard (dev s) (tx_index self) phys_addr (Z.land len 0x1FFF) Hi)) as (vs & v & d & Hr & Hvs & Hv & Hl).
  eexists _, _. split; [by apply (send_done fuel phys_addr len self s vs v d)|]. split; [done|].
  intros packets rest Hrest. exists vs, v, rest. rewrite sent_bit in Hv. split_and!; [|exact Hv| |exact Hrest].
  - apply (Forall_impl _ _ _ Hvs). intros w. by rewrite sent_bit.
  - unfold send_trace, send_outs. rewrite Z.mod_small by done. change 0x1FFF with (Z.ones 13). rewrite Z.land_ones by done.
    replace (io_base self + (0x20 + tx_index self * 4)) with (io_base self + 0x20 + 4 * tx_index self) by lia.
    replace (io_base self + (0x10 + tx_index self * 4)) with (io_base self + 0x10 + 4 * tx_index self) by lia.
    by rewrite <- !app_assoc.
Qed.

(** C21: transmission.  Any number of packets is sent, on a card that completes
    each transmission within the fuel: the [k]-th packet goes through
    descriptor [k mod 4], its address to the address register of that
    descriptor and then its length, cut to the 13 bits the card has for it, to
    the status register that starts the transfer; the status register is read
    until it shows the transfer done, and the next descriptor is used only
    then; no index or port number overflows. *)
Theorem send_packets_spec fuel packets self s
    (Hbase : base_ok (io_base self)) (Hi : 0 <= tx_index self < 4)
    (Hcard : card_sends fuel (io_base self)) :
  exists s' tr, send_packets fuel packets (self, s)
    = (Done tt, ({| io_base := io_base self; rx_buffer := rx_buffer self;
                    tx_index := (tx_index self + Z.of_nat (length packets)) mod 4 |}, s')) /\
    trace s' = trace s ++ tr /\ transmitted (io_base self) (tx_index self) packets tr.
Proof.
  revert self s Hbase Hi Hcard.
  induction packets as [|[a l] packets IH]; intros self s Hbase Hi Hcard.
  { exists s, []. split; [|by rewrite app_nil_r]. cbn. rewrite Z.add_0_r, Z.mod_small by done.
    by destruct self. }
  cbn [send_packets].
  destruct (send_packet_transmits fuel a l self s Hbase Hi Hcard) as (s1 & tr1 & E1 & Ht1 & Htr1).
  rewrite (bind_done _ _ _ _ _ E1). set (self1 := {| tx_index := _ |}).
  destruct (IH self1 s1 Hbase (Z.mod_pos_bound _ 4 eq_refl) Hcard) as (s2 & tr & E2 & Ht & Htr).
  exists s2, (tr1 ++ tr). rewrite E2. cbn [io_base rx_buffer tx_index self1 length]. split_and!.
  - do 3 f_equal. rewrite Zplus_mod_idemp_l. f_equal. lia.
  - by rewrite Ht, Ht1, <- app_assoc.
  - by apply Htr1, transmitted_mod.
Qed.

(** ** Set-up over PCI *)
Definition enabled_command (cmd_status : Z) : Z :=
  Z.lor (Z.land cmd_status 0xFFFF0000)
        (Z.lor (Z.lor (wrap 16 (Z.land cmd_status 0xFFFF)) (Z.shiftl 1 2)) (Z.shiftl 1 0)).

Lemma testbit_wrap w x n : 0 <= w -> 0 <= n -> Z.testbit (wrap w x) n = (n <? w) && Z.testbit x n.
Proof.
  intros Hw Hn. unfold wrap. destruct (Z.ltb_spec n w).
  - by rewrite Z.mod_pow2_bits_low.
  - by rewrite Z.mod_pow2_bits_high by lia.
Qed.

(** The command register gains bits 0 (I/O space) and 2 (bus master). *)
Lemma enabled_command_bits v n :
  in_range 32 v -> 0 <= n ->
  Z.testbit (enabled_command v) n = (n =? 0) || (n =? 2) || Z.testbit v n.
Proof.
  intros Hv Hn. unfold enabled_command. rewrite !Z.lor_spec, Z.land_spec, testbit_wrap, Z.land_spec by lia.
  change 0xFFFF0000 with (Z.shiftl (Z.ones 16) 16). change 0xFFFF with (Z.ones 16).
  rewrite Z.shiftl_spec by done. change (Z.shiftl 1 2) with (2 ^ 2). change (Z.shiftl 1 0) with (2 ^ 0).
  rewrite !Z.pow2_bits_eqb by lia.
  destruct (Z.ltb_spec n 16).
  - rewrite (Z.testbit_neg_r _ (n - 16)), Z.ones_spec_low by lia.
    rewrite (Z.eqb_sym n 0), (Z.eqb_sym n 2). destruct (Z.testbit v n), (0 =? n), (2 =? n); done.
  - rewrite (Z.ones_spec_high 16 n) by lia. rewrite (Z.eqb_sym n 0), (Z.eqb_sym n 2).
    replace (0 =? n) with false by lia. replace (2 =? n) with false by lia.
    destruct (Z.ltb_spec n 32).
    + rewrite Z.ones_spec_low by lia. destruct (Z.testbit v n); done.
    + assert (E : Z.testbit v n = false).
      { rewrite <- (Z.mod_small v (2 ^ 32)) by done. apply Z.mod_pow2_bits_high. lia. }
      by rewrite E.
Qed.

(** What the bus answers to the set-up: the command register, BAR0, and the
    devices afterwards. *)
Definition pci_setup (bus slot func : Z) (d : D) : Z * Z * D :=
  let d := dev_out W32 0xCF8 (pci_address bus slot func 0x04) d in
  let '(cmd_status, d) := dev_in W32 0xCFC d in
  let d := dev_out W32 0xCFC (enabled_command cmd_status) d in
  let d := dev_out W32 0xCF8 (pci_address bus slot func 0x10) d in
  let '(bar0, d) := dev_in W32 0xCFC d in
  (cmd_status, bar0, d).

Definition io_base_of (bar0 : Z) : Z := wrap 16 (Z.land bar0 (unot 32 0x3)).

Definition setup_outs (bus slot func cmd_status : Z) : list event :=
  [Out W32 0xCF8 (pci_address bus slot func 0x04); Out W32 0xCFC (enabled_command cmd_status);
   Out W32 0xCF8 (pci_address bus slot func 0x10)].

Lemma io_base_aligned bar0 : in_range 32 bar0 -> io_base_of bar0 mod 4 = 0.
Proof.
  intros Hb. unfold io_base_of. change 0x3 with (2 ^ 2 - 1).
  rewrite land_unot_pow2 by (done || lia). unfold wrap.
  rewrite Z.mod_mod_divide by (by exists (2 ^ 14)).
  rewrite Z.mul_comm. by apply Z.mod_mul.
Qed.

(** The trace up to the decision on BAR0. *)
Definition setup_trace (bus slot func cmd_status bar0 : Z) (tr : list event) : list event :=
  ((((tr ++ [Out W32 0xCF8 (pci_address bus slot func 0x04)]) ++ [In W32 0xCFC cmd_status]) ++
    [Out W32 0xCFC (enabled_command cmd_status)]) ++ [Out W32 0xCF8 (pci_address bus slot func 0x10)]) ++
  [In W32 0xCFC bar0].

Lemma outs_setup bus slot func cmd_status bar0 tr :
  outs (setup_trace bus slot func cmd_status bar0 tr) = outs tr ++ setup_outs bus slot func cmd_status.
Proof. unfold setup_trace. rewrite !outs_app. cbn. by rewrite !app_nil_r, <- !app_assoc. Qed.

Lemma init_device_setup fuel local_rx bus slot func l s cmd_status bar0 d :
  pci_setup bus slot func (dev s) = (cmd_status, bar0, d) ->
  init_device fuel local_rx bus slot func (l, s) =
    (if bool_decide (Z.land bar0 1 = 1) then
      _ ← on_static (println "-> RTL8139 IO Base Address: {:#X}" [io_base_of bar0]);
      _ ← on_static (init fuel local_rx (new (io_base_of bar0)));
      _ ← with_lock (modify (fun s => (Some (new (io_base_of bar0)), s.2)));
      on_static (println "-> RTL8139 Driver initialized successfully!" [])
    else
      on_static (println "-> Error: RTL8139 is using Memory Mapping, expected I/O Mapping." []))
    (l, {| dev := d; trace := setup_trace bus slot func cmd_status bar0 (trace s) |}).
Proof.
  unfold pci_setup. intros Hsetup.
  set (d1 := dev_out W32 0xCF8 (pci_address bus slot func 0x04) (dev s)) in *.
  destruct (dev_in W32 0xCFC d1) as [v1 d2] eqn:E1.
  set (d4 := dev_out W32 0xCF8 (pci_address bus slot func 0x10)
    (dev_out W32 0xCFC (enabled_command v1) d2)) in *.
  destruct (dev_in W32 0xCFC d4) as [v2 d5] eqn:E2. injection Hsetup as -> -> ->.
  unfold init_device. erewrite bind_done; [|done].
  erewrite bind_done; [|unfold on_static, zoom; cbn [snd fst]; rewrite port_read_eq; cbn [dev trace];
    fold d1; rewrite E1; done].
  erewrite bind_done; [|done]. erewrite bind_done; [|done].
  erewrite bind_done; [|unfold on_static, zoom; cbn [snd fst]; rewrite port_read_eq; cbn [dev trace fst snd];
    fold (enabled_command cmd_status); fold d4; rewrite E2; done].
  done.
Qed.

(** On an I/O-mapped card, and on a memory-mapped one. *)
Lemma init_device_io fuel local_rx bus slot func old s cmd_status bar0 d :
  pci_setup bus slot func (dev s) = (cmd_status, bar0, d) -> Z.land bar0 1 = 1 ->
  let base := io_base_of bar0 in
  base + 0x44 < 2 ^ 16 ->
  answers fuel W8 (base + 0x37) reset_done (dev_out W8 (base + 0x37) 0x10 d) = true ->
  exists s', init_device fuel local_rx bus slot func (Locked_new old, s)
    = (Done tt, (Locked_new (Some (new base)), s')) /\
    outs (trace s') = outs (trace s) ++ setup_outs bus slot func cmd_status ++ init_outs base local_rx.
Proof.
  cbn zeta. intros Hsetup Hbit Hb Hr. rewrite (init_device_setup _ _ _ _ _ _ _ _ _ _ Hsetup).
  set (tr := setup_trace bus slot func cmd_status bar0 (trace s)).
  pose proof (outs_setup bus slot func cmd_status bar0 (trace s)) as Htr. fold tr in Htr.
  rewrite bool_decide_true by done.
  set (s3 := {| dev := d; trace := tr ++ [Println "-> RTL8139 IO Base Address: {:#X}" [io_base_of bar0]] |}).
  rewrite (bind_done _ _ _ tt (Locked_new old, s3)) by done.
  destruct (init_ok fuel local_rx (new (io_base_of bar0)) s3) as (s4 & E4 & Ho4).
  { split; [|done]. by apply wrap_range. } { exact Hr. }
  rewrite (bind_done _ _ _ tt (Locked_new old, s4)).
  2:{ unfold on_static, zoom. cbn [snd fst]. by rewrite E4. }
  erewrite bind_done; [|done]. eexists. split; [done|].
  cbn [trace snd]. rewrite outs_app, Ho4. unfold s3. cbn [trace].
  rewrite (outs_app tr), Htr. cbn. by rewrite !app_nil_r, <- !app_assoc.
Qed.

Lemma init_device_mem fuel local_rx bus slot func old s cmd_status bar0 d :
  pci_setup bus slot func (dev s) = (cmd_status, bar0, d) -> Z.land bar0 1 <> 1 ->
  exists s', init_device fuel local_rx bus slot func (Locked_new old, s) = (Done tt, (Locked_new old, s')) /\
    outs (trace s') = outs (trace s) ++ setup_outs bus slot func cmd_status.
Proof.
  intros Hsetup Hbit. rewrite (init_device_setup _ _ _ _ _ _ _ _ _ _ Hsetup), bool_decide_false by done.
  eexists. split; [done|]. cbn [trace snd]. rewrite outs_app, outs_setup. cbn. by rewrite app_nil_r.
Qed.

(** C36: bringing up a card found on the bus.  The command register keeps its
    bits and gains I/O space and bus mastering; with an I/O-mapped BAR0 the
    driver is initialised on the port base found there and stored in the
    static, which is left unlocked; with a memory-mapped one nothing more is
    written and the static stays as it was.  The receive buffer whose address
    the card is given is the one of the local variable, [local_rx], not of the
    static the driver is moved to afterwards. *)
Theorem init_device_spec fuel local_rx bus slot func old s cmd_status bar0 d
    (Hsetup : pci_setup bus slot func (dev s) = (cmd_status, bar0, d))
    (Hcmd : in_range 32 cmd_status) (Hbar : in_range 32 bar0) :
  (forall n, 0 <= n -> Z.testbit (enabled_command cmd_status) n
                       = (n =? 0) || (n =? 2) || Z.testbit cmd_status n) /\
  if bool_decide (Z.land bar0 1 = 1) then
    let base := io_base_of bar0 in
    base mod 4 = 0 /\
    (base + 0x44 < 2 ^ 16 ->
     answers fuel W8 (base + 0x37) reset_done (dev_out W8 (base + 0x37) 0x10 d) = true ->
     exists s', init_device fuel local_rx bus slot func (Locked_new old, s)
       = (Done tt, (Locked_new (Some (new base)), s')) /\
       outs (trace s') = outs (trace s) ++ setup_outs bus slot func cmd_status ++ init_outs base local_rx)
  else
    exists s', init_device fuel local_rx bus slot func (Locked_new old, s)
      = (Done tt, (Locked_new old, s')) /\
      outs (trace s') = outs (trace s) ++ setup_outs bus slot func cmd_status.
Proof.
  split; [intros n; by apply enabled_command_bits|]. case_bool_decide as Hbit; cbn zeta.
  - split; [by apply io_base_aligned|]. by apply init_device_io.
  - by eapply init_device_mem.
Qed.
End rtl8139.

(** ** Witnesses: a card at port 0xc000 that answers the first read; the state
    is the PCI address last selected *)
#[local] Instance wprofile : BuildProfile := true.
#[local] Instance wcard : Device Z := {|
  dev_out := fun w port v d => if bool_decide (port = 0xCF8) then v else d;
  dev_in := fun w port d =>
    (if bool_decide (port = 0xCFC) then
       (if bool_decide (d mod 256 = 0x10) then 0xC001 else if bool_decide (d mod 256 = 0) then 0x813910EC
        else 0x02900000)
     else match w with W8 => 0x0C | _ => 0x2000 end, d) |}.

Definition wio : io Z := {| dev := 0; trace := [] |}.

Lemma driver_waits_witness :
  (init 5 0x18000 (new 0xC000) wio).1 = Done tt /\
  (send_packet 5 0x5000 60 (new 0xC000, wio)).1 = Done tt.
Proof.
  destruct (driver_waits (H := wprofile) (H0 := wcard) 0x18000 0x5000 60 (new 0xC000) wio ltac:(split; done) ltac:(cbn; lia))
    as (Hinit & _ & Hsend & _).
  destruct (Hinit [] 0x0C 0 eq_refl ltac:(constructor) eq_refl) as (s1 & _ & E1).
  destruct (Hsend [] 0x2000 0 eq_refl ltac:(constructor) eq_refl) as (s2 & _ & E2).
  rewrite (E1 5%nat), (E2 5%nat) by (cbn; lia). done.
Defined.

Lemma init_spec_witness :
  (init 1 0x18000 (new 0xC000) wio).1 = Done tt.
Proof.
  destruct (init_spec (H := wprofile) (H0 := wcard) 1 0x18000 (new 0xC000) wio ltac:(split; done) eq_refl) as (s' & E & _).
  rewrite E. reflexivity.
Defined.

Lemma wcard_sends : card_sends 1 0xC000.
Proof.
  intros d i a l Hi. cbn. rewrite !(bool_decide_eq_false_2 (_ = 0xCF8)) by lia.
  rewrite (bool_decide_eq_false_2 (_ = 0xCFC)) by lia. reflexivity.
Qed.

Lemma send_packets_spec_witness :
  (send_packets 1 [(0x5000, 60); (0x6000, 1500); (0x5000, 60); (0x5000, 60); (0x5000, 60)]
     (new 0xC000, wio)).1 = Done tt.
Proof.
  destruct (send_packets_spec 1 [(0x5000, 60); (0x6000, 1500); (0x5000, 60); (0x5000, 60); (0x5000, 60)]
    (new 0xC000) wio ltac:(split; done) ltac:(cbn; lia) wcard_sends) as (s' & tr & E & _).
  rewrite E. reflexivity.
Defined.

Lemma init_device_spec_witness :
  exists s', init_device 1 0x18000 0 3 0 (Locked_new None, wio)
             = (Done tt, (Locked_new (Some (new 0xC000)), s')).
Proof.
  destruct (init_device_spec (H := wprofile) (H0 := wcard) 1 0x18000 0 3 0 None wio 0x02900000 0xC001 (pci_address 0 3 0 0x10)
    eq_refl ltac:(split; done) ltac:(split; done)) as [_ T].
  destruct (proj2 T eq_refl eq_refl) as (s' & E & _).
  exists s'. exact E.
Defined.
End Rtl8139.
