(* ===== verification/Pci.v ===== *)
(** * The PCI scan

    [check_network_card], which the two kernels have in two versions: the one
    of something_os (main.rs) only reports the cards it finds, the one of the
    networking kernel (networking/mod.rs) also brings up an RTL8139. *)

From S2P Require Import Prelude Store X86 Rtl8139.

Module Pci.
Section pci.
Context `{BuildProfile} `{Device D}.

(** ** The two versions *)
Definition scan_address (bus slot : Z) : Z :=
  Z.lor (Z.lor (Z.lor (shl32 1 31) (shl32 bus 16)) (shl32 slot 11)) 0x00.

Definition vendor_of (id_data : Z) : Z := wrap 16 (Z.land id_data 0xFFFF).
Definition device_of (id_data : Z) : Z := wrap 16 (Z.shiftr id_data 16).

Definition is_rtl8139 (id_data : Z) : bool :=
  bool_decide (vendor_of id_data = 0x10EC) && bool_decide (device_of id_data = 0x8139).
Definition is_e1000 (id_data : Z) : bool :=
  bool_decide (vendor_of id_data = 0x8086) &&
  (bool_decide (device_of id_data = 0x100E) || bool_decide (device_of id_data = 0x100F)).

Definition found_rtl : string := "Success: Found Realtek RTL8139 Network Card at Bus {}, Slot {}".
Definition found_e1000 : string := "Success: Found Intel e1000 Network Card at Bus {}, Slot {}".

(** The body of the loops in something_os. *)
Definition probe (bus slot : Z) : M (io D) unit :=
  _ ← port_write W32 0xCF8 (scan_address bus slot);
  id_data ← port_read W32 0xCFC;
  if bool_decide (vendor_of id_data = 0xFFFF) then mret tt
  else if is_rtl8139 id_data then println found_rtl [bus; slot]
  else if is_e1000 id_data then println found_e1000 [bus; slot]
  else mret tt.

Definition check_network_card : M (io D) unit :=
  _ ← println "Scanning PCI buses for Network Cards..." [];
  for_range 0 255 (fun bus => for_range 0 32 (fun slot => probe bus slot)).

(** The body in the networking kernel; [local_rx] as in [init_device]. *)
Definition probe_and_init (fuel : nat) (local_rx bus slot : Z)
    : M (Locked (option Rtl8139Driver) * io D) unit :=
  let func := 0 in
  _ ← Rtl8139.on_static (port_write W32 0xCF8 (scan_address bus slot));
  id_data ← Rtl8139.on_static (port_read W32 0xCFC);
  if bool_decide (vendor_of id_data = 0xFFFF) then mret tt
  else if is_rtl8139 id_data then
    _ ← Rtl8139.on_static (println found_rtl [bus; slot]);
    Rtl8139.init_device fuel local_rx bus slot func
  else if is_e1000 id_data then Rtl8139.on_static (println found_e1000 [bus; slot])
  else mret tt.

Definition check_network_card_and_init (fuel : nat) (local_rx : Z)
    : M (Locked (option Rtl8139Driver) * io D) unit :=
  _ ← Rtl8139.on_static (println "Scanning PCI buses for Network Cards..." []);
  for_range 0 255 (fun bus => for_range 0 32 (fun slot => probe_and_init fuel local_rx bus slot)).

(** ** Addresses *)
Lemma scan_address_eq bus slot : scan_address bus slot = pci_address bus slot 0 0.
Proof.
  unfold scan_address, pci_address. change (shl32 0 8) with 0. by rewrite !Z.lor_0_r.
Qed.

(** Configuration addresses.  The address word built from a bus, a slot, a
    function and a register offset has the enable bit set and gives back each
    of them from its own field, so that no two registers share an address; and
    the scan's address of a slot is the one of its first register. *)
Theorem pci_address_roundtrip bus slot func offset
    (Hb : 0 <= bus < 256) (Hs : 0 <= slot < 32) (Hf : 0 <= func < 8) (Ho : 0 <= offset < 256) :
  let a := pci_address bus slot func offset in
  in_range 32 a /\ a / 2 ^ 31 = 1 /\ (a / 2 ^ 16) mod 2 ^ 8 = bus /\ (a / 2 ^ 11) mod 2 ^ 5 = slot /\
  (a / 2 ^ 8) mod 2 ^ 3 = func /\ a mod 2 ^ 8 = offset /\ scan_address bus slot = pci_address bus slot 0 0.
Proof.
  cbn zeta. rewrite (Rtl8139.pci_address_eq bus slot func offset) by done.
  unfold in_range. split_and!; try lia; [..|apply scan_address_eq].
  - symmetry. apply (Z.div_unique _ _ _ (bus * 2 ^ 16 + slot * 2 ^ 11 + func * 2 ^ 8 + offset)); lia.
  - replace ((2 ^ 31 + bus * 2 ^ 16 + slot * 2 ^ 11 + func * 2 ^ 8 + offset) / 2 ^ 16)
      with (2 ^ 15 + bus)
      by (apply (Z.div_unique _ _ _ (slot * 2 ^ 11 + func * 2 ^ 8 + offset)); lia).
    symmetry. apply (Z.mod_unique _ _ (2 ^ 7)); lia.
  - replace ((2 ^ 31 + bus * 2 ^ 16 + slot * 2 ^ 11 + func * 2 ^ 8 + offset) / 2 ^ 11)
      with (2 ^ 20 + bus * 2 ^ 5 + slot) by (apply (Z.div_unique _ _ _ (func * 2 ^ 8 + offset)); lia).
    symmetry. apply (Z.mod_unique _ _ (2 ^ 15 + bus)); lia.
  - replace ((2 ^ 31 + bus * 2 ^ 16 + slot * 2 ^ 11 + func * 2 ^ 8 + offset) / 2 ^ 8)
      with (2 ^ 23 + bus * 2 ^ 8 + slot * 2 ^ 3 + func) by (apply (Z.div_unique _ _ _ offset); lia).
    symmetry. apply (Z.mod_unique _ _ (2 ^ 20 + bus * 2 ^ 5 + slot)); lia.
  - symmetry. apply (Z.mod_unique _ _ (2 ^ 23 + bus * 2 ^ 8 + slot * 2 ^ 3 + func)); lia.
Qed.

(** ** What the scan does

    The bus as a fixed configuration space: reading the data port after
    selecting an address gives the word at that address. *)
Definition config_space (cfg : Z -> Z) (ok : D -> Prop) : Prop := forall d a,
  ok d -> (dev_in W32 0xCFC (dev_out W32 0xCF8 a d)).1 = cfg a /\
          ok (dev_in W32 0xCFC (dev_out W32 0xCF8 a d)).2.

(** The events for one slot. *)
Definition report (id_data bus slot : Z) : list event :=
  if bool_decide (vendor_of id_data = 0xFFFF) then []
  else if is_rtl8139 id_data then [Println found_rtl [bus; slot]]
  else if is_e1000 id_data then [Println found_e1000 [bus; slot]] else [].

Definition slot_events (cfg : Z -> Z) (bus slot : Z) : list event :=
  let a := pci_address bus slot 0 0 in
  [Out W32 0xCF8 a; In W32 0xCFC (cfg a)] ++ report (cfg a) bus slot.

Definition scan_events (cfg : Z -> Z) : list event :=
  seqZ 0 255 ≫= fun bus => seqZ 0 32 ≫= fun slot => slot_events cfg bus slot.

(** A loop that appends events. *)
Lemma for_each_events {S A} (tr_of : S -> list event) (ok : S -> Prop) (l : list A)
    (f : A -> M S unit) (g : A -> list event) s :
  ok s ->
  (forall a s, a ∈ l -> ok s -> exists s', f a s = (Done tt, s') /\ ok s' /\ tr_of s' = tr_of s ++ g a) ->
  exists s', for_each l f s = (Done tt, s') /\ ok s' /\ tr_of s' = tr_of s ++ (l ≫= g).
Proof.
  revert s. induction l as [|a l IH]; intros s Hok Hf.
  { exists s. split_and!; [done|done|]. by rewrite app_nil_r. }
  destruct (Hf a s ltac:(apply elem_of_cons; by left) Hok) as (s1 & E1 & Hok1 & Ht1).
  destruct (IH s1 Hok1) as (s2 & E2 & Hok2 & Ht2).
  { intros b s' Hb. apply Hf. apply elem_of_cons. by right. }
  exists s2. cbn [for_each]. rewrite (bind_done _ _ _ _ _ E1). split_and!; [done|done|].
  rewrite Ht2, Ht1, <- app_assoc. done.
Qed.

Lemma probe_eq bus slot s :
  let a := pci_address bus slot 0 0 in
  let '(v, d) := dev_in W32 0xCFC (dev_out W32 0xCF8 a (dev s)) in
  probe bus slot s = (Done tt, {| dev := d;
    trace := trace s ++ [Out W32 0xCF8 a; In W32 0xCFC v] ++ report v bus slot |}).
Proof.
  cbn zeta. unfold probe. rewrite scan_address_eq.
  set (a := pci_address bus slot 0 0).
  destruct (dev_in W32 0xCFC (dev_out W32 0xCF8 a (dev s))) as [v d] eqn:E.
  erewrite bind_done; [|done]. rewrite (bind_done _ _ _ _ _ (port_read_eq _ _ _)).
  cbn [dev trace]. rewrite E. cbn [fst snd]. unfold report.
  case_bool_decide; [|destruct (is_rtl8139 v); [|destruct (is_e1000 v)]].
  all: try (unfold println, emit, modify; cbn [dev trace]; by rewrite <- !app_assoc).
  all: unfold mret, M_ret; by rewrite <- !app_assoc.
Qed.

Lemma probe_events cfg ok bus slot s :
  config_space cfg ok -> ok (dev s) ->
  exists s', probe bus slot s = (Done tt, s') /\ ok (dev s') /\
    trace s' = trace s ++ slot_events cfg bus slot.
Proof.
  intros Hc Hok. pose proof (probe_eq bus slot s) as E. cbn zeta in E.
  destruct (Hc (dev s) (pci_address bus slot 0 0) Hok) as [Hv Hok'].
  destruct (dev_in _ _ _) as [v d]. cbn [fst snd] in *. subst v.
  eexists. split; [exact E|]. by split.
Qed.

Lemma scan_ok cfg ok s :
  config_space cfg ok -> ok (dev s) ->
  exists s', check_network_card s = (Done tt, s') /\ ok (dev s') /\
    trace s' = (trace s ++ [Println "Scanning PCI buses for Network Cards..." []]) ++ scan_events cfg.
Proof.
  intros Hc Hok. unfold check_network_card.
  set (s1 := {| dev := dev s; trace := trace s ++ [Println "Scanning PCI buses for Network Cards..." []] |}).
  rewrite (bind_done _ _ _ tt s1) by done. unfold for_range, scan_events.
  apply (for_each_events trace (fun s => ok (dev s))); [done|]. intros bus s2 _ Hok2.
  apply (for_each_events trace (fun s => ok (dev s))); [done|]. intros slot s3 _ Hok3.
  by apply probe_events.
Qed.

(** On any device at all, the scan ends. *)
Lemma probe_total bus slot (s : io D) : exists s', probe bus slot s = (Done tt, s').
Proof.
  unfold probe. erewrite bind_done; [|done]. erewrite bind_done; [|apply port_read_eq].
  repeat case_bool_decide; [by eexists|].
  destruct (is_rtl8139 _); [by eexists|]. destruct (is_e1000 _); by eexists.
Qed.

Lemma scan_total (s : io D) : exists s', check_network_card s = (Done tt, s').
Proof.
  unfold check_network_card. erewrite bind_done; [|done].
  destruct (for_range_inv (fun _ _ => True) 0 255 (fun bus => for_range 0 32 (fun slot => probe bus slot))
    {| dev := dev s; trace := trace s ++ [Println "Scanning PCI buses for Network Cards..." []] |})
    as (s' & E & _); [done|done| |by exists s'].
  intros bus s1 _ _.
  destruct (for_range_inv (fun _ _ => True) 0 32 (fun slot => probe bus slot) s1) as (s2 & E & _);
    [done|done| |by exists s2].
  intros slot s2 _ _. destruct (probe_total bus slot s2) as [s3 E]. by exists s3.
Qed.

(** C34: the scan of something_os.  It ends, and has probed the first function of
    the 32 slots of the buses 0 to 254, in order, each once, reporting exactly
    the slots that hold an RTL8139 or an e1000; bus 255 is never looked at. *)
Theorem scan_spec cfg ok s (Hcfg : config_space cfg ok) (Hok : ok (dev s)) :
  exists s', check_network_card s = (Done tt, s') /\
    trace s' = (trace s ++ [Println "Scanning PCI buses for Network Cards..." []]) ++ scan_events cfg /\
    (forall bus slot, 0 <= bus < 256 -> 0 <= slot < 32 ->
       (Out W32 0xCF8 (pci_address bus slot 0 0) ∈ scan_events cfg <-> bus < 255) /\
       (Println found_rtl [bus; slot] ∈ scan_events cfg <->
          bus < 255 /\ is_rtl8139 (cfg (pci_address bus slot 0 0)) = true)).
Proof.
  destruct (scan_ok cfg ok s Hcfg Hok) as (s' & E & _ & Ht). exists s'. split; [done|]. split; [done|].
  assert (Hin : forall e, e ∈ scan_events cfg <-> exists b sl, 0 <= b < 255 /\ 0 <= sl < 32 /\ e ∈ slot_events cfg b sl).
  { intros e. unfold scan_events. rewrite list_elem_of_bind. split.
    - intros (b & (sl & Hsl & Hse)%list_elem_of_bind & Hb).
      apply elem_of_seqZ in Hb. apply elem_of_seqZ in Hse. exists b, sl. split_and!; [lia..|done].
    - intros (b & sl & Hb & Hs & He). exists b. split; [|by apply elem_of_seqZ; lia].
      apply list_elem_of_bind. exists sl. split; [done|]. apply elem_of_seqZ. lia. }
  intros bus slot Hb Hs. rewrite !Hin. split; split.
  - intros (b & sl & Hb' & Hsl & He). unfold slot_events in He. cbn [app] in He.
    apply elem_of_cons in He as [He|He].
    + injection He as He. assert (bus = b); [|lia].
      rewrite !Rtl8139.pci_address_eq in He by lia. lia.
    + exfalso. apply elem_of_cons in He as [He|He]; [done|]. unfold report in He.
      repeat case_match; first [by apply elem_of_nil in He | by apply list_elem_of_singleton in He].
  - intros Hlt. exists bus, slot. split_and!; [lia..|]. apply elem_of_cons. by left.
  - intros (b & sl & Hb' & Hsl & He). unfold slot_events in He. cbn [app] in He.
    apply elem_of_cons in He as [He|He]; [done|]. apply elem_of_cons in He as [He|He]; [done|].
    unfold report in He. case_bool_decide; [by apply elem_of_nil in He|].
    destruct (is_rtl8139 _) eqn:Er.
    + apply list_elem_of_singleton in He. injection He as -> ->. split; [lia|done].
    + destruct (is_e1000 _); [|by apply elem_of_nil in He].
      by apply list_elem_of_singleton in He.
  - intros [Hlt Hr]. exists bus, slot. split_and!; [lia..|]. unfold slot_events, report.
    rewrite bool_decide_false, Hr.
    + apply elem_of_app. right. by apply list_elem_of_singleton.
    + unfold is_rtl8139 in Hr. apply andb_prop in Hr as [Hr _]. apply bool_decide_eq_true in Hr.
      by rewrite Hr.
Qed.

(** The two scans agree where there is no RTL8139.  On such a bus the
    networking kernel's scan does exactly what something_os's does, event for
    event, and leaves the driver static alone, locked or not. *)
Theorem scans_agree cfg ok fuel local_rx l s
    (Hcfg : config_space cfg ok) (Hok : ok (dev s))
    (Hnone : forall bus slot, 0 <= bus < 255 -> 0 <= slot < 32 ->
       is_rtl8139 (cfg (pci_address bus slot 0 0)) = false) :
  exists s', check_network_card s = (Done tt, s') /\
    check_network_card_and_init fuel local_rx (l, s) = (Done tt, (l, s')).
Proof.
  assert (Hprobe : forall bus slot s, 0 <= bus < 255 -> 0 <= slot < 32 -> ok (dev s) ->
    exists s', probe bus slot s = (Done tt, s') /\ ok (dev s') /\
      probe_and_init fuel local_rx bus slot (l, s) = (Done tt, (l, s'))).
  { intros bus slot s0 Hb Hsl Hok0.
    pose proof (probe_eq bus slot s0) as E. cbn zeta in E.
    destruct (Hcfg (dev s0) (pci_address bus slot 0 0) Hok0) as [Hv Hok'].
    destruct (dev_in _ _ _) as [v d] eqn:Ed. cbn [fst snd] in *. subst v.
    eexists. split; [exact E|]. split; [done|].
    unfold probe_and_init. rewrite scan_address_eq. set (a := pci_address bus slot 0 0) in *.
    set (sa := {| dev := dev_out W32 0xCF8 a (dev s0); trace := trace s0 ++ [Out W32 0xCF8 a] |}).
    set (sb := {| dev := d; trace := (trace s0 ++ [Out W32 0xCF8 a]) ++ [In W32 0xCFC (cfg a)] |}).
    rewrite (bind_done _ _ _ tt (l, sa)) by done.
    rewrite (bind_done _ _ _ (cfg a) (l, sb)).
    2:{ unfold Rtl8139.on_static, zoom. cbn [snd fst]. rewrite port_read_eq. cbn [dev trace sa].
        by rewrite Ed. }
    unfold report. pose proof (Hnone bus slot Hb Hsl) as Hno. fold a in Hno. rewrite Hno.
    replace (trace s0 ++ [Out W32 0xCF8 a; In W32 0xCFC (cfg a)] ++ _) with
      (trace sb ++ (if bool_decide (vendor_of (cfg a) = 0xFFFF) then []
                    else if is_e1000 (cfg a) then [Println found_e1000 [bus; slot]] else []))
      by (cbn [trace sb]; by rewrite <- !app_assoc).
    case_bool_decide; [by rewrite app_nil_r|]. destruct (is_e1000 _); [done|by rewrite app_nil_r]. }
  assert (Hloop : forall (xs : list Z) (f : Z -> M (io D) unit) f2 s, ok (dev s) ->
    (forall x s, x ∈ xs -> ok (dev s) -> exists s', f x s = (Done tt, s') /\ ok (dev s') /\
       f2 x (l, s) = (Done tt, (l, s'))) ->
    exists s', for_each xs f s = (Done tt, s') /\ ok (dev s') /\ for_each xs f2 (l, s) = (Done tt, (l, s'))).
  { intros xs f f2. induction xs as [|x xs IH]; intros s0 Hok0 Hf; [by exists s0|].
    destruct (Hf x s0 ltac:(apply elem_of_cons; by left) Hok0) as (s1 & E1 & Hok1 & E1').
    destruct (IH s1 Hok1) as (s2 & E2 & Hok2 & E2').
    { intros y s' Hy. apply Hf. apply elem_of_cons. by right. }
    exists s2. cbn [for_each]. rewrite (bind_done _ _ _ _ _ E1), (bind_done _ _ _ _ _ E1'). done. }
  unfold check_network_card, check_network_card_and_init, for_range.
  set (s1 := {| dev := dev s; trace := trace s ++ [Println "Scanning PCI buses for Network Cards..." []] |}).
  rewrite (bind_done _ _ _ tt s1) by done. rewrite (bind_done _ _ _ tt (l, s1)) by done.
  destruct (Hloop (seqZ 0 (255 - 0)) (fun bus => for_each (seqZ 0 (32 - 0)) (fun slot => probe bus slot))
    (fun bus => for_each (seqZ 0 (32 - 0)) (fun slot => probe_and_init fuel local_rx bus slot)) s1 Hok)
    as (s2 & E & _ & E'); [|by exists s2].
  intros bus s2 Hbus%elem_of_seqZ Hok2. apply Hloop; [done|].
  intros slot s3 Hslot%elem_of_seqZ Hok3. apply Hprobe; [lia..|done].
Qed.
End pci.

(** ** Witnesses: an e1000 in slot 3 of bus 0, nothing else; the state is the
    address last selected *)
Definition wcfg (a : Z) : Z := if bool_decide (a = 0x80001800) then 0x100E8086 else 0xFFFFFFFF.
#[local] Instance wbus : Device Z := {|
  dev_out := fun w port v d => if bool_decide (port = 0xCF8) then v else d;
  dev_in := fun w port d => (wcfg d, d) |}.

Lemma wbus_ok : config_space wcfg (fun _ => True).
Proof. intros d a _. done. Qed.

Lemma pci_address_roundtrip_witness :
  pci_address 5 3 0 0x10 / 2 ^ 31 = 1 /\ (pci_address 5 3 0 0x10 / 2 ^ 16) mod 2 ^ 8 = 5.
Proof.
  destruct (pci_address_roundtrip 5 3 0 0x10 ltac:(lia) ltac:(lia) ltac:(lia) ltac:(lia)) as (_ & E1 & E2 & _).
  split; [exact E1|exact E2].
Defined.

Lemma scan_spec_witness :
  (check_network_card {| dev := 0; trace := [] |}).1 = Done tt.
Proof.
  destruct (scan_spec wcfg (fun _ => True) {| dev := 0; trace := [] |} wbus_ok I) as (s' & E & _).
  rewrite E. reflexivity.
Defined.

Lemma scans_agree_witness :
  exists s', check_network_card_and_init (H := true) 1 0x18000 (Locked_new None, {| dev := 0; trace := [] |})
             = (Done tt, (Locked_new None, s')).
Proof.
  destruct (scans_agree (H := true) wcfg (fun _ => True) 1 0x18000 (Locked_new None) {| dev := 0; trace := [] |} wbus_ok I)
    as (s' & _ & E).
  - intros bus slot _ _. unfold wcfg. by case_bool_decide.
  - exists s'. exact E.
Defined.
End Pci.
