(* ===== verification/Boot.v ===== *)
(** * Start-up

    [kernel_main] of something_os (main.rs), and of the networking kernel, which
    sends a packet where the first starts processes.  The components
    are composed the way the code composes them; [kernel_main_boots] shows that
    something_os reaches its idle loop in the state from which preemption
    implements its four processes, [send_test_packet_spec] which packet the
    networking kernel sends. *)

From S2P Require Import Prelude Store Allocator LinkedList X86 Frames Paging Vga Sched Gdt Interrupts Cpu Rtl8139 Pci.

(** The third-party heap's [init]; its [alloc] is [GlobalHeap]. *)
Class HeapInit (G W : Type) := heap_init : Z -> Z -> M (G * W) unit.

(** What the bootloader passes, and the processor's page-table base. *)
Record BootInfo := { physical_memory_offset : Z; boot_memory_map : list MemoryRegion; cr3_frame : Z }.

Module Boot.

(** ** What the start-up does on the heap, whatever memory it is on *)
Abbreviation sched_state G W := (Locked (option Scheduler) * (Z * (G * W)))%type.
Abbreviation spawn_state G W := (Scheduler * (Z * (G * W)))%type.

Section on_heap.
Context `{BuildProfile} {G W : Type} `{WordStore W} `{GlobalHeap G W} `{HeapInit G W}.

(** [allocator::init_heap]. *)
Definition init_heap : M (G * W) unit := heap_init HEAP_START HEAP_SIZE.

(** [Scheduler::init]. *)
Definition scheduler_init (phys_mem_offset : Z) : M (sched_state G W) unit :=
  zoom (fun s => (s.1, tt)) (fun t s => (t.1, s.2)) (Sched.init phys_mem_offset).

(** The block under [if let Some(ref mut sched) = *SCHEDULER.lock()]. *)
Definition spawn_block (process_alpha process_beta process_omega : Z) : M (spawn_state G W) unit :=
  _ ← zoom (fun s => (s.1, s.2.2)) (fun t s => (t.1, (s.2.1, t.2))) Sched.spawn_root;
  _ ← Sched.spawn process_alpha;
  _ ← Sched.spawn process_beta;
  _ ← Sched.spawn process_omega;
  mret tt.

Definition with_scheduler (body : M (spawn_state G W) unit) : M (sched_state G W) unit :=
  with_lock (fun '(o, x) =>
    match o with
    | Some sched => let '(r, (sched, x)) := body (sched, x) in (r, (Some sched, x))
    | None => (Done tt, (None, x))
    end).
End on_heap.

Section boot.
Context `{BuildProfile} `{Addresses} `{GdtCrate T} `{PageMapper Mp} `{Device D}.
Context {G : Type} `{GlobalHeap G mem} `{HeapInit G mem}.

(** ** The whole system's state: devices, statics, heap, memory *)
Record sys := {
  s_io : io D;
  s_pics : Locked unit;
  s_mapper : Locked (option Mp);
  s_frames : Locked (option BootInfoFrameAllocator);
  s_rtl8139 : Locked (option Rtl8139Driver);
  s_sched : Locked (option Scheduler);
  s_pid : Z;
  s_heap : G;
  s_mem : mem;
}.

Definition with_io (i : io D) (s : sys) : sys :=
  {| s_io := i; s_pics := s_pics s; s_mapper := s_mapper s; s_frames := s_frames s;
     s_rtl8139 := s_rtl8139 s; s_sched := s_sched s; s_pid := s_pid s; s_heap := s_heap s; s_mem := s_mem s |}.

Definition on_io {A} (c : M (io D) A) : M sys A := zoom s_io with_io c.

Definition on_pics {A} (c : M (Locked unit * io D) A) : M sys A :=
  zoom (fun s => (s_pics s, s_io s)) (fun t s => {| s_io := t.2; s_pics := t.1; s_mapper := s_mapper s;
    s_frames := s_frames s; s_rtl8139 := s_rtl8139 s; s_sched := s_sched s; s_pid := s_pid s;
    s_heap := s_heap s; s_mem := s_mem s |}) c.

Definition on_trace {A} (c : M (list event) A) : M (io D) A :=
  zoom trace (fun tr i => {| dev := dev i; trace := tr |}) c.

Definition on_statics {A} (c : M (Locked (option Mp) * (Locked (option BootInfoFrameAllocator) * list event)) A)
    : M sys A :=
  zoom (fun s => (s_mapper s, (s_frames s, trace (s_io s))))
    (fun t s => {| s_io := {| dev := dev (s_io s); trace := t.2.2 |}; s_pics := s_pics s; s_mapper := t.1;
       s_frames := t.2.1; s_rtl8139 := s_rtl8139 s; s_sched := s_sched s; s_pid := s_pid s;
       s_heap := s_heap s; s_mem := s_mem s |}) c.

Definition on_heap {A} (c : M (G * mem) A) : M sys A :=
  zoom (fun s => (s_heap s, s_mem s)) (fun t s => {| s_io := s_io s; s_pics := s_pics s;
    s_mapper := s_mapper s; s_frames := s_frames s; s_rtl8139 := s_rtl8139 s; s_sched := s_sched s;
    s_pid := s_pid s; s_heap := t.1; s_mem := t.2 |}) c.

Definition on_sched {A} (c : M (sched_state G mem) A) : M sys A :=
  zoom (fun s => (s_sched s, (s_pid s, (s_heap s, s_mem s))))
    (fun t s => {| s_io := s_io s; s_pics := s_pics s; s_mapper := s_mapper s; s_frames := s_frames s;
       s_rtl8139 := s_rtl8139 s; s_sched := t.1; s_pid := t.2.1; s_heap := t.2.2.1; s_mem := t.2.2.2 |}) c.

(** [kernel_main] of something_os, up to its idle loop. *)
Definition kernel_main (boot_info : BootInfo) (int3_frame : list Z)
    (process_alpha process_beta process_omega : Z) : M sys unit :=
  _ ← on_io (on_trace (Gdt.init (T := T)));
  _ ← on_pics Interrupts.init_idt;
  _ ← on_io Pci.check_network_card;
  _ ← on_io (emit (Instr "int3" []));
  _ ← on_io (Interrupts.breakpoint int3_frame);
  phys_mem_offset ← lift (VirtAddr_new (physical_memory_offset boot_info));
  _ ← on_statics (Paging.init_global_memory (cr3_frame boot_info) phys_mem_offset
                    (boot_memory_map boot_info));
  _ ← on_heap init_heap;
  _ ← on_io (println "Initializing Process Scheduler..." []);
  _ ← on_sched (scheduler_init phys_mem_offset);
  _ ← on_sched (with_scheduler (spawn_block process_alpha process_beta process_omega));
  on_io (println "Starting multi-process testing execution loop!\n" []).

(** ** The packet of the networking kernel *)

(** [dst[lo..hi].copy_from_slice(src)]. *)
Definition copy_from_slice (dst : list Z) (lo hi : nat) (src : list Z) : outcome (list Z) :=
  if decide ((lo <= hi)%nat /\ (hi <= length dst)%nat) then
    if decide (length src = hi - lo)%nat then Done (take lo dst ++ src ++ drop hi dst)
    else Panic ExplicitPanic
  else Panic IndexOutOfBounds.

(** The bytes of "Hello from Rust OS!". *)
Definition msg : list Z :=
  [0x48; 0x65; 0x6c; 0x6c; 0x6f; 0x20; 0x66; 0x72; 0x6f; 0x6d; 0x20; 0x52; 0x75; 0x73; 0x74; 0x20;
   0x4f; 0x53; 0x21].

Definition test_packet : outcome (list Z) :=
  let p := replicate 60 0 in
  p ← copy_from_slice p 0 6 [0xFF; 0xFF; 0xFF; 0xFF; 0xFF; 0xFF];
  p ← copy_from_slice p 6 12 [0x52; 0x54; 0x00; 0x12; 0x34; 0x56];
  p ← copy_from_slice p 12 14 [0x00; 0x00];
  copy_from_slice p 14 (14 + length msg) msg.

Abbreviation net_state := (Locked (option Rtl8139Driver) * (Locked (option Mp) * io D))%type.

(** The block that sends it; [packet_ptr] is the address of the packet. *)
Definition send_test_packet (fuel : nat) (packet_ptr : Z) : M net_state unit :=
  with_lock (fun '(rtl, x) =>
    match rtl with
    | None => (Done tt, (None, x))
    | Some driver =>
        match test_packet with
        | Done packet =>
            let '(o, (l, (driver, i))) :=
              with_lock (fun '(mapper, (driver, i)) =>
                match mapper with
                | None =>
                    let '(o, i) := println "Error: KERNEL_MAPPER is None!" [] i in
                    (o, (None, (driver, i)))
                | Some mp =>
                    let '(o, (driver, i)) :=
                      (packet_phys_addr ← lift (Paging.virt_to_phys_u32 mp packet_ptr);
                       _ ← Rtl8139.on_io (println "Virtual Addr: {:p} -> Physical Addr: {:#X}"
                                            [packet_ptr; packet_phys_addr]);
                       Rtl8139.send_packet fuel packet_phys_addr (Z.of_nat (length packet))) (driver, i) in
                    (o, (Some mp, (driver, i)))
                end) (x.1, (driver, x.2)) in
            (o, (Some driver, (l, i)))
        | _ => (Panic ExplicitPanic, (Some driver, x))
        end
    end).

(** [kernel_main] of the networking kernel, up to its idle loop. *)
Definition kernel_main_net (fuel : nat) (local_rx packet_ptr : Z) (boot_info : BootInfo)
    (int3_frame : list Z) : M sys unit :=
  _ ← on_io (on_trace (Gdt.init (T := T)));
  _ ← on_pics Interrupts.init_idt;
  _ ← on_io (emit (Instr "int3" []));
  _ ← on_io (Interrupts.breakpoint int3_frame);
  phys_mem_offset ← lift (VirtAddr_new (physical_memory_offset boot_info));
  _ ← on_statics (Paging.init_global_memory (cr3_frame boot_info) phys_mem_offset
                    (boot_memory_map boot_info));
  _ ← on_heap init_heap;
  _ ← zoom (fun s => (s_rtl8139 s, s_io s))
        (fun t s => {| s_io := t.2; s_pics := s_pics s; s_mapper := s_mapper s; s_frames := s_frames s;
           s_rtl8139 := t.1; s_sched := s_sched s; s_pid := s_pid s; s_heap := s_heap s; s_mem := s_mem s |})
        (Pci.check_network_card_and_init fuel local_rx);
  zoom (fun s => (s_rtl8139 s, (s_mapper s, s_io s)))
    (fun t s => {| s_io := t.2.2; s_pics := s_pics s; s_mapper := t.2.1; s_frames := s_frames s;
       s_rtl8139 := t.1; s_sched := s_sched s; s_pid := s_pid s; s_heap := s_heap s; s_mem := s_mem s |})
    (send_test_packet fuel packet_ptr).

(** The bytes of the packet. *)
Definition packet_bytes : list Z :=
  replicate 6 0xFF ++ [0x52; 0x54; 0x00; 0x12; 0x34; 0x56] ++ [0; 0] ++ msg ++ replicate 27 0.

Lemma test_packet_eq : test_packet = Done packet_bytes.
Proof. reflexivity. Qed.

Lemma virt_to_phys_u32_ok {AL : AddressLaws} mp packet_ptr phys :
  canonical_low packet_ptr -> translate_addr mp packet_ptr = Some phys -> in_range 32 phys ->
  Paging.virt_to_phys_u32 mp packet_ptr = Done phys.
Proof.
  intros Hptr Hmap Hlow. unfold Paging.virt_to_phys_u32. rewrite VirtAddr_new_ok by done. cbn [mbind outcome_bind].
  rewrite Hmap. by rewrite wrap_small.
Qed.

(** The block around the call on the driver. *)
Lemma send_test_packet_by {AL : AddressLaws} fuel packet_ptr driver driver' mp i i' phys :
  canonical_low packet_ptr -> translate_addr mp packet_ptr = Some phys -> in_range 32 phys ->
  Rtl8139.send_packet fuel phys 60 (driver, {| dev := dev i; trace := trace i ++
    [Println "Virtual Addr: {:p} -> Physical Addr: {:#X}" [packet_ptr; phys]] |}) = (Done tt, (driver', i')) ->
  send_test_packet fuel packet_ptr (Locked_new (Some driver), (Locked_new (Some mp), i))
  = (Done tt, (Locked_new (Some driver'), (Locked_new (Some mp), i'))).
Proof.
  intros Hptr Hmap Hlow E. set (i1 := {| dev := dev i; trace := _ |}) in E.
  unfold send_test_packet. apply with_lock_free. rewrite test_packet_eq.
  erewrite (with_lock_free _ (Some mp) (Some mp) (driver, i) (_, i') tt); [done|].
  rewrite (lift_bind _ _ _ _ (virt_to_phys_u32_ok mp packet_ptr phys Hptr Hmap Hlow)). rewrite (bind_done _ _ _ tt (driver, i1)) by done.
  change (Z.of_nat (length _)) with 60. by rewrite E.
Qed.

Lemma send_test_packet_ok {AL : AddressLaws} fuel packet_ptr driver mp i phys :
  canonical_low packet_ptr -> translate_addr mp packet_ptr = Some phys -> in_range 32 phys ->
  Rtl8139.base_ok (io_base driver) -> 0 <= tx_index driver < 4 -> Rtl8139.card_sends fuel (io_base driver) ->
  exists i',
    send_test_packet fuel packet_ptr (Locked_new (Some driver), (Locked_new (Some mp), i))
    = (Done tt, (Locked_new (Some {| io_base := io_base driver; rx_buffer := rx_buffer driver;
                                     tx_index := (tx_index driver + 1) mod 4 |}),
                 (Locked_new (Some mp), i'))) /\
    Rtl8139.outs (trace i') = Rtl8139.outs (trace i) ++
      Rtl8139.send_outs (io_base driver) (tx_index driver) phys 60.
Proof.
  intros Hptr Hmap Hlow Hbase Hi Hcard.
  destruct (Rtl8139.send_packet_ok fuel phys 60 driver {| dev := dev i; trace := trace i ++
    [Println "Virtual Addr: {:p} -> Physical Addr: {:#X}" [packet_ptr; phys]] |} Hbase Hi Hcard) as (i' & E & Ho).
  exists i'. split; [by eapply send_test_packet_by|]. rewrite Ho. cbn [trace]. by rewrite Rtl8139.outs_app, app_nil_r.
Qed.

(** C20: The test packet.  Its slices all fit, so that building it cannot panic:
    60 bytes, the broadcast address, the sender's address, a zero type, the
    message and padding.  With a driver and a page mapper in their statics it is
    sent, through the driver's next descriptor, from the physical address of its
    buffer: the line with the two addresses, the address and the length, then
    reads of the descriptor's status until the card shows it sent, and nothing
    else; the driver moves on by one descriptor and both locks are free again.
    Without a driver nothing happens; without a mapper only the error is
    printed. *)
Theorem send_test_packet_spec {AL : AddressLaws} fuel packet_ptr driver mp i phys
    (Hptr : canonical_low packet_ptr) (Hmap : translate_addr mp packet_ptr = Some phys)
    (Hlow : in_range 32 phys)
    (Hbase : Rtl8139.base_ok (io_base driver)) (Hi : 0 <= tx_index driver < 4)
    (Hcard : Rtl8139.card_sends fuel (io_base driver)) :
  (exists packet, test_packet = Done packet /\ length packet = 60%nat /\
    packet = replicate 6 0xFF ++ [0x52; 0x54; 0x00; 0x12; 0x34; 0x56] ++ [0; 0] ++ msg ++ replicate 27 0) /\
  (exists i' tr,
    send_test_packet fuel packet_ptr (Locked_new (Some driver), (Locked_new (Some mp), i))
    = (Done tt, (Locked_new (Some {| io_base := io_base driver; rx_buffer := rx_buffer driver;
                                     tx_index := (tx_index driver + 1) mod 4 |}),
                 (Locked_new (Some mp), i'))) /\
    trace i' = trace i ++ [Println "Virtual Addr: {:p} -> Physical Addr: {:#X}" [packet_ptr; phys]] ++ tr /\
    Rtl8139.transmitted (io_base driver) (tx_index driver) [(phys, 60)] tr) /\
  (forall l : Locked (option Mp),
    send_test_packet fuel packet_ptr (Locked_new None, (l, i)) = (Done tt, (Locked_new None, (l, i)))) /\
  send_test_packet fuel packet_ptr (Locked_new (Some driver), (Locked_new (None : option Mp), i))
  = (Done tt, (Locked_new (Some driver), (Locked_new None,
      {| dev := dev i; trace := trace i ++ [Println "Error: KERNEL_MAPPER is None!" []] |}))).
Proof.
  split_and!; [by exists packet_bytes| |done|done].
  destruct (Rtl8139.send_packet_transmits fuel phys 60 driver {| dev := dev i; trace := trace i ++
    [Println "Virtual Addr: {:p} -> Physical Addr: {:#X}" [packet_ptr; phys]] |} Hbase Hi Hcard) as (i' & tr & E & Ht & Htr).
  exists i', tr. split; [by eapply send_test_packet_by|]. split; [rewrite Ht; cbn [trace]; by rewrite <- app_assoc|].
  rewrite <- (app_nil_r tr). by apply Htr.
Qed.

(** ** The processes something_os starts with

    The theorem is proved against the allocator contract: a heap whose
    allocations satisfy it and are word-aligned inside the heap. *)
Section processes.
Context `{CallingConvention} {CL : CallingLaws}.
Context (heap_dealloc : Z -> Layout -> M (G * mem) unit) (inv : G -> mem -> gmap Z Layout -> Prop).
Context (HC : alloc_contract heap_alloc heap_dealloc inv).

Definition stack_layout : Layout := {| size := Sched.STACK_SIZE; align := 1 |}.
Definition in_heap (stk : Z * Z) : Prop := HEAP_START <= stk.1 /\ ends stk <= HEAP_START + HEAP_SIZE.

Context (Hplace : forall x m live p x' m', inv x m live ->
  heap_alloc stack_layout (x, m) = (Done p, (x', m')) -> p <> 0 ->
  p mod 8 = 0 /\ in_heap (p, Sched.STACK_SIZE)).

Lemma buffer_layout_ok : layout_ok (Sched.array_layout 4).
Proof. apply (bool_decide_unpack _). vm_compute. exact I. Qed.

Lemma stack_layout_ok : layout_ok stack_layout.
Proof. apply (bool_decide_unpack _). vm_compute. exact I. Qed.

(** The table while the processes are being spawned: [ws] are the spawned
    ones, on live blocks of the heap. *)
Record spawning (tab : Scheduler) (m : mem) (live : gmap Z Layout) (ws : list (vcpu * (Z * Z))) : Prop := {
  sp_ok : Sched.sched_ok tab;
  sp_current : current_index tab = 0;
  sp_waiting : Forall2 (Cpu.waiting m) (tail (processes tab)) ws;
  sp_live : Forall (fun w => live !! w.2.1 = Some stack_layout /\ w.2.2 = Sched.STACK_SIZE /\ in_heap w.2) ws;
  sp_disj : pairwise_disj (snd <$> ws);
}.

Lemma live_word live (w : vcpu * (Z * Z)) a :
  live !! w.2.1 = Some stack_layout -> w.2.2 = Sched.STACK_SIZE -> w.2.1 <= a < ends w.2 ->
  touches_live live a.
Proof.
  intros Hl Hs Ha. exists w.2.1, stack_layout. split; [done|].
  unfold touches, block, ends, stack_layout in *. cbn [fst snd size] in *. lia.
Qed.

Definition on_stacks (live : gmap Z Layout) (ws : list (vcpu * (Z * Z))) : Prop :=
  Forall (fun w => live !! w.2.1 = Some stack_layout /\ w.2.2 = Sched.STACK_SIZE /\ in_heap w.2) ws.

Lemma live_waiting m m' live q ws :
  preserves live m m' -> on_stacks live ws -> Forall2 (Cpu.waiting m) q ws -> Forall2 (Cpu.waiting m') q ws.
Proof.
  intros Hpres Hlive Hws. apply Forall2_same_length_lookup_2; [by apply Forall2_length in Hws|].
  intros k p w Hk Hwk. apply (Cpu.waiting_mono m); [by apply (Forall2_lookup_lr _ _ _ _ _ _ Hws Hk Hwk)|].
  destruct (Forall_lookup_1 _ _ _ _ Hlive Hwk) as (Hl & Hs & _).
  intros a Ha. apply Hpres. by apply (live_word live w).
Qed.

Definition new_process (entry p : Z) : vcpu * (Z * Z) :=
  (Cpu.fresh_cpu entry (p + Sched.STACK_SIZE), (p, Sched.STACK_SIZE)).

(** The heap has no room for a block beside the live ones. *)
Definition refuses (l : Layout) (live : gmap Z Layout) : Prop :=
  exists x m x' m', inv x m live /\ heap_alloc l (x, m) = (Done 0, (x', m')).

(** It has none for the deque's buffer, or none for one of the three stacks. *)
Definition out_of_room (live : gmap Z Layout) : Prop :=
  refuses (Sched.array_layout 4) live \/
  exists b stacks, (length stacks < 3)%nat /\
    refuses stack_layout (foldl (fun live p => <[p := stack_layout]> live) (<[b := Sched.array_layout 4]> live) stacks).

Lemma root_step x m live :
  inv x m live ->
  (refuses (Sched.array_layout 4) live /\ exists t', Sched.spawn_root (Sched.empty_table, (x, m)) = (Panic ExplicitPanic, t')) \/
  exists b x' m', Sched.spawn_root (Sched.empty_table, (x, m)) = (Done tt, (Sched.root_table b, (x', m'))) /\
    inv x' m' (<[b := Sched.array_layout 4]> live).
Proof.
  intros Hinv. destruct (ac_alloc _ _ _ HC x m live _ Hinv buffer_layout_ok) as (b & x' & m' & E & _ & Hcase).
  pose proof (Sched.spawn_root_ok (x, m) (x', m') b E) as Er.
  destruct Hcase as [[-> _]|(Hb & _ & _ & _ & Hinv')].
  - left. split; [by exists x, m, x', m'|]. eexists. exact Er.
  - right. exists b, x', m'. by rewrite bool_decide_false in Er by lia.
Qed.

(** The table with one more process. *)
Definition with_process (tab : Scheduler) (n p : Z) : Scheduler :=
  with_processes (processes tab ++ [Sched.spawned n p]) tab.

Lemma spawn_step entry tab n x m live ws :
  inv x m live -> spawning tab m live ws -> Z.of_nat (length (processes tab)) + 1 < 2 ^ 63 -> Sched.has_room tab ->
  (refuses stack_layout live /\ exists t', Sched.spawn entry (tab, (n, (x, m))) = (Panic ExplicitPanic, t')) \/
  exists p x' m', Sched.spawn entry (tab, (n, (x, m))) = (Done n, (with_process tab n p, (wrap 64 (n + 1), (x', m')))) /\
    inv x' m' (<[p := stack_layout]> live) /\
    spawning (with_process tab n p) m' (<[p := stack_layout]> live) (ws ++ [new_process entry p]) /\
    in_heap (p, Sched.STACK_SIZE).
Proof.
  intros Hinv [Hok Hcur Hws Hlive Hdisj] Hlen Hroom.
  destruct (ac_alloc _ _ _ HC x m live stack_layout Hinv stack_layout_ok)
    as (p & x1 & m1 & E & Hpres & Hcase).
  destruct Hcase as [[-> _]|(Hp & _ & Hnew & Hdis & Hinv1)].
  { left. split; [by exists x, m, x1, m1|]. eexists. by apply (Sched.spawn_null entry tab n x m x1 m1). }
  right. destruct (Hplace _ _ _ _ _ _ Hinv E ltac:(lia)) as [Hal Hheap].
  assert (Hrange : 0 < p /\ p + Sched.STACK_SIZE < 2 ^ 64).
  { destruct Hheap as [_ Hhi]. unfold ends, HEAP_START, HEAP_SIZE in Hhi. cbn [fst snd] in Hhi.
    split; [done|]. eapply Z.le_lt_trans; [exact Hhi|done]. }
  destruct (Cpu.spawned_ok entry tab n x m p x1 m1 Hroom E Hrange Hal)
    as (m' & Es & Hw & Hout).
  exists p, x1, m'.
  assert (Hothers : Forall (fun w => disj (p, Sched.STACK_SIZE) w.2) ws).
  { apply (Forall_impl _ _ _ Hlive). intros w (Hl & Hs & _).
    pose proof (Hdis _ _ Hl) as Hd. unfold block in Hd. cbn [size stack_layout] in Hd.
    rewrite <- Hs in Hd at 2. by rewrite <- surjective_pairing in Hd. }
  split_and!; [exact Es| | |done].
  - apply (ac_frame _ _ _ HC x1 m1 m' _ Hinv1). intros a Ha. apply Hout. intros Hin. apply Ha.
    exists p, stack_layout. split; [apply lookup_insert_eq|].
    unfold touches, block, ends. cbn [fst snd size stack_layout]. lia.
  - split; cbn [with_process with_processes processes current_index].
    + by apply Sched.sched_ok_push.
    + done.
    + assert (Hne : processes tab <> []).
      { intros En. destruct Hok as (Hc & _). rewrite En in Hc. cbn in Hc. lia. }
      destruct (processes tab) as [|p0 ps] eqn:Ep; [done|]. cbn [tail app] in *.
      apply Forall2_app; [|by constructor; [|constructor]].
      apply (Cpu.waiting_others m1 _ (p, Sched.STACK_SIZE));
        [by apply (live_waiting m _ live)|done|intros a Ha; apply Hout; exact Ha].
    + apply Forall_app. split; [|constructor; [|constructor]].
      * apply (Forall_impl _ _ _ Hlive). intros w (Hl & Hs & Hh). split_and!; try done.
        rewrite lookup_insert_ne; [done|]. intros Ew. by rewrite Ew, Hl in Hnew.
      * cbn. split_and!; [apply lookup_insert_eq|done|done].
    + rewrite fmap_app. cbn [fmap list_fmap].
      apply (pairwise_disj_perm ((p, Sched.STACK_SIZE) :: (snd <$> ws))); [apply Permutation_cons_append|].
      split; [by apply Forall_fmap|done].
Qed.

Lemma spawning_root b m live : spawning (Sched.root_table b) m live [].
Proof.
  split; [|done|done|done|done]. apply (Sched.history_root b ()).
Qed.

(** The spawned processes as the machine sees them. *)
Lemma spawning_represents (dv : io D) tab m live ws c0 stk0 :
  spawning tab m live ws -> ends stk0 <= HEAP_START \/ HEAP_START + HEAP_SIZE <= stk0.1 ->
  Cpu.represents {| cpu := c0; memory := m; kern :=
    {| SCHEDULER := Locked_new (Some tab); PICS := Locked_new (); kio := dv |} |} ((c0, stk0) :: ws).
Proof.
  intros [Hok Hcur Hws Hlive Hdisj] Hstk. exists tab, (c0, stk0), ws. cbn [kern SCHEDULER PICS memory cpu].
  split_and!; try done.
  - unfold Sched.ring. rewrite Hcur. change (Z.to_nat 0) with O. by rewrite drop_0, take_0, app_nil_r.
  - cbn. split; [|done]. apply Forall_fmap. apply (Forall_impl _ _ _ Hlive).
    intros w (_ & _ & Hlo & Hhi). cbn. unfold disj. lia.
Qed.

Definition boot_mach (c0 : vcpu) (l : Locked (option Scheduler)) (dv : io D) (m : mem) : mach D :=
  {| cpu := c0; memory := m; kern := {| SCHEDULER := l; PICS := Locked_new (); kio := dv |} |}.

Lemma fresh_interruptible entry p :
  call_stack <= 16000 -> in_heap (p, Sched.STACK_SIZE) -> Cpu.interruptible (new_process entry p).
Proof.
  intros Hcs [Hlo _]. unfold Cpu.interruptible, new_process, ends. cbn [fst snd] in *.
  unfold Cpu.frame_sp, Cpu.aligned_top, Cpu.frame_size.
  change (regs (Cpu.fresh_cpu entry (p + Sched.STACK_SIZE)) RSP) with (p + Sched.STACK_SIZE).
  pose proof (Z.mod_pos_bound (p + Sched.STACK_SIZE) 16 ltac:(done)).
  change Sched.STACK_SIZE with 16384 in *. unfold HEAP_START in Hlo.
  split_and!; [lia|lia|lia|done].
Qed.

(** The table of the boot context and three processes, numbered from [n]. *)
Definition boot_table (buf n p1 p2 p3 : Z) : Scheduler :=
  with_process (with_process (with_process (Sched.root_table buf) n p1) (wrap 64 (n + 1)) p2)
    (wrap 64 (wrap 64 (n + 1) + 1)) p3.

(** The block that fills the process table, on the empty table. *)
Lemma spawn_block_ok a b c n x m live c0 stk0 :
  inv x m live -> call_stack <= 16000 ->
  ends stk0 <= HEAP_START \/ HEAP_START + HEAP_SIZE <= stk0.1 -> Cpu.interruptible (c0, stk0) ->
  exists o l n' x' m',
    with_scheduler (spawn_block a b c)
      (Locked_new (Some Sched.empty_table), (n, (x, m))) = (o, (l, (n', (x', m')))) /\
    ((o = Panic ExplicitPanic /\ out_of_room live) \/
     (o = Done tt /\ exists buf p1 p2 p3, l = Locked_new (Some (boot_table buf n p1 p2 p3)) /\ forall dv,
        Cpu.config_ok (boot_mach c0 l dv m', [(c0, stk0); new_process a p1; new_process b p2; new_process c p3]))).
Proof.
  intros Hheap Hcs Hstk Hrun.
  unfold with_scheduler, with_lock. cbn [lock held inner Locked_new]. unfold spawn_block.
  destruct (root_step x m live Hheap) as [[Hno [[t [? ?]] E]]|(buf & x0 & m0 & E0 & Hi0)].
  { erewrite bind_panic; [|unfold zoom; cbn [fst snd]; by rewrite E]. do 5 eexists. split; [done|].
    left. split; [done|by left]. }
  erewrite bind_done; [|apply zoom_done; exact E0]. cbn [fst snd].
  destruct (spawn_step a (Sched.root_table buf) n x0 m0 _ [] Hi0 (spawning_root buf m0 _) eq_refl eq_refl)
    as [[Hno [t E]]|(p1 & x1 & m1 & E1 & Hi1 & Hs1 & Hh1)].
  { rewrite (bind_panic _ _ _ _ _ E). destruct t as [? [? [? ?]]]. do 5 eexists. split; [done|].
    left. split; [done|]. right. exists buf, []. split; [cbn; lia|exact Hno]. }
  rewrite (bind_done _ _ _ _ _ E1).
  destruct (spawn_step b _ (wrap 64 (n + 1)) x1 m1 _ _ Hi1 Hs1 eq_refl eq_refl)
    as [[Hno [t E]]|(p2 & x2 & m2 & E2 & Hi2 & Hs2 & Hh2)].
  { rewrite (bind_panic _ _ _ _ _ E). destruct t as [? [? [? ?]]]. do 5 eexists. split; [done|].
    left. split; [done|]. right. exists buf, [p1]. split; [cbn; lia|exact Hno]. }
  rewrite (bind_done _ _ _ _ _ E2).
  destruct (spawn_step c _ (wrap 64 (wrap 64 (n + 1) + 1)) x2 m2 _ _ Hi2 Hs2 eq_refl eq_refl)
    as [[Hno [t E]]|(p3 & x3 & m3 & E3 & Hi3 & Hs3 & Hh3)].
  { rewrite (bind_panic _ _ _ _ _ E). destruct t as [? [? [? ?]]]. do 5 eexists. split; [done|].
    left. split; [done|]. right. exists buf, [p1; p2]. split; [cbn; lia|exact Hno]. }
  rewrite (bind_done _ _ _ _ _ E3). do 5 eexists. split; [done|].
  right. split; [done|]. exists buf, p1, p2, p3. split; [done|]. intros dv.
  pose proof (spawning_represents dv _ m3 _ _ c0 stk0 Hs3 Hstk) as Hrep.
  split_and!; [exact Hrep|cbn; lia|].
  repeat (constructor; [first [exact Hrun|by apply fresh_interruptible]|]). constructor.
Qed.

(** ** The start of something_os *)
Context {AL : AddressLaws} {GL : GdtLaws T}.

(** Every lock free, as the statics are at load time. *)
Definition unlocked (s : sys) : Prop :=
  s_pics s = Locked_new () /\ held (s_mapper s) = false /\ held (s_frames s) = false /\
  held (s_sched s) = false.

(** Steps that only drive the devices. *)
Definition quiet (c : M sys unit) (s : sys) : Prop := exists i, c s = (Done tt, with_io i s).

Lemma quiet_io c s : (exists i, c (s_io s) = (Done tt, i)) -> quiet (on_io c) s.
Proof. intros [i E]. exists i. by apply zoom_done. Qed.

Lemma quiet_emit e s : quiet (on_io (emit e)) s.
Proof. by apply quiet_io; eexists. Qed.

Lemma quiet_gdt s : quiet (on_io (on_trace (Gdt.init (T := T)))) s.
Proof. apply quiet_io. eexists. apply zoom_done, Gdt.gdt_init_ok. Qed.

Lemma quiet_idt s : s_pics s = Locked_new () -> quiet (on_pics Interrupts.init_idt) s.
Proof.
  intros Hp. destruct s as [i pics mp fa rtl sc n hp me]. cbn in Hp. subst pics.
  eexists. unfold on_pics. erewrite zoom_done; [|reflexivity]. reflexivity.
Qed.

(** The state with the memory statics installed. *)
Definition with_memory (cr3 off : Z) (map : list MemoryRegion) (s : sys) : sys :=
  {| s_io := s_io s; s_pics := s_pics s; s_mapper := Locked_new (Some (OffsetPageTable_new (off + cr3) off));
     s_frames := Locked_new (Some (Frames.init map)); s_rtl8139 := s_rtl8139 s; s_sched := s_sched s;
     s_pid := s_pid s; s_heap := s_heap s; s_mem := s_mem s |}.

Lemma memory_installed cr3 off map s :
  unlocked s -> canonical_low off -> canonical_low (off + cr3) ->
  on_statics (Paging.init_global_memory cr3 off map) s = (Done tt, with_memory cr3 off map s).
Proof.
  intros (_ & Hm & Hf & _) Hoff Htab. destruct s as [[d tr] pics [hm mp] [hf fa] rtl sc n hp me].
  cbn in Hm, Hf. subst hm hf. unfold on_statics.
  erewrite zoom_done; [|by apply Paging.init_global_memory_spec]. done.
Qed.

Definition with_heap (x : G) (m : mem) (s : sys) : sys :=
  {| s_io := s_io s; s_pics := s_pics s; s_mapper := s_mapper s; s_frames := s_frames s;
     s_rtl8139 := s_rtl8139 s; s_sched := s_sched s; s_pid := s_pid s; s_heap := x; s_mem := m |}.

Definition with_sched (l : Locked (option Scheduler)) (n : Z) (s : sys) : sys :=
  {| s_io := s_io s; s_pics := s_pics s; s_mapper := s_mapper s; s_frames := s_frames s;
     s_rtl8139 := s_rtl8139 s; s_sched := l; s_pid := n; s_heap := s_heap s; s_mem := s_mem s |}.

Lemma heap_installed x m s :
  heap_init HEAP_START HEAP_SIZE (s_heap s, s_mem s) = (Done tt, (x, m)) ->
  on_heap init_heap s = (Done tt, with_heap x m s).
Proof. intros E. unfold on_heap. by erewrite zoom_done; [|exact E]. Qed.

Lemma sched_step (c : M (sched_state G mem) unit) s o l n x m :
  c (s_sched s, (s_pid s, (s_heap s, s_mem s))) = (o, (l, (n, (x, m)))) ->
  on_sched c s = (o, with_heap x m (with_sched l n s)).
Proof. intros E. unfold on_sched, zoom. by rewrite E. Qed.

Lemma scheduler_installed off s :
  held (s_sched s) = false ->
  on_sched (scheduler_init off) s
  = (Done tt, with_sched (Locked_new (Some Sched.empty_table)) (s_pid s) s).
Proof.
  intros Hs. destruct s as [i pics mp fa rtl [hs sc] n hp me]. cbn in Hs. by subst hs.
Qed.

(** What [kernel_main] does is decided by the block that fills the table. *)
Lemma kernel_main_eq bi int3_frame a b c s x m o l n' x' m' :
  unlocked s -> canonical_low (physical_memory_offset bi) ->
  canonical_low (physical_memory_offset bi + cr3_frame bi) ->
  heap_init HEAP_START HEAP_SIZE (s_heap s, s_mem s) = (Done tt, (x, m)) ->
  with_scheduler (spawn_block a b c)
    (Locked_new (Some Sched.empty_table), (s_pid s, (x, m))) = (o, (l, (n', (x', m')))) ->
  o = Done tt \/ o = Panic ExplicitPanic ->
  exists i, kernel_main bi int3_frame a b c s
    = (o, with_io i (with_heap x' m' (with_sched l n'
            (with_memory (cr3_frame bi) (physical_memory_offset bi) (boot_memory_map bi) s)))).
Proof.
  intros Hfree Hoff Htable Hheap Es Ho.
  destruct (quiet_gdt s) as [i1 E1]. unfold kernel_main. rewrite (bind_done _ _ _ _ _ E1).
  destruct (quiet_idt (with_io i1 s) (proj1 Hfree)) as [i2 E2]. rewrite (bind_done _ _ _ _ _ E2).
  destruct (quiet_io _ (with_io i2 s) (Pci.scan_total _)) as [i3 E3]. rewrite (bind_done _ _ _ _ _ E3).
  destruct (quiet_emit (Instr "int3" []) (with_io i3 s)) as [i4 E4]. rewrite (bind_done _ _ _ _ _ E4).
  destruct (quiet_io (Interrupts.breakpoint int3_frame) (with_io i4 s) ltac:(by eexists)) as [i5 E5].
  rewrite (bind_done _ _ _ _ _ E5).
  rewrite (lift_bind _ _ _ _ (VirtAddr_new_ok _ Hoff)).
  rewrite (bind_done _ _ _ _ _ (memory_installed (cr3_frame bi) _ (boot_memory_map bi) (with_io i5 s) Hfree Hoff Htable)).
  set (s6 := with_memory (cr3_frame bi) (physical_memory_offset bi) (boot_memory_map bi) (with_io i5 s)).
  rewrite (bind_done _ _ _ _ _ (heap_installed x m s6 Hheap)).
  destruct (quiet_emit (Println "Initializing Process Scheduler..." []) (with_heap x m s6)) as [i7 E7].
  rewrite (bind_done _ _ _ _ _ E7).
  set (s7 := with_io i7 (with_heap x m s6)).
  rewrite (bind_done _ _ _ _ _ (scheduler_installed (physical_memory_offset bi) s7 (proj2 (proj2 (proj2 Hfree))))).
  pose proof (sched_step _ (with_sched _ (s_pid s7) s7) _ _ _ _ _ Es) as E8.
  destruct Ho as [-> | ->].
  - rewrite (bind_done _ _ _ _ _ E8). by eexists.
  - exists i7. exact (bind_panic _ _ _ _ _ E8).
Qed.

(** Also what is in the table. *)
Lemma kernel_main_ok bi int3_frame a b c s x m c0 stk0
    (Hfree : unlocked s)
    (Hoff : canonical_low (physical_memory_offset bi))
    (Htable : canonical_low (physical_memory_offset bi + cr3_frame bi))
    (Hheap : heap_init HEAP_START HEAP_SIZE (s_heap s, s_mem s) = (Done tt, (x, m)))
    (Hinv : inv x m ∅)
    (Hcs : call_stack <= 16000)
    (Hstk : ends stk0 <= HEAP_START \/ HEAP_START + HEAP_SIZE <= stk0.1)
    (Hrun : Cpu.interruptible (c0, stk0)) :
  exists o s', kernel_main bi int3_frame a b c s = (o, s') /\
    ((o = Panic ExplicitPanic /\ out_of_room ∅) \/
     (o = Done tt /\
      s_mapper s' = Locked_new (Some (OffsetPageTable_new
        (physical_memory_offset bi + cr3_frame bi) (physical_memory_offset bi))) /\
      s_frames s' = Locked_new (Some (Frames.init (boot_memory_map bi))) /\
      exists buf p1 p2 p3, s_sched s' = Locked_new (Some (boot_table buf (s_pid s) p1 p2 p3)) /\ Cpu.config_ok
        ({| cpu := c0; memory := s_mem s'; kern :=
              {| SCHEDULER := s_sched s'; PICS := s_pics s'; kio := s_io s' |} |},
         [(c0, stk0); new_process a p1; new_process b p2; new_process c p3]))).
Proof.
  destruct (spawn_block_ok a b c (s_pid s) x m ∅ c0 stk0 Hinv Hcs Hstk Hrun)
    as (o & l & n' & x' & m' & Es & Hcase).
  destruct (kernel_main_eq bi int3_frame a b c s x m _ _ _ _ _ Hfree Hoff Htable Hheap Es) as [i E];
    [by destruct Hcase as [[? _]|[? _]]; [right|left]|].
  eexists _, _. split; [exact E|].
  destruct Hcase as [[-> Hno]|(-> & buf & p1 & p2 & p3 & Hl & Hok)]; [by left|right].
  split_and!; [done..|]. exists buf, p1, p2, p3. split; [exact Hl|]. cbn. rewrite (proj1 Hfree). apply Hok.
Qed.

(** The start of something_os.  With the locks free, canonical addresses, a
    third-party heap that initialises and keeps the allocator contract, and
    whatever the devices answer, [kernel_main] reaches its idle loop, or panics
    where the heap refuses the buffer of the process table or one of the three
    stacks.  At the idle loop the
    statics that heap page faults need are installed on the boot memory map,
    with no frame taken yet, and the machine is in the state from which
    preemption runs four processes: the boot context and the three processes,
    each at its own entry point on its own stack, in the order in which they
    were spawned. *)
Theorem kernel_main_boots bi int3_frame a b c s x m c0 stk0
    (Hfree : unlocked s)
    (Hoff : canonical_low (physical_memory_offset bi))
    (Htable : canonical_low (physical_memory_offset bi + cr3_frame bi))
    (Hheap : heap_init HEAP_START HEAP_SIZE (s_heap s, s_mem s) = (Done tt, (x, m)))
    (Hinv : inv x m ∅)
    (Hcs : call_stack <= 16000)
    (Hstk : ends stk0 <= HEAP_START \/ HEAP_START + HEAP_SIZE <= stk0.1)
    (Hrun : Cpu.interruptible (c0, stk0)) :
  exists o s', kernel_main bi int3_frame a b c s = (o, s') /\
    ((o = Panic ExplicitPanic /\ out_of_room ∅) \/
     (o = Done tt /\
      s_mapper s' = Locked_new (Some (OffsetPageTable_new
        (physical_memory_offset bi + cr3_frame bi) (physical_memory_offset bi))) /\
      s_frames s' = Locked_new (Some (Frames.init (boot_memory_map bi))) /\
      exists p1 p2 p3, Cpu.config_ok
        ({| cpu := c0; memory := s_mem s'; kern :=
              {| SCHEDULER := s_sched s'; PICS := s_pics s'; kio := s_io s' |} |},
         [(c0, stk0); new_process a p1; new_process b p2; new_process c p3]))).
Proof.
  destruct (kernel_main_ok bi int3_frame a b c s x m c0 stk0 Hfree Hoff Htable Hheap Hinv Hcs Hstk Hrun)
    as (o & s' & E & [Hp|(Ho & Hm & Hf & _ & p1 & p2 & p3 & _ & Hok)]); exists o, s'; (split; [exact E|]); [by left|right].
  split_and!; try done. by exists p1, p2, p3.
Qed.
End processes.
End boot.
(** ** Witnesses: the linked-list allocator of this repository as the heap, and
    the packet on a page that the mapper maps below 4 GiB *)
#[local] Instance wprofile : BuildProfile := true.
#[local] Existing Instance LinkedList.global_alloc.
(** [realloc] is the trait's own, without the copy: the deque's elements are not
    in the memory of the model. *)
#[local] Instance wheap : GlobalHeap (Locked LinkedListAllocator) mem := {
  heap_alloc := alloc (H := LinkedListAllocator);
  heap_realloc p l n :=
    q ← alloc (H := LinkedListAllocator) {| size := n; align := align l |};
    if bool_decide (q = 0) then mret 0 else _ ← dealloc (H := LinkedListAllocator) p l; mret q;
}.
Definition heap_end : Z := HEAP_START + HEAP_SIZE.

Lemma boot_heap_ok : LinkedList.heap_ok HEAP_START heap_end.
Proof. split; vm_compute; congruence. Qed.

Definition wheap0 : Locked LinkedListAllocator * mem :=
  let s := LinkedList.push_region HEAP_START HEAP_SIZE (LinkedList.new, ∅) in (Locked_new s.1, s.2).

Lemma wheap_ready :
  LinkedList.inv HEAP_START heap_end wheap0.1 wheap0.2 ∅.
Proof.
  destruct (LinkedList.list_init_inv HEAP_START HEAP_SIZE ∅ boot_heap_ok) as [_ Hi];
    [by exists (HEAP_START / 8)|by exists (HEAP_SIZE / 8)|vm_compute; congruence|].
  split; [done|]. eexists. exact Hi.
Qed.

Lemma wheap_place x m live p x' m' :
  LinkedList.inv HEAP_START heap_end x m live ->
  heap_alloc stack_layout (x, m) = (Done p, (x', m')) -> p <> 0 ->
  p mod 8 = 0 /\ in_heap (p, Sched.STACK_SIZE).
Proof.
  intros Hi E Hp.
  destruct (ac_alloc _ _ _ (LinkedList.linked_list_contract _ _ boot_heap_ok) x m live _ Hi stack_layout_ok)
    as (q & x1 & m1 & E1 & _ & Hcase).
  pose proof (eq_trans (eq_sym E) E1) as [= <- <- <-].
  destruct Hcase as [[? _]|(_ & _ & _ & _ & _ & rs & Hi')]; [done|].
  destruct (LinkedList.hi_live _ _ _ _ _ Hi' p stack_layout) as [_ (Hlo & Hhi & Hal & _ & _)];
    [apply lookup_insert_eq|].
  cbn [fst snd LinkedList.rblock] in *. split; [by apply Z.mod_divide|].
  destruct (LinkedList.rsize_spec stack_layout stack_layout_ok) as [Hs _].
  unfold in_heap, ends, heap_end, LinkedList.rblock, stack_layout in *. cbn [fst snd size] in *. lia.
Qed.

#[local] Existing Instances Paging.gmap_mapper Paging.gmap_mapper_laws Rtl8139.wcard std_addr std_addr_laws
  Gdt.list_gdt Gdt.list_gdt_laws Cpu.wconv Cpu.wconv_laws.
#[local] Instance wheap_init : HeapInit (Locked LinkedListAllocator) mem :=
  fun start size => with_lock (LinkedList.init start size).

Lemma wheap_init_ok :
  heap_init HEAP_START HEAP_SIZE (Locked_new LinkedList.new, ∅) = (Done tt, (wheap0.1, wheap0.2)).
Proof. vm_compute. reflexivity. Qed.

Definition wboot : BootInfo :=
  {| physical_memory_offset := 0x10000000000; boot_memory_map := Frames.wmap; cr3_frame := 0x2000 |}.
Definition wsys : sys (Mp := gmap Z Z) (D := Z) (G := Locked LinkedListAllocator) :=
  {| s_io := Rtl8139.wio; s_pics := Locked_new (); s_mapper := Locked_new None; s_frames := Locked_new None;
     s_rtl8139 := Locked_new None; s_sched := Locked_new None; s_pid := 1; s_heap := Locked_new LinkedList.new;
     s_mem := ∅ |}.
Lemma wsys_spawns :
  (with_scheduler (spawn_block 0x10100 0x10200 0x10300)
    (Locked_new (Some Sched.empty_table), (1, wheap0))).1 = Done tt.
Proof. vm_compute. reflexivity. Qed.

Lemma wsys_unlocked : unlocked wsys.
Proof. unfold unlocked. auto. Qed.
Lemma wboot_offset : canonical_low 0x10000000000.
Proof. unfold canonical_low. lia. Qed.
Lemma wboot_table : canonical_low (0x10000000000 + 0x2000).
Proof. unfold canonical_low. lia. Qed.

(** The three stacks fit. *)
Lemma wboot_fits s' t :
  kernel_main (Mp := gmap Z Z) wboot [] 0x10100 0x10200 0x10300 wsys = (Panic t, s') -> False.
Proof.
  intros E. pose proof wsys_spawns as Ed.
  destruct (with_scheduler _ _) as [o' [l [n' [x' m']]]] eqn:Es. cbn [fst] in Ed. subst o'.
  destruct (kernel_main_eq wboot [] 0x10100 0x10200 0x10300 wsys wheap0.1 wheap0.2 _ _ _ _ _
    wsys_unlocked wboot_offset wboot_table wheap_init_ok Es (or_introl eq_refl)) as [i E'].
  rewrite E in E'. discriminate E'.
Qed.

Lemma kernel_main_boots_witness :
  exists s', kernel_main (Mp := gmap Z Z) wboot [] 0x10100 0x10200 0x10300 wsys = (Done tt, s') /\
    s_frames s' = Locked_new (Some (Frames.init Frames.wmap)) /\
    exists p1 p2 p3, Cpu.config_ok
      ({| cpu := Cpu.wcpu; memory := s_mem s'; kern :=
            {| SCHEDULER := s_sched s'; PICS := s_pics s'; kio := s_io s' |} |},
       [(Cpu.wcpu, (0x6000, 0x2000)); new_process 0x10100 p1; new_process 0x10200 p2; new_process 0x10300 p3]).
Proof.
  destruct (kernel_main_boots (H1 := Gdt.list_gdt) (H4 := wheap) (H6 := Cpu.wconv) dealloc _
    (LinkedList.linked_list_contract HEAP_START heap_end boot_heap_ok)
    wheap_place wboot [] 0x10100 0x10200 0x10300 wsys wheap0.1 wheap0.2 Cpu.wcpu (0x6000, 0x2000)
    wsys_unlocked wboot_offset wboot_table wheap_init_ok wheap_ready ltac:(vm_compute; congruence)
    ltac:(left; vm_compute; congruence) ltac:(unfold Cpu.interruptible; vm_compute; intuition congruence))
    as (o & s' & E & [[-> _]|(-> & _ & Hf & Hok)]).
  - destruct (wboot_fits _ _ E).
  - exists s'. split; [exact E|]. split; [exact Hf|exact Hok].
Defined.

Lemma send_test_packet_spec_witness :
  (send_test_packet 1 0x10000000010 (Locked_new (Some (Rtl8139.new 0xC000)),
     (Locked_new (Some ({[ 0x10000000000 := 0x5000 ]} : gmap Z Z)), Rtl8139.wio))).1 = Done tt.
Proof.
  destruct (send_test_packet_spec 1 0x10000000010 (Rtl8139.new 0xC000)
    ({[ 0x10000000000 := 0x5000 ]} : gmap Z Z) Rtl8139.wio 0x5010
    ltac:(split; done) ltac:(vm_compute; reflexivity) ltac:(split; done) ltac:(split; done)
    ltac:(cbn; lia) Rtl8139.wcard_sends) as (_ & (i' & tr & E & _) & _).
  rewrite E. reflexivity.
Defined.
End Boot.
