(* ===== verification/Traffic.v ===== *)
(** * The devices' answers and the driver's state

    [u8], [u16] and [u32] values are integers in this development.  This file is
    a small program logic of state invariants for the code that talks to the
    devices, under the assumption that their answers have the width of the port;
    NetBoot.v and NetStartup.v take from it that a stored driver has a port base
    and one of the four descriptors, and that every event has the width of its
    port.  What the registers may be told, and when, is in Registers.v. *)

From S2P Require Import Prelude Store X86 Frames Paging Sched Gdt Interrupts Rtl8139 Pci Boot.

(** ** Devices and events of the right width

    [dev_ok] is an invariant of the devices' state under which their answers
    have the width of the port they are read from. *)
Class TypedDevice (D : Type) `{Device D} := {
  dev_ok : D -> Prop;
  dev_in_range w p d : dev_ok d -> in_range (bits w) (dev_in w p d).1;
  dev_in_ok w p d : dev_ok d -> dev_ok (dev_in w p d).2;
  dev_out_ok w p v d : dev_ok d -> dev_ok (dev_out w p v d);
}.

Definition event_ok (e : event) : Prop :=
  match e with
  | Out w port value | In w port value => in_range 16 port /\ in_range (bits w) value
  | Eoi vector => in_range 8 vector
  | _ => True
  end.

Module Traffic.

(** ** State invariants

    [c] preserves [I] however it ends, and what it returns satisfies [Q]. *)
Definition keeps {S A} (I : S -> Prop) (c : M S A) (Q : A -> Prop) : Prop :=
  forall s, I s -> I (c s).2 /\ forall a, (c s).1 = Done a -> Q a.

Abbreviation any := (fun _ => True).

Create HintDb keeps.

Section rules.
Context {S : Type} (I : S -> Prop).

Lemma keeps_ret {A} (a : A) (Q : A -> Prop) : Q a -> keeps I (mret a) Q.
Proof. intros HQ s HI. split; [done|]. by intros b [= <-]. Qed.

Lemma keeps_lift {A} (o : outcome A) (Q : A -> Prop) : (forall a, o = Done a -> Q a) -> keeps I (lift o) Q.
Proof. intros HQ s HI. by split. Qed.

Lemma keeps_fail {A} (o : outcome A) (Q : A -> Prop) : (forall a, o = Done a -> Q a) -> keeps I (fail o) Q.
Proof. intros HQ s HI. by split. Qed.

Lemma keeps_gets {A} (f : S -> A) (Q : A -> Prop) : (forall s, I s -> Q (f s)) -> keeps I (gets f) Q.
Proof. intros HQ s HI. split; [done|]. intros a [= <-]. by apply HQ. Qed.

Lemma keeps_modify (f : S -> S) (Q : unit -> Prop) : Q tt -> (forall s, I s -> I (f s)) -> keeps I (modify f) Q.
Proof. intros HQ Hf s HI. split; [by apply Hf|]. by intros [] _. Qed.

Lemma keeps_bind {A B} (Q : A -> Prop) (Q' : B -> Prop) c (k : A -> M S B) :
  keeps I c Q -> (forall a, Q a -> keeps I (k a) Q') -> keeps I (c ≫= k) Q'.
Proof.
  intros Hc Hk s HI. destruct (Hc s HI) as [HI' HQ]. unfold mbind, M_bind in *.
  destruct (c s) as [[a|f| | |] s']; try done. by apply (Hk a (HQ a eq_refl)).
Qed.

Lemma keeps_for_range lo hi (f : Z -> M S unit) :
  (forall i, lo <= i < hi -> keeps I (f i) any) -> keeps I (for_range lo hi f) any.
Proof.
  intros Hf. unfold for_range.
  assert (Hl : Forall (fun i => lo <= i < hi) (seqZ lo (hi - lo))).
  { apply Forall_forall. intros i ?%elem_of_seqZ. lia. }
  induction Hl as [|i l Hi Hl IH]; [by apply keeps_ret|]. cbn [for_each].
  eapply keeps_bind; [by apply Hf|]. by intros [] _.
Qed.
End rules.

Lemma keeps_zoom {S T A} (I : S -> Prop) (J : T -> Prop) (Q : A -> Prop) get set (c : M T A) :
  (forall s, I s -> J (get s)) -> (forall s t, I s -> J t -> I (set t s)) ->
  keeps J c Q -> keeps I (zoom get set c) Q.
Proof.
  intros Hget Hset Hc s HI. destruct (Hc _ (Hget s HI)) as [HJ HQ]. unfold zoom.
  destruct (c (get s)) as [o t]. split; [by apply Hset|exact HQ].
Qed.

(** A critical section: the invariant speaks of what the lock protects. *)
Lemma keeps_with_lock {X A B} (J : A * X -> Prop) (Q : B -> Prop) (body : M (A * X) B) :
  keeps J body Q -> keeps (fun s => J (inner s.1, s.2)) (with_lock body) Q.
Proof.
  intros Hc [l x] HI. cbn [fst snd] in HI. unfold with_lock, lock. destruct (held l); [by split|].
  destruct (Hc _ HI) as [HJ HQ]. destruct (body (inner l, x)) as [[b|f| | |] [a' x']]; by split.
Qed.

(** ** Ports *)
Section ports.
Context `{Device D} {TD : TypedDevice D}.

Definition io_ok (i : io D) : Prop := Forall event_ok (trace i) /\ dev_ok (dev i).

Lemma trace_snoc tr e : Forall event_ok tr -> event_ok e -> Forall event_ok (tr ++ [e]).
Proof. intros Htr He. apply Forall_app. by split; [|constructor]. Qed.

Lemma keeps_emit e : event_ok e -> keeps io_ok (emit e) any.
Proof. intros He. apply keeps_modify; [done|]. intros s [Hs Hd]. split; [by apply trace_snoc|exact Hd]. Qed.

Lemma keeps_port_write w port v : in_range 16 port -> in_range (bits w) v -> keeps io_ok (port_write w port v) any.
Proof. intros Hp Hv s [Hs Hd]. split; [|done]. split; [by apply trace_snoc|by apply dev_out_ok]. Qed.

Lemma keeps_port_read w port : in_range 16 port -> keeps io_ok (port_read w port) (in_range (bits w)).
Proof.
  intros Hp s [Hs Hd]. rewrite port_read_eq. split; [|intros v [= <-]; by apply dev_in_range].
  split; [apply trace_snoc; [exact Hs|]; split; [done|by apply dev_in_range]|by apply dev_in_ok].
Qed.

Lemma keeps_println fmt args : keeps io_ok (println fmt args) any.
Proof. by apply keeps_emit. Qed.
End ports.
#[export] Hint Resolve keeps_println : keeps.
#[export] Hint Extern 1 (keeps _ (mret _) _) => (apply keeps_ret; done) : keeps.
#[export] Hint Extern 2 (keeps _ (port_write _ _ _) _) => apply keeps_port_write : keeps.
#[export] Hint Extern 2 (keeps _ (port_read _ _) _) => apply keeps_port_read : keeps.
#[export] Hint Extern 2 (keeps _ (emit _) _) => (apply keeps_emit; try exact I) : keeps.
#[export] Hint Extern 3 (in_range _ _) => (unfold in_range; cbn [bits]; lia) : keeps.

Ltac keeps_hyps := repeat match goal with H : any _ |- _ => clear H end.
(** One step after the other; what is left are the branches and the ranges. *)
Ltac keeps :=
  repeat first
    [ lazymatch goal with |- keeps _ (_ ≫= _) _ => eapply keeps_bind; [solve [eauto with keeps]|intros ? ?] end
    | progress cbn beta zeta ]; eauto with keeps.

Lemma range_const w x : bool_decide (0 <= x) && bool_decide (x < 2 ^ w) = true -> in_range w x.
Proof. rewrite andb_true_iff, !bool_decide_eq_true. done. Qed.
#[export] Hint Extern 1 (in_range _ (Zpos _)) => (apply range_const; reflexivity) : keeps.
#[export] Hint Extern 1 (in_range _ (Z.shiftl (Zpos _) _)) => (apply range_const; vm_compute; reflexivity) : keeps.
#[export] Hint Extern 1 (in_range _ (wrap _ _)) => (apply wrap_range; cbn [bits]; lia) : keeps.
#[export] Hint Extern 1 (in_range _ (Z.lor _ _)) => (repeat (apply lor_range; [cbn [bits]; lia| |])) : keeps.
#[export] Hint Extern 1 (in_range _ (Z.land _ _)) => (apply land_range; [cbn [bits]; lia|..]) : keeps.

Section drivers.
Context `{BuildProfile} `{Device D} {TD : TypedDevice D}.

Lemma keeps_uadd {S} (I : S -> Prop) w a b : 0 <= w -> keeps I (lift (uadd w a b)) (in_range w).
Proof. intros Hw. apply keeps_lift. intros c. by apply overflowing_range. Qed.

Lemma keeps_umul {S} (I : S -> Prop) w a b : 0 <= w -> keeps I (lift (umul w a b)) (in_range w).
Proof. intros Hw. apply keeps_lift. intros c. by apply overflowing_range. Qed.
#[local] Hint Extern 2 (keeps _ (lift (uadd _ _ _)) _) => (apply keeps_uadd; lia) : keeps.
#[local] Hint Extern 2 (keeps _ (lift (umul _ _ _)) _) => (apply keeps_umul; lia) : keeps.

(** ** The card *)
Lemma keeps_poll fuel w port fin : in_range 16 port -> keeps io_ok (Rtl8139.poll fuel w port fin) any.
Proof.
  intros Hp. induction fuel as [|fuel IH]; cbn [Rtl8139.poll]; [by apply keeps_fail|].
  keeps. by case_match; eauto with keeps.
Qed.
#[local] Hint Resolve keeps_poll : keeps.

Lemma keeps_init fuel rx_ptr self : keeps io_ok (Rtl8139.init fuel rx_ptr self) any.
Proof. unfold Rtl8139.init. keeps. Qed.
#[local] Hint Resolve keeps_init : keeps.

Definition driver_ok (d : Rtl8139Driver) : Prop := in_range 16 (io_base d) /\ 0 <= tx_index d < 4.
Definition drv_ok (s : Rtl8139Driver * io D) : Prop := driver_ok s.1 /\ io_ok s.2.

Lemma keeps_on_io {A} (c : M (io D) A) Q : keeps io_ok c Q -> keeps drv_ok (Rtl8139.on_io c) Q.
Proof. apply keeps_zoom; [by intros s [_ ?]|]. by intros s t [? _] ?. Qed.
#[local] Hint Resolve keeps_on_io : keeps.

Lemma keeps_send_packet fuel phys_addr length :
  in_range 32 phys_addr -> keeps drv_ok (Rtl8139.send_packet fuel phys_addr length) any.
Proof.
  intros Hp. unfold Rtl8139.send_packet. eapply keeps_bind; [by apply (keeps_gets _ _ any)|]. intros self _. keeps.
  eapply (keeps_bind _ any); [|intros; keeps]. apply keeps_modify; [done|]. intros s [[Hb _] Hi]. split; [split; [exact Hb|]|exact Hi].
  cbn. apply Z.mod_pos_bound. lia.
Qed.
#[local] Hint Resolve keeps_send_packet : keeps.

(** ** The static and the bus *)
Definition static_ok (s : Locked (option Rtl8139Driver) * io D) : Prop :=
  (forall d, inner s.1 = Some d -> driver_ok d) /\ io_ok s.2.

Lemma keeps_on_static {A} (c : M (io D) A) Q : keeps io_ok c Q -> keeps static_ok (Rtl8139.on_static c) Q.
Proof. apply keeps_zoom; [by intros s [_ ?]|]. by intros s t [? _] ?. Qed.
#[local] Hint Resolve keeps_on_static : keeps.

Lemma keeps_store_driver d :
  driver_ok d -> keeps static_ok (with_lock (modify (fun s => (Some d, s.2)))) any.
Proof.
  intros Hd. apply (keeps_with_lock (fun s => (forall d, s.1 = Some d -> driver_ok d) /\ io_ok s.2)).
  apply keeps_modify; [done|]. intros s [_ Hi]. split; [|exact Hi]. by intros d' [= <-].
Qed.

Lemma new_ok base : in_range 16 base -> driver_ok (Rtl8139.new base).
Proof. intros Hb. split; [exact Hb|]. cbn. lia. Qed.
#[local] Hint Resolve keeps_store_driver new_ok : keeps.

Lemma pci_address_range bus slot func offset :
  0 <= bus < 256 -> 0 <= slot < 32 -> 0 <= func < 8 -> 0 <= offset < 256 ->
  in_range 32 (pci_address bus slot func offset).
Proof. intros Hb Hs Hf Ho. rewrite Rtl8139.pci_address_eq by done. unfold in_range. lia. Qed.
#[local] Hint Extern 1 (in_range _ (pci_address _ _ _ _)) => (apply pci_address_range; lia) : keeps.

Lemma range_16_32 x : in_range 16 x -> in_range 32 x.
Proof. unfold in_range. lia. Qed.
#[local] Hint Extern 2 (in_range _ (wrap 16 _)) => (apply range_16_32, wrap_range; lia) : keeps.

Lemma keeps_init_device fuel local_rx bus slot func :
  0 <= bus < 256 -> 0 <= slot < 32 -> 0 <= func < 8 ->
  keeps static_ok (Rtl8139.init_device fuel local_rx bus slot func) any.
Proof.
  intros Hb Hs Hf. unfold Rtl8139.init_device. keeps. case_bool_decide; keeps.
Qed.

Lemma keeps_probe_and_init fuel local_rx bus slot :
  0 <= bus < 256 -> 0 <= slot < 32 -> keeps static_ok (Pci.probe_and_init fuel local_rx bus slot) any.
Proof.
  intros Hb Hs. unfold Pci.probe_and_init. rewrite Pci.scan_address_eq. keeps.
  repeat case_match; keeps. apply keeps_init_device; lia.
Qed.

(** ** Interrupt set-up and handlers *)
Definition pics_ok (s : Locked unit * io D) : Prop := io_ok s.2.

Lemma keeps_pics_io {A} (c : M (io D) A) Q : keeps io_ok c Q -> keeps pics_ok (Interrupts.on_io c) Q.
Proof. by apply keeps_zoom. Qed.

Lemma keeps_pics_event e : event_ok e -> keeps pics_ok (with_lock (Interrupts.emit_io e)) any.
Proof.
  intros He. apply (keeps_with_lock (fun s => io_ok s.2)).
  unfold Interrupts.emit_io. apply (keeps_zoom _ io_ok); [done|done|]. by apply keeps_emit.
Qed.
#[local] Hint Resolve keeps_pics_io : keeps.
#[local] Hint Extern 2 (keeps _ (with_lock (Interrupts.emit_io _)) _) => (apply keeps_pics_event; try exact I) : keeps.

Lemma keeps_init_pit : keeps io_ok Interrupts.init_pit any.
Proof. unfold Interrupts.init_pit. keeps. Qed.
#[local] Hint Resolve keeps_init_pit : keeps.

Lemma keeps_init_idt : keeps pics_ok Interrupts.init_idt any.
Proof. unfold Interrupts.init_idt. keeps. Qed.

Lemma keeps_eoi i : keeps pics_ok (Interrupts.notify_end_of_interrupt (as_u8 i)) any.
Proof. apply keeps_pics_event. destruct i; by apply range_const. Qed.
#[local] Hint Resolve keeps_eoi : keeps.

Lemma keeps_signal_eoi : keeps pics_ok Interrupts.signal_eoi any.
Proof. apply keeps_eoi. Qed.

Lemma keeps_keyboard : keeps pics_ok Interrupts.handle_keyboard_io_and_eoi any.
Proof. unfold Interrupts.handle_keyboard_io_and_eoi. keeps. Qed.
End drivers.

(** ** The kernels *)
Section kernels.
Context `{BuildProfile} `{Addresses} `{GdtCrate T} `{PageMapper Mp} `{Device D} {TD : TypedDevice D}.
Context {G : Type} `{GlobalHeap G mem} `{Boot.HeapInit G mem}.

#[local] Abbreviation sys := (Boot.sys (Mp := Mp) (D := D) (G := G)).
#[local] Abbreviation trace_ok := (Forall event_ok).

Definition sys_ok (s : sys) : Prop := static_ok (Boot.s_rtl8139 s, Boot.s_io s).

Lemma keeps_sys_io {A} (c : M (io D) A) Q : keeps io_ok c Q -> keeps sys_ok (Boot.on_io c) Q.
Proof. apply keeps_zoom; [by intros s [_ ?]|]. by intros s t [? _] ?. Qed.

Lemma keeps_sys_pics {A} (c : M (Locked unit * io D) A) Q : keeps pics_ok c Q -> keeps sys_ok (Boot.on_pics c) Q.
Proof. apply keeps_zoom; [by intros s [_ ?]|]. by intros s t [? _] ?. Qed.

Lemma keeps_gdt_init : keeps (io_ok (D := D)) (Boot.on_trace (Gdt.init (T := T))) any.
Proof.
  apply (keeps_zoom _ trace_ok); [by intros s [? _]|by intros s t [_ ?] ?|]. unfold Gdt.init.
  eapply (keeps_bind _ any); [by apply keeps_lift|]. intros [_ sel] _.
  assert (He : forall e, event_ok e -> keeps trace_ok (modify (fun tr => tr ++ [e])) any).
  { intros e He. apply keeps_modify; [done|]. intros tr Htr. by apply trace_snoc. }
  do 3 (eapply (keeps_bind _ any); [by apply He|intros ? _]). by apply He.
Qed.

End kernels.

(** ** The card of Rtl8139.v, its answers cut to the width of the port *)
#[local] Instance wtyped : Device Z := {|
  dev_out := dev_out (Device := Rtl8139.wcard);
  dev_in := fun w p d => let '(v, d) := dev_in (Device := Rtl8139.wcard) w p d in (wrap (bits w) v, d) |}.

#[local] Instance wtyped_ok : TypedDevice Z.
Proof.
  apply (Build_TypedDevice _ _ any); try done. intros w p d _. cbn. apply wrap_range. by destruct w.
Defined.
End Traffic.
