(* ===== verification/NetBoot.v ===== *)
(** * The start of the networking kernel

    [kernel_main] of something_os_networking (main.rs) from its first line to
    its idle loop: descriptor tables, interrupts, paging and heap as in the
    other kernel, then the PCI scan that brings the network card up, and the
    test packet.  The scheduler stays uninitialised. *)

From S2P Require Import Prelude Store Allocator X86 Frames Paging Sched Gdt Interrupts Rtl8139 Pci Boot Traffic.
Import Traffic.

Module NetBoot.

(** ** The cards on the bus

    The identification and the first base address of every function; [card] is
    the port base of an RTL8139 with an I/O-mapped one. *)
Section scan.
Context `{BuildProfile} `{Device D} {TD : TypedDevice D}.
Context (cfg : Z -> Z -> Z -> Z).

Definition configuration : Prop := forall d bus slot offset,
  dev_ok d -> 0 <= bus < 255 -> 0 <= slot < 32 -> offset = 0 \/ offset = 0x10 ->
  (dev_in W32 0xCFC (dev_out W32 0xCF8 (pci_address bus slot 0 offset) d)).1 = cfg bus slot offset.

Definition card (bus slot : Z) : option Z :=
  if Pci.is_rtl8139 (cfg bus slot 0) && bool_decide (Z.land (cfg bus slot 0x10) 1 = 1)
  then Some (Rtl8139.io_base_of (cfg bus slot 0x10)) else None.

(** In the order of the scan. *)
Definition cards : list Z :=
  bus ← seqZ 0 255; slot ← seqZ 0 32; option_list (card bus slot).

(** What is in the static after these cards were found. *)
Definition stored (bases : list Z) (old : option Rtl8139Driver) : option Rtl8139Driver :=
  match last bases with Some base => Some (Rtl8139.new base) | None => old end.

Lemma stored_app xs ys old : stored (xs ++ ys) old = stored ys (stored xs old).
Proof. unfold stored. rewrite last_app. by destruct (last ys). Qed.

(** A card answers a reset and sends what it is given, within [fuel] reads. *)
Definition card_works (fuel : nat) (base : Z) : Prop :=
  Rtl8139.base_ok base /\ Rtl8139.card_sends fuel base /\
  forall d, Rtl8139.answers fuel W8 (base + 0x37) Rtl8139.reset_done (dev_out W8 (base + 0x37) 0x10 d) = true.

Lemma not_rtl8139_ffff v : Pci.vendor_of v = 0xFFFF -> Pci.is_rtl8139 v = false.
Proof. intros E. unfold Pci.is_rtl8139. by rewrite E. Qed.

Lemma setup_reads bus slot d :
  configuration -> 0 <= bus < 255 -> 0 <= slot < 32 -> dev_ok d ->
  exists cmd_status d', Rtl8139.pci_setup bus slot 0 d = (cmd_status, cfg bus slot 0x10, d') /\
    in_range 32 cmd_status /\ in_range 32 (cfg bus slot 0x10).
Proof.
  intros Hcfg Hb Hs Hd. unfold Rtl8139.pci_setup.
  set (d1 := dev_out W32 0xCF8 _ d). assert (Hd1 : dev_ok d1) by by apply dev_out_ok.
  pose proof (dev_in_range W32 0xCFC d1 Hd1) as Hcmd. pose proof (dev_in_ok W32 0xCFC d1 Hd1) as Hd2.
  destruct (dev_in W32 0xCFC d1) as [cmd d2]. cbn [fst snd] in *.
  set (d3 := dev_out W32 0xCFC _ d2). assert (Hd3 : dev_ok d3) by by apply dev_out_ok.
  pose proof (Hcfg d3 bus slot 0x10 Hd3 Hb Hs (or_intror eq_refl)) as Ebar.
  pose proof (dev_in_range W32 0xCFC (dev_out W32 0xCF8 (pci_address bus slot 0 0x10) d3) (dev_out_ok _ _ _ _ Hd3)) as Hbar.
  destruct (dev_in W32 0xCFC _) as [bar d5]. cbn [fst] in *. subst bar. by exists cmd, d5.
Qed.

Lemma probe_step fuel local_rx bus slot old i :
  configuration -> 0 <= bus < 255 -> 0 <= slot < 32 ->
  (forall base, card bus slot = Some base -> card_works fuel base) ->
  static_ok (Locked_new old, i) ->
  exists i', Pci.probe_and_init fuel local_rx bus slot (Locked_new old, i)
    = (Done tt, (Locked_new (stored (option_list (card bus slot)) old), i')).
Proof.
  intros Hcfg Hb Hs Hcard [_ Hi]. cbn [snd] in Hi.
  unfold Pci.probe_and_init. rewrite Pci.scan_address_eq.
  set (a := pci_address bus slot 0 0).
  set (ia := {| dev := dev_out W32 0xCF8 a (dev i); trace := trace i ++ [Out W32 0xCF8 a] |}).
  rewrite (bind_done _ _ _ tt (Locked_new old, ia)) by done.
  pose proof (Hcfg (dev i) bus slot 0 (proj2 Hi) Hb Hs (or_introl eq_refl)) as Ev. fold a in Ev.
  assert (Hia : io_ok ia).
  { apply (keeps_port_write W32 0xCF8 a); [by apply range_const|apply pci_address_range; lia|exact Hi]. }
  pose proof (keeps_port_read W32 0xCFC ltac:(by apply range_const) ia Hia) as [Hib _].
  set (ib := {| dev := (dev_in W32 0xCFC (dev ia)).2; trace := trace ia ++ [In W32 0xCFC (cfg bus slot 0)] |}).
  rewrite port_read_eq in Hib. cbn [snd] in Hib. change (dev ia) with (dev_out W32 0xCF8 a (dev i)) in Hib at 2.
  rewrite Ev in Hib. fold ib in Hib.
  rewrite (bind_done _ _ _ (cfg bus slot 0) (Locked_new old, ib)).
  2:{ unfold Rtl8139.on_static, zoom; cbn [snd fst]. rewrite port_read_eq. cbn [dev ia]. rewrite Ev. done. }
  unfold card in *. destruct (decide (Pci.vendor_of (cfg bus slot 0) = 0xFFFF)) as [Hv|Hv].
  { rewrite bool_decide_true by done. exists ib. by rewrite (not_rtl8139_ffff _ Hv). }
  rewrite (bool_decide_false (Pci.vendor_of _ = _)) by done.
  destruct (Pci.is_rtl8139 (cfg bus slot 0)) eqn:Er; cbn [andb] in *.
  2:{ destruct (Pci.is_e1000 _); by eexists. }
  set (ic := {| dev := dev ib; trace := trace ib ++ [Println Pci.found_rtl [bus; slot]] |}).
  rewrite (bind_done _ _ _ tt (Locked_new old, ic)) by done.
  destruct (setup_reads bus slot (dev ic) Hcfg Hb Hs (proj2 Hib)) as (cmd & d' & Esetup & Hcmd & Hbar).
  case_bool_decide as Hbit.
  - destruct (Hcard _ eq_refl) as (Hbase & _ & Hreset).
    destruct (Rtl8139.init_device_io fuel local_rx bus slot 0 old ic cmd _ d' Esetup Hbit (proj2 Hbase) (Hreset d'))
      as (s' & E & _). by exists s'.
  - destruct (Rtl8139.init_device_mem fuel local_rx bus slot 0 old ic cmd _ d' Esetup Hbit) as (s' & E & _). by exists s'.
Qed.

(** The static over a list of probes. *)
Lemma probes_stored {A} (l : list A) (f : A -> M (Locked (option Rtl8139Driver) * io D) unit) (g : A -> list Z) :
  (forall a old i, a ∈ l -> static_ok (Locked_new old, i) ->
     exists i', f a (Locked_new old, i) = (Done tt, (Locked_new (stored (g a) old), i'))) ->
  (forall a, a ∈ l -> keeps static_ok (f a) any) ->
  forall old i, static_ok (Locked_new old, i) ->
  exists i', for_each l f (Locked_new old, i) = (Done tt, (Locked_new (stored (l ≫= g) old), i')).
Proof.
  intros Hf Hk. induction l as [|a l IH]; intros old i Hok; [by exists i|].
  destruct (Hf a old i ltac:(by left) Hok) as [i1 E1]. destruct (Hk a ltac:(by left) _ Hok) as [Hok1 _].
  rewrite E1 in Hok1. cbn [snd] in Hok1.
  destruct (IH ltac:(intros; apply Hf; [by right|done]) ltac:(intros; apply Hk; by right) _ _ Hok1) as [i2 E2].
  exists i2. cbn [for_each]. rewrite (bind_done _ _ _ _ _ E1), E2. by rewrite bind_cons, stored_app.
Qed.

Lemma scan_stores fuel local_rx old i :
  configuration -> (forall base, base ∈ cards -> card_works fuel base) -> static_ok (Locked_new old, i) ->
  exists i', Pci.check_network_card_and_init fuel local_rx (Locked_new old, i)
    = (Done tt, (Locked_new (stored cards old), i')).
Proof.
  intros Hcfg Hcards Hok. unfold Pci.check_network_card_and_init.
  set (i1 := {| dev := dev i; trace := trace i ++ [Println "Scanning PCI buses for Network Cards..." []] |}).
  rewrite (bind_done _ _ _ tt (Locked_new old, i1)) by done.
  assert (Hok1 : static_ok (Locked_new old, i1)).
  { split; [exact (proj1 Hok)|]. split; [by apply trace_snoc; [apply Hok|]|apply (proj2 (proj2 Hok))]. }
  unfold for_range, cards. apply (probes_stored (seqZ 0 (255 - 0))); [| |exact Hok1].
  - intros bus old2 i2 Hb Hok2. apply elem_of_seqZ in Hb.
    apply (probes_stored (seqZ 0 (32 - 0))); [| |exact Hok2].
    + intros slot old3 i3 Hs Hok3. apply elem_of_seqZ in Hs. apply probe_step; [done|lia|lia| |exact Hok3].
      intros base Ebase. apply Hcards. unfold cards. apply list_elem_of_bind. exists bus. split; [|apply elem_of_seqZ; lia].
      apply list_elem_of_bind. exists slot. split; [|apply elem_of_seqZ; lia]. rewrite Ebase. by left.
    + intros slot Hs. apply elem_of_seqZ in Hs. apply keeps_probe_and_init; lia.
  - intros bus Hb. apply elem_of_seqZ in Hb. apply keeps_for_range. intros slot Hs. apply keeps_probe_and_init; lia.
Qed.
End scan.

(** ** [kernel_main] *)
Section start.
Context `{BuildProfile} `{Addresses} {AL : AddressLaws} `{GdtCrate T} {GL : GdtLaws T}
  `{PageMapper Mp} `{Device D} {TD : TypedDevice D}.
Context {G : Type} `{GlobalHeap G mem} `{Boot.HeapInit G mem}.

#[local] Abbreviation sys := (Boot.sys (Mp := Mp) (D := D) (G := G)).

Definition with_rtl (l : Locked (option Rtl8139Driver)) (i : io D) (s : sys) : sys :=
  {| Boot.s_io := i; Boot.s_pics := Boot.s_pics s; Boot.s_mapper := Boot.s_mapper s;
     Boot.s_frames := Boot.s_frames s; Boot.s_rtl8139 := l; Boot.s_sched := Boot.s_sched s;
     Boot.s_pid := Boot.s_pid s; Boot.s_heap := Boot.s_heap s; Boot.s_mem := Boot.s_mem s |}.

(** A step that only drives the devices keeps their invariant. *)
Lemma quiet_keeps (c : M sys unit) s :
  Boot.quiet c s -> keeps sys_ok c any -> sys_ok s ->
  exists i, c s = (Done tt, Boot.with_io i s) /\ sys_ok (Boot.with_io i s).
Proof.
  intros [i E] Hk Hs. exists i. split; [exact E|]. destruct (Hk s Hs) as [Hs' _]. by rewrite E in Hs'.
Qed.

(** The driver after the test packet. *)
Definition after_packet (l : option Rtl8139Driver) : option Rtl8139Driver :=
  match l with
  | Some d => Some {| io_base := io_base d; rx_buffer := rx_buffer d; tx_index := (tx_index d + 1) mod 4 |}
  | None => None
  end.

Lemma packet_sent fuel packet_ptr mp phys l i :
  canonical_low packet_ptr -> translate_addr mp packet_ptr = Some phys -> in_range 32 phys ->
  (forall d, l = Some d -> card_works fuel (io_base d) /\ 0 <= tx_index d < 4) ->
  exists i', Boot.send_test_packet fuel packet_ptr (Locked_new l, (Locked_new (Some mp), i))
    = (Done tt, (Locked_new (after_packet l), (Locked_new (Some mp), i'))) /\
    Rtl8139.outs (trace i') = Rtl8139.outs (trace i) ++
      match l with Some d => Rtl8139.send_outs (io_base d) (tx_index d) phys 60 | None => [] end.
Proof.
  intros Hptr Hmap Hlow Hl. destruct l as [d|]; [|exists i; rewrite app_nil_r; by split].
  destruct (Hl d eq_refl) as [(Hbase & Hsends & _) Hi].
  exact (Boot.send_test_packet_ok fuel packet_ptr d mp i phys Hptr Hmap Hlow Hbase Hi Hsends).
Qed.

(** The start of the networking kernel.  With the locks free, canonical
    addresses, a heap that initialises, and cards that answer resets and
    transmissions, [kernel_main] reaches its idle loop: the statics that page
    faults need are installed on the boot memory map, the scheduler is still
    uninitialised and every lock is free; the driver static holds the last
    port-mapped RTL8139 the scan found, or nothing, and if it holds one, the
    last thing the devices were told is to send the test packet, from its
    physical address, through the first descriptor of that card. *)
Theorem kernel_main_net_boots fuel local_rx packet_ptr bi int3_frame s x m cfg phys
    (Hfree : Boot.unlocked s) (Hrtl : Boot.s_rtl8139 s = Locked_new None) (Hio : io_ok (Boot.s_io s))
    (Hoff : canonical_low (Boot.physical_memory_offset bi))
    (Htable : canonical_low (Boot.physical_memory_offset bi + Boot.cr3_frame bi))
    (Hheap : Boot.heap_init HEAP_START HEAP_SIZE (Boot.s_heap s, Boot.s_mem s) = (Done tt, (x, m)))
    (Hcfg : configuration (D := D) cfg) (Hcards : forall base, base ∈ cards cfg -> card_works fuel base)
    (Hptr : canonical_low packet_ptr)
    (Hmap : translate_addr (OffsetPageTable_new (Boot.physical_memory_offset bi + Boot.cr3_frame bi)
              (Boot.physical_memory_offset bi)) packet_ptr = Some phys)
    (Hlow : in_range 32 phys) :
  exists i, Boot.kernel_main_net fuel local_rx packet_ptr bi int3_frame s
    = (Done tt, with_rtl (Locked_new (after_packet (stored (cards cfg) None))) i
        (Boot.with_heap x m (Boot.with_memory (Boot.cr3_frame bi) (Boot.physical_memory_offset bi)
           (Boot.boot_memory_map bi) s))) /\
    forall base, last (cards cfg) = Some base ->
      Rtl8139.send_outs base 0 phys 60 `suffix_of` Rtl8139.outs (trace i).
Proof.
  assert (Hs : sys_ok s) by (split; [by rewrite Hrtl|exact Hio]).
  unfold Boot.kernel_main_net.
  destruct (quiet_keeps _ s (Boot.quiet_gdt s) (keeps_sys_io _ _ keeps_gdt_init) Hs) as (i1 & E1 & Hs1).
  rewrite (bind_done _ _ _ _ _ E1).
  destruct (quiet_keeps _ _ (Boot.quiet_idt (Boot.with_io i1 s) (proj1 Hfree))
    (keeps_sys_pics _ _ keeps_init_idt) Hs1) as (i2 & E2 & Hs2).
  rewrite (bind_done _ _ _ _ _ E2).
  destruct (quiet_keeps _ _ (Boot.quiet_emit (Instr "int3" []) (Boot.with_io i2 s))
    (keeps_sys_io _ _ (keeps_emit (Instr "int3" []) Logic.I)) Hs2) as (i3 & E3 & Hs3).
  rewrite (bind_done _ _ _ _ _ E3).
  destruct (quiet_keeps _ _ (Boot.quiet_emit (Println "EXCEPTION: BREAKPOINT\n{:#?}" int3_frame) (Boot.with_io i3 s))
    (keeps_sys_io _ _ (keeps_println _ _)) Hs3) as (i4 & E4 & Hs4).
  rewrite (bind_done _ _ _ _ _ E4).
  rewrite (lift_bind _ _ _ _ (VirtAddr_new_ok _ Hoff)).
  rewrite (bind_done _ _ _ _ _ (Boot.memory_installed (Boot.cr3_frame bi) _ (Boot.boot_memory_map bi)
    (Boot.with_io i4 s) Hfree Hoff Htable)).
  rewrite (bind_done _ _ _ _ _ (Boot.heap_installed x m (Boot.with_memory _ _ _ (Boot.with_io i4 s)) Hheap)).
  assert (Hst : static_ok (Locked_new None, i4)).
  { split; [by intros d [=]|]. apply Hs4. }
  destruct (scan_stores cfg fuel local_rx None i4 Hcfg Hcards Hst) as (i5 & E5).
  erewrite bind_done; [|apply zoom_done; cbn; rewrite Hrtl; exact E5]. cbn [fst snd].
  destruct (packet_sent fuel packet_ptr _ phys (stored (cards cfg) None) i5 Hptr Hmap Hlow) as (i6 & E6 & Ho6).
  { unfold stored. intros d Hd. destruct (last (cards cfg)) as [base|] eqn:El; [|done]. injection Hd as <-.
    split; [|cbn; lia]. apply Hcards. by apply last_Some_elem_of. }
  exists i6. split.
  - erewrite zoom_done; [|cbn; exact E6]. reflexivity.
  - intros base El. unfold stored in Ho6. rewrite El in Ho6. cbn in Ho6. rewrite Ho6. by eexists.
Qed.
End start.

(** ** Witness: the card of Traffic.v in every slot, physical memory mapped at an
    offset, as the bootloader does *)
#[local] Instance offset_mapper : PageMapper Z := {
  OffsetPageTable_new _ offset := offset;
  map_to _ _ _ s := (Done false, s);
  translate_addr offset a := if bool_decide (offset <= a) then Some (a - offset) else None;
  is_writable _ _ := true;
}.
#[local] Existing Instances std_addr std_addr_laws Gdt.list_gdt Gdt.list_gdt_laws Boot.wheap Boot.wheap_init
  Traffic.wtyped Traffic.wtyped_ok.

Definition wcfg (bus slot offset : Z) : Z := if bool_decide (offset = 0x10) then 0xC001 else 0x813910EC.

Definition wnet : Boot.sys (Mp := Z) (D := Z) (G := Locked LinkedList.LinkedListAllocator) :=
  {| Boot.s_io := Rtl8139.wio; Boot.s_pics := Locked_new (); Boot.s_mapper := Locked_new None;
     Boot.s_frames := Locked_new None; Boot.s_rtl8139 := Locked_new None; Boot.s_sched := Locked_new None;
     Boot.s_pid := 1; Boot.s_heap := Locked_new LinkedList.LinkedList.new; Boot.s_mem := ∅ |}.

Lemma wcfg_ok : configuration (D := Z) wcfg.
Proof.
  intros d bus slot offset _ Hb Hs Ho.
  assert (Hm : pci_address bus slot 0 offset mod 256 = offset).
  { rewrite Rtl8139.pci_address_eq by lia. symmetry.
    apply (Z.mod_unique _ _ (2 ^ 23 + bus * 2 ^ 8 + slot * 2 ^ 3)); lia. }
  generalize dependent (pci_address bus slot 0 offset). intros a Hm.
  change (wrap 32 (if bool_decide (a mod 256 = 0x10) then 0xC001 else if bool_decide (a mod 256 = 0) then 0x813910EC
    else 0x02900000) = wcfg bus slot offset).
  rewrite Hm. by destruct Ho as [-> | ->].
Qed.

Lemma wcards base : base ∈ cards wcfg -> base = 0xC000.
Proof.
  unfold cards. intros (bus & (slot & Hs & _)%list_elem_of_bind & _)%list_elem_of_bind.
  by apply list_elem_of_singleton in Hs.
Qed.

Lemma wcard_works : card_works (D := Z) 1 0xC000.
Proof.
  split_and!; [by split| |].
  - intros d i a l Hi. cbn. rewrite !(bool_decide_eq_false_2 (_ = 0xCF8)) by lia.
    rewrite (bool_decide_eq_false_2 (_ = 0xCFC)) by lia. reflexivity.
  - intros d. reflexivity.
Qed.

Lemma kernel_main_net_boots_witness :
  exists s', Boot.kernel_main_net (H := true) 1 0x18000 0x10000005000 Boot.wboot [] wnet = (Done tt, s') /\
    Boot.s_rtl8139 s' = Locked_new (after_packet (Some (Rtl8139.new 0xC000))) /\
    Rtl8139.send_outs 0xC000 0 0x5000 60 `suffix_of` Rtl8139.outs (trace (Boot.s_io s')).
Proof.
  assert (Hlast : last (cards wcfg) = Some 0xC000) by (vm_compute; reflexivity).
  destruct (kernel_main_net_boots (H := true) 1 0x18000 0x10000005000 Boot.wboot [] wnet Boot.wheap0.1 Boot.wheap0.2 wcfg 0x5000)
    as (i & E & Hsent).
  - by split_and!.
  - done.
  - by split; [constructor|].
  - unfold canonical_low; cbn; lia.
  - unfold canonical_low; cbn; lia.
  - exact Boot.wheap_init_ok.
  - apply wcfg_ok.
  - intros base ->%wcards. apply wcard_works.
  - unfold canonical_low; lia.
  - reflexivity.
  - unfold in_range; lia.
  - eexists. split; [exact E|]. cbn [with_rtl Boot.s_rtl8139 Boot.s_io]. split; [|by apply Hsent].
    unfold stored. by rewrite Hlast.
Defined.
End NetBoot.
