(* ===== verification/System.v ===== *)
(** * The two views of the running system

    Cpu.v runs the interrupt handlers instruction by instruction on registers
    and stacks; Processes.v switches between whole processes, each saved under
    the stack pointer the scheduler keeps for it.  Here the second is shown to
    follow the first, interrupt by interrupt, and the state in which
    [kernel_main] leaves the machine to be the one the theorems of Processes.v
    start from. *)

From ITree Require Import ITree.
From S2P Require Import Prelude Store Allocator LinkedList X86 Frames Paging Format Vga Sched Gdt Interrupts Processes Cpu Rtl8139 Boot.

Module System.
(** A saved context, and the stack it is on. *)
#[local] Abbreviation context := (vcpu * (Z * Z))%type.

Section views.
Context `{BuildProfile} `{Device D} `{CallingConvention} {CL : CallingLaws}.

(** ** What a processor state stands for

    [code] gives the process that a context runs and where it is in it, with its
    interrupt flag; it is what the compiler guarantees of the machine code.  It
    depends on the registers and on the part of the process's stack that is in
    use. *)
Definition same_context (m m' : mem) (w w' : context) : Prop :=
  w.1 ≡ w'.1 /\ w.2 = w'.2 /\ forall a, w.2.1 <= a < ends w.2 -> regs w.1 RSP <= a -> m' !! a = m !! a.

Context (code : mem -> context -> thread)
  (code_proper : forall m m' w w', same_context m m' w w' -> code m' w' = code m w).

(** The machine of Processes.v shows a configuration of Cpu.v. *)
Record shows (s : mach D) (run : context) (ws : list context) (M : machine) : Prop := {
  sh_sched : sched M = SCHEDULER (kern s);
  sh_running : running M = code (memory s) run;
  sh_waiting tab : SCHEDULER (kern s) = Locked_new (Some tab) ->
    Forall2 (fun p w => frames M !! Sched.rsp_of p = Some (code (memory s) w)) (tail (Sched.ring tab)) ws;
}.

Definition request_of (q : Cpu.irq_source) (scancode : Z) : Processes.request :=
  match q with Cpu.TimerIrq => Processes.TimerTick | Cpu.KeyboardIrq => Processes.KeyPress scancode end.

(** The saved stack pointers of the others lie on their own stacks. *)
Lemma waiting_elsewhere m run (q : list Process) ws :
  Cpu.interruptible run -> pairwise_disj (snd <$> (run :: ws)) -> Forall2 (Cpu.waiting m) q ws ->
  Cpu.frame_sp run.1 ∉ Sched.rsp_of <$> q.
Proof.
  intros (Hpos & Hlow & Htop & _) [Hd _] Hws. pose proof call_stack_nonneg as Hcs.
  induction Hws as [|p w q ws (_ & Hin & _) Hws IH]; [apply not_elem_of_nil|].
  cbn [fmap list_fmap] in *. apply Forall_cons in Hd as [Hdw Hd]. apply not_elem_of_cons. split; [|by apply IH].
  unfold disj, within, ends, Cpu.frame_size, Cpu.frame_sp, Cpu.frame_size in *. cbn in *. lia.
Qed.

(** C15: The switch between processes follows the interrupt handlers.  Where the
    machine of Processes.v shows the registers, stacks and scheduler of Cpu.v,
    and the console and the controllers are free, an interrupt taken by the
    processor and the one taken by the machine, which saves the interrupted
    process at the address where the processor leaves its frame, both run to
    their end, and the machine shows the processor again; that address is none
    a waiting process is saved at. *)
Theorem interrupt_refines q scancode s run next ws M w
    (Hrep : Cpu.represents s (run :: next :: ws)) (Hrun : Cpu.interruptible run)
    (Hshow : shows s run (next :: ws) M) (Hw : Vga.writer_ok w)
    (Hcon : writer M = Locked_new (Vga.show (Vga.term_write (concat (snd <$> history M)) (Vga.term_of w))))
    (Hpics : held (pics M) = false) :
  exists s' M', Cpu.interrupt (Cpu.irq_handler q) s = (Done tt, s') /\
    Processes.interrupt (request_of q scancode) (Cpu.frame_sp run.1) M = (Done tt, M') /\
    Cpu.represents s' (next :: ws ++ [run]) /\ shows s' next (ws ++ [run]) M' /\
    Cpu.frame_sp run.1 ∉ Processes.waiting_rsps M.
Proof.
  destruct (Cpu.interrupt_switch_step q s run next ws Hrep Hrun) as (s' & E & Hrep' & Hm & _ & Hsch').
  destruct Hrep as (tab & run' & ws' & Hsch & Hok & _ & Eq & _ & Hws & Hdisj). injection Eq as <- <-.
  destruct (Cpu.ring_length_pos tab Hok) as (p & q0 & Er). destruct Hshow as [Hs1 Hr1 Hw1].
  specialize (Hw1 tab Hsch). rewrite Er in Hws, Hw1. cbn [tail] in Hws, Hw1.
  pose proof (waiting_elsewhere _ _ _ _ Hrun Hdisj Hws) as Hold.
  apply Forall2_cons_inv_r in Hw1 as (p' & q' & Hnext & Hw1 & ->).
  cbn [fmap list_fmap] in Hold. pose proof Hold as [Hne Hold']%not_elem_of_cons.
  rewrite Hsch in Hs1.
  assert (Hcon' : Processes.console_ok (Vga.term_of w) M) by by (unfold Processes.console_ok; rewrite Hcon).
  destruct (Processes.interrupt_eq (Vga.term_of w) (proj2 (Vga.show_term_of w Hw)) (request_of q scancode)
    (Cpu.frame_sp run.1) tab p p' q' _ M Hs1 Hok Er ltac:(by rewrite Hcon) Hpics Hcon' Hne Hnext)
    as (M' & E' & Hr' & Hf' & Hs' & _).
  destruct (Sched.preempt_turn_ring (Cpu.frame_sp run.1) tab p p' q' Hok Er) as (tab' & Et & _ & Er').
  exists s', M'. split_and!; [exact E|exact E'|exact Hrep'| |].
  2:{ unfold Processes.waiting_rsps. rewrite Hs1. cbn [inner Locked_new]. by rewrite Er. }
  assert (Hothers : forall v, v ∈ next :: ws -> code (memory s') v = code (memory s) v).
  { intros v Hv. apply code_proper. split_and!; [done..|]. intros a Ha _. apply Hm. left.
    destruct Hdisj as [Hd _]. rewrite Forall_forall in Hd.
    specialize (Hd v.2 ltac:(apply list_elem_of_fmap; by exists v)). unfold disj, ends in *. lia. }
  split.
  - by rewrite Hs', Hsch', Hs1, Hsch.
  - rewrite Hr'. symmetry. apply Hothers. by left.
  - intros tab2 Htab2. rewrite Hsch', Hsch, Et in Htab2. injection Htab2 as <-. rewrite Er'. cbn [tail].
    rewrite Hf'. apply Forall2_app.
    + apply Forall2_same_length_lookup_2; [by apply Forall2_length in Hw1|]. intros i x v Hx Hv.
      rewrite lookup_insert_ne, Hothers.
      * by apply (Forall2_lookup_lr _ _ _ _ _ _ Hw1 Hx Hv).
      * right. by eapply list_elem_of_lookup_2.
      * intros Eo. apply Hold'. rewrite Eo. apply list_elem_of_fmap. exists x. split; [done|by eapply list_elem_of_lookup_2].
    + constructor; [|constructor]. etransitivity; [apply lookup_insert_eq|]. f_equal. rewrite Hr1. symmetry.
      apply code_proper. split_and!; [done..|]. intros a _ Ha. apply Hm. by right.
Qed.

(** ** The machine [kernel_main] leaves *)

(** The processes that wait have their frames at different addresses. *)
Lemma waiting_distinct m q ws :
  pairwise_disj (snd <$> ws) -> Forall2 (Cpu.waiting m) q ws -> NoDup (Sched.rsp_of <$> q).
Proof.
  intros Hdisj Hws. induction Hws as [|p w q ws (_ & Hin & _) Hws IH]; [constructor|].
  destruct Hdisj as [Hd Hdisj]. constructor; [|by apply IH].
  clear IH Hdisj. induction Hws as [|p' w' q ws (_ & Hin' & _) Hws IH]; [apply not_elem_of_nil|].
  cbn [fmap list_fmap] in *. apply Forall_cons in Hd as [Hdw Hd]. apply not_elem_of_cons. split; [|by apply IH].
  unfold disj, within, ends, Cpu.frame_size in *. cbn in *. lia.
Qed.

(** The machine that shows a configuration, with [w] on the console. *)
Definition machine_at (s : mach D) (run : context) (ws : list context) (w : Writer) : machine :=
  {| running := code (memory s) run;
     frames := match inner (SCHEDULER (kern s)) with
               | Some tab => list_to_map (zip (Sched.rsp_of <$> tail (Sched.ring tab)) (code (memory s) <$> ws))
               | None => ∅
               end;
     sched := SCHEDULER (kern s); writer := Locked_new w; pics := Locked_new []; history := [] |}.

Lemma machine_at_shows s run ws w :
  Cpu.represents s (run :: ws) -> shows s run ws (machine_at s run ws w).
Proof.
  intros (tab & run' & ws' & Hsch & _ & _ & Eq & _ & Hws & Hd). injection Eq as <- <-.
  split; [done..|]. intros tab' Htab. rewrite Hsch in Htab. injection Htab as <-.
  cbn [machine_at frames]. rewrite Hsch. cbn [inner Locked_new].
  pose proof (waiting_distinct _ _ _ (proj2 Hd) Hws) as Hnd.
  apply Forall2_same_length_lookup_2; [by apply Forall2_length in Hws|]. intros i p v Hp Hv.
  apply elem_of_list_to_map_1.
  - rewrite fst_zip; [done|]. rewrite !length_fmap. by apply Forall2_length in Hws as ->.
  - apply list_elem_of_lookup. exists i. apply lookup_zip_Some. by rewrite !list_lookup_fmap, Hp, Hv.
Qed.
End views.

(** ** From [kernel_main] to the processes *)
Section start.
Context `{BuildProfile} `{Addresses} `{GdtCrate T} `{PageMapper Mp} `{Device D}.
Context {G : Type} `{GlobalHeap G mem} `{HeapInit G mem}.
Context `{CallingConvention} {CL : CallingLaws}.
Context (heap_dealloc : Z -> Layout -> M (G * mem) unit) (inv : G -> mem -> gmap Z Layout -> Prop).
Context (HC : alloc_contract heap_alloc heap_dealloc inv).
Context (Hplace : forall x m live p x' m', inv x m live ->
  heap_alloc Boot.stack_layout (x, m) = (Done p, (x', m')) -> p <> 0 ->
  p mod 8 = 0 /\ Boot.in_heap (p, Sched.STACK_SIZE)).
Context {AL : AddressLaws} {GL : GdtLaws T}.
Context (code : mem -> context -> thread).

(** What the kernel's code is: the boot context has released the table's lock and
    is about to print the last line of [kernel_main], and a process that starts
    at one of the three entry points runs that function, its forged frame having
    interrupts enabled. *)
Record compiled (boot : context) (a b c : Z) : Prop := {
  co_boot m : code m boot = {| prog := kernel_main_end; if_flag := true |};
  co_alpha m p : code m (Boot.new_process a p) = {| prog := process_alpha; if_flag := true |};
  co_beta m p : code m (Boot.new_process b p) = {| prog := process_beta; if_flag := true |};
  co_omega m p : code m (Boot.new_process c p) = {| prog := process_omega; if_flag := true |};
}.

Lemma boot_started (s : mach D) boot a b c buf p1 p2 p3 w :
  compiled boot a b c -> SCHEDULER (kern s) = Locked_new (Some (Boot.boot_table buf 1 p1 p2 p3)) ->
  Cpu.represents s [boot; Boot.new_process a p1; Boot.new_process b p2; Boot.new_process c p3] ->
  Processes.started (machine_at code s boot
    [Boot.new_process a p1; Boot.new_process b p2; Boot.new_process c p3] w).
Proof.
  intros [Hboot Ha Hb Hc] Hsch Hrep. pose proof (machine_at_shows code s _ _ w Hrep) as [_ _ Hw].
  destruct Hrep as (tab & ? & ? & Hsch' & Hok & _). rewrite Hsch in Hsch'. injection Hsch' as <-.
  specialize (Hw _ Hsch).
  apply Forall2_cons in Hw as [F1 Hw]. apply Forall2_cons in Hw as [F2 Hw]. apply Forall2_cons in Hw as [F3 _].
  rewrite Ha in F1. rewrite Hb in F2. rewrite Hc in F3.
  split; [by apply Hboot| |done|done]. do 5 eexists. split_and!; [exact Hsch|exact Hok|reflexivity|by vm_compute|done..].
Qed.

(** From [kernel_main] to the processes.  Under the conditions under which
    something_os boots, with the process counter at its initial value, it either
    panics because the heap refuses the table's buffer or a stack, or installs the statics that heap
    page faults need, on the boot memory map with no frame taken yet, and leaves
    registers, stacks and a process table that the machine of Processes.v shows
    in its initial state: the boot context at the last line of [kernel_main],
    and the three processes waiting to start, each at its own saved stack
    pointer, under the identifiers 1, 2 and 3.  (That line is the last event of
    the trace here; it touches neither the table nor the stacks.) *)
Theorem kernel_main_starts_processes bi int3_frame a b c s x m c0 stk0 w
    (Hfree : Boot.unlocked s)
    (Hoff : canonical_low (Boot.physical_memory_offset bi))
    (Htable : canonical_low (Boot.physical_memory_offset bi + Boot.cr3_frame bi))
    (Hheap : heap_init HEAP_START HEAP_SIZE (Boot.s_heap s, Boot.s_mem s) = (Done tt, (x, m)))
    (Hinv : inv x m ∅)
    (Hcs : call_stack <= 16000)
    (Hstk : ends stk0 <= HEAP_START \/ HEAP_START + HEAP_SIZE <= stk0.1)
    (Hrun : Cpu.interruptible (c0, stk0))
    (Hpid : Boot.s_pid s = 1) (Hcode : compiled (c0, stk0) a b c) :
  exists o s', Boot.kernel_main bi int3_frame a b c s = (o, s') /\
    ((o = Panic ExplicitPanic /\ Boot.out_of_room inv ∅) \/
     (o = Done tt /\
      Boot.s_mapper s' = Locked_new (Some (OffsetPageTable_new
        (Boot.physical_memory_offset bi + Boot.cr3_frame bi) (Boot.physical_memory_offset bi))) /\
      Boot.s_frames s' = Locked_new (Some (Frames.init (Boot.boot_memory_map bi))) /\
      exists p1 p2 p3,
        let waiting := [Boot.new_process a p1; Boot.new_process b p2; Boot.new_process c p3] in
        let mach := {| cpu := c0; memory := Boot.s_mem s'; kern :=
              {| SCHEDULER := Boot.s_sched s'; PICS := Boot.s_pics s'; kio := Boot.s_io s' |} |} in
        let M := machine_at code mach (c0, stk0) waiting w in
        Cpu.config_ok (mach, (c0, stk0) :: waiting) /\ shows code mach (c0, stk0) waiting M /\
        Processes.started M)).
Proof.
  destruct (Boot.kernel_main_ok heap_dealloc inv HC Hplace bi int3_frame a b c s x m c0 stk0
    Hfree Hoff Htable Hheap Hinv Hcs Hstk Hrun)
    as (o & s' & E & [Hp|(Ho & Hm & Hf & buf & p1 & p2 & p3 & Hs & Hok)]); exists o, s'; (split; [exact E|]); [by left|right].
  rewrite Hpid in Hs. split_and!; [exact Ho|exact Hm|exact Hf|]. exists p1, p2, p3. cbn zeta. split_and!; [exact Hok| |].
  - apply machine_at_shows, Hok.
  - apply (boot_started _ _ _ _ _ buf); [exact Hcode|exact Hs|apply Hok].
Qed.
End start.

(** ** Witnesses: the instruction pointer tells which function a context is in *)
#[local] Instance wprofile : BuildProfile := true.
#[local] Existing Instances Cpu.wdevice Cpu.wconv Cpu.wconv_laws.

Definition wcode (a b c : Z) (m : mem) (v : context) : thread :=
  let ip := v_rip v.1 in
  {| prog := if bool_decide (ip = a) then process_alpha else if bool_decide (ip = b) then process_beta
             else if bool_decide (ip = c) then process_omega else kernel_main_end;
     if_flag := Z.testbit (v_rflags v.1) 9 |}.

Lemma wcode_proper a b c m m' w w' : same_context m m' w w' -> wcode a b c m' w' = wcode a b c m w.
Proof. intros ((_ & E & F & _) & _). unfold wcode. by rewrite E, F. Qed.

Definition wrun : context := (Cpu.wcpu, (0x6000, 0x2000)).
Definition wnext : context := (Cpu.fresh_cpu 0xcafe 0x14000, (0x10000, 0x4000)).
Definition wshown : machine := machine_at (wcode 0xcafe 0xcb00 0xcc00) Cpu.wmach wrun [wnext] Vga.wwriter.

Lemma interrupt_refines_witness :
  exists s' M', Cpu.interrupt (Cpu.irq_handler Cpu.KeyboardIrq) Cpu.wmach = (Done tt, s') /\
    Processes.interrupt (Processes.KeyPress 30) (Cpu.frame_sp Cpu.wcpu) wshown = (Done tt, M') /\
    running M' = {| prog := process_alpha; if_flag := true |}.
Proof.
  destruct (interrupt_refines (wcode 0xcafe 0xcb00 0xcc00) (wcode_proper _ _ _) Cpu.KeyboardIrq 30
    Cpu.wmach wrun wnext [] wshown Vga.wwriter (proj1 Cpu.wconfig_ok) (Forall_inv (proj2 (proj2 Cpu.wconfig_ok)))
    (machine_at_shows _ _ _ _ Vga.wwriter (proj1 Cpu.wconfig_ok)) Vga.wwriter_ok
    (f_equal Locked_new (eq_sym (proj1 (Vga.show_term_of _ Vga.wwriter_ok)))) eq_refl)
    as (s' & M' & E & E' & _ & Hs & _).
  exists s', M'. split_and!; [exact E|exact E'|]. rewrite (sh_running _ _ _ _ _ Hs). reflexivity.
Defined.

#[local] Existing Instances Paging.gmap_mapper Paging.gmap_mapper_laws Rtl8139.wcard std_addr std_addr_laws
  Gdt.list_gdt Gdt.list_gdt_laws Boot.wheap Boot.wheap_init LinkedList.global_alloc.

Lemma wcode_compiled : compiled (wcode 0x10100 0x10200 0x10300) wrun 0x10100 0x10200 0x10300.
Proof. split; intros; reflexivity. Qed.

Lemma kernel_main_starts_processes_witness :
  exists s' p1 p2 p3, Boot.kernel_main (Mp := gmap Z Z) Boot.wboot [] 0x10100 0x10200 0x10300 Boot.wsys = (Done tt, s') /\
    Processes.started (machine_at (wcode 0x10100 0x10200 0x10300)
      {| cpu := Cpu.wcpu; memory := Boot.s_mem s'; kern :=
            {| SCHEDULER := Boot.s_sched s'; PICS := Boot.s_pics s'; kio := Boot.s_io s' |} |} wrun
      [Boot.new_process 0x10100 p1; Boot.new_process 0x10200 p2; Boot.new_process 0x10300 p3] Vga.wwriter).
Proof.
  destruct (kernel_main_starts_processes (H1 := Gdt.list_gdt) (H4 := Boot.wheap) (H6 := Cpu.wconv) dealloc _
    (LinkedList.linked_list_contract HEAP_START Boot.heap_end Boot.boot_heap_ok)
    Boot.wheap_place (wcode 0x10100 0x10200 0x10300) Boot.wboot [] 0x10100 0x10200 0x10300 Boot.wsys
    Boot.wheap0.1 Boot.wheap0.2 Cpu.wcpu (0x6000, 0x2000) Vga.wwriter
    Boot.wsys_unlocked Boot.wboot_offset Boot.wboot_table Boot.wheap_init_ok Boot.wheap_ready ltac:(vm_compute; congruence)
    ltac:(left; vm_compute; congruence) ltac:(unfold Cpu.interruptible; vm_compute; intuition congruence)
    eq_refl wcode_compiled)
    as (o & s' & E & [[-> _]|(-> & _ & _ & p1 & p2 & p3 & _ & _ & Hst)]).
  - destruct (Boot.wboot_fits _ _ E).
  - exists s', p1, p2, p3. split; [exact E|exact Hst].
Defined.
End System.
