(* ===== verification/Startup.v ===== *)
(** * Interrupts during start-up

    [init_idt] enables interrupts early in [kernel_main]: timer and keyboard
    interrupts arrive while the rest of it runs, before the scheduler exists,
    while its table is empty, and while the block that fills the table holds its
    lock.  Here [kernel_main] of something_os is cut into its statements, and
    the interrupt handlers of Cpu.v run between them, on the boot stack.  The
    start-up ends where the table's lock is released; from there on the machine
    of Processes.v takes over. *)

From ITree Require Import ITree.
From S2P Require Import Prelude Store Allocator LinkedList X86 Frames Paging Format Vga Sched Gdt Interrupts Processes Cpu Rtl8139 Pci Boot System.

Module Startup.

(** ** Programs as sequences of statements *)
Inductive stmts (S : Type) : Type :=
  | Finish
  | Stmt {X : Type} (c : M S X) (k : X -> stmts S).
Arguments Finish {S}.
Arguments Stmt {S X} c k.

Fixpoint run_stmts {S} (p : stmts S) : M S unit :=
  match p with Finish => mret tt | Stmt c k => x ← c; run_stmts (k x) end.

(** With the interrupts of [gaps], one list for each statement, before it. *)
Fixpoint run_interrupted {S I} (take : I -> M S unit) (p : stmts S) (gaps : list (list I)) : M S unit :=
  match p with
  | Finish => mret tt
  | Stmt c k =>
      _ ← for_each (default [] (head gaps)) take;
      x ← c;
      run_interrupted take (k x) (tail gaps)
  end.

Lemma run_uninterrupted {S I} (take : I -> M S unit) p s : run_interrupted take p [] s = run_stmts p s.
Proof.
  revert s. induction p as [|X c k IH]; intros s; [done|]. cbn [run_interrupted run_stmts head default].
  unfold mbind, M_bind in *. cbn. destruct (c s) as [[x| | | |] s']; [apply IH|done..].
Qed.

(** One statement for each element of a list. *)
Fixpoint each_stmt {S A} (l : list A) (c : A -> M S unit) (k : stmts S) : stmts S :=
  match l with [] => k | a :: l => Stmt (c a) (fun _ => each_stmt l c k) end.

Lemma run_each {S A} (l : list A) (c : A -> M S unit) k s :
  run_stmts (each_stmt l c k) s = (_ ← for_each l c; run_stmts k) s.
Proof.
  revert s. induction l as [|a l IH]; intros s; [done|]. cbn [each_stmt run_stmts for_each].
  rewrite bind_assoc. by apply bind_ext.
Qed.

(** What holds at the end, however the statements are interrupted: each
    statement starts from a predicate that the interrupts keep. *)
Section stable.
Context {S I : Type} (take : I -> M S unit) (allowed : I -> Prop).

Definition stable (P : S -> Prop) : Prop :=
  forall i s, allowed i -> P s -> exists s', take i s = (Done tt, s') /\ P s'.

Definition safe (p : stmts S) (Q : outcome unit -> S -> Prop) (s : S) : Prop :=
  forall gaps, Forall (Forall allowed) gaps ->
    Q (run_interrupted take p gaps s).1 (run_interrupted take p gaps s).2.

Lemma stable_list P qs s :
  stable P -> Forall allowed qs -> P s -> exists s', for_each qs take s = (Done tt, s') /\ P s'.
Proof.
  intros Hst. revert s. induction qs as [|i qs IH]; intros s His Hs; [by exists s|].
  apply Forall_cons in His as [Hi His]. destruct (Hst i s Hi Hs) as (s1 & E1 & H1).
  destruct (IH s1 His H1) as (s2 & E2 & H2). exists s2. split; [|done].
  cbn [for_each]. by rewrite (bind_done _ _ _ _ _ E1).
Qed.

Lemma safe_finish Q s : Q (Done tt) s -> safe Finish Q s.
Proof. by intros Hq gaps _. Qed.

Lemma safe_stmt {X} (P : S -> Prop) (c : M S X) k Q s :
  stable P -> P s ->
  (forall s, P s -> (exists x s', c s = (Done x, s') /\ safe (k x) Q s') \/
                    (exists f s', c s = (Panic f, s') /\ Q (Panic f) s')) ->
  safe (Stmt c k) Q s.
Proof.
  intros Hst Hs Hc gaps Hgaps. cbn [run_interrupted].
  assert (Hhd : Forall allowed (default [] (head gaps)) /\ Forall (Forall allowed) (tail gaps)).
  { destruct gaps as [|g gaps]; cbn; [by split|]. by apply Forall_cons in Hgaps. }
  destruct (stable_list P _ s Hst (proj1 Hhd) Hs) as (s1 & E1 & H1). rewrite (bind_done _ _ _ _ _ E1).
  destruct (Hc s1 H1) as [(x & s2 & E2 & Hk)|(f & s2 & E2 & Hq)].
  - rewrite (bind_done _ _ _ _ _ E2). apply Hk, Hhd.
  - by rewrite (bind_panic _ _ _ _ _ E2).
Qed.

(** One predicate for each prefix of the list. *)
Lemma safe_each {A} (P : list A -> S -> Prop) (c : A -> M S unit) k Q l s :
  (forall done, stable (P done)) -> P [] s ->
  (forall done a s, a ∈ l -> P done s -> exists s', c a s = (Done tt, s') /\ P (done ++ [a]) s') ->
  (forall s, P l s -> safe k Q s) ->
  safe (each_stmt l c k) Q s.
Proof.
  intros Hst.
  assert (Hgen : forall pre s, P pre s ->
    (forall done a s, a ∈ l -> P done s -> exists s', c a s = (Done tt, s') /\ P (done ++ [a]) s') ->
    (forall s, P (pre ++ l) s -> safe k Q s) -> safe (each_stmt l c k) Q s); [|exact (Hgen [] s)].
  clear s. induction l as [|a l IH]; intros pre s Hs Hc Hk; cbn [each_stmt].
  { apply Hk. by rewrite app_nil_r. }
  apply (safe_stmt (P pre)); [done|exact Hs|]. intros s1 H1. left.
  destruct (Hc pre a s1 ltac:(by left) H1) as (s2 & E2 & H2). exists tt, s2. split; [exact E2|].
  apply (IH (pre ++ [a])); [exact H2| |].
  - intros pre' b s' Hb. apply Hc. by right.
  - intros s' Hs'. apply Hk. by rewrite <- app_assoc in Hs'.
Qed.
End stable.

Section startup.
Context `{BuildProfile} `{Addresses} `{GdtCrate T} `{PageMapper Mp} `{Device D}.
Context {G : Type} `{GlobalHeap G mem} `{HeapInit G mem}.
Context `{CallingConvention} {CL : CallingLaws}.
#[local] Abbreviation sys := (@Boot.sys Mp D G).

(** ** An interrupt of the boot context *)

(** Which interrupt, and the context it finds [kernel_main] in. *)
Definition arrival : Type := Cpu.irq_source * vcpu.

Definition all_regs : list reg :=
  [RAX; RBX; RCX; RDX; RSI; RDI; R8; R9; R10; R11; R12; R13; R14; R15; RBP; RSP].
Definition same_cpu (c d : vcpu) : bool :=
  forallb (fun r => bool_decide (regs c r = regs d r)) all_regs &&
  bool_decide (v_rip c = v_rip d /\ v_rflags c = v_rflags d /\ v_cs c = v_cs d /\ v_ss c = v_ss d).

Definition at_context (c : vcpu) (s : sys) : mach D :=
  {| cpu := c; memory := Boot.s_mem s; kern :=
       {| SCHEDULER := Boot.s_sched s; PICS := Boot.s_pics s; kio := Boot.s_io s |} |}.
Definition with_mach (m : mach D) (s : sys) : sys :=
  {| Boot.s_io := kio (kern m); Boot.s_pics := PICS (kern m); Boot.s_mapper := Boot.s_mapper s;
     Boot.s_frames := Boot.s_frames s; Boot.s_rtl8139 := Boot.s_rtl8139 s; Boot.s_sched := SCHEDULER (kern m);
     Boot.s_pid := Boot.s_pid s; Boot.s_heap := Boot.s_heap s; Boot.s_mem := memory m |}.

(** The handler runs, and [kernel_main] goes on, if it is the one resumed. *)
Definition take_interrupt (i : arrival) : M sys unit :=
  resumed ← zoom (at_context i.2) with_mach (_ ← Cpu.interrupt (Cpu.irq_handler i.1); gets cpu);
  if same_cpu resumed i.2 then mret tt else fail Undefined.

(** ** The statements of [kernel_main] *)
Definition with_table (l : Locked (option Scheduler)) (s : sys) : sys := Boot.with_sched l (Boot.s_pid s) s.
Definition lock_table : M sys unit := zoom Boot.s_sched with_table (_ ← lock; mret tt).
Definition unlock_table : M sys unit := zoom Boot.s_sched with_table (o ← gets inner; unlock o).

(** A statement of the block that fills the table. *)
Definition in_table {A} (body : M (Scheduler * (Z * (G * mem))) A) : M sys unit :=
  Boot.on_sched (fun '(l, x) =>
    match inner l with
    | Some sched => let '(r, (sched, x)) := (_ ← body; mret tt) (sched, x) in (r, ({| held := held l; inner := Some sched |}, x))
    | None => (Done tt, (l, x))
    end).

Definition spawning_stmts (a b c : Z) : stmts sys :=
  Stmt lock_table (fun _ =>
  Stmt (in_table (zoom (fun s => (s.1, s.2.2)) (fun t s => (t.1, (s.2.1, t.2))) Sched.spawn_root)) (fun _ =>
  Stmt (in_table (Sched.spawn a)) (fun _ =>
  Stmt (in_table (Sched.spawn b)) (fun _ =>
  Stmt (in_table (Sched.spawn c)) (fun _ =>
  Stmt unlock_table (fun _ => Finish)))))).

(** Once interrupts are enabled. *)
Definition interruptible_stmts (bi : Boot.BootInfo) (int3_frame : list Z) (a b c : Z) : stmts sys :=
  Stmt (Boot.on_io Pci.check_network_card) (fun _ =>
  Stmt (Boot.on_io (emit (Instr "int3" []))) (fun _ =>
  Stmt (Boot.on_io (Interrupts.breakpoint int3_frame)) (fun _ =>
  Stmt (lift (VirtAddr_new (Boot.physical_memory_offset bi))) (fun phys_mem_offset =>
  Stmt (Boot.on_statics (Paging.init_global_memory (Boot.cr3_frame bi) phys_mem_offset
                           (Boot.boot_memory_map bi))) (fun _ =>
  Stmt (Boot.on_heap Boot.init_heap) (fun _ =>
  Stmt (Boot.on_io (println "Initializing Process Scheduler..." [])) (fun _ =>
  Stmt (Boot.on_sched (Boot.scheduler_init phys_mem_offset)) (fun _ =>
  spawning_stmts a b c)))))))).

(** [kernel_main] until the table is filled and its lock released. *)
Definition kernel_main_setup (bi : Boot.BootInfo) (int3_frame : list Z) (a b c : Z)
    (gaps : list (list arrival)) : M sys unit :=
  _ ← Boot.on_io (Boot.on_trace (Gdt.init (T := T)));
  _ ← Boot.on_pics Interrupts.init_idt;
  run_interrupted take_interrupt (interruptible_stmts bi int3_frame a b c) gaps.

(** ** Without interrupts it is [kernel_main] *)
Lemma in_table_eq {A} (body : M (Scheduler * (Z * (G * mem))) A) h sched (s : sys) o sched' n x m :
  Boot.s_sched s = {| held := h; inner := Some sched |} ->
  (_ ← body; mret tt) (sched, (Boot.s_pid s, (Boot.s_heap s, Boot.s_mem s))) = (o, (sched', (n, (x, m)))) ->
  in_table body s = (o, Boot.with_heap x m (Boot.with_sched {| held := h; inner := Some sched' |} n s)).
Proof. intros E Eb. unfold in_table, Boot.on_sched, zoom. rewrite E. cbn [inner held]. by rewrite Eb. Qed.

(** The critical section, cut at its statements. *)
Lemma in_table_bind {A B} (c : M (Scheduler * (Z * (G * mem))) A) (d : M (Scheduler * (Z * (G * mem))) B) s :
  in_table (_ ← c; d) s = (_ ← in_table c; in_table d) s.
Proof.
  destruct s as [i pics mp fa rtl [h [tab|]] n hp me]; [|reflexivity].
  unfold in_table, Boot.on_sched, zoom, mbind, M_bind. cbn [Boot.s_sched Boot.s_pid Boot.s_heap Boot.s_mem inner held].
  by destruct (c _) as [[] [tab' [n' [x m]]]].
Qed.

Lemma section_eq body s :
  Boot.on_sched (Boot.with_scheduler body) s = (_ ← lock_table; _ ← in_table body; unlock_table) s.
Proof.
  destruct s as [i pics mp fa rtl [[] [tab|]] n hp me]; [reflexivity..| |reflexivity].
  unfold Boot.with_scheduler, with_lock, lock_table, in_table, Boot.on_sched, zoom, mbind, M_bind.
  cbn. destruct (body _) as [[[]| | | |] [tab' [n' [x m]]]]; reflexivity.
Qed.

Lemma spawning_eq a b c (s : sys) :
  Boot.on_sched (Boot.with_scheduler (Boot.spawn_block a b c)) s = run_stmts (spawning_stmts a b c) s.
Proof.
  rewrite section_eq. apply bind_ext; [done|]. intros _ s1. cbn [run_stmts]. unfold Boot.spawn_block.
  do 3 (etransitivity; [apply bind_ext; [apply in_table_bind|reflexivity]|];
        rewrite bind_assoc; apply bind_ext; [done|]; intros _ ?).
  apply bind_ext; [|done]. unfold in_table, Boot.on_sched, zoom. destruct (inner _); [|done].
  rewrite (bind_assoc (Sched.spawn c)). done.
Qed.

Lemma kernel_main_cut bi int3_frame a b c (s : sys) :
  Boot.kernel_main bi int3_frame a b c s =
    (_ ← kernel_main_setup bi int3_frame a b c [];
     Boot.on_io (println "Starting multi-process testing execution loop!\n" [])) s.
Proof.
  unfold Boot.kernel_main, kernel_main_setup. rewrite bind_assoc. apply bind_ext; [done|]. intros _ s1.
  rewrite bind_assoc. apply bind_ext; [done|]. intros _ s2.
  etransitivity; [|apply bind_ext; [symmetry; apply run_uninterrupted|reflexivity]].
  unfold interruptible_stmts. cbn [run_stmts].
  do 8 (rewrite bind_assoc; apply bind_ext; [done|]; intros ? ?).
  apply bind_ext; [apply spawning_eq|done].
Qed.

(** ** Interrupts keep what the start-up builds *)
Section boot_stack.
Context (stk0 : Z * Z) (Hstk : ends stk0 <= HEAP_START \/ HEAP_START + HEAP_SIZE <= stk0.1).

(** [kernel_main] runs on the boot stack, with room for an interrupt. *)
Definition on_boot_stack (i : arrival) : Prop := Cpu.interruptible (i.2, stk0).

Definition same_heap (m m' : mem) : Prop :=
  forall a, HEAP_START <= a < HEAP_START + HEAP_SIZE -> m' !! a = m !! a.

Lemma same_cpu_equiv c d : c ≡ d -> same_cpu c d = true.
Proof.
  intros (Hr & Hip & Hfl & Hcs & Hss). unfold same_cpu. apply andb_true_intro. split.
  - apply forallb_forall. intros r _. by rewrite bool_decide_eq_true, Hr.
  - by rewrite bool_decide_eq_true.
Qed.

(** The statics, but for the devices' state, and the heap's memory. *)
Record at_stage (mp : Locked (option Mp)) (fa : Locked (option BootInfoFrameAllocator))
    (l : Locked (option Scheduler)) (n : Z) (x : G) (K : mem -> Prop) (s : sys) : Prop := {
  at_pics : Boot.s_pics s = Locked_new ();
  at_mapper : Boot.s_mapper s = mp;
  at_frames : Boot.s_frames s = fa;
  at_sched : Boot.s_sched s = l;
  at_pid : Boot.s_pid s = n;
  at_heap : Boot.s_heap s = x;
  at_mem : K (Boot.s_mem s);
}.

Definition heap_local (K : mem -> Prop) : Prop := forall m m', same_heap m m' -> K m -> K m'.

Lemma take_interrupt_ok mp fa l n x K i s :
  Sched.no_switch l -> heap_local K -> on_boot_stack i -> at_stage mp fa l n x K s ->
  exists s', take_interrupt i s = (Done tt, s') /\ at_stage mp fa l n x K s' /\
    Boot.s_rtl8139 s' = Boot.s_rtl8139 s /\
    Cpu.irq_io i.1 (Locked_new (), Boot.s_io s) = (Done tt, (Locked_new (), Boot.s_io s')).
Proof.
  intros Hl HK Hi [Hp Hm Hf Hs Hn Hx Hmem]. destruct i as [q c], Hi as (Hpos & Hlow & Htop & Hfl). cbn [fst snd] in *.
  pose proof call_stack_nonneg as Hcs.
  destruct (Cpu.interrupt_idle_ok q (at_context c s)) as (s' & E & Hc & Hout & Hs' & Hp' & _ & Hio);
    cbn [at_context cpu kern PICS SCHEDULER kio] in *.
  { unfold Cpu.frame_sp in Hlow. lia. }
  { done. } { done. } { by rewrite Hs. }
  unfold take_interrupt. cbn [fst snd].
  rewrite (bind_done _ _ _ (cpu s') (with_mach s' s)).
  2:{ unfold zoom. by rewrite (bind_done _ _ _ _ _ E). }
  rewrite same_cpu_equiv by done. eexists. split; [done|]. split; [|by split].
  split; cbn [with_mach Boot.s_pics Boot.s_mapper Boot.s_frames Boot.s_sched Boot.s_pid Boot.s_heap Boot.s_mem]; try done.
  - by rewrite Hs'.
  - apply (HK (Boot.s_mem s)); [|done]. intros a Ha. apply Hout. unfold ends in *. lia.
Qed.

Lemma at_stage_stable mp fa l n x K :
  Sched.no_switch l -> heap_local K -> stable take_interrupt on_boot_stack (at_stage mp fa l n x K).
Proof.
  intros Hl HK i s Hi Hs. destruct (take_interrupt_ok mp fa l n x K i s Hl HK Hi Hs) as (s' & E & Hs' & _). by exists s'.
Qed.

(** ** The block that fills the table *)
Section processes.
Context (heap_dealloc : Z -> Layout -> M (G * mem) unit) (inv : G -> mem -> gmap Z Layout -> Prop).
Context (HC : alloc_contract heap_alloc heap_dealloc inv).
Context (Hplace : forall x m live p x' m', inv x m live ->
  heap_alloc Boot.stack_layout (x, m) = (Done p, (x', m')) -> p <> 0 ->
  p mod 8 = 0 /\ Boot.in_heap (p, Sched.STACK_SIZE)).
(** The heap keeps its bookkeeping in the heap. *)
Context (Hlocal : forall x live, heap_local (fun m => inv x m live)).

#[local] Abbreviation safely := (safe take_interrupt on_boot_stack).
#[local] Abbreviation locked tab := {| held := true; inner := Some tab |}.

Definition filling (tab : Scheduler) (x : G) (live : gmap Z Layout) (ws : list (vcpu * (Z * Z))) (m : mem) : Prop :=
  inv x m live /\ Boot.spawning tab m live ws.

Lemma filling_local tab x live ws : heap_local (filling tab x live ws).
Proof.
  intros m m' Hm [Hi [Hok Hcur Hws Hlive Hdisj]]. split; [by apply (Hlocal x live m)|]. split; try done.
  apply Forall2_same_length_lookup_2; [by apply Forall2_length in Hws|]. intros k p w Hk Hwk.
  apply (Cpu.waiting_mono m); [by apply (Forall2_lookup_lr _ _ _ _ _ _ Hws Hk Hwk)|].
  destruct (Forall_lookup_1 _ _ _ _ Hlive Hwk) as (_ & _ & Hin & Htop). intros a Ha. apply Hm. unfold ends in *. lia.
Qed.

Lemma spawn_safe entry k tab n x live ws mp fa Q s :
  Z.of_nat (length (processes tab)) + 1 < 2 ^ 63 -> Sched.has_room tab ->
  at_stage mp fa (locked tab) n x (filling tab x live ws) s ->
  (Boot.refuses inv Boot.stack_layout live -> forall s', Q (Panic ExplicitPanic) s') ->
  (forall p x' s', at_stage mp fa (locked (Boot.with_process tab n p)) (wrap 64 (n + 1)) x'
       (filling (Boot.with_process tab n p) x' (<[p := Boot.stack_layout]> live) (ws ++ [Boot.new_process entry p])) s' ->
     safely (k tt) Q s') ->
  safely (Stmt (in_table (Sched.spawn entry)) k) Q s.
Proof.
  intros Hlen Hroom Hs Hno Hk.
  apply (safe_stmt _ _ (at_stage mp fa (locked tab) n x (filling tab x live ws))); [|exact Hs|].
  { apply at_stage_stable; [by left|apply filling_local]. }
  clear s Hs. intros s [Hp Hm Hf Hsch Hn Hx [Hi Hsp]].
  destruct (Boot.spawn_step heap_dealloc inv HC Hplace entry tab n x (Boot.s_mem s) live ws Hi Hsp Hlen Hroom)
    as [[Hr [[t' [n' [x' m']]] E]]|(p & x' & m' & E & Hi' & Hsp' & _)].
  - right. eexists _, _. split; [|by apply Hno].
    eapply in_table_eq; [exact Hsch|]. rewrite Hn, Hx. by rewrite (bind_panic _ _ _ _ _ E).
  - left. exists tt. eexists. split.
    { eapply in_table_eq; [exact Hsch|]. rewrite Hn, Hx. by rewrite (bind_done _ _ _ _ _ E). }
    apply (Hk p x'). by split.
Qed.

(** How the start-up ends. *)
Definition filled (bi : Boot.BootInfo) (a b c n : Z) (o : outcome unit) (s : sys) : Prop :=
  (o = Panic ExplicitPanic /\ Boot.out_of_room inv ∅) \/
  (o = Done tt /\
   Boot.s_mapper s = Locked_new (Some (OffsetPageTable_new
     (Boot.physical_memory_offset bi + Boot.cr3_frame bi) (Boot.physical_memory_offset bi))) /\
   Boot.s_frames s = Locked_new (Some (Frames.init (Boot.boot_memory_map bi))) /\
   exists buf p1 p2 p3, Boot.s_sched s = Locked_new (Some (Boot.boot_table buf n p1 p2 p3)) /\
     forall c0, Cpu.interruptible (c0, stk0) ->
       Cpu.config_ok (at_context c0 s,
         [(c0, stk0); Boot.new_process a p1; Boot.new_process b p2; Boot.new_process c p3])).

(** The processes, once the table is released. *)
Lemma spawned_config a b c n buf p1 p2 p3 live s c0 :
  call_stack <= 16000 -> Boot.s_pics s = Locked_new () ->
  Boot.spawning (Boot.boot_table buf n p1 p2 p3) (Boot.s_mem s) live
    [Boot.new_process a p1; Boot.new_process b p2; Boot.new_process c p3] ->
  Cpu.interruptible (c0, stk0) ->
  Cpu.config_ok (at_context c0 (with_table (Locked_new (Some (Boot.boot_table buf n p1 p2 p3))) s),
    [(c0, stk0); Boot.new_process a p1; Boot.new_process b p2; Boot.new_process c p3]).
Proof.
  intros Hcs Hp Hsp Hc0. unfold at_context.
  cbn [with_table Boot.with_sched Boot.s_pics Boot.s_mem Boot.s_sched Boot.s_io]. rewrite Hp.
  split_and!; [by eapply Boot.spawning_represents|cbn; lia|]. constructor; [done|].
  pose proof (Boot.sp_live _ _ _ _ Hsp) as Hlive. rewrite !Forall_cons in Hlive.
  repeat constructor; apply Boot.fresh_interruptible; try done; apply Hlive.
Qed.

Lemma spawning_safe bi a b c n x s :
  call_stack <= 16000 ->
  at_stage (Locked_new (Some (OffsetPageTable_new
      (Boot.physical_memory_offset bi + Boot.cr3_frame bi) (Boot.physical_memory_offset bi))))
    (Locked_new (Some (Frames.init (Boot.boot_memory_map bi))))
    (Locked_new (Some Sched.empty_table)) n x (fun m => inv x m ∅) s ->
  safely (spawning_stmts a b c) (filled bi a b c n) s.
Proof.
  intros Hcs Hs. set (tab0 := Sched.empty_table) in *.
  eapply safe_stmt; [|exact Hs|]; [by apply at_stage_stable; [right; right; by exists tab0|apply Hlocal]|].
  clear s Hs. intros s [Hp Hm Hf Hsch Hn Hx Hmem]. left. exists tt, (with_table (locked tab0) s).
  split; [by unfold lock_table, zoom; rewrite Hsch|].
  eapply (safe_stmt _ _ (at_stage _ _ (locked tab0) n x (fun m => inv x m ∅))); [|by split; [..|exact Hmem]|].
  { apply at_stage_stable; [by left|apply Hlocal]. }
  clear s Hp Hm Hf Hsch Hn Hx Hmem. intros s [Hp Hm Hf Hsch Hn Hx Hmem]. 
  subst tab0. destruct (Boot.root_step heap_dealloc inv HC x (Boot.s_mem s) ∅ Hmem) as [[Hr [[t' [x' m']] E]]|(buf & x0 & m0 & E & Hi)].
  { right. eexists _, _. split; [|left; split; [done|by left]].
    eapply in_table_eq; [exact Hsch|]. rewrite Hn, Hx. apply bind_panic. unfold zoom. cbn [fst snd]. by rewrite E. }
  left. eexists tt, _. split.
  { eapply in_table_eq; [exact Hsch|]. rewrite Hn, Hx. erewrite bind_done; [|apply zoom_done; exact E]. reflexivity. }
  eapply (spawn_safe a _ (Sched.root_table buf) n x0 _ []);
    [done|reflexivity|by split; [..|split; [exact Hi|apply Boot.spawning_root]]| |].
  { intros Hr s'. left. split; [done|]. right. exists buf, []. split; [cbn; lia|exact Hr]. }
  intros p1 x1 s1 Ha. eapply spawn_safe; [| |exact Ha| |]; [reflexivity|reflexivity| |].
  { intros Hr s'. left. split; [done|]. right. exists buf, [p1]. split; [cbn; lia|exact Hr]. }
  intros p2 x2 s2 Hb. eapply spawn_safe; [| |exact Hb| |]; [reflexivity|reflexivity| |].
  { intros Hr s'. left. split; [done|]. right. exists buf, [p1; p2]. split; [cbn; lia|exact Hr]. }
  intros p3 x3 s3 Hc. eapply safe_stmt; [|exact Hc|].
  { apply at_stage_stable; [by left|apply filling_local]. }
  clear s3 Hc. intros s3 [Hp3 Hm3 Hf3 Hs3 Hn3 Hx3 [Hi3 Hsp3]]. left. eexists tt, _.
  split; [by unfold unlock_table, zoom; rewrite Hs3|]. apply safe_finish.
  right. split_and!; [done|exact Hm3|exact Hf3|]. exists buf, p1, p2, p3. split; [done|]. intros c0 Hc0.
  eapply spawned_config; [done|exact Hp3|exact Hsp3|exact Hc0].
Qed.

(** ** The whole start-up *)
Context {AL : AddressLaws} {GL : GdtLaws T}.

(** A statement that only drives the devices. *)
Lemma quiet_safe {mp fa l n x K} (c : M sys unit) k Q s :
  Sched.no_switch l -> heap_local K -> (forall s, Boot.s_pics s = Locked_new () -> Boot.quiet c s) ->
  at_stage mp fa l n x K s ->
  (forall s, at_stage mp fa l n x K s -> safely (k tt) Q s) ->
  safely (Stmt c k) Q s.
Proof.
  intros Hl HK Hc Hs Hk. eapply safe_stmt; [by apply at_stage_stable|exact Hs|].
  clear s Hs. intros s Hs. left. destruct (Hc s (at_pics _ _ _ _ _ _ _ Hs)) as [i E].
  exists tt, (Boot.with_io i s). split; [exact E|]. apply Hk. by destruct Hs.
Qed.

Lemma setup_safe bi int3_frame a b c mp fa n x0 s :
  call_stack <= 16000 -> held mp = false -> held fa = false ->
  canonical_low (Boot.physical_memory_offset bi) ->
  canonical_low (Boot.physical_memory_offset bi + Boot.cr3_frame bi) ->
  (forall m0, exists x m, heap_init HEAP_START HEAP_SIZE (x0, m0) = (Done tt, (x, m)) /\ inv x m ∅) ->
  at_stage mp fa (Locked_new None) n x0 (fun _ => True) s ->
  safely (interruptible_stmts bi int3_frame a b c) (filled bi a b c n) s.
Proof.
  intros Hcs Hmp Hfa Hoff Htab Hinit Hs.
  assert (Hnone : Sched.no_switch (Locked_new None)) by (right; by left).
  pose (MP := Locked_new (Some (OffsetPageTable_new
    (Boot.physical_memory_offset bi + Boot.cr3_frame bi) (Boot.physical_memory_offset bi)))).
  pose (FA := Locked_new (Some (Frames.init (Boot.boot_memory_map bi)))).
  assert (Htrue : heap_local (fun _ => True)) by done.
  eapply (quiet_safe (l := Locked_new None) (Boot.on_io Pci.check_network_card)); [done..| |exact Hs|].
  { intros s1 _. apply Boot.quiet_io, Pci.scan_total. }
  clear s Hs. intros s Hs. eapply (quiet_safe (l := Locked_new None) (Boot.on_io (emit _))); [done..| |exact Hs|].
  { intros s1 _. apply Boot.quiet_emit. }
  clear s Hs. intros s Hs. eapply (quiet_safe (l := Locked_new None) (Boot.on_io (Interrupts.breakpoint _))); [done..| |exact Hs|].
  { intros s1 _. apply Boot.quiet_io. by eexists. }
  clear s Hs. intros s Hs. eapply safe_stmt; [by apply (at_stage_stable mp fa (Locked_new None) n x0 (fun _ => True))|exact Hs|].
  clear s Hs. intros s Hs. left. rewrite (VirtAddr_new_ok _ Hoff). eexists _, s. split; [done|].
  eapply safe_stmt; [by apply (at_stage_stable mp fa (Locked_new None) n x0 (fun _ => True))|exact Hs|].
  clear s Hs. intros s [Hp Hm Hf Hsch Hn Hx _]. left. eexists tt, _. split.
  { apply Boot.memory_installed; [|done..]. unfold Boot.unlocked. by rewrite Hp, Hm, Hf, Hsch. }
  eapply safe_stmt; [by eapply (at_stage_stable MP FA (Locked_new None) n x0 (fun _ => True))|by split|].
  clear s Hp Hm Hf Hsch Hn Hx. intros s [Hp Hm Hf Hsch Hn Hx _]. left.
  destruct (Hinit (Boot.s_mem s)) as (x & m & E & Hi). eexists tt, _. split.
  { apply Boot.heap_installed. by rewrite Hx. }
  eapply (quiet_safe (mp := MP) (fa := FA) (l := Locked_new None) (n := n) (x := x) (K := fun m => inv x m ∅) (Boot.on_io (println _ _))); [done|apply Hlocal| |by split|].
  { intros s1 _. apply Boot.quiet_emit. }
  clear s Hp Hm Hf Hsch Hn Hx m E Hi. intros s Hs.
  eapply safe_stmt; [by apply at_stage_stable; [|apply Hlocal]|exact Hs|].
  clear s Hs. intros s [Hp Hm Hf Hsch Hn Hx Hmem]. left. eexists tt, _. split.
  { apply Boot.scheduler_installed. by rewrite Hsch. }
  apply (spawning_safe bi a b c n x); [done|]. by split.
Qed.

(** C14: The start of something_os under interrupts.  From the statics as they are
    at load time and a third-party heap that keeps the allocator contract and
    its bookkeeping inside the heap, whatever the devices answer, and whichever
    timer and keyboard interrupts arrive between the statements of [kernel_main]
    once [init_idt] has enabled them (also while the block that fills the
    process table holds its lock): every interrupt returns to [kernel_main] with
    all registers as they were, and [kernel_main] panics because the heap
    refuses the buffer of the table or a stack, or reaches the point where it
    releases the filled table.  There the statics that heap page faults need are installed, on the boot
    memory map with no frame taken yet; registers, stacks and the table are a
    configuration that preemption keeps, and, for any processes the contexts
    run, the machine of Processes.v shows it in its initial state: the boot
    context at the last line of [kernel_main], and the three processes waiting
    to start, under the identifiers 1, 2 and 3. *)
Theorem kernel_main_interrupted bi int3_frame a b c s gaps
    (Hfree : Boot.unlocked s)
    (Hnone : inner (Boot.s_sched s) = None)
    (Hoff : canonical_low (Boot.physical_memory_offset bi))
    (Htable : canonical_low (Boot.physical_memory_offset bi + Boot.cr3_frame bi))
    (Hinit : forall m0, exists x m,
       heap_init HEAP_START HEAP_SIZE (Boot.s_heap s, m0) = (Done tt, (x, m)) /\ inv x m ∅)
    (Hcs : call_stack <= 16000)
    (Hgaps : Forall (Forall on_boot_stack) gaps)
    (Hpid : Boot.s_pid s = 1) :
  exists o s', kernel_main_setup bi int3_frame a b c gaps s = (o, s') /\
    ((o = Panic ExplicitPanic /\ Boot.out_of_room inv ∅) \/
     (o = Done tt /\
      Boot.s_mapper s' = Locked_new (Some (OffsetPageTable_new
        (Boot.physical_memory_offset bi + Boot.cr3_frame bi) (Boot.physical_memory_offset bi))) /\
      Boot.s_frames s' = Locked_new (Some (Frames.init (Boot.boot_memory_map bi))) /\
      exists p1 p2 p3, forall c0, Cpu.interruptible (c0, stk0) ->
        let waiting := [Boot.new_process a p1; Boot.new_process b p2; Boot.new_process c p3] in
        Cpu.config_ok (at_context c0 s', (c0, stk0) :: waiting) /\
        forall code w, System.compiled code (c0, stk0) a b c ->
          let M := System.machine_at code (at_context c0 s') (c0, stk0) waiting w in
          System.shows code (at_context c0 s') (c0, stk0) waiting M /\ Processes.started M)).
Proof.
  unfold kernel_main_setup. destruct (Boot.quiet_gdt s) as [i1 E1]. rewrite (bind_done _ _ _ _ _ E1).
  destruct (Boot.quiet_idt (Boot.with_io i1 s) (proj1 Hfree)) as [i2 E2]. rewrite (bind_done _ _ _ _ _ E2).
  set (s2 := Boot.with_io i2 (Boot.with_io i1 s)). destruct Hfree as (Hp & Hm & Hf & Hs).
  assert (Hat : at_stage (Boot.s_mapper s) (Boot.s_frames s) (Locked_new None) 1 (Boot.s_heap s) (fun _ => True) s2).
  { split; try done. cbn. by destruct (Boot.s_sched s) as [h l]; cbn in *; subst. }
  pose proof (setup_safe bi int3_frame a b c _ _ _ _ s2 Hcs Hm Hf Hoff Htable Hinit Hat gaps Hgaps) as Hend.
  destruct (run_interrupted _ _ _ _) as [o s']. cbn [fst snd] in Hend. exists o, s'. split; [done|].
  destruct Hend as [?|(-> & Hm' & Hf' & buf & p1 & p2 & p3 & Hsch & Hcfg)]; [by left|right].
  split_and!; [done..|]. exists p1, p2, p3. intros c0 Hc0. cbn zeta. specialize (Hcfg c0 Hc0).
  split; [exact Hcfg|]. intros code w Hcode. split.
  - apply System.machine_at_shows, Hcfg.
  - eapply (System.boot_started _ _ _ _ _ _ buf); [exact Hcode|exact Hsch|apply Hcfg].
Qed.
End processes.
End boot_stack.
End startup.

(** ** Witness: the boot configuration of Boot.v, with interrupts at every statement *)
#[local] Instance wprofile : BuildProfile := true.
#[local] Existing Instances Cpu.wconv Cpu.wconv_laws Paging.gmap_mapper Paging.gmap_mapper_laws Rtl8139.wcard
  std_addr std_addr_laws Gdt.list_gdt Gdt.list_gdt_laws Boot.wheap Boot.wheap_init LinkedList.global_alloc.

Definition wgaps : list (list arrival) :=
  replicate 14 [(Cpu.TimerIrq, Cpu.wcpu); (Cpu.KeyboardIrq, Cpu.wcpu); (Cpu.TimerIrq, Cpu.wcpu)].

Lemma wgaps_ok : Forall (Forall (on_boot_stack (0x6000, 0x2000))) wgaps.
Proof.
  apply Forall_replicate. repeat apply Forall_cons_2; [..|constructor];
    unfold on_boot_stack, Cpu.interruptible; vm_compute; intuition congruence.
Qed.

Lemma winit m0 : exists x m,
  heap_init HEAP_START HEAP_SIZE (Locked_new LinkedList.new, m0) = (Done tt, (x, m)) /\
  LinkedList.inv HEAP_START Boot.heap_end x m ∅.
Proof.
  destruct (LinkedList.list_init_inv HEAP_START HEAP_SIZE m0 Boot.boot_heap_ok) as [E Hi];
    [by exists (HEAP_START / 8)|by exists (HEAP_SIZE / 8)|vm_compute; congruence|].
  rewrite (surjective_pairing (LinkedList.push_region _ _ _)) in E.
  eexists _, _. split; [apply with_lock_free; exact E|].
  split; [done|]. eexists. exact Hi.
Qed.

Lemma kernel_main_interrupted_witness :
  exists o s', kernel_main_setup (Mp := gmap Z Z) Boot.wboot [] 0x10100 0x10200 0x10300 wgaps Boot.wsys = (o, s') /\
    (o = Panic ExplicitPanic \/
     o = Done tt /\ exists p1 p2 p3, Cpu.config_ok (at_context Cpu.wcpu s',
       [(Cpu.wcpu, (0x6000, 0x2000)); Boot.new_process 0x10100 p1; Boot.new_process 0x10200 p2;
        Boot.new_process 0x10300 p3])).
Proof.
  destruct (kernel_main_interrupted (H1 := Gdt.list_gdt) (H4 := Boot.wheap) (H6 := Cpu.wconv) (0x6000, 0x2000)
    ltac:(left; vm_compute; congruence) dealloc _
    (LinkedList.linked_list_contract HEAP_START Boot.heap_end Boot.boot_heap_ok) Boot.wheap_place
    ltac:(intros x live m m'; apply LinkedList.inv_local)
    Boot.wboot [] 0x10100 0x10200 0x10300 Boot.wsys wgaps Boot.wsys_unlocked eq_refl Boot.wboot_offset Boot.wboot_table
    winit ltac:(vm_compute; congruence) wgaps_ok eq_refl)
    as (o & s' & E & [[-> _]|(-> & _ & _ & p1 & p2 & p3 & Hok)]); eexists _, s'; (split; [exact E|]).
  - by left.
  - right. split; [done|]. exists p1, p2, p3.
    refine (proj1 (Hok Cpu.wcpu _)). unfold Cpu.interruptible. vm_compute. intuition congruence.
Defined.
End Startup.
