(* ===== verification/NetStartup.v ===== *)
(** * Interrupts during the start of the networking kernel

    The counterpart of Startup.v for something_os_networking: [kernel_main] cut
    into its statements, every function of the bus that the PCI scan probes and
    every statement of the block that sends the test packet, with its two
    locks, a statement of its own, and the interrupt handlers of Cpu.v between
    them.  The processor, the cards and the interrupt controllers share one
    device state, which the handlers change. *)

From S2P Require Import Prelude Store Allocator LinkedList X86 Frames Paging Sched Gdt Interrupts Cpu Rtl8139 Pci Boot Traffic NetBoot Startup.
Import Traffic Startup.

Module NetStartup.
Section startup.
Context `{BuildProfile} `{Addresses} {AL : AddressLaws} `{GdtCrate T} {GL : GdtLaws T}
  `{PageMapper Mp} `{Device D} {TD : TypedDevice D}.
Context {G : Type} `{GlobalHeap G mem} `{HeapInit G mem}.
Context `{CallingConvention} {CL : CallingLaws}.
#[local] Abbreviation sys := (@Boot.sys Mp D G).

(** ** The statements of [kernel_main] *)
Definition on_rtl {A} (c : M (Locked (option Rtl8139Driver) * io D) A) : M sys A :=
  zoom (fun s => (Boot.s_rtl8139 s, Boot.s_io s)) (fun t s => NetBoot.with_rtl t.1 t.2 s) c.

Definition with_driver (l : Locked (option Rtl8139Driver)) (s : sys) : sys := NetBoot.with_rtl l (Boot.s_io s) s.
Definition with_mapper (l : Locked (option Mp)) (s : sys) : sys :=
  {| Boot.s_io := Boot.s_io s; Boot.s_pics := Boot.s_pics s; Boot.s_mapper := l;
     Boot.s_frames := Boot.s_frames s; Boot.s_rtl8139 := Boot.s_rtl8139 s; Boot.s_sched := Boot.s_sched s;
     Boot.s_pid := Boot.s_pid s; Boot.s_heap := Boot.s_heap s; Boot.s_mem := Boot.s_mem s |}.

Definition unlock_as_is {A} : M (Locked A) unit := a ← gets inner; unlock a.

(** A call on the driver behind the guard of [RTL8139]. *)
Definition on_driver (c : M (Rtl8139Driver * io D) unit) : M sys unit := fun s =>
  match inner (Boot.s_rtl8139 s) with
  | Some driver =>
      let '(o, (driver, i)) := c (driver, Boot.s_io s) in
      (o, NetBoot.with_rtl {| held := held (Boot.s_rtl8139 s); inner := Some driver |} i s)
  | None => (Undefined, s)
  end.

(** The block that sends the test packet. *)
Definition send_stmts (fuel : nat) (packet_ptr : Z) : stmts sys :=
  let release := Stmt (zoom Boot.s_rtl8139 with_driver unlock_as_is) (fun _ => Finish) in
  let release_both := Stmt (zoom Boot.s_mapper with_mapper unlock_as_is) (fun _ => release) in
  Stmt (zoom Boot.s_rtl8139 with_driver lock) (fun rtl =>
  match rtl with
  | None => release
  | Some _ =>
      Stmt (lift Boot.test_packet) (fun packet =>
      Stmt (zoom Boot.s_mapper with_mapper lock) (fun mapper =>
      match mapper with
      | None => Stmt (Boot.on_io (println "Error: KERNEL_MAPPER is None!" [])) (fun _ => release_both)
      | Some mp =>
          Stmt (lift (Paging.virt_to_phys_u32 mp packet_ptr)) (fun packet_phys_addr =>
          Stmt (Boot.on_io (println "Virtual Addr: {:p} -> Physical Addr: {:#X}"
                              [packet_ptr; packet_phys_addr])) (fun _ =>
          Stmt (on_driver (Rtl8139.send_packet fuel packet_phys_addr (Z.of_nat (length packet))))
            (fun _ => release_both)))
      end))
  end).

(** The functions of the bus, in the order of the scan. *)
Definition slots : list (Z * Z) := bus ← seqZ 0 255; (fun slot => (bus, slot)) <$> seqZ 0 32.

Definition scan_stmts (fuel : nat) (local_rx : Z) (k : stmts sys) : stmts sys :=
  Stmt (on_rtl (Rtl8139.on_static (println "Scanning PCI buses for Network Cards..." []))) (fun _ =>
  each_stmt slots (fun bs => on_rtl (Pci.probe_and_init fuel local_rx bs.1 bs.2)) k).

Definition net_stmts (fuel : nat) (local_rx packet_ptr : Z) (bi : BootInfo) (int3_frame : list Z) : stmts sys :=
  Stmt (Boot.on_io (emit (Instr "int3" []))) (fun _ =>
  Stmt (Boot.on_io (Interrupts.breakpoint int3_frame)) (fun _ =>
  Stmt (lift (VirtAddr_new (physical_memory_offset bi))) (fun phys_mem_offset =>
  Stmt (Boot.on_statics (Paging.init_global_memory (cr3_frame bi) phys_mem_offset (boot_memory_map bi))) (fun _ =>
  Stmt (Boot.on_heap Boot.init_heap) (fun _ =>
  scan_stmts fuel local_rx (send_stmts fuel packet_ptr)))))).

(** [kernel_main], with the interrupts of [gaps] between the statements. *)
Definition kernel_main_net_run (fuel : nat) (local_rx packet_ptr : Z) (bi : BootInfo) (int3_frame : list Z)
    (gaps : list (list arrival)) : M sys unit :=
  _ ← Boot.on_io (Boot.on_trace (Gdt.init (T := T)));
  _ ← Boot.on_pics Interrupts.init_idt;
  run_interrupted take_interrupt (net_stmts fuel local_rx packet_ptr bi int3_frame) gaps.

(** ** Without interrupts it is [kernel_main] *)
Lemma scan_cut fuel local_rx k s :
  run_stmts (scan_stmts fuel local_rx k) s
  = (_ ← on_rtl (Pci.check_network_card_and_init fuel local_rx); run_stmts k) s.
Proof.
  unfold scan_stmts. cbn [run_stmts]. unfold Pci.check_network_card_and_init.
  assert (Hss : forall t t' s, NetBoot.with_rtl t'.1 t'.2 (NetBoot.with_rtl t.1 t.2 s) = NetBoot.with_rtl t'.1 t'.2 (s : sys))
    by done.
  etransitivity; [|apply bind_ext; [symmetry; by apply zoom_bind; [intros []|]|reflexivity]].
  rewrite bind_assoc. apply bind_ext; [done|]. intros _ s1. rewrite run_each. apply bind_ext; [|done].
  unfold slots. rewrite for_each_bind. unfold on_rtl. unfold for_range.
  rewrite zoom_for_each; [|by intros []|done|by intros []]. apply for_each_ext. intros bus s2.
  rewrite zoom_for_each; [|by intros []|done|by intros []]. by rewrite for_each_map.
Qed.

Lemma send_cut fuel packet_ptr (s : sys) :
  run_stmts (send_stmts fuel packet_ptr) s
  = zoom (fun s => (Boot.s_rtl8139 s, (Boot.s_mapper s, Boot.s_io s)))
      (fun t s => with_mapper t.2.1 (NetBoot.with_rtl t.1 t.2.2 s)) (Boot.send_test_packet fuel packet_ptr) s.
Proof.
  destruct s as [i pics [hm mo] fa [hr ro] sc n hp me]. destruct hr; [done|]. destruct ro as [driver|]; [|done].
  destruct hm; [done|]. destruct mo as [mp|]; [|done].
  unfold send_stmts, Boot.send_test_packet, zoom, with_lock. rewrite Boot.test_packet_eq.
  repeat (cbn -[Rtl8139.send_packet Boot.packet_bytes Paging.virt_to_phys_u32];
    unfold mbind, M_bind, lift, on_driver, zoom, lock).
  destruct (Paging.virt_to_phys_u32 mp packet_ptr) as [phys| | | |]; [|reflexivity..].
  repeat (cbn -[Rtl8139.send_packet Boot.packet_bytes]; unfold mbind, M_bind, on_driver, zoom).
  by destruct (Rtl8139.send_packet fuel phys _ _) as [[[]| | | |] [driver' i']].
Qed.

Lemma kernel_main_net_cut fuel local_rx packet_ptr bi int3_frame s :
  kernel_main_net_run fuel local_rx packet_ptr bi int3_frame [] s
  = Boot.kernel_main_net fuel local_rx packet_ptr bi int3_frame s.
Proof.
  unfold Boot.kernel_main_net, kernel_main_net_run. apply bind_ext; [done|]. intros _ s1.
  apply bind_ext; [done|]. intros _ s2. rewrite run_uninterrupted. unfold net_stmts. cbn [run_stmts].
  do 5 (apply bind_ext; [done|]; intros ? ?). rewrite scan_cut. apply bind_ext; [done|]. intros _ ?. apply send_cut.
Qed.

(** ** Interrupts keep what the start-up builds *)
Section boot_stack.
Context (stk0 : Z * Z) (Hstk : ends stk0 <= HEAP_START \/ HEAP_START + HEAP_SIZE <= stk0.1).
#[local] Abbreviation safely := (safe take_interrupt (on_boot_stack stk0)).

Definition irq_keeps (J : io D -> Prop) : Prop := forall q i i',
  Cpu.irq_io q (Locked_new (), i) = (Done tt, (Locked_new (), i')) -> J i -> J i'.

Lemma irq_keeps_ok : irq_keeps io_ok.
Proof.
  intros q i i' E Hi. destruct q.
  - destruct (keeps_signal_eoi (Locked_new (), i) Hi) as [Hk _]. cbn [Cpu.irq_io] in E. by rewrite E in Hk.
  - destruct (keeps_keyboard (Locked_new (), i) Hi) as [Hk _]. cbn [Cpu.irq_io] in E. by rewrite E in Hk.
Qed.

(** The handlers write no port: the interrupt controllers aside, they only read
    the keyboard's. *)
Lemma irq_keeps_outs (P : list event -> Prop) : irq_keeps (fun i => P (Rtl8139.outs (trace i))).
Proof.
  intros q i i' E Hi. assert (Eo : Rtl8139.outs (trace i') = Rtl8139.outs (trace i)); [|by rewrite Eo].
  destruct q; cbn [Cpu.irq_io] in E.
  - injection E as <-. cbn. by rewrite Rtl8139.outs_app, app_nil_r.
  - unfold Interrupts.handle_keyboard_io_and_eoi, Interrupts.on_io, zoom, mbind, M_bind in E. cbn [snd] in E.
    rewrite port_read_eq in E. cbn in E. injection E as <-. cbn. by rewrite !Rtl8139.outs_app, !app_nil_r.
Qed.

Lemma irq_keeps_and J1 J2 : irq_keeps J1 -> irq_keeps J2 -> irq_keeps (fun i => J1 i /\ J2 i).
Proof. intros HJ1 HJ2 q i i' E [? ?]. split; [by eapply HJ1|by eapply HJ2]. Qed.

(** The statics, the heap and the devices. *)
Record net_at (mp : Locked (option Mp)) (fa : Locked (option BootInfoFrameAllocator))
    (rtl : Locked (option Rtl8139Driver)) (n : Z) (x : G) (K : mem -> Prop) (J : io D -> Prop) (s : sys) : Prop := {
  na_stage : at_stage mp fa (Locked_new None) n x K s;
  na_rtl : Boot.s_rtl8139 s = rtl;
  na_io : J (Boot.s_io s);
}.

Lemma net_at_stable mp fa rtl n x K J :
  heap_local K -> irq_keeps J -> stable take_interrupt (on_boot_stack stk0) (net_at mp fa rtl n x K J).
Proof.
  intros HK HJ i s Hi [Hs Hr Hio].
  destruct (take_interrupt_ok stk0 Hstk mp fa (Locked_new None) n x K i s ltac:(right; by left) HK Hi Hs)
    as (s' & E & Hs' & Er & Ei).
  exists s'. split; [exact E|]. split; [exact Hs'|by rewrite Er|by apply (HJ _ _ _ Ei)].
Qed.

(** A statement that only drives the devices, or nothing. *)
Lemma net_io_safe {A} J' (c : M (io D) A) a k Q mp fa rtl n x K J s :
  heap_local K -> irq_keeps J -> (forall i, J i -> exists i', c i = (Done a, i') /\ J' i') ->
  net_at mp fa rtl n x K J s ->
  (forall s, net_at mp fa rtl n x K J' s -> safely (k a) Q s) ->
  safely (Stmt (Boot.on_io c) k) Q s.
Proof.
  intros HK HJ Hc Hs Hk. eapply safe_stmt; [by apply net_at_stable|exact Hs|].
  clear s Hs. intros s [Hs Hr Hio]. left. destruct (Hc _ Hio) as (i' & E & Hi').
  exists a, (Boot.with_io i' s). split; [by apply zoom_done|]. apply Hk. split; [by destruct Hs|exact Hr|exact Hi'].
Qed.

Lemma net_lift_safe {A} (o : outcome A) a k Q mp fa rtl n x K J s :
  heap_local K -> irq_keeps J -> o = Done a -> net_at mp fa rtl n x K J s ->
  (forall s, net_at mp fa rtl n x K J s -> safely (k a) Q s) ->
  safely (Stmt (lift o) k) Q s.
Proof.
  intros HK HJ -> Hs Hk. eapply safe_stmt; [by apply net_at_stable|exact Hs|].
  intros s' Hs'. left. exists a, s'. split; [done|by apply Hk].
Qed.

Lemma println_ok fmt args (i : io D) : io_ok i -> exists i', println fmt args i = (Done tt, i') /\ io_ok i'.
Proof. intros Hi. eexists. split; [done|]. by destruct (keeps_println fmt args i Hi). Qed.

(** ** The PCI scan *)
Context (cfg : Z -> Z -> Z -> Z) (fuel : nat).
Context (Hcfg : NetBoot.configuration (D := D) cfg).
Context (Hcards : forall base, base ∈ NetBoot.cards cfg -> NetBoot.card_works (D := D) fuel base).

Definition card_at (bs : Z * Z) : list Z := option_list (NetBoot.card cfg bs.1 bs.2).

Lemma slots_cards : slots ≫= card_at = NetBoot.cards cfg.
Proof.
  unfold slots, NetBoot.cards. generalize (seqZ 0 255) as buses. intros buses.
  induction buses as [|bus buses IH]; [done|]. rewrite !bind_cons, bind_app, IH. f_equal.
Qed.

Lemma elem_of_slots bs : bs ∈ slots -> 0 <= bs.1 < 255 /\ 0 <= bs.2 < 32.
Proof.
  unfold slots. intros (bus & (slot & -> & Hs%elem_of_seqZ)%list_elem_of_fmap & Hb%elem_of_seqZ)%list_elem_of_bind.
  cbn. lia.
Qed.

(** While the static holds what the scan has found so far. *)
Definition scanned (mp : Locked (option Mp)) (fa : Locked (option BootInfoFrameAllocator)) (n : Z) (x : G)
    (K : mem -> Prop) (old : option Rtl8139Driver) : sys -> Prop :=
  net_at mp fa (Locked_new old) n x K (fun i => static_ok (Locked_new old, i)).

Lemma irq_keeps_static old : irq_keeps (fun i => static_ok (Locked_new old, i)).
Proof. intros q i i' E [Hd Hi]. split; [exact Hd|]. by apply (irq_keeps_ok q i). Qed.

Lemma scanned_stable mp fa n x K old :
  heap_local K -> stable take_interrupt (on_boot_stack stk0) (scanned mp fa n x K old).
Proof. intros HK. by apply net_at_stable, irq_keeps_static. Qed.

Lemma probe_scanned local_rx mp fa n x K old bs s :
  bs ∈ slots -> scanned mp fa n x K old s ->
  exists s', on_rtl (Pci.probe_and_init fuel local_rx bs.1 bs.2) s = (Done tt, s') /\
    scanned mp fa n x K (NetBoot.stored (card_at bs) old) s'.
Proof.
  intros Hin [Hs Hr Hio]. pose proof (elem_of_slots bs Hin) as [Hb Hsl].
  destruct (NetBoot.probe_step cfg fuel local_rx bs.1 bs.2 old (Boot.s_io s) Hcfg Hb Hsl) as [i' E]; [|exact Hio|].
  { intros base Ebase. apply Hcards. rewrite <- slots_cards. apply list_elem_of_bind. exists bs.
    split; [|done]. unfold card_at. rewrite Ebase. by left. }
  destruct (keeps_probe_and_init fuel local_rx bs.1 bs.2 ltac:(lia) Hsl _ Hio) as [Hio' _].
  rewrite E in Hio'. cbn [snd] in Hio'.
  eexists. split; [unfold on_rtl; apply zoom_done; rewrite Hr; exact E|].
  split; [by destruct Hs|done|exact Hio'].
Qed.

Lemma scan_safe local_rx mp fa n x K k Q s :
  heap_local K -> scanned mp fa n x K None s ->
  (forall s, scanned mp fa n x K (NetBoot.stored (NetBoot.cards cfg) None) s -> safely k Q s) ->
  safely (scan_stmts fuel local_rx k) Q s.
Proof.
  intros HK Hs Hk. unfold scan_stmts.
  eapply safe_stmt; [by apply (scanned_stable mp fa n x K None)|exact Hs|].
  clear s Hs. intros s [Hs Hr [Hd Hio]]. left. destruct (println_ok "Scanning PCI buses for Network Cards..." [] _ Hio)
    as (i' & E & Hi').
  exists tt, (NetBoot.with_rtl (Locked_new None) i' s). split.
  { unfold on_rtl. erewrite zoom_done; [|rewrite Hr; apply zoom_done; exact E]. done. }
  apply (safe_each _ _ (fun found => scanned mp fa n x K (NetBoot.stored (found ≫= card_at) None))).
  - intros found. by apply scanned_stable.
  - split; [by destruct Hs|done|]. by split.
  - intros found bs s' Hin Hs'. destruct (probe_scanned local_rx _ _ _ _ _ _ bs s' Hin Hs') as (s2 & E2 & Hs2).
    exists s2. split; [exact E2|]. by rewrite bind_app, NetBoot.stored_app, bind_singleton.
  - rewrite slots_cards. exact Hk.
Qed.

(** ** The test packet *)
#[local] Abbreviation locked a := {| held := true; inner := a |}.

Lemma lock_driver_ok mp fa r n x K J s :
  net_at mp fa (Locked_new r) n x K J s ->
  exists s', zoom Boot.s_rtl8139 with_driver lock s = (Done r, s') /\ net_at mp fa (locked r) n x K J s'.
Proof.
  intros [Hs Hr Hio]. eexists. split; [apply zoom_done; by rewrite Hr|]. split; [by destruct Hs|done|exact Hio].
Qed.

Lemma unlock_driver_ok mp fa r n x K J s :
  net_at mp fa (locked r) n x K J s ->
  exists s', zoom Boot.s_rtl8139 with_driver unlock_as_is s = (Done tt, s') /\ net_at mp fa (Locked_new r) n x K J s'.
Proof.
  intros [Hs Hr Hio]. eexists. split; [apply zoom_done; by rewrite Hr|]. split; [by destruct Hs|done|exact Hio].
Qed.

Lemma lock_mapper_ok mp fa r n x K J s :
  net_at (Locked_new mp) fa r n x K J s ->
  exists s', zoom Boot.s_mapper with_mapper lock s = (Done mp, s') /\ net_at (locked mp) fa r n x K J s'.
Proof.
  intros [[Hp Hm Hf Hsc Hn Hx HK] Hr Hio]. eexists. split; [apply zoom_done; by rewrite Hm|]. by split.
Qed.

Lemma unlock_mapper_ok mp fa r n x K J s :
  net_at (locked mp) fa r n x K J s ->
  exists s', zoom Boot.s_mapper with_mapper unlock_as_is s = (Done tt, s') /\ net_at (Locked_new mp) fa r n x K J s'.
Proof.
  intros [[Hp Hm Hf Hsc Hn Hx HK] Hr Hio]. eexists. split; [apply zoom_done; by rewrite Hm|]. by split.
Qed.

(** What the devices were told last. *)
Definition sent (r : option Rtl8139Driver) (phys : Z) (i : io D) : Prop :=
  io_ok i /\ forall d, r = Some d -> Rtl8139.send_outs (io_base d) (tx_index d) phys 60 `suffix_of` Rtl8139.outs (trace i).

Lemma irq_keeps_sent r phys : irq_keeps (sent r phys).
Proof.
  apply irq_keeps_and; [apply irq_keeps_ok|].
  apply (irq_keeps_outs (fun o => forall d, r = Some d -> Rtl8139.send_outs (io_base d) (tx_index d) phys 60 `suffix_of` o)).
Qed.

Lemma send_driver_ok mp fa d n x K phys s :
  NetBoot.card_works fuel (io_base d) -> 0 <= tx_index d < 4 -> in_range 32 phys ->
  net_at mp fa (locked (Some d)) n x K io_ok s ->
  exists s', on_driver (Rtl8139.send_packet fuel phys 60) s = (Done tt, s') /\
    net_at mp fa (locked (NetBoot.after_packet (Some d))) n x K (sent (Some d) phys) s'.
Proof.
  intros (Hbase & Hsends & _) Hi Hphys [Hs Hr Hio]. destruct Hs as [Hp Hm Hf Hsc Hn Hx HK].
  destruct (Rtl8139.send_packet_ok fuel phys 60 d (Boot.s_io s) Hbase Hi Hsends) as (i' & E & Ho).
  destruct (keeps_send_packet fuel phys 60 Hphys (d, Boot.s_io s)) as [Hk _].
  { split; [|exact Hio]. split; [|exact Hi]. unfold Rtl8139.base_ok in Hbase. unfold in_range. cbn. lia. }
  rewrite E in Hk. eexists. split; [unfold on_driver; rewrite Hr; cbn [inner]; by rewrite E|].
  split; [by split|done|]. split; [apply Hk|]. intros d' [= <-]. cbn [NetBoot.with_rtl Boot.s_io]. rewrite Ho. by eexists.
Qed.

Lemma send_safe packet_ptr mp fa r n x K phys Q s :
  heap_local K -> canonical_low packet_ptr -> translate_addr mp packet_ptr = Some phys -> in_range 32 phys ->
  (forall d, r = Some d -> NetBoot.card_works fuel (io_base d) /\ 0 <= tx_index d < 4) ->
  net_at (Locked_new (Some mp)) fa (Locked_new r) n x K io_ok s ->
  (forall s, net_at (Locked_new (Some mp)) fa (Locked_new (NetBoot.after_packet r)) n x K (sent r phys) s -> Q (Done tt) s) ->
  safely (send_stmts fuel packet_ptr) Q s.
Proof.
  intros HK Hptr Hmap Hphys Hr Hs HQ. unfold send_stmts.
  eapply safe_stmt; [by apply net_at_stable, irq_keeps_ok|exact Hs|].
  clear s Hs. intros s Hs. left. destruct (lock_driver_ok _ _ _ _ _ _ _ s Hs) as (s1 & E1 & HS1).
  exists r, s1. split; [exact E1|]. clear s Hs E1. destruct r as [d|].
  2:{ eapply safe_stmt; [by apply net_at_stable, irq_keeps_ok|exact HS1|]. intros s2 HS2. left.
      destruct (unlock_driver_ok _ _ _ _ _ _ _ s2 HS2) as (s3 & E3 & HS3). exists tt, s3. split; [exact E3|].
      apply safe_finish, HQ. destruct HS3 as [? ? ?]. by split. }
  destruct (Hr d eq_refl) as [Hcard Hi]. clear Hr.
  eapply net_lift_safe; [exact HK|apply irq_keeps_ok|apply Boot.test_packet_eq|exact HS1|]. clear s1 HS1. intros s Hs.
  eapply safe_stmt; [by apply net_at_stable, irq_keeps_ok|exact Hs|].
  clear s Hs. intros s Hs. left. destruct (lock_mapper_ok _ _ _ _ _ _ _ s Hs) as (s2 & E2 & HS2).
  exists (Some mp), s2. split; [exact E2|]. clear s Hs E2.
  eapply net_lift_safe; [exact HK|apply irq_keeps_ok|by apply Boot.virt_to_phys_u32_ok|exact HS2|].
  clear s2 HS2. intros s Hs.
  eapply (net_io_safe io_ok); [exact HK|apply irq_keeps_ok|apply println_ok|exact Hs|]. clear s Hs. intros s Hs.
  eapply safe_stmt; [by apply net_at_stable, irq_keeps_ok|exact Hs|].
  clear s Hs. intros s Hs. left. destruct (send_driver_ok _ _ d _ _ _ phys s Hcard Hi Hphys Hs) as (s3 & E3 & HS3).
  exists tt, s3. split; [exact E3|]. clear s Hs E3.
  eapply safe_stmt; [by apply net_at_stable, irq_keeps_sent|exact HS3|].
  clear s3 HS3. intros s Hs. left. destruct (unlock_mapper_ok _ _ _ _ _ _ _ s Hs) as (s4 & E4 & HS4).
  exists tt, s4. split; [exact E4|]. clear s Hs E4.
  eapply safe_stmt; [by apply net_at_stable, irq_keeps_sent|exact HS4|].
  clear s4 HS4. intros s Hs. left. destruct (unlock_driver_ok _ _ _ _ _ _ _ s Hs) as (s5 & E5 & HS5).
  exists tt, s5. split; [exact E5|]. by apply safe_finish, HQ.
Qed.

(** ** The whole start *)
Context (heap_ready : G -> mem -> Prop) (Hlocal : forall x, heap_local (heap_ready x)).

#[local] Abbreviation the_mapper bi := (OffsetPageTable_new
  (physical_memory_offset bi + cr3_frame bi) (physical_memory_offset bi)).

(** The idle loop's state. *)
Definition net_ready (bi : BootInfo) (n phys : Z) (x : G) : sys -> Prop :=
  net_at (Locked_new (Some (the_mapper bi))) (Locked_new (Some (Frames.init (boot_memory_map bi))))
    (Locked_new (NetBoot.after_packet (NetBoot.stored (NetBoot.cards cfg) None))) n x (heap_ready x)
    (sent (NetBoot.stored (NetBoot.cards cfg) None) phys).

Lemma net_stmts_safe local_rx packet_ptr bi int3_frame n x0 phys mp fa s :
  canonical_low (physical_memory_offset bi) -> canonical_low (physical_memory_offset bi + cr3_frame bi) ->
  held mp = false -> held fa = false ->
  (forall m0, exists x m, heap_init HEAP_START HEAP_SIZE (x0, m0) = (Done tt, (x, m)) /\ heap_ready x m) ->
  canonical_low packet_ptr -> translate_addr (the_mapper bi) packet_ptr = Some phys -> in_range 32 phys ->
  net_at mp fa (Locked_new None) n x0 (fun _ => True) io_ok s ->
  safely (net_stmts fuel local_rx packet_ptr bi int3_frame)
    (fun o s => o = Done tt /\ exists x, net_ready bi n phys x s) s.
Proof.
  intros Hoff Htab Hmp Hfa Hinit Hptr Hmap Hphys Hs. unfold net_stmts.
  assert (Htrue : heap_local (fun _ => True)) by done.
  set (MP := Locked_new (Some (the_mapper bi))).
  set (FA := Locked_new (Some (Frames.init (boot_memory_map bi)))).
  eapply (net_io_safe io_ok (emit _)); [exact Htrue|apply irq_keeps_ok| |exact Hs|].
  { intros i Hi. eexists. split; [done|]. by destruct (keeps_emit (Instr "int3" []) Logic.I i Hi). }
  clear s Hs. intros s Hs.
  eapply (net_io_safe io_ok (Interrupts.breakpoint _)); [exact Htrue|apply irq_keeps_ok|apply println_ok|exact Hs|].
  clear s Hs. intros s Hs.
  eapply net_lift_safe; [exact Htrue|apply irq_keeps_ok|by apply VirtAddr_new_ok|exact Hs|].
  clear s Hs. intros s Hs.
  eapply safe_stmt; [by apply net_at_stable, irq_keeps_ok|exact Hs|].
  clear s Hs. intros s [[Hp Hm Hf Hsc Hn Hx _] Hr Hio]. left. eexists tt, _. split.
  { apply Boot.memory_installed; [|done..]. unfold Boot.unlocked. by rewrite Hp, Hm, Hf, Hsc. }
  eapply (safe_stmt _ _ (net_at MP FA (Locked_new None) n x0 (fun _ => True) io_ok));
    [by apply net_at_stable, irq_keeps_ok|by split; [split|..]|].
  clear s Hp Hm Hf Hsc Hn Hx Hr Hio. intros s [[Hp Hm Hf Hsc Hn Hx _] Hr Hio]. left.
  destruct (Hinit (Boot.s_mem s)) as (x & m & E & Hready). eexists tt, _. split.
  { apply Boot.heap_installed. by rewrite Hx. }
  apply (scan_safe local_rx MP FA n x (heap_ready x)); [apply (Hlocal x)|by split; [split|..]|].
  clear s Hp Hm Hf Hsc Hn Hx Hr Hio m E Hready. intros s [Hs Hr [Hd Hio]].
  apply (send_safe packet_ptr (the_mapper bi) FA (NetBoot.stored (NetBoot.cards cfg) None) n x (heap_ready x) phys);
    [apply (Hlocal x)|exact Hptr|exact Hmap|exact Hphys| |by split|].
  - unfold NetBoot.stored. intros d Ed. destruct (last (NetBoot.cards cfg)) as [base|] eqn:El; [|done].
    injection Ed as <-. split; [|cbn; lia]. apply Hcards. by apply last_Some_elem_of.
  - intros s' Hs'. split; [done|]. by exists x.
Qed.

(** C19: The start of the networking kernel under interrupts.  From free locks, a
    heap that initialises and cards that answer, whichever timer and keyboard
    interrupts arrive between the statements of [kernel_main], between the
    functions of the bus that the scan probes, and while the locks of the driver
    and of the page mapper are held: every interrupt returns to [kernel_main]
    with all registers as they were, and [kernel_main] reaches its idle loop
    with the statics that page faults need installed, the heap initialised, all
    locks free, the last card that the scan found in the driver's static, and
    the test packet sent through it; the handlers have put no port write between
    those of the driver.  And so it stays, whatever further interrupts end the
    [hlt] of the idle loop. *)
Theorem kernel_main_net_interrupted local_rx packet_ptr bi int3_frame s gaps phys
    (Hfree : Boot.unlocked s) (Hnone : inner (Boot.s_sched s) = None)
    (Hrtl : Boot.s_rtl8139 s = Locked_new None) (Hio : io_ok (Boot.s_io s))
    (Hoff : canonical_low (physical_memory_offset bi))
    (Htable : canonical_low (physical_memory_offset bi + cr3_frame bi))
    (Hinit : forall m0, exists x m, heap_init HEAP_START HEAP_SIZE (Boot.s_heap s, m0) = (Done tt, (x, m)) /\
       heap_ready x m)
    (Hptr : canonical_low packet_ptr) (Hmap : translate_addr (the_mapper bi) packet_ptr = Some phys)
    (Hphys : in_range 32 phys)
    (Hgaps : Forall (Forall (on_boot_stack stk0)) gaps) :
  exists x s', kernel_main_net_run fuel local_rx packet_ptr bi int3_frame gaps s = (Done tt, s') /\
    net_ready bi (Boot.s_pid s) phys x s' /\
    forall arrivals, Forall (on_boot_stack stk0) arrivals ->
      exists s'', for_each arrivals take_interrupt s' = (Done tt, s'') /\ net_ready bi (Boot.s_pid s) phys x s''.
Proof.
  assert (Hs : sys_ok s) by (split; [by rewrite Hrtl|exact Hio]).
  unfold kernel_main_net_run.
  destruct (NetBoot.quiet_keeps _ s (Boot.quiet_gdt s) (keeps_sys_io _ _ keeps_gdt_init) Hs) as (i1 & E1 & Hs1).
  rewrite (bind_done _ _ _ _ _ E1).
  destruct (NetBoot.quiet_keeps _ _ (Boot.quiet_idt (Boot.with_io i1 s) (proj1 Hfree))
    (keeps_sys_pics _ _ keeps_init_idt) Hs1) as (i2 & E2 & [_ Hio2]).
  rewrite (bind_done _ _ _ _ _ E2). set (s2 := Boot.with_io i2 (Boot.with_io i1 s)) in *.
  destruct Hfree as (Hp & Hm & Hf & Hsc).
  assert (Hat : net_at (Boot.s_mapper s) (Boot.s_frames s) (Locked_new None) (Boot.s_pid s) (Boot.s_heap s)
    (fun _ => True) io_ok s2).
  { split; [|done|exact Hio2]. split; try done. cbn. by destruct (Boot.s_sched s) as [h l]; cbn in *; subst. }
  pose proof (net_stmts_safe local_rx packet_ptr bi int3_frame _ _ phys _ _ s2 Hoff Htable Hm Hf Hinit Hptr Hmap Hphys
    Hat gaps Hgaps) as (Eo & x & Hready).
  destruct (run_interrupted _ _ _ _) as [o s']. cbn [fst snd] in *. subst o.
  exists x, s'. split; [done|]. split; [exact Hready|]. intros arrivals Hall.
  apply (stable_list take_interrupt (on_boot_stack stk0)); [|exact Hall|exact Hready].
  apply net_at_stable; [apply Hlocal|apply irq_keeps_sent].
Qed.
End boot_stack.
End startup.

(** ** Witness: the bus of NetBoot.v, with interrupts at the first statements *)
#[local] Instance wprofile : BuildProfile := true.
#[local] Existing Instances NetBoot.offset_mapper std_addr std_addr_laws Gdt.list_gdt Gdt.list_gdt_laws Boot.wheap
  Boot.wheap_init Traffic.wtyped Traffic.wtyped_ok Cpu.wconv Cpu.wconv_laws.

Lemma kernel_main_net_interrupted_witness :
  exists s', kernel_main_net_run (Mp := Z) 1 0x18000 0x10000005000 Boot.wboot [] wgaps NetBoot.wnet = (Done tt, s') /\
    Boot.s_rtl8139 s' = Locked_new (NetBoot.after_packet (Some (Rtl8139.new 0xC000))) /\
    Rtl8139.send_outs 0xC000 0 0x5000 60 `suffix_of` Rtl8139.outs (trace (Boot.s_io s')).
Proof.
  assert (Hlast : last (NetBoot.cards NetBoot.wcfg) = Some 0xC000) by (vm_compute; reflexivity).
  destruct (kernel_main_net_interrupted (Mp := Z) (0x6000, 0x2000) ltac:(left; vm_compute; congruence)
    NetBoot.wcfg 1 NetBoot.wcfg_ok ltac:(intros base ->%NetBoot.wcards; apply NetBoot.wcard_works)
    (fun x m => LinkedList.inv HEAP_START Boot.heap_end x m ∅)
    ltac:(intros x m m'; apply LinkedList.inv_local)
    0x18000 0x10000005000 Boot.wboot [] NetBoot.wnet wgaps 0x5000)
    as (x & s' & E & [_ Hrtl [_ Hsent]] & _).
  - by split_and!.
  - done.
  - done.
  - by split; [constructor|].
  - exact Boot.wboot_offset.
  - exact Boot.wboot_table.
  - exact winit.
  - unfold canonical_low; lia.
  - reflexivity.
  - unfold in_range; lia.
  - exact wgaps_ok.
  - exists s'. split; [exact E|]. unfold NetBoot.stored in *. rewrite Hlast in *.
    split; [exact Hrtl|]. exact (Hsent _ eq_refl).
Defined.
End NetStartup.
