(* ===== verification/Registers.v ===== *)
(** * What the devices are told

    Every access of both kernels to a port is checked against the ports the
    machine has: the timer, the keyboard, the PCI bus, and the registers of the
    cards whose port bases the bus has announced.  Each register has a width,
    the values it may be given, and what must have happened before: a card is
    set up only after its reset was seen to end, switched on only with a
    receive buffer and a filter, and given a packet only when it is on.  A small
    program logic whose preconditions are events that have happened carries
    this through the code on every path, whatever the devices answer. *)

From S2P Require Import Prelude Store X86 Frames Paging Sched Gdt Interrupts Cpu Rtl8139 Pci Boot Traffic NetBoot Startup NetStartup.

(** ** The registers of the card (rtl8139.rs, by their names in the data sheet) *)
Inductive register := CR | RBSTART | IMR | ISR | RCR | TSAD (i : Z) | TSD (i : Z).

Definition offset (r : register) : Z :=
  match r with
  | CR => 0x37 | RBSTART => 0x30 | IMR => 0x3C | ISR => 0x3E | RCR => 0x44
  | TSAD i => 0x20 + 4 * i | TSD i => 0x10 + 4 * i
  end.

Definition width_of (r : register) : width :=
  match r with CR => W8 | IMR | ISR => W16 | RBSTART | RCR | TSAD _ | TSD _ => W32 end.

Definition port_of (base : Z) (r : register) : Z := (base + offset r) mod 2 ^ 16.

Module Registers.

(** ** What may be done, after the events [tr] *)
Section protocol.
Context (tr : list event).

(** The address of a configuration register of the first function of a slot. *)
Definition selects (reg a : Z) : Prop := exists bus slot,
  0 <= bus < 255 /\ 0 <= slot < 32 /\ a = 2 ^ 31 + bus * 2 ^ 16 + slot * 2 ^ 11 + reg.

(** A register of the bus was selected, and then read. *)
Definition was_read (reg v : Z) : Prop := exists a,
  selects reg a /\ [Out W32 0xCF8 a; In W32 0xCFC v] `sublist_of` tr.

(** The first base address register of a card holds the port base. *)
Definition announced (base : Z) : Prop := exists bar0,
  was_read 0x10 bar0 /\ Z.testbit bar0 0 = true /\ base = (bar0 - bar0 mod 4) mod 2 ^ 16.

Definition told (base : Z) (r : register) (v : Z) : Prop := Out (width_of r) (port_of base r) v ∈ tr.

(** The reset was started, and then its bit seen clear. *)
Definition was_reset (base : Z) : Prop := exists v,
  [Out W8 (port_of base CR) 0x10; In W8 (port_of base CR) v] `sublist_of` tr /\ Z.testbit v 4 = false.

(** Then the card was given its buffer, and then its filter. *)
Definition was_set_up (base : Z) : Prop := exists v a,
  [Out W8 (port_of base CR) 0x10; In W8 (port_of base CR) v; Out W32 (port_of base RBSTART) a;
   Out W32 (port_of base RCR) 0x8F] `sublist_of` tr /\ Z.testbit v 4 = false.

Definition may_write (base : Z) (r : register) (v : Z) : Prop :=
  match r with
  | CR => v = 0x10 \/ (v = 0x0C /\ was_set_up base)
  | RBSTART => in_range 32 v /\ was_reset base
  | RCR => v = 0x8F /\ was_reset base
  | ISR => v = 0xFFFF /\ was_reset base
  | IMR => v = 0x0005 /\ was_reset base
  | TSAD i => 0 <= i < 4 /\ in_range 32 v /\ told base CR 0x0C
  | TSD i => 0 <= i < 4 /\ 0 <= v < 2 ^ 13 /\ exists a,
      [Out W8 (port_of base CR) 0x0C; Out W32 (port_of base (TSAD i)) a] `sublist_of` tr
  end.

(** The registers that are waited on. *)
Definition may_read (base : Z) (r : register) : Prop :=
  match r with
  | CR => told base CR 0x10
  | TSD i => 0 <= i < 4 /\ exists v, told base (TSD i) v
  | _ => False
  end.

(** A command register as it was read, with I/O space and bus mastering on. *)
Definition command (v : Z) : Prop := exists old, was_read 4 old /\
  forall n, 0 <= n -> Z.testbit v n = (n =? 0) || (n =? 2) || Z.testbit old n.

Definition allowed (e : event) : Prop :=
  match e with
  | Out w port v =>
      (w = W8 /\ port = 0x43 /\ v = 0x36) \/
      (w = W8 /\ port = 0x40 /\ v ∈ [11931 mod 256; 11931 / 256]) \/
      (w = W32 /\ port = 0xCF8 /\ exists reg, reg ∈ [0; 4; 0x10] /\ selects reg v) \/
      (w = W32 /\ port = 0xCFC /\ command v) \/
      exists base r, announced base /\ w = width_of r /\ port = port_of base r /\ may_write base r v
  | In w port v => in_range (bits w) v /\
      ((w = W8 /\ port = 0x60) \/ (w = W32 /\ port = 0xCFC) \/
       exists base r, announced base /\ w = width_of r /\ port = port_of base r /\ may_read base r)
  | Eoi v => v = 32 \/ v = 33
  | _ => True
  end.

(** A driver of a card that has been announced, reset and switched on. *)
Definition ready (d : Rtl8139Driver) : Prop :=
  announced (io_base d) /\ told (io_base d) CR 0x0C /\ 0 <= tx_index d < 4.
End protocol.

(** Every event was allowed when it happened. *)
Definition conforms (tr : list event) : Prop :=
  forall before e after, tr = before ++ e :: after -> allowed before e.

Lemma conforms_nil : conforms [].
Proof. by intros [] ? ? ?. Qed.

Lemma conforms_snoc tr e : conforms tr -> allowed tr e -> conforms (tr ++ [e]).
Proof.
  intros Htr He before e' after E. destruct after as [|e2 after _] using rev_ind.
  - by apply app_inj_tail in E as [-> ->].
  - rewrite app_comm_cons, app_assoc in E. apply app_inj_tail in E as [-> _]. by apply (Htr _ _ after).
Qed.

(** What has happened stays so. *)
Lemma was_read_mono tr tr' reg v : tr `sublist_of` tr' -> was_read tr reg v -> was_read tr' reg v.
Proof. intros Hs (a & ? & ?). exists a. split; [done|by etrans]. Qed.

Lemma announced_mono tr tr' base : tr `sublist_of` tr' -> announced tr base -> announced tr' base.
Proof. intros Hs (bar0 & Hin & ?). exists bar0. split; [by eapply was_read_mono|done]. Qed.

Lemma ready_mono tr tr' d : tr `sublist_of` tr' -> ready tr d -> ready tr' d.
Proof.
  intros Hs (Ha & Ht & ?). split; [by eapply announced_mono|]. split; [by eapply elem_of_sublist|done].
Qed.

(** ** Computations and the events they rely on

    After the events [B], in this order, [c] keeps the invariant and only adds
    events, however it ends; if it returns [a], then [Q a], and the events [F a]
    are among the ones added, in this order. *)
Section logic.
Context {S : Type} (inv : S -> Prop) (tr : S -> list event).

Definition drives {A} (B : list event) (c : M S A) (Q : A -> Prop) (F : A -> list event) : Prop :=
  forall s, inv s -> B `sublist_of` tr s ->
    inv (c s).2 /\ exists new, tr (c s).2 = tr s ++ new /\ forall a, (c s).1 = Done a -> Q a /\ F a `sublist_of` new.

Abbreviation any := (fun _ => True).
Abbreviation none := (fun _ => []).

(** Nothing happens. *)
Lemma drives_still {A} B (c : M S A) (Q : A -> Prop) :
  (forall s, (c s).2 = s) -> (forall s a, (c s).1 = Done a -> Q a) -> drives B c Q none.
Proof.
  intros Hs HQ s Hi _. rewrite Hs. split; [done|]. exists []. rewrite app_nil_r. split; [done|].
  intros a Ha. split; [by eapply HQ|apply sublist_nil_l].
Qed.

Lemma drives_ret {A} B (a : A) (Q : A -> Prop) : Q a -> drives B (mret a) Q none.
Proof. intros HQ. apply drives_still; [done|]. by intros s b [= <-]. Qed.

Lemma drives_lift {A} B (o : outcome A) (Q : A -> Prop) : (forall a, o = Done a -> Q a) -> drives B (lift o) Q none.
Proof. intros HQ. apply drives_still; [done|]. intros s. apply HQ. Qed.

Lemma drives_fail {A} B (o : outcome A) (Q : A -> Prop) F : (forall a, o <> Done a) -> drives B (fail o) Q F.
Proof.
  intros Ho s Hi _. split; [done|]. exists []. rewrite app_nil_r. split; [done|]. intros a Ha. by destruct (Ho a).
Qed.

Lemma drives_bind {A C} B (Q : A -> Prop) F (Q' : C -> Prop) F' c (k : A -> M S C) :
  drives B c Q F -> (forall a, Q a -> drives (B ++ F a) (k a) Q' F') -> drives B (c ≫= k) Q' F'.
Proof.
  intros Hc Hk s Hi HB. destruct (Hc s Hi HB) as (Hi1 & n1 & Ht1 & HQ). unfold mbind, M_bind.
  destruct (c s) as [[a|f| | |] s1]; cbn [fst snd] in *; [|by split; [|exists n1]..].
  destruct (HQ a eq_refl) as [Ha HF]. destruct (Hk a Ha s1 Hi1) as (Hi2 & n2 & Ht2 & HQ').
  { rewrite Ht1. by apply sublist_app. }
  split; [done|]. exists (n1 ++ n2). rewrite Ht2, Ht1, app_assoc. split; [done|].
  intros b Hb. destruct (HQ' b Hb). split; [done|by apply sublist_inserts_l].
Qed.

(** The events of the first step, when nothing more is known of the rest. *)
Lemma drives_first {A C} B (Q : A -> Prop) L (Q' : C -> Prop) c (k : A -> M S C) :
  drives B c Q (fun _ => L) -> (forall a, Q a -> drives (B ++ L) (k a) Q' none) -> drives B (c ≫= k) Q' (fun _ => L).
Proof.
  intros Hc Hk s Hi HB. destruct (Hc s Hi HB) as (Hi1 & n1 & Ht1 & HQ). unfold mbind, M_bind.
  destruct (c s) as [[a|f| | |] s1]; cbn [fst snd] in *; [|by split; [|exists n1]..].
  destruct (HQ a eq_refl) as [Ha HF]. destruct (Hk a Ha s1 Hi1) as (Hi2 & n2 & Ht2 & HQ').
  { rewrite Ht1. by apply sublist_app. }
  split; [done|]. exists (n1 ++ n2). rewrite Ht2, Ht1, app_assoc. split; [done|].
  intros b Hb. destruct (HQ' b Hb). split; [done|by apply sublist_inserts_r].
Qed.

(** More events before, weaker after. *)
Lemma drives_weaken {A} B B' (Q Q' : A -> Prop) F F' c :
  B' `sublist_of` B -> (forall a, Q a -> Q' a /\ F' a `sublist_of` F a) -> drives B' c Q F -> drives B c Q' F'.
Proof.
  intros HB HQ Hc s Hi Hs. destruct (Hc s Hi) as (Hi' & n & Ht & Hp); [by etrans|]. split; [done|]. exists n.
  split; [done|]. intros a Ha. destruct (Hp a Ha) as [Hq Hf]. destruct (HQ a Hq) as [Hq' Hf']. split; [done|by etrans].
Qed.

(** A value read from the state: what the invariant says of it holds of the
    events so far. *)
Lemma drives_gets {A C} B (f : S -> A) (k : A -> M S C) Q F :
  (forall s, inv s -> drives (tr s) (k (f s)) Q F) -> drives B (gets f ≫= k) Q F.
Proof. intros Hk s Hi _. rewrite gets_bind. by apply Hk. Qed.

Lemma drives_modify B (f : S -> S) :
  (forall s, inv s -> inv (f s) /\ tr (f s) = tr s) -> drives B (modify f) any none.
Proof.
  intros Hf s Hi _. destruct (Hf s Hi) as [Hi' Et]. cbn. split; [done|]. exists []. rewrite Et, app_nil_r.
  split; [done|]. intros a _. split; [done|apply sublist_nil_l].
Qed.

Lemma drives_for_range B lo hi (f : Z -> M S unit) :
  (forall i, lo <= i < hi -> drives B (f i) any none) -> drives B (for_range lo hi f) any none.
Proof.
  intros Hf. unfold for_range.
  assert (Hl : Forall (fun i => lo <= i < hi) (seqZ lo (hi - lo))).
  { apply Forall_forall. intros i ?%elem_of_seqZ. lia. }
  induction Hl as [|i l Hi Hl IH]; [by apply drives_ret|]. cbn [for_each].
  eapply drives_bind; [by apply Hf|]. intros [] _. by rewrite app_nil_r.
Qed.
End logic.

Abbreviation any := (fun _ => True).
Abbreviation none := (fun _ => []).

(** A part of the state. *)
Lemma drives_zoom {S T A} (inv : S -> Prop) tr (inv' : T -> Prop) tr' B (Q : A -> Prop) F get set (c : M T A) :
  (forall s, inv s -> inv' (get s) /\ tr' (get s) = tr s) ->
  (forall s t, inv s -> inv' t -> tr s `sublist_of` tr' t -> inv (set t s) /\ tr (set t s) = tr' t) ->
  drives inv' tr' B c Q F -> drives inv tr B (zoom get set c) Q F.
Proof.
  intros Hget Hset Hc s Hi HB. destruct (Hget s Hi) as [Hi' Et]. rewrite <- Et in HB.
  destruct (Hc (get s) Hi' HB) as (Hi2 & new & Ht & HQ). unfold zoom. destruct (c (get s)) as [o t].
  cbn [fst snd] in *. rewrite Et in Ht. destruct (Hset s t Hi Hi2) as [Hi3 Et'].
  { rewrite Ht. by apply sublist_inserts_r. }
  split; [done|]. exists new. by rewrite Et'.
Qed.

(** A part of the state that is not looked at. *)
Lemma drives_apart {S T A} (inv : S -> Prop) tr B get set (c : M T A) :
  (forall s t, inv s -> inv (set t s) /\ tr (set t s) = tr s) -> drives inv tr B (zoom get set c) any none.
Proof.
  intros Hset s Hi HB. unfold zoom. destruct (c (get s)) as [o t]. destruct (Hset s t Hi) as [Hi' Et]. cbn [fst snd].
  split; [done|]. exists []. rewrite Et, app_nil_r. split; [done|]. intros a _. split; [done|apply sublist_nil_l].
Qed.

(** A critical section: the invariant speaks of what the lock protects. *)
Lemma drives_with_lock {X A C} (J : A * X -> Prop) (tr : X -> list event) B (Q : C -> Prop) F (body : M (A * X) C) :
  drives J (fun s => tr s.2) B body Q F ->
  drives (fun s => J (inner s.1, s.2)) (fun s => tr s.2) B (with_lock body) Q F.
Proof.
  intros Hc [l x] Hi HB. cbn [fst snd] in Hi, HB. unfold with_lock, lock. destruct (held l).
  { split; [done|]. exists []. by rewrite app_nil_r. }
  destruct (Hc _ Hi HB) as (Hi' & new & Ht & HQ). destruct (body (inner l, x)) as [[c|f| | |] [a' x']];
    (split; [done|]); exists new; by split.
Qed.

(** The events [B] in a goal on a trace that has them: those of a step among
    the known ones, in their order. *)
Ltac among := first [apply sublist_nil_l | apply sublist_skip; among | apply sublist_cons; among].

Ltac known :=
  match goal with HB : ?B `sublist_of` ?tr |- _ =>
    repeat rewrite <- app_assoc in HB; cbn [app] in HB;
    lazymatch goal with
    | |- _ ∈ tr => eapply elem_of_sublist; [|exact HB]; repeat (apply elem_of_app; right); cbn [app];
        solve [repeat first [apply list_elem_of_here | apply list_elem_of_further]]
    | |- _ `sublist_of` tr => etrans; [|exact HB]; repeat apply sublist_inserts_l; cbn [app]; among
    end
  end.

Create HintDb drives.

(** ** Ports *)
Section ports.
Context `{Device D} {TD : TypedDevice D}.

Definition io_inv (i : io D) : Prop := conforms (trace i) /\ dev_ok (dev i).
#[local] Abbreviation drv := (drives io_inv trace).

Lemma drives_emit B e : (forall tr, B `sublist_of` tr -> allowed tr e) -> drv B (emit e) any (fun _ => [e]).
Proof.
  intros He i [Hc Hd] HB. cbn. split; [split; [by apply conforms_snoc, He|done]|]. exists [e]. by split.
Qed.

Lemma drives_out B w p v :
  (forall tr, B `sublist_of` tr -> allowed tr (Out w p v)) -> drv B (port_write w p v) any (fun _ => [Out w p v]).
Proof.
  intros He i [Hc Hd] HB. cbn. split; [split; [by apply conforms_snoc, He|by apply dev_out_ok]|].
  exists [Out w p v]. by split.
Qed.

Lemma drives_in B w p :
  (forall tr v, B `sublist_of` tr -> in_range (bits w) v -> allowed tr (In w p v)) ->
  drv B (port_read w p) (in_range (bits w)) (fun v => [In w p v]).
Proof.
  intros He i [Hc Hd] HB. rewrite port_read_eq. cbn [fst snd trace dev]. pose proof (dev_in_range w p (dev i) Hd).
  split; [split; [by apply conforms_snoc, He|by apply dev_in_ok]|]. eexists. split; [done|]. by intros a [= <-].
Qed.

Lemma drives_println B fmt args : drv B (println fmt args) any none.
Proof. eapply drives_weaken; [done| |by apply (drives_emit B)]. intros a _. split; [done|apply sublist_nil_l]. Qed.
End ports.

(** ** The driver *)
Section drivers.
Context `{BuildProfile} `{Device D} {TD : TypedDevice D}.
#[local] Abbreviation drv := (drives (io_inv (D := D)) trace).

Lemma drives_port {S} (inv : S -> Prop) tr B base r off :
  off = offset r -> drives inv tr B (lift (uadd 16 base off)) (fun p => p = port_of base r) none.
Proof.
  intros ->. apply drives_lift. intros p. unfold uadd, overflowing, port_of. case_bool_decide as Hr.
  - intros [= <-]. by rewrite Z.mod_small.
  - destruct overflow_checks; [done|]. by intros [= <-].
Qed.

Lemma write_register base r v tr :
  announced tr base -> may_write tr base r v -> allowed tr (Out (width_of r) (port_of base r) v).
Proof. intros Ha Hw. do 4 right. by exists base, r. Qed.

Lemma read_register base r v tr :
  announced tr base -> may_read tr base r -> in_range (bits (width_of r)) v ->
  allowed tr (In (width_of r) (port_of base r) v).
Proof. intros Ha Hr Hv. split; [done|]. do 2 right. by exists base, r. Qed.

(** A wait: what follows it knows that the last value read ended it. *)
Lemma drives_poll {A} B fuel w p fin (k : unit -> M (io D) A) (Q : A -> Prop) F :
  (forall tr v, B `sublist_of` tr -> in_range (bits w) v -> allowed tr (In w p v)) ->
  (forall v, fin v = true -> drv (B ++ [In w p v]) (k tt) Q F) -> drv B (Rtl8139.poll fuel w p fin ≫= k) Q F.
Proof.
  intros Hp Hk. induction fuel as [|fuel IH]; cbn [Rtl8139.poll].
  { intros i Hi HB. split; [done|]. exists []. by rewrite app_nil_r. }
  intros i Hi HB. rewrite bind_assoc. revert i Hi HB. eapply drives_bind; [by apply drives_in|]. intros v _.
  destruct (fin v) eqn:Hv; [by apply Hk|].
  eapply drives_weaken; [by apply sublist_inserts_r| |exact IH]. done.
Qed.

Lemma drives_wait B fuel w p fin :
  (forall tr v, B `sublist_of` tr -> in_range (bits w) v -> allowed tr (In w p v)) -> drv B (Rtl8139.poll fuel w p fin) any none.
Proof.
  intros Hp. induction fuel as [|fuel IH]; cbn [Rtl8139.poll]; [by apply drives_fail|].
  eapply drives_bind; [by apply drives_in|]. intros v _. destruct (fin v); [by apply drives_ret|].
  eapply drives_weaken; [by apply sublist_inserts_r| |exact IH]. done.
Qed.

Lemma drives_init B fuel rx_ptr self :
  (forall tr, B `sublist_of` tr -> announced tr (io_base self)) ->
  drv B (Rtl8139.init fuel rx_ptr self) any (fun _ => [Out W8 (port_of (io_base self) CR) 0x0C]).
Proof.
  intros Hann. unfold Rtl8139.init. set (base := io_base self) in *.
  assert (Hann' : forall tr L, B ++ L `sublist_of` tr -> announced tr base).
  { intros tr L HB. apply Hann. etrans; [|exact HB]. by apply sublist_inserts_r. }
  eapply drives_bind; [by apply (drives_port _ _ _ base CR)|intros ? ->].
  eapply drives_bind; [by apply (drives_port _ _ _ base RBSTART)|intros ? ->].
  eapply drives_bind; [by apply (drives_port _ _ _ base IMR)|intros ? ->].
  eapply drives_bind; [by apply (drives_port _ _ _ base ISR)|intros ? ->].
  eapply drives_bind; [by apply (drives_port _ _ _ base RCR)|intros ? ->].
  eapply drives_bind; [apply drives_println|intros ? _]. rewrite !app_nil_r.
  eapply drives_bind; [apply drives_out; intros tr HB; apply (write_register _ CR); [by apply Hann|by left]|intros ? _].
  apply drives_poll.
  { intros tr v HB Hv. apply (read_register _ CR); [by eapply Hann'|unfold may_read, told; known|done]. }
  intros v Hv. change (Rtl8139.reset_done v = true) in Hv. rewrite Rtl8139.reset_done_bit in Hv. apply negb_true_iff in Hv.
  rewrite <- app_assoc. cbn [app].
  set (seen := [Out W8 (port_of base CR) 0x10; In W8 (port_of base CR) v]).
  assert (Hreset : forall tr L, B ++ seen ++ L `sublist_of` tr -> was_reset tr base).
  { intros tr L HB. exists v. split; [|done]. etrans; [|exact HB]. by apply sublist_inserts_l, sublist_inserts_r. }
  eapply drives_bind; [apply drives_println|intros ? _]. cbn zeta. rewrite app_nil_r.
  eapply drives_bind; [apply drives_out; intros tr HB; apply (write_register _ RBSTART);
    [by eapply Hann'|split; [by apply wrap_range|apply (Hreset _ []); by rewrite app_nil_r]]|intros ? _].
  rewrite <- app_assoc.
  eapply drives_bind; [apply drives_out; intros tr HB; apply (write_register _ RCR);
    [by eapply Hann'|split; [done|by eapply Hreset]]|intros ? _].
  rewrite <- !app_assoc.
  eapply drives_bind; [apply drives_out; intros tr HB; apply (write_register _ ISR);
    [by eapply Hann'|split; [done|by eapply Hreset]]|intros ? _].
  rewrite <- !app_assoc.
  eapply drives_bind; [apply drives_out; intros tr HB; apply (write_register _ IMR);
    [by eapply Hann'|split; [done|by eapply Hreset]]|intros ? _].
  rewrite <- !app_assoc.
  eapply drives_first; [apply drives_out; intros tr HB; apply (write_register _ CR); [by eapply Hann'|]|intros ? _; apply drives_println].
  right. split; [done|]. exists v, (wrap 32 rx_ptr). split; [|done]. etrans; [|exact HB]. apply sublist_inserts_l.
  cbn [app]. by repeat (apply sublist_skip || apply sublist_nil_l).
Qed.

(** ** The driver behind its static *)
Definition drv_inv (s : Rtl8139Driver * io D) : Prop := ready (trace s.2) s.1 /\ io_inv s.2.
Definition static_inv (s : Locked (option Rtl8139Driver) * io D) : Prop :=
  (forall d, inner s.1 = Some d -> ready (trace s.2) d) /\ io_inv s.2.
#[local] Abbreviation drv_tr := (fun s : Rtl8139Driver * io D => trace s.2).
#[local] Abbreviation static_tr := (fun s : Locked (option Rtl8139Driver) * io D => trace s.2).

Lemma drives_on_io {A} B (c : M (io D) A) Q F : drv B c Q F -> drives drv_inv drv_tr B (Rtl8139.on_io c) Q F.
Proof.
  apply drives_zoom; [by intros s [_ ?]|]. intros s t [Hr _] Ht Hs. split; [split; [|done]|done]. by eapply ready_mono.
Qed.

Lemma drives_on_static {A} B (c : M (io D) A) Q F : drv B c Q F -> drives static_inv static_tr B (Rtl8139.on_static c) Q F.
Proof.
  apply drives_zoom; [by intros s [_ ?]|]. intros s t [Hr _] Ht Hs. split; [split; [|done]|done].
  intros d Hd. eapply ready_mono; [exact Hs|by apply Hr].
Qed.

Lemma land_ones_range n v : 0 <= n -> 0 <= Z.land v (Z.ones n) < 2 ^ n.
Proof. intros Hn. rewrite Z.land_ones by done. apply Z.mod_pos_bound. by apply Z.pow_pos_nonneg. Qed.

Lemma drives_send_packet B fuel phys_addr length :
  in_range 32 phys_addr -> drives drv_inv drv_tr B (Rtl8139.send_packet fuel phys_addr length) any none.
Proof.
  intros Hp. unfold Rtl8139.send_packet. apply drives_gets. intros [self i0] [Hready _]. cbn [fst snd] in *.
  set (base := io_base self) in *. set (sofar := trace i0) in *. set (i := tx_index self) in *.
  assert (Hi : 0 <= i < 4) by apply Hready.
  assert (Hann : forall tr L, sofar ++ L `sublist_of` tr -> announced tr base).
  { intros tr L HB. eapply announced_mono; [|apply Hready]. etrans; [|exact HB]. by apply sublist_inserts_r. }
  assert (Hon : [Out W8 (port_of base CR) 0x0C] `sublist_of` sofar).
  { apply singleton_sublist_l, Hready. }
  eapply drives_bind; [by apply (drives_lift _ _ _ _ (eq (i * 4))); intros c; rewrite umul_ok by lia; intros [= <-]|intros ? <-].
  eapply drives_bind; [by apply (drives_lift _ _ _ _ (eq (0x20 + i * 4))); intros c; rewrite uadd_ok by lia; intros [= <-]|intros ? <-].
  eapply drives_bind; [by apply (drives_lift _ _ _ _ (eq (i * 4))); intros c; rewrite umul_ok by lia; intros [= <-]|intros ? <-].
  eapply drives_bind; [by apply (drives_lift _ _ _ _ (eq (0x10 + i * 4))); intros c; rewrite uadd_ok by lia; intros [= <-]|intros ? <-].
  eapply drives_bind; [apply (drives_port _ _ _ base (TSAD i)); cbn; lia|intros ? ->].
  eapply drives_bind; [apply (drives_port _ _ _ base (TSD i)); cbn; lia|intros ? ->]. rewrite !app_nil_r.
  eapply drives_bind; [apply drives_on_io, drives_out; intros tr HB; apply (write_register _ (TSAD i))|intros ? _].
  { apply (Hann _ []). by rewrite app_nil_r. }
  { split_and!; [lia|lia|exact Hp|]. apply singleton_sublist_l. by etrans. }
  eapply drives_bind; [apply drives_on_io, drives_out; intros tr HB; apply (write_register _ (TSD i))|intros ? _].
  { by eapply Hann. }
  { split_and!; [lia|lia|by apply (land_ones_range 13)..|]. exists phys_addr. etrans; [|exact HB].
    by apply (sublist_app [_] _ [_] [_]). }
  rewrite <- app_assoc. eapply drives_bind; [apply drives_on_io, drives_wait|intros ? _].
  { intros tr v HB Hv. apply (read_register _ (TSD i)); [by eapply Hann| |done]. split; [exact Hi|]. eexists. unfold told. known. }
  eapply drives_bind; [apply (drives_lift _ _ _ _ any); done|intros j _]. rewrite !app_nil_r.
  eapply drives_bind; [apply drives_modify|intros ? _; apply drives_on_io, drives_println].
  intros s [(Ha & Ht & _) Hs]. split; [|done]. split; [|exact Hs]. split; [exact Ha|]. split; [exact Ht|].
  by apply Z.mod_pos_bound.
Qed.

(** ** The bus *)
Lemma selects_pci reg bus slot :
  0 <= bus < 255 -> 0 <= slot < 32 -> 0 <= reg < 256 -> selects reg (pci_address bus slot 0 reg).
Proof. intros Hb Hs Hr. exists bus, slot. rewrite Rtl8139.pci_address_eq by lia. split_and!; lia. Qed.

Lemma drives_select B reg a :
  reg ∈ [0; 4; 0x10] -> selects reg a -> drv B (port_write W32 0xCF8 a) any (fun _ => [Out W32 0xCF8 a]).
Proof. intros Hr Ha. apply drives_out. intros tr _. do 2 right. left. by split_and!; [..|exists reg]. Qed.

Lemma drives_data B : drv B (port_read W32 0xCFC) (in_range 32) (fun v => [In W32 0xCFC v]).
Proof. apply drives_in. intros tr v _ Hv. split; [exact Hv|]. right. by left. Qed.

Lemma drives_probe B bus slot : 0 <= bus < 255 -> 0 <= slot < 32 -> drv B (Pci.probe bus slot) any none.
Proof.
  intros Hb Hs. unfold Pci.probe. rewrite Pci.scan_address_eq.
  eapply drives_bind; [apply (drives_select _ 0); [by apply (bool_decide_unpack _)|by apply selects_pci]|intros ? _].
  eapply drives_bind; [apply drives_data|intros v _].
  repeat case_match; solve [by apply drives_ret|apply drives_println].
Qed.

Lemma drives_check_network_card B : drv B Pci.check_network_card any none.
Proof.
  unfold Pci.check_network_card. eapply drives_bind; [apply drives_println|intros ? _].
  apply drives_for_range. intros bus Hb. apply drives_for_range. intros slot Hs. by apply drives_probe.
Qed.

Lemma drives_store_driver B d :
  (forall tr, B `sublist_of` tr -> ready tr d) ->
  drives static_inv static_tr B (with_lock (modify (fun s => (Some d, s.2)))) any none.
Proof.
  intros Hd. apply (drives_with_lock
    (fun s => (forall d, s.1 = Some d -> ready (trace s.2) d) /\ io_inv s.2) trace).
  intros [o i] [_ Hi] HB. cbn [fst snd] in *. split.
  - split; [|exact Hi]. intros d' [= <-]. by apply Hd.
  - exists []. rewrite app_nil_r. split; [done|]. intros a _. split; [done|apply sublist_nil_l].
Qed.

(** The mask clears the two low bits, the cast keeps 16. *)
Lemma io_base_of_eq bar0 : in_range 32 bar0 -> Rtl8139.io_base_of bar0 = (bar0 - bar0 mod 4) mod 2 ^ 16.
Proof.
  intros Hb. unfold Rtl8139.io_base_of. change 0x3 with (2 ^ 2 - 1). rewrite land_unot_pow2 by (done || lia).
  unfold wrap. change (2 ^ 2) with 4. pose proof (Z.div_mod bar0 4). f_equal. lia.
Qed.

Lemma drives_init_device B fuel local_rx bus slot : 0 <= bus < 255 -> 0 <= slot < 32 ->
  drives static_inv static_tr B (Rtl8139.init_device fuel local_rx bus slot 0) any none.
Proof.
  intros Hb Hs. unfold Rtl8139.init_device.
  eapply drives_bind; [apply drives_on_static, (drives_select _ 4); [by apply (bool_decide_unpack _)|by apply selects_pci]|intros ? _].
  eapply drives_bind; [apply drives_on_static, drives_data|intros old Hold]. cbn zeta.
  eapply drives_bind; [apply drives_on_static, drives_out|intros ? _].
  { intros tr HB. do 3 right. left. split_and!; [done|done|]. exists old. split.
    - exists (pci_address bus slot 0 4). split; [by apply selects_pci|]. known.
    - intros n Hn. by apply Rtl8139.enabled_command_bits. }
  eapply drives_bind; [apply drives_on_static, (drives_select _ 0x10); [by apply (bool_decide_unpack _)|by apply selects_pci]|intros ? _].
  eapply drives_bind; [apply drives_on_static, drives_data|intros bar0 Hbar].
  case_bool_decide as Hbit; [|apply drives_on_static, drives_println]. cbn zeta.
  fold (Rtl8139.io_base_of bar0). set (base := Rtl8139.io_base_of bar0). rewrite <- !app_assoc. cbn [app].
  set (sofar := B ++ _). assert (Hann : forall tr, sofar `sublist_of` tr -> announced tr base).
  { intros tr HB. exists bar0. split_and!.
    - eexists. split; [by apply selects_pci|]. unfold sofar in HB. known.
    - pose proof (Rtl8139.land_bit bar0 0 ltac:(done)) as E. change (2 ^ 0) with 1 in E. rewrite Hbit in E.
      by destruct (Z.testbit bar0 0).
    - by apply io_base_of_eq. }
  clearbody sofar. eapply drives_bind; [apply drives_on_static, drives_println|intros ? _]. rewrite app_nil_r.
  eapply drives_bind; [by apply drives_on_static, drives_init|intros ? _].
  eapply drives_bind; [apply drives_store_driver|intros ? _; apply drives_on_static, drives_println].
  intros tr HB. split; [|split; [unfold told; known|done]].
  apply Hann. etrans; [|exact HB]. by apply sublist_inserts_r.
Qed.

Lemma drives_probe_and_init B fuel local_rx bus slot : 0 <= bus < 255 -> 0 <= slot < 32 ->
  drives static_inv static_tr B (Pci.probe_and_init fuel local_rx bus slot) any none.
Proof.
  intros Hb Hs. unfold Pci.probe_and_init. rewrite Pci.scan_address_eq.
  eapply drives_bind; [apply drives_on_static, (drives_select _ 0); [by apply (bool_decide_unpack _)|by apply selects_pci]|intros ? _].
  eapply drives_bind; [apply drives_on_static, drives_data|intros v _].
  case_bool_decide; [by apply drives_ret|]. case_match.
  - eapply drives_bind; [apply drives_on_static, drives_println|intros ? _]. by apply drives_init_device.
  - case_match; [apply drives_on_static, drives_println|by apply drives_ret].
Qed.

(** ** Interrupt set-up and handlers *)
Definition pics_inv (s : Locked unit * io D) : Prop := io_inv s.2.
#[local] Abbreviation pics_tr := (fun s : Locked unit * io D => trace s.2).

Lemma drives_pics_io {A} B (c : M (io D) A) Q F : drv B c Q F -> drives pics_inv pics_tr B (Interrupts.on_io c) Q F.
Proof. by apply drives_zoom. Qed.

Lemma drives_pics_event B e : (forall tr, allowed tr e) ->
  drives pics_inv pics_tr B (with_lock (Interrupts.emit_io e)) any none.
Proof.
  intros He. apply (drives_with_lock (fun s => io_inv s.2) trace).
  eapply drives_weaken; [done|intros ? _; split; [done|apply sublist_nil_l]|].
  apply (drives_zoom _ _ io_inv trace _ any (fun _ => [e])); [done|done|]. apply drives_emit. intros tr _. apply He.
Qed.

Lemma drives_init_pit B : drv B Interrupts.init_pit any none.
Proof.
  unfold Interrupts.init_pit. eapply drives_bind; [apply drives_out; intros tr _; by left|intros ? _]. cbn zeta.
  eapply drives_bind; [apply drives_out; intros tr _; right; left; split_and!; [done|done|by apply (bool_decide_unpack _)]|intros ? _].
  eapply drives_weaken; [done|intros ? _; split; [done|apply sublist_nil_l]|].
  apply drives_out. intros tr _. right. left. split_and!; [done|done|by apply (bool_decide_unpack _)].
Qed.

Lemma drives_instr B n args : drv B (emit (Instr n args)) any none.
Proof. eapply drives_weaken; [done| |by apply drives_emit]. intros a _. split; [done|apply sublist_nil_l]. Qed.

Lemma drives_init_idt B : drives pics_inv pics_tr B Interrupts.init_idt any none.
Proof.
  unfold Interrupts.init_idt. eapply drives_bind; [apply drives_pics_io, drives_instr|intros ? _].
  eapply drives_bind; [by apply drives_pics_event|intros ? _].
  eapply drives_bind; [apply drives_pics_io, drives_init_pit|intros ? _]. apply drives_pics_io, drives_instr.
Qed.

Lemma drives_eoi B i : i <> Yield -> drives pics_inv pics_tr B (Interrupts.notify_end_of_interrupt (as_u8 i)) any none.
Proof. intros Hi. apply drives_pics_event. intros tr. by destruct i; [|left|right]. Qed.

Lemma drives_keyboard B : drives pics_inv pics_tr B Interrupts.handle_keyboard_io_and_eoi any none.
Proof.
  unfold Interrupts.handle_keyboard_io_and_eoi.
  eapply drives_bind; [apply drives_pics_io, drives_in|intros v _].
  { intros tr v _ Hv. split; [exact Hv|]. by left. }
  eapply drives_bind; [apply drives_pics_io, drives_println|intros ? _]. by apply drives_eoi.
Qed.
End drivers.

(** ** The kernels *)
Section kernels.
Context `{BuildProfile} `{Addresses} `{GdtCrate T} `{PageMapper Mp} `{Device D} {TD : TypedDevice D}.
Context {G : Type} `{GlobalHeap G mem} `{Boot.HeapInit G mem}.

#[local] Abbreviation sys := (Boot.sys (Mp := Mp) (D := D) (G := G)).
#[local] Abbreviation sys_tr := (fun s : sys => trace (Boot.s_io s)).
#[local] Abbreviation statics := (Locked (option Mp) * (Locked (option BootInfoFrameAllocator) * list event))%type.

(** The kernels' state: what was done so far was allowed, and the driver, if
    there is one, is that of a card that is on. *)
Definition sys_inv (s : sys) : Prop := static_inv (Boot.s_rtl8139 s, Boot.s_io s).

Lemma drives_sys_io {A} B (c : M (io D) A) Q F : drives io_inv trace B c Q F -> drives sys_inv sys_tr B (Boot.on_io c) Q F.
Proof.
  apply drives_zoom; [by intros s [_ ?]|]. intros s t [Hr _] Ht Hs. split; [split; [|done]|done].
  intros d Hd. eapply ready_mono; [exact Hs|by apply Hr].
Qed.

Lemma drives_sys_pics {A} B (c : M (Locked unit * io D) A) Q F :
  drives pics_inv (fun s => trace s.2) B c Q F -> drives sys_inv sys_tr B (Boot.on_pics c) Q F.
Proof.
  apply drives_zoom; [by intros s [_ ?]|]. intros s t [Hr _] Ht Hs. split; [split; [|done]|done].
  intros d Hd. eapply ready_mono; [exact Hs|by apply Hr].
Qed.

Lemma drives_sys_heap {A} B (c : M (G * mem) A) : drives sys_inv sys_tr B (Boot.on_heap c) any none.
Proof. by apply drives_apart. Qed.

Lemma drives_sys_sched {A} B (c : M _ A) : drives sys_inv sys_tr B (Boot.on_sched c) any none.
Proof. by apply drives_apart. Qed.

Definition statics_inv (s : statics) : Prop := conforms s.2.2.

Lemma drives_sys_statics {A} B (c : M statics A) Q F :
  drives statics_inv (fun s => s.2.2) B c Q F -> drives sys_inv sys_tr B (Boot.on_statics c) Q F.
Proof.
  apply drives_zoom; [by intros s [_ [? _]]|]. intros s t [Hr [_ Hd]] Ht Hs. split; [split; [|done]|done].
  intros d Hdr. eapply ready_mono; [exact Hs|by apply Hr].
Qed.

(** Events that are no traffic. *)
Lemma drives_silent {S} (inv : S -> Prop) tr B (f : S -> S) e :
  (forall s, inv s -> inv (f s) /\ tr (f s) = tr s ++ [e]) -> drives inv tr B (modify f) any none.
Proof.
  intros Hf s Hi _. destruct (Hf s Hi) as [Hi' Et]. cbn. split; [done|]. exists [e]. split; [done|].
  intros a _. split; [done|apply sublist_nil_l].
Qed.

Lemma drives_gdt_init B : drives io_inv trace B (Boot.on_trace (D := D) (Gdt.init (T := T))) any none.
Proof.
  apply (drives_zoom _ _ conforms (fun tr => tr)); [by intros s [? _]|by intros s t [_ ?] ?|]. unfold Gdt.init.
  eapply drives_bind; [by apply (drives_lift _ _ _ _ any)|]. intros [_ sel] _.
  assert (He : forall B e, (forall tr, allowed tr e) -> drives conforms (fun tr => tr) B (modify (fun tr => tr ++ [e])) any none).
  { intros B0 e He. apply (drives_silent _ _ _ _ e). intros tr Htr. split; [by apply conforms_snoc|done]. }
  do 3 (eapply drives_bind; [by apply He|intros ? _]). by apply He.
Qed.

Lemma drives_init_global_memory B cr3 off map :
  drives statics_inv (fun s => s.2.2) B (Paging.init_global_memory cr3 off map) any none.
Proof.
  assert (Hst : forall A X B (J : X -> Prop) (tr : X -> list event) (v : A),
    drives (fun s : Locked (option A) * X => J s.2) (fun s => tr s.2) B (Paging.store_static v) any none).
  { intros A X B0 J tr v. apply (drives_with_lock (fun s => J s.2) tr). by apply drives_modify. }
  unfold Paging.init_global_memory. eapply drives_bind; [by apply (drives_lift _ _ _ _ any)|]. intros mapper _. cbn zeta.
  eapply drives_bind; [apply (Hst _ _ _ (fun x => conforms x.2) snd)|]. intros ? _.
  apply (drives_zoom _ _ (fun s => conforms s.2) snd); [done|done|]. apply (Hst _ _ _ conforms (fun tr => tr)).
Qed.

Lemma drives_page_fault_handler B a ec sf :
  drives statics_inv (fun s => s.2.2) B (Paging.page_fault_handler a ec sf) any none.
Proof.
  assert (He : forall A C B e, (forall tr, allowed tr e) ->
    drives (fun s : A * (C * list event) => conforms s.2.2) (fun s => s.2.2) B (Paging.emit_ e) any none).
  { intros A C B0 e He. apply (drives_silent _ _ _ _ e). intros s Hs. split; [by apply conforms_snoc|done]. }
  assert (Hmap : forall B, drives (fun s => conforms s.2.2) (fun s => s.2.2) B (Paging.map_heap_page (Mp := Mp) a) any none).
  { intros B0. unfold Paging.map_heap_page. cbn zeta. eapply (drives_bind _ _ _ any none); [by apply drives_apart|].
    intros [f|] _; [|by apply drives_ret]. eapply drives_bind; [by apply He|]. intros ? _.
    eapply (drives_bind _ _ _ any none); [by apply drives_apart|]. intros [] _; [|by apply drives_ret].
    eapply drives_bind; [by apply He|]. intros ? _. by apply drives_ret. }
  unfold Paging.page_fault_handler. do 2 (eapply drives_bind; [by apply (drives_lift _ _ _ _ any)|intros ? _]).
  eapply (drives_bind _ _ _ any none).
  { case_match; [|by apply drives_ret]. unfold Paging.fault_in_heap.
    apply (drives_with_lock (fun s => conforms s.2.2) (fun x => x.2)).
    apply (drives_zoom _ _ (fun s => conforms s.2.2) (fun s => s.2.2)); [done|done|].
    apply (drives_with_lock (fun s => conforms s.2.2) (fun x => x.2)).
    intros [[fa|] [[mp|] tr]] Hs HB.
    2-4: by (split; [done|]; exists []; rewrite app_nil_r; split; [done|]; intros b _; split; [done|apply sublist_nil_l]).
    unfold Paging.if_both. destruct (Hmap _ (fa, (mp, tr)) Hs HB) as (HI & new & Ht & HQ).
    destruct (Paging.map_heap_page a _) as [o [fa' [mp' tr']]]. split; [done|]. by exists new. }
  intros [] _; [by apply drives_ret|]. do 4 (eapply drives_bind; [by apply He|intros ? _]). by apply drives_fail.
Qed.

(** ** The interrupt handlers, as the processor runs them *)
Section handlers.
Context `{CallingConvention}.
#[local] Abbreviation mach_inv := (fun m : mach D => io_inv (kio (kern m))).
#[local] Abbreviation mach_tr := (fun m : mach D => trace (kio (kern m))).
#[local] Abbreviation onm := (drives mach_inv mach_tr).

Lemma drives_step {A} B (c : M (mach D) A) : (forall m, kern (c m).2 = kern m) -> onm B c any none.
Proof.
  intros Hc m Hi _. rewrite Hc. split; [done|]. exists []. rewrite app_nil_r. split; [done|].
  intros a _. split; [done|apply sublist_nil_l].
Qed.

Lemma drives_push_val B v : onm B (Cpu.push_val v) any none.
Proof.
  unfold Cpu.push_val. eapply drives_bind; [by apply drives_step|intros sp _].
  eapply drives_bind; [|intros ? _; by apply drives_step]. apply drives_step. intros m. unfold Cpu.on_mem, zoom.
  by destruct (write_word _ _ _).
Qed.

Lemma drives_pop_val B : onm B Cpu.pop_val any none.
Proof.
  unfold Cpu.pop_val. eapply drives_bind; [by apply drives_step|intros sp _].
  eapply drives_bind; [|intros v _; eapply drives_bind; [by apply drives_step|intros ? _; by apply drives_ret]].
  apply drives_step. intros m. unfold Cpu.on_mem, zoom. by destruct (read_word _ _).
Qed.

Lemma drives_rust_call B f rdi : onm B (Cpu.on_kern (Cpu.rust_call f rdi)) any none.
Proof.
  apply (drives_zoom _ _ (fun k => io_inv (kio k)) (fun k => trace (kio k))); [done|done|].
  assert (Hp : forall c : M (Locked unit * io D) unit, drives pics_inv (fun s => trace s.2) B c any none ->
    drives (fun k => io_inv (kio k)) (fun k => trace (kio k)) B (_ ← Cpu.on_pics c; mret (None : option Z)) any none).
  { intros c Hc. eapply (drives_bind _ _ _ any none); [|intros ? _; by apply drives_ret].
    by apply (drives_zoom _ _ pics_inv (fun s => trace s.2)). }
  destruct f; cbn [Cpu.rust_call]; [by apply Hp, drives_eoi|apply Hp, drives_keyboard|].
  eapply (drives_bind _ _ _ any none); [by apply drives_apart|intros ? _; by apply drives_ret].
Qed.

#[local] Hint Resolve drives_push_val drives_pop_val drives_rust_call : drives.
#[local] Hint Extern 2 (drives _ _ _ (Cpu.get_reg _) _ _) => (by apply drives_step) : drives.
#[local] Hint Extern 2 (drives _ _ _ (Cpu.on_cpu _) _ _) => (by apply drives_step) : drives.
#[local] Hint Extern 2 (drives _ _ _ (gets _) _ _) => (by apply drives_step) : drives.
#[local] Hint Extern 2 (drives _ _ _ (Cpu.on_mem _) _ _) => (by apply drives_apart) : drives.
#[local] Hint Extern 2 (drives _ _ _ (Cpu.on_table _) _ _) =>
  (apply (drives_zoom _ _ (fun k => io_inv (kio k)) (fun k => trace (kio k))); [done|done|by apply drives_apart]) : drives.

Ltac instructions :=
  repeat (eapply (drives_bind _ _ _ any none); [solve [eauto with drives]|intros ? _]); eauto with drives.

Lemma drives_exec B old new i : onm B (Cpu.exec old new i) any none.
Proof. destruct i; cbn [Cpu.exec]; instructions. case_match; [eauto with drives|by apply drives_fail]. Qed.

Lemma drives_for_each {S A} (inv : S -> Prop) tr B (l : list A) (f : A -> M S unit) :
  (forall a, drives inv tr B (f a) any none) -> drives inv tr B (for_each l f) any none.
Proof.
  intros Hf. induction l as [|a l IH]; [by apply drives_ret|]. cbn [for_each].
  eapply drives_bind; [apply Hf|intros ? _]. by rewrite app_nil_r.
Qed.

Lemma drives_interrupt B code : onm B (Cpu.interrupt code) any none.
Proof.
  unfold Cpu.interrupt, Cpu.run, Cpu.interrupt_entry. eapply (drives_bind _ _ _ any none); [instructions|intros ? _].
  apply drives_for_each. intros i. apply drives_exec.
Qed.

Lemma drives_take_interrupt B i : drives sys_inv sys_tr B (Startup.take_interrupt i) any none.
Proof.
  unfold Startup.take_interrupt. eapply (drives_bind _ _ _ any none).
  - apply (drives_zoom _ _ mach_inv mach_tr); [by intros s [_ ?]| |].
    + intros s m [Hr _] Hm Hs. split; [split; [|done]|done]. intros d Hd. eapply ready_mono; [exact Hs|by apply Hr].
    + eapply drives_bind; [apply drives_interrupt|intros ? _]. eauto with drives.
  - intros c _. case_match; [by apply drives_ret|by apply drives_fail].
Qed.

(** ** The kernels, with interrupts between their statements *)
Fixpoint drives_stmts (p : Startup.stmts sys) : Prop :=
  match p with
  | Startup.Finish => True
  | Startup.Stmt c k => exists Q, drives sys_inv sys_tr [] c Q none /\ forall x, Q x -> drives_stmts (k x)
  end.

Lemma drives_run p gaps :
  drives_stmts p -> drives sys_inv sys_tr [] (Startup.run_interrupted Startup.take_interrupt p gaps) any none.
Proof.
  revert gaps. induction p as [|X c k IH]; intros gaps Hp; cbn [Startup.run_interrupted]; [by apply drives_ret|].
  destruct Hp as (Q & Hc & Hk). eapply drives_bind; [apply drives_for_each; intros i; apply drives_take_interrupt|].
  intros ? _. eapply drives_bind; [exact Hc|]. intros x Hx. by apply IH, Hk.
Qed.

Lemma each_drives {A} (l : list A) (c : A -> M sys unit) k :
  (forall a, a ∈ l -> drives sys_inv sys_tr [] (c a) any none) -> drives_stmts k -> drives_stmts (Startup.each_stmt l c k).
Proof.
  intros Hc Hk. induction l as [|a l IH]; [done|]. cbn. exists any. split; [apply Hc; by left|].
  intros _ _. apply IH. intros b Hb. apply Hc. by right.
Qed.

Lemma drives_on_driver (c : M (Rtl8139Driver * io D) unit) :
  drives drv_inv (fun s => trace s.2) [] c any none -> drives sys_inv sys_tr [] (NetStartup.on_driver c) any none.
Proof.
  intros Hc s [Hd Hi] HB. unfold NetStartup.on_driver. cbn [fst snd] in *.
  destruct (inner (Boot.s_rtl8139 s)) as [d|] eqn:Ed.
  2:{ split; [split; [by intros d; cbn; rewrite Ed|exact Hi]|]. exists []. by rewrite app_nil_r. }
  destruct (Hc (d, Boot.s_io s)) as ([Hd' Hi'] & new & Ht & HQ); [by split; [apply Hd|]|apply sublist_nil_l|].
  destruct (c (d, Boot.s_io s)) as [o [d' i']]. split; [|by exists new].
  split; [|done]. by intros d0 [= <-].
Qed.

Lemma drives_on_rtl {A} (c : M (Locked (option Rtl8139Driver) * io D) A) :
  drives static_inv (fun s => trace s.2) [] c any none -> drives sys_inv sys_tr [] (NetStartup.on_rtl c) any none.
Proof. by apply drives_zoom. Qed.

(** Statements that only take or release a lock. *)
Lemma drives_on_rtl_lock {A} (c : M (Locked (option Rtl8139Driver)) A) :
  (forall l, inner (c l).2 = inner l) ->
  drives sys_inv sys_tr [] (zoom Boot.s_rtl8139 NetStartup.with_driver c) any none.
Proof.
  intros Hc s [Hd Hi] _. unfold zoom. pose proof (Hc (Boot.s_rtl8139 s)) as El. destruct (c (Boot.s_rtl8139 s)) as [o l].
  cbn [fst snd] in *. split; [split; [intros d; cbn; rewrite El; apply Hd|exact Hi]|]. exists []. rewrite app_nil_r. split; [done|].
  intros a _. split; [done|apply sublist_nil_l].
Qed.

Lemma drives_on_mapper {A} (c : M (Locked (option Mp)) A) :
  drives sys_inv sys_tr [] (zoom Boot.s_mapper NetStartup.with_mapper c) any none.
Proof. by apply drives_apart. Qed.

Lemma drives_virt_to_phys mp packet_ptr :
  drives sys_inv sys_tr [] (lift (Paging.virt_to_phys_u32 mp packet_ptr)) (in_range 32) none.
Proof.
  apply drives_lift. intros x. unfold Paging.virt_to_phys_u32. destruct (VirtAddr_new packet_ptr) as [v| | | |]; try done.
  cbn. destruct (translate_addr mp v); intros [= <-]. by apply wrap_range.
Qed.

Lemma lock_inner {A} (l : Locked A) : inner (lock l).2 = inner l.
Proof. unfold lock. by destruct (held l). Qed.

Lemma send_drives fuel packet_ptr : drives_stmts (NetStartup.send_stmts fuel packet_ptr).
Proof.
  assert (Hrel : drives_stmts (Startup.Stmt (zoom Boot.s_rtl8139 NetStartup.with_driver NetStartup.unlock_as_is)
    (fun _ => Startup.Finish))) by (exists any; split; [by apply drives_on_rtl_lock|done]).
  assert (Hboth : drives_stmts (Startup.Stmt (zoom Boot.s_mapper NetStartup.with_mapper NetStartup.unlock_as_is)
    (fun _ => Startup.Stmt (zoom Boot.s_rtl8139 NetStartup.with_driver NetStartup.unlock_as_is)
    (fun _ => Startup.Finish)))) by (exists any; split; [apply drives_on_mapper|done]).
  unfold NetStartup.send_stmts. exists any. split; [apply drives_on_rtl_lock, lock_inner|]. intros [d|] _; [|exact Hrel].
  exists any. split; [by apply drives_lift|]. intros packet _.
  exists any. split; [apply drives_on_mapper|]. intros [mp|] _.
  2:{ exists any. split; [apply drives_sys_io, drives_println|]. intros _ _. exact Hboth. }
  exists (in_range 32). split; [apply drives_virt_to_phys|]. intros phys Hphys.
  exists any. split; [apply drives_sys_io, drives_println|]. intros _ _.
  exists any. split; [by apply drives_on_driver, drives_send_packet|]. intros _ _. exact Hboth.
Qed.

#[local] Hint Resolve drives_sys_io drives_sys_pics drives_sys_heap drives_sys_sched drives_sys_statics drives_gdt_init
  drives_init_global_memory drives_init_idt drives_check_network_card drives_instr drives_println : drives.
#[local] Hint Extern 2 (drives _ _ _ (Interrupts.breakpoint _) _ _) => apply drives_println : drives.
#[local] Hint Extern 3 (drives _ _ _ (lift _) _ _) => (by apply drives_lift) : drives.
#[local] Hint Extern 3 (drives _ _ _ (zoom Boot.s_sched _ _) _ _) => (by apply drives_apart) : drives.
(** One statement of the start-up after the other. *)
Ltac statements := repeat (eapply (drives_bind _ _ _ any none); [solve [eauto with drives]|intros ? _]).
Ltac statement := eexists any; split; [solve [eauto with drives]|intros ? _].

Lemma net_drives fuel local_rx packet_ptr bi sf : drives_stmts (NetStartup.net_stmts fuel local_rx packet_ptr bi sf).
Proof.
  unfold NetStartup.net_stmts. do 5 statement.
  exists any. split; [apply drives_on_rtl, drives_on_static, drives_println|intros _ _].
  apply each_drives; [|apply send_drives]. intros [bus slot] [Hb Hs]%NetStartup.elem_of_slots.
  by apply drives_on_rtl, drives_probe_and_init.
Qed.

Lemma main_drives bi sf a b c : drives_stmts (Startup.interruptible_stmts bi sf a b c).
Proof. unfold Startup.interruptible_stmts, Startup.spawning_stmts, Startup.lock_table, Startup.unlock_table. repeat statement. exact I. Qed.

Lemma sys_conforms s : sys_inv s -> conforms (trace (Boot.s_io s)).
Proof. by intros [_ [Hc _]]. Qed.

(** Whatever happens in [c], the machine is used as it may be. *)
Definition obeys {A} (c : M sys A) : Prop := forall s, sys_inv s ->
  sys_inv (c s).2 /\ trace (Boot.s_io s) `prefix_of` trace (Boot.s_io (c s).2).

Lemma drives_obeys {A} (c : M sys A) : drives sys_inv sys_tr [] c any none -> obeys c.
Proof. intros Hc s Hs. destruct (Hc s Hs (sublist_nil_l _)) as (Hi & new & Ht & _). split; [exact Hi|by exists new]. Qed.

(** C18: The kernels keep to the protocol of the ports.  Whichever interrupts
    arrive between their statements, whatever the devices answer, and however
    they end, panics and endless waits included, the starts of both kernels, the
    interrupt handlers and the page fault handler access only the ports of the
    timer, the keyboard and the PCI bus, and the registers of cards whose port
    base a base address register of the bus announced.  The timer is programmed
    with its mode and the two bytes of the divisor; on the bus only the
    identification, the command and the first base address of function 0 of the
    slots of buses 0 to 254 are selected, and the command is written as it was
    read, with I/O space and bus mastering on.  A card's registers are accessed
    at their width with the values they take, and in their order: buffer, filter
    and interrupts only after the reset bit was seen clear after the reset was
    written; the card switched on after that, the buffer and the filter; an
    address in one of the four descriptors only once it is on, and a length of
    13 bits only after an address.  Only the timer's and the keyboard's vectors
    are acknowledged.  The driver that is stored is that of a card so set up. *)
Theorem port_protocol fuel local_rx packet_ptr bi int3_frame a b c :
  (forall gaps, obeys (Startup.kernel_main_setup bi int3_frame a b c gaps)) /\
  (forall gaps, obeys (NetStartup.kernel_main_net_run fuel local_rx packet_ptr bi int3_frame gaps)) /\
  (forall i, obeys (Startup.take_interrupt i)) /\
  (forall addr error_code sf, obeys (Boot.on_statics (Paging.page_fault_handler addr error_code sf))).
Proof.
  split_and!.
  - intros gaps. apply drives_obeys. unfold Startup.kernel_main_setup. statements. apply drives_run, main_drives.
  - intros gaps. apply drives_obeys. unfold NetStartup.kernel_main_net_run. statements. apply drives_run, net_drives.
  - intros i. apply drives_obeys, drives_take_interrupt.
  - intros addr ec sf. apply drives_obeys, drives_sys_statics, drives_page_fault_handler.
Qed.
End handlers.
End kernels.

(** ** Witness: the bus of NetBoot.v, with interrupts at the first statements *)
#[local] Instance wprofile : BuildProfile := true.
#[local] Existing Instances NetBoot.offset_mapper std_addr Gdt.list_gdt Boot.wheap Boot.wheap_init
  Traffic.wtyped Traffic.wtyped_ok Cpu.wconv.

Lemma port_protocol_witness :
  conforms (trace (Boot.s_io (NetStartup.kernel_main_net_run (Mp := Z) 1 0x18000 0x10000005000 Boot.wboot []
    Startup.wgaps NetBoot.wnet).2)).
Proof.
  destruct (port_protocol (Mp := Z) 1 0x18000 0x10000005000 Boot.wboot [] 0 0 0) as (_ & Hnet & _).
  apply sys_conforms, Hnet. split; [by intros d [=]|]. split; [apply conforms_nil|done].
Defined.
End Registers.
