(* ===== verification/Panics.v ===== *)
(** * A panic in a process

    The [panic] handler of main.rs is [loop {}]: it leaves locks and the
    interrupt flag as it finds them.  What a panic of the running process does to
    the others therefore depends on where it happens: outside of a [print!] it
    stops one process, inside it stops the machine. *)

From ITree Require Import ITree.
From S2P Require Import Prelude Store Format Vga Sched Interrupts Processes.
Import Processes.

Module Panics.
Section panics.
Context `{BuildProfile} (t0 : Vga.term) (Ht0 : Vga.term_ok t0).

(** The panic handler takes over the running process. *)
Definition panic_handler (s : machine) : machine := set_prog panic_loop s.

Lemma panic_loop_follows : follows panic_loop [] panic_loop.
Proof. by apply follows_end. Qed.

Lemma stopped_ok n : role_ok (stopped n).
Proof. split; [apply panic_loop_follows|by repeat split]. Qed.

(** With interrupts enabled, a process that panics is one that does nothing. *)
Lemma panic_queue r acts rs s :
  machine_ok t0 r acts rs s -> if_flag (running s) = true ->
  machine_ok t0 (stopped (pid r)) [] rs (panic_handler s) /\ pid r = current_pid s.
Proof.
  intros [(tab & p & ps & Hsch & Hok & Hring & Hid & Hw) (Hf & Hg & Hl) Hroles Hcon Hpics] Hif. split.
  - split; [by exists tab, p, ps| | |exact Hcon|exact Hpics].
    + split_and!; [apply panic_loop_follows| |left; apply suffix_nil].
      rewrite Hif in Hg. apply good_free in Hg. cbn. by rewrite Hif, Hg.
    + apply Forall_cons in Hroles as [_ Hrs]. constructor; [apply stopped_ok|exact Hrs].
  - unfold current_pid. rewrite Hsch. cbn [inner Locked_new]. by rewrite (Sched.ring_head_current _ _ _ Hok Hring).
Qed.

Lemma panic_queue_ok qs s :
  queue_ok t0 qs s -> if_flag (running s) = true -> Forall phase_ok qs ->
  exists r acts rs, qs = (r, acts) :: rs /\ pid r = current_pid s /\
    queue_ok t0 ((stopped (pid r), []) :: rs) (panic_handler s) /\
    Forall phase_ok ((stopped (pid r), []) :: rs).
Proof.
  destruct qs as [|[r acts] [|y rs]]; [done..|]. cbn [queue_ok fst snd]. intros Hm Hif Hqs.
  destruct (panic_queue r acts (y :: rs) s Hm Hif) as [Hm' Hpid]. exists r, acts, (y :: rs).
  split_and!; [done..|]. apply Forall_cons in Hqs as [_ Hqs]. constructor; [|exact Hqs].
  split; [right; right; by exists (pid r)|left; apply suffix_nil].
Qed.

(** With interrupts masked, nothing but the loop happens ever after. *)
Lemma panic_frozen ls s s' :
  prog (running s) = panic_loop -> if_flag (running s) = false -> psteps ls s s' ->
  s' = s /\ Forall (eq Run) ls.
Proof.
  intros Hprog Hif. induction 1 as [s|l ls s s1 s2 Hl Hls IH]; [by split|].
  destruct Hl as [s s1 E|q old s s1 Hif']; [|congruence].
  assert (E1 : run_step s = (Done tt, s)).
  { unfold run_step. rewrite gets_bind, Hprog. cbn. unfold modify, set_prog. rewrite <- Hprog.
    by destruct s as [[pr fl] ? ? ? ? ?]. }
  rewrite E1 in E. injection E as <-. destruct (IH Hprog Hif) as [-> Hrun]. split; [done|by constructor].
Qed.
End panics.

(** C5: What a panic costs.  At any point of any execution, if the running process
    panics while interrupts are enabled, only that process is lost: whatever
    the interleaving, the machine goes on, either interrupt is served, the
    screen still shows everything written in order, and each of the other
    processes prints again within 4 times 50014 interrupts.  If it panics with
    interrupts masked, inside [print!], the machine is frozen: from then on the
    processor loops, no interrupt is ever taken and nothing changes. *)
Theorem panic_isolated `{BuildProfile} w ls1 s s1 (Hw : Vga.writer_ok w)
    (Hs : started s) (E : writer s = Locked_new w) (Hls1 : psteps ls1 s s1) :
  (if_flag (running s1) = true ->
   forall ls2 s2, psteps ls2 (panic_handler s1) s2 ->
     (exists s3, run_step s2 = (Done tt, s3)) /\
     (if_flag (running s2) = true -> forall q old_rsp, old_rsp ∉ waiting_rsps s2 ->
        exists s3, interrupt q old_rsp s2 = (Done tt, s3)) /\
     inner (writer s2) = Vga.show (Vga.term_write (concat (snd <$> history s2)) (Vga.term_of w)) /\
     exists new, history s2 = history s1 ++ new /\
       forall n letter, (n, letter) ∈ letters -> n <> current_pid s1 ->
         spaced true ls2 -> 4 * 50014 <= Z.of_nat (irqs ls2) -> (FromProcess n, letter) ∈ new) /\
  (if_flag (running s1) = false ->
   forall ls2 s2, psteps ls2 (panic_handler s1) s2 -> s2 = panic_handler s1 /\ Forall (eq Run) ls2).
Proof.
  destruct (started_run w Hw ls1 s s1 Hs E Hls1) as [Hq _]. split; intros Hif ls2 s2 Hls2.
  2:{ by apply (panic_frozen ls2 (panic_handler s1)). }
  set (qs := queue_run ls1 boot_queue) in *.
  destruct (panic_queue_ok _ qs s1 Hq Hif) as (r & acts & rs & Eqs & Hpid & Hq1 & Hok1).
  { apply queue_run_ok, boot_queue_ok. }
  destruct (psteps_queue _ (term_of_ok w Hw) _ _ _ _ Hq1 Hls2) as (Hq2 & Hh & _).
  destruct (queue_live _ (term_of_ok w Hw) _ _ Hq2) as [Hrun Hirq].
  split_and!; [exact Hrun|by intros; apply Hirq|by eapply queue_console|].
  eexists. split; [exact Hh|]. intros n letter Hin Hne Hsp Hn.
  assert (Hroles : Permutation (r :: (fst <$> rs)) (fst <$> boot_queue)).
  { change (r :: (fst <$> rs)) with (fst <$> ((r, acts) :: rs)). rewrite <- Eqs. apply queue_run_roles. }
  apply written_in_turn; try done.
  - apply Permutation_length in Hroles. cbn in Hroles. rewrite length_fmap in Hroles. cbn. lia.
  - apply printer_booted in Hin. rewrite <- Hroles in Hin. apply elem_of_cons in Hin as [<-|Hin]; [done|].
    by right.
Qed.

(** ** Witness: a panic right at the start, and one in the middle of [print!] *)
Lemma wpanic_runs n : exists ls s', psteps (H := true) ls (panic_handler wmachine) s' /\ spaced true ls /\ irqs ls = n.
Proof.
  destruct (started_run (H := true) Vga.wwriter Vga.wwriter_ok [] wmachine wmachine wmachine_started eq_refl (psteps_nil _))
    as [Hq _].
  destruct (panic_queue_ok _ _ _ Hq eq_refl boot_queue_ok) as (r & acts & rs & _ & _ & Hq1 & _).
  destruct (executions_exist (H := true) _ (term_of_ok _ Vga.wwriter_ok) n _ _ Hq1) as (ls & s' & ? & ? & ?).
  exists ls, s'. split_and!; [done|by apply spaced_weaken|done].
Qed.

Lemma wmachine_prints : exists s1, psteps (H := true) [Run; Run] wmachine s1 /\ if_flag (running s1) = false.
Proof.
  eexists. split.
  - eapply psteps_cons; [apply pstep_run; reflexivity|].
    eapply psteps_cons; [apply pstep_run; reflexivity|]. apply psteps_nil.
  - reflexivity.
Qed.

Lemma panic_isolated_witness :
  (exists ls s', psteps (H := true) ls (panic_handler wmachine) s' /\ (FromProcess 3, bytes "C") ∈ history s') /\
  (exists s1, psteps (H := true) [Run; Run] wmachine s1 /\
     forall ls s', psteps (H := true) ls (panic_handler s1) s' -> s' = panic_handler s1).
Proof.
  split.
  - destruct (wpanic_runs (Z.to_nat (4 * 50014))) as (ls & s' & Hls & Hsp & Hn). exists ls, s'. split; [exact Hls|].
    destruct (panic_isolated (H := true) _ [] wmachine wmachine Vga.wwriter_ok wmachine_started eq_refl (psteps_nil _))
      as [Hon _].
    destruct (Hon eq_refl ls s' Hls) as (_ & _ & _ & new & -> & Hin).
    apply Hin; [right; right; left|discriminate|exact Hsp|rewrite Hn, Z2Nat.id; lia].
  - destruct wmachine_prints as (s1 & Hls & Hif). exists s1. split; [exact Hls|].
    destruct (panic_isolated (H := true) _ _ wmachine s1 Vga.wwriter_ok wmachine_started eq_refl Hls) as [_ Hoff].
    intros ls s' Hls'. exact (proj1 (Hoff Hif ls s' Hls')).
Defined.
End Panics.
