(* ===== verification/PagedStart.v ===== *)
(** * The scheduler's start on demand-paged memory

    When [kernel_main] of something_os initialises the heap, no page of it is
    mapped: the heap's own bookkeeping, the stacks that [spawn] zeroes and the
    frames it forges on them are all written through page faults.  This file
    composes Boot.v with DemandPaging.v: the whole of what [kernel_main] does on
    the heap builds the same process table, and the same memory, as on the flat
    store that the theorems on the start-up use. *)

From S2P Require Import Prelude Store Allocator X86 Frames Paging Sched DemandPaging Boot.
Import DemandPaging.

Module PagedStart.

(** ** What [kernel_main] does on the heap: its initialisation, the scheduler's,
    and the block that fills the process table *)
Section start.
Context `{BuildProfile} {G W : Type} `{WordStore W} `{GlobalHeap G W} `{HeapInit G W}.

Definition heap_start (phys_mem_offset process_alpha process_beta process_omega : Z)
    : M (Boot.sched_state G W) unit :=
  _ ← zoom (fun s => s.2.2) (fun h s => (s.1, (s.2.1, h))) Boot.init_heap;
  _ ← Boot.scheduler_init phys_mem_offset;
  Boot.with_scheduler (Boot.spawn_block process_alpha process_beta process_omega).
End start.

(** A critical section. *)
Lemma sim_with_lock {X1 X2 A B} (R : X1 -> X2 -> Prop) (E : X2 -> Prop) (Q : B -> Prop)
    (c1 : M (A * X1) B) (c2 : M (A * X2) B) :
  simulates (fun x y => x.1 = y.1 /\ R x.2 y.2) (fun y => E y.2) Q c1 c2 ->
  simulates (fun x y => x.1 = y.1 /\ R x.2 y.2) (fun y => E y.2) Q (with_lock c1) (with_lock c2).
Proof.
  intros Hc [l x] [l2 y] b [l' x'] [El HR] E1. cbn [fst snd] in *. subst l2.
  destruct l as [[] a]; [done|]. unfold with_lock in *. cbn [lock held inner] in *.
  destruct (c1 (a, x)) as [o [a' x1]] eqn:Ec. destruct o as [b'| | | |]; try done. injection E1 as -> <- <-.
  destruct (Hc (a, x) (a, y) b (a', x1) (conj eq_refl HR) Ec) as [([a2 y2] & E2 & HQ & [Ea HR'] & HE)|(HE & [a2 y2] & E2)];
    cbn [fst snd] in *; rewrite E2.
  - left. eexists. split_and!; [done|done|by rewrite Ea|done|done].
  - right. split; [done|by eexists].
Qed.

Section theorems.
Context `{BuildProfile} `{Addresses} `{PageMapper Mp} {AL : AddressLaws} {ML : PageMapperLaws Mp}
  {MP : PageMapperProgress Mp}.
Context (P : list Z) (HP : Forall heap_page P).
Context {G : Type} {HG : GlobalHeap G mem} {HG' : GlobalHeap G (paged Mp)}.
Context {HI : HeapInit G mem} {HI' : HeapInit G (paged Mp)}.

(** The heap's initialisation, too, is made of word accesses. *)
Definition init_simulated : Prop :=
  simulates same_heaps (fun y => enough P y.2) (fun _ => True)
    (heap_init (W := mem) HEAP_START HEAP_SIZE) (heap_init (W := paged Mp) HEAP_START HEAP_SIZE).

Definition same_start (x : Boot.sched_state G mem) (y : Boot.sched_state G (paged Mp)) : Prop :=
  x.1 = y.1 /\ x.2.1 = y.2.1 /\ same_heaps x.2.2 y.2.2.

#[local] Abbreviation sim_start := (simulates same_start (fun y => enough P y.2.2.2) (fun _ => True)).

Lemma sim_spawn_block a b c : heap_simulated P ->
  simulates same_states (fun y => enough P y.2.2.2) (fun _ => True)
    (Boot.spawn_block (W := mem) a b c) (Boot.spawn_block (W := paged Mp) a b c).
Proof.
  intros Hheap. unfold Boot.spawn_block. eapply (sim_bind _ _ (fun _ => True)).
  { by apply sim_on_table, sim_spawn_root. }
  intros _ _. do 3 (eapply sim_bind; [by apply sim_spawn|]; intros _ _). by apply sim_ret.
Qed.

Lemma sim_with_scheduler body1 body2 :
  simulates same_states (fun y => enough P y.2.2.2) (fun _ => True) body1 body2 ->
  sim_start (Boot.with_scheduler body1) (Boot.with_scheduler body2).
Proof.
  intros Hb. unfold Boot.with_scheduler.
  apply (sim_with_lock (fun x y => x.1 = y.1 /\ same_heaps x.2 y.2) (fun y => enough P y.2.2)).
  intros [o x] [o2 y] u [o' x'] [Eo HR] E1. cbn [fst snd] in *. subst o2.
  destruct o as [tab|]; [|injection E1 as <- <- <-; left; exists (None, y); split; [done|split; [done|split; [by split|done]]]].
  destruct (body1 (tab, x)) as [r [tab1 x1]] eqn:Eb. injection E1 as -> <- <-.
  destruct (Hb (tab, x) (tab, y) u (tab1, x1) (conj eq_refl HR) Eb)
    as [([tab2 y2] & E2 & _ & [Et HR'] & HE)|(HE & [tab2 y2] & E2)]; cbn [fst snd] in *; rewrite E2.
  - left. eexists. split; [done|split; [done|split; [split; [by rewrite Et|done]|done]]].
  - right. split; [done|by eexists].
Qed.

Lemma sim_heap_start off a b c : init_simulated -> heap_simulated P ->
  sim_start (heap_start (W := mem) off a b c) (heap_start (W := paged Mp) off a b c).
Proof.
  intros Hi Hh. unfold heap_start. eapply (sim_bind _ _ (fun _ => True)).
  { apply (sim_zoom _ _ same_heaps (fun y => enough P y.2)); [by intros ?? (_ & _ & ?)|by intros ???? (? & ? & _) ?|done..|].
    exact Hi. }
  intros _ _. eapply (sim_bind _ _ (fun _ => True)).
  { apply sim_zoom_same; [intros ?? (E & _); cbn; by rewrite E|by intros ??? (_ & ? & ?)|done|done]. }
  intros _ _. by apply sim_with_scheduler, sim_spawn_block.
Qed.

(** C17: The scheduler's start through page faults.  From the statics that
    [init_global_memory] installs, with no heap page mapped and whatever is in
    the frames, and for a heap whose own accesses are word accesses to the pages
    [P], initialising the heap and the scheduler and spawning the three
    processes ends with the same process table, locks and counter as on the flat
    memory, and every word of the heap, the stacks with their forged frames
    among them, is found through the page table, unless there are fewer frames
    than four for each page of [P]; then it may panic in the fault handler. *)
Theorem start_demand_paged off a b c map mp rm l n g l' n' g' m'
    (Hm : Frames.map_ok map) (Hmp : forall p, heap_page p -> splittable mp p /\ translate_addr mp p = None)
    (Hinit : init_simulated) (Hheap : heap_simulated P)
    (E : heap_start (W := mem) off a b c (l, (n, (g, ∅))) = (Done tt, (l', (n', (g', m'))))) :
  let s := {| statics := (Locked_new (Some mp), (Locked_new (Some (Frames.init map)), [])); ram := rm |} in
  (exists s', heap_start (W := paged Mp) off a b c (l, (n, (g, s))) = (Done tt, (l', (n', (g', s')))) /\ same_heap m' s') \/
  (Z.of_nat (length (Frames.frame_addresses map)) < 4 * Z.of_nat (length P) /\
   exists x, heap_start (W := paged Mp) off a b c (l, (n, (g, s))) = (Panic ExplicitPanic, x)).
Proof.
  cbn zeta. pose proof (boot_same_heap map mp rm Hm Hmp) as Hs. set (s := {| statics := _; ram := rm |}) in *.
  destruct (sim_heap_start off a b c Hinit Hheap (l, (n, (g, ∅))) (l, (n, (g, s))) tt _
    (conj eq_refl (conj eq_refl (conj eq_refl Hs))) E) as [([l2 [n2 [g2 s']]] & E' & _ & (El & En & Eg & Hs') & _)|[Hn Hp]].
  - left. cbn in El, En, Eg. subst. by exists s'.
  - right. split; [|exact Hp]. apply Z.nle_gt. intros Hle. apply Hn. cbn [snd].
    unfold enough, frames_left, left_, frames_of, missing.
    cbn [s inner statics Locked_new fst snd from_option memory_map next Frames.init].
    pose proof (length_filter (fun p => translation s p = None) P). lia.
Qed.
End theorems.

(** ** Witness: 63 frames, and a heap of fourteen pages that keeps a word on the
    first of them and hands out the others one after the other *)
#[local] Existing Instances Paging.gmap_mapper Paging.gmap_mapper_laws gmap_mapper_progress std_addr std_addr_laws.
#[local] Instance wprofile : BuildProfile := true.

Definition wpages14 : list Z := (fun i => HEAP_START + 4096 * i) <$> seqZ 0 14.
Definition wmap63 : list MemoryRegion := [{| range_start := 0x1000; range_end := 0x40000; usable := true |}].
Definition wplace14 (l : Layout) (g : Z) : Z * Z :=
  if bool_decide (HEAP_START <= g) && bool_decide (g + size l <= HEAP_START + 57344) && bool_decide (0 <= size l)
  then (g, g + size l) else (0, g).
#[local] Instance wheap14 W : GlobalHeap Z W := {
  heap_alloc l '(g, m) := (Done (wplace14 l g).1, ((wplace14 l g).2, m));
  heap_realloc _ l n '(g, m) :=
    let b := wplace14 {| size := n; align := align l |} g in (Done b.1, (b.2, m));
}.
#[local] Instance wheap14_init `{WordStore W} : HeapInit Z W := fun start size =>
  _ ← zoom snd (fun m s => (s.1, m)) (store start size); modify (fun s => (start + 4096, s.2)).

Lemma wmap63_ok : Frames.map_ok wmap63.
Proof. apply (bool_decide_unpack _). vm_compute. exact I. Qed.

Lemma wpages14_ok : Forall heap_page wpages14.
Proof. repeat constructor; vm_compute; congruence. Qed.

Lemma wpages14_area a : HEAP_START <= a < HEAP_START + 57344 -> Paging.in_heap a /\ page_of a ∈ wpages14.
Proof.
  intros Ha. split; [unfold Paging.in_heap, HEAP_SIZE; lia|]. apply list_elem_of_fmap.
  assert (Hs : HEAP_START = 4096 * 18325193792) by done. exists (a / 4096 - 18325193792).
  unfold page_of, page_size. pose proof (Z.div_mod a 4096 ltac:(done)). pose proof (Z.mod_pos_bound a 4096 ltac:(done)).
  split; [lia|]. apply elem_of_seqZ. lia.
Qed.

Lemma wheap14_simulated : heap_simulated (Mp := gmap Z Z) wpages14 (HG := wheap14 _) (HG' := wheap14 _).
Proof.
  split; [|intros p l n [g m] [g2 s] a x' [Eg Hs]; cbn in Eg; subst g2; intros [= <- <-]; left;
    eexists; split; [done|split; [done|by split]]].
  intros l [g m] [g2 s] a [g1 m1] [Eg Hs]. cbn in Eg, Hs. subst g2. unfold heap_alloc, wheap14.
  intros [= <- <- <-]. left. eexists. split; [done|split; [|by split; [split|]]].
  unfold wplace14. destruct (_ && _) eqn:E; [right|by left]. intros b Hb. apply wpages14_area.
  apply andb_true_iff in E as [[E1%bool_decide_eq_true E2%bool_decide_eq_true]%andb_true_iff _].
  cbn [fst] in Hb. lia.
Qed.

Lemma wheap14_init_simulated : init_simulated (Mp := gmap Z Z) wpages14.
Proof.
  unfold init_simulated, heap_init, wheap14_init. eapply (sim_bind _ _ (fun _ => True)).
  - apply (sim_zoom _ _ same_heap (enough wpages14)); [by intros ?? [_ ?]|by intros ???? [? _] ?|done..|].
    apply store_sim; [apply wpages14_ok|..]; by apply wpages14_area; vm_compute.
  - intros _ _. intros x y u x' HR [= <- <-]. left. eexists. split; [done|split; [done|split; [|done]]]. split; [done|apply HR].
Qed.

#[local] Abbreviation wstart W m :=
  (heap_start (W := W) 0x10000000000 0x10100 0x10200 0x10300 (Locked_new None, (1, (0, m)))).

Lemma wstart_done : (wstart mem ∅).1 = Done tt.
Proof. vm_compute. reflexivity. Qed.

Lemma start_demand_paged_witness :
  exists l n g s', wstart (paged (gmap Z Z))
      {| statics := (Locked_new (Some ∅), (Locked_new (Some (Frames.init wmap63)), [])); ram := ∅ |}
    = (Done tt, (l, (n, (g, s')))) /\ l = (wstart mem ∅).2.1.
Proof.
  pose proof wstart_done as Ed. destruct (wstart mem ∅) as [o [l [n [g m]]]] eqn:E. cbn [fst] in Ed. subst o.
  pose proof (start_demand_paged wpages14 wpages14_ok 0x10000000000 0x10100 0x10200 0x10300 wmap63 ∅ ∅
    (Locked_new None) 1 0 l n g m wmap63_ok wempty wheap14_init_simulated wheap14_simulated E) as Hp.
  destruct Hp as [(s' & E' & _)|[Hn _]].
  - exists l, n, g, s'. split; [exact E'|reflexivity].
  - exfalso. revert Hn. vm_compute. congruence.
Defined.
End PagedStart.
