(* ===== verification/Coop.v ===== *)
(** * Processes that yield

    The cooperative side of process.rs: any number of processes that give up the
    processor by [yield_now] (or [preempt_now], which has the same body), on the
    machine of Cpu.v.  Each of them is suspended inside its call and goes on
    after it when its turn comes; [dummy_main_process] of main.rs is the
    smallest such process. *)

From S2P Require Import Prelude Store Allocator X86 Sched Interrupts Cpu.

(** A process suspended in its call of the switch: the registers at the call,
    its return address, and the stack it runs on. *)
Record caller := { c_pid : Z; c_cpu : vcpu; c_ra : Z; c_stack : Z * Z }.

Module Coop.
Section coop.
Context `{BuildProfile} `{CallingConvention} `{Device D}.

(** There is room on the stack for the return address. *)
Definition fits (c : vcpu) (stk : Z * Z) : Prop :=
  0 < stk.1 /\ stk.1 + 8 <= regs c RSP <= ends stk /\ regs c RSP mod 8 = 0.

Definition suspended (p : Process) (v : caller) : Prop :=
  id p = c_pid v /\ (exists ctx, context p = Cpu.yielded (c_ra v) (c_cpu v) ctx) /\ fits (c_cpu v) (c_stack v).

(** The running process, [pid] on the stack [stk], and the suspended ones in the
    order in which they will run. *)
Definition coop_represents (s : mach D) (pid : Z) (stk : Z * Z) (ws : list caller) : Prop :=
  exists tab p q, SCHEDULER (kern s) = Locked_new (Some tab) /\ Sched.sched_ok tab /\
    Sched.ring tab = p :: q /\ id p = pid /\ Forall2 suspended q ws /\ pairwise_disj (stk :: (c_stack <$> ws)).

(** The registers a call leaves to its caller. *)
Definition returns_to (c : vcpu) (v : caller) : Prop :=
  v_rip c = c_ra v /\ forall r, callee_saved r = true -> regs c r = regs (c_cpu v) r.

Lemma returns_fits c v : returns_to c v -> fits (c_cpu v) (c_stack v) -> fits c (c_stack v).
Proof. intros [_ Hr] Hf. unfold fits in *. by rewrite (Hr RSP). Qed.

Definition calling (s : mach D) (pid ra : Z) (stk : Z * Z) : caller :=
  {| c_pid := pid; c_cpu := cpu s; c_ra := ra; c_stack := stk |}.

(** ** A yield *)
Lemma yield_switch ra s pid stk next ws :
  coop_represents s pid stk (next :: ws) -> fits (cpu s) stk ->
  exists s', Cpu.yield_now ra s = (Done tt, s') /\ returns_to (cpu s') next /\
    coop_represents s' (c_pid next) (c_stack next) (ws ++ [calling s pid ra stk]) /\
    Z.testbit (v_rflags (cpu s')) 9 = false /\
    (forall a, a <> regs (cpu s) RSP - 8 -> a <> regs (c_cpu next) RSP - 8 -> memory s' !! a = memory s !! a).
Proof.
  intros (tab & p & q & Hsch & Hok & Er & Hid & Hws & Hd) (Hpos & Hroom & Ha).
  apply Forall2_cons_inv_r in Hws as (p' & q' & (Hid' & [ctx Hctx] & Hf') & Hws & ->).
  pose proof Hf' as (Hpos' & Hroom' & Ha').
  set (s0 := {| cpu := set_flags (cli (v_rflags (cpu s))) (cpu s); memory := memory s; kern := kern s |}).
  assert (Ersp : rsp (context p') = regs (c_cpu next) RSP - 8) by by rewrite Hctx.
  destruct (Cpu.execute_switch_eq ra s0 tab p p' q' Hsch Hok Er) as (s' & E & Hres & Hfl & Hm & Hsch' & _).
  { cbn [s0 cpu set_flags regs]. lia. } { exact Ha. }
  { rewrite Ersp. lia. } { rewrite Ersp. by apply (Cpu.aligned_sub _ 1). }
  exists s'. split_and!.
  - unfold Cpu.yield_now. rewrite (bind_done _ _ _ tt s0) by done. by rewrite (bind_done _ _ _ _ _ E).
  - rewrite Hctx in Hres. by apply (Cpu.resumed_yielded _ _ ctx).
  - pose proof (Sched.select_switch_turn tab p p' q' Hok Er) as Hturn. cbn zeta in Hturn.
    destruct Hturn as (_ & _ & _ & _ & _ & _ & Hturn).
    destruct (Hturn (Cpu.yielded ra (cpu s0))) as (_ & Hok' & Er').
    eexists _, _, _. split_and!; [exact Hsch'|exact Hok'|exact Er'|exact Hid'| |].
    + apply Forall2_app; [exact Hws|]. constructor; [|constructor]. split_and!; [exact Hid|by exists (context p)|by split].
    + rewrite fmap_app. cbn [fmap list_fmap c_stack calling]. cbn [fmap list_fmap] in Hd.
      apply (pairwise_disj_perm (stk :: c_stack next :: (c_stack <$> ws))); [|exact Hd].
      rewrite Permutation_swap. constructor. apply Permutation_cons_append.
  - rewrite Hfl. cbn [s0 cpu set_flags v_rflags]. apply Cpu.cli_if.
  - intros a Ha1 Ha2. rewrite Hm, Ersp. cbn [s0 cpu set_flags regs memory].
    by rewrite !lookup_insert_ne by done.
Qed.

(** ** Histories

    Between yields the running process does what it likes to its registers, to
    the devices and to memory outside the stacks of the others. *)
Definition config : Type := mach D * (Z * (Z * Z)) * list caller.

Inductive cstep : nat -> config -> config -> Prop :=
  | cstep_run s pid stk ws s' :
      fits (cpu s') stk -> SCHEDULER (kern s') = SCHEDULER (kern s) ->
      Forall (fun v => forall a, (c_stack v).1 <= a < ends (c_stack v) -> memory s' !! a = memory s !! a) ws ->
      cstep 0 (s, (pid, stk), ws) (s', (pid, stk), ws)
  | cstep_yield ra s pid stk next ws s' :
      Cpu.yield_now ra s = (Done tt, s') ->
      cstep 1 (s, (pid, stk), next :: ws)
              (s', (c_pid next, c_stack next), ws ++ [calling s pid ra stk]).

Inductive csteps : nat -> config -> config -> Prop :=
  | csteps_refl cfg : csteps 0 cfg cfg
  | csteps_cons i j cfg1 cfg2 cfg3 : cstep i cfg1 cfg2 -> csteps j cfg2 cfg3 -> csteps (i + j) cfg1 cfg3.

Definition config_ok (cfg : config) : Prop :=
  let '(s, (pid, stk), ws) := cfg in coop_represents s pid stk ws /\ fits (cpu s) stk /\ (0 < length ws)%nat.

Lemma coop_disj s pid stk ws v :
  coop_represents s pid stk ws -> v ∈ ws -> disj stk (c_stack v).
Proof.
  intros (_ & _ & _ & _ & _ & _ & _ & _ & [Hd _]) Hv. rewrite Forall_forall in Hd. apply Hd.
  by apply list_elem_of_fmap_2.
Qed.

Lemma coop_fits s pid stk ws v : coop_represents s pid stk ws -> v ∈ ws -> fits (c_cpu v) (c_stack v).
Proof.
  intros (tab & p & q & _ & _ & _ & _ & Hws & _) Hv. apply list_elem_of_lookup in Hv as [k Hk].
  destruct (Forall2_lookup_r _ _ _ _ _ Hws Hk) as (x & _ & _ & _ & Hf). exact Hf.
Qed.

Lemma yield_ok ra s pid stk next ws s' :
  config_ok (s, (pid, stk), next :: ws) -> Cpu.yield_now ra s = (Done tt, s') ->
  config_ok (s', (c_pid next, c_stack next), ws ++ [calling s pid ra stk]).
Proof.
  intros (Hrep & Hf & _) E. destruct (yield_switch ra s pid stk next ws Hrep Hf) as (s1 & E1 & Hret & Hrep1 & _).
  rewrite E1 in E. injection E as <-. split_and!; [exact Hrep1| |rewrite length_app; cbn; lia].
  apply (returns_fits _ _ Hret). apply (coop_fits _ _ _ _ _ Hrep). by left.
Qed.

Lemma cstep_ok i cfg cfg' : cstep i cfg cfg' -> config_ok cfg -> config_ok cfg'.
Proof.
  destruct 1 as [s pid stk ws s' Hf Hsch Hm|ra s pid stk next ws s' E]; intros Hok; [|by eapply yield_ok].
  destruct Hok as ((tab & p & q & Htab & Hrest) & _ & Hlen). split_and!; [|done|done].
  exists tab, p, q. by rewrite Hsch.
Qed.

Lemma csteps_ok i cfg cfg' : csteps i cfg cfg' -> config_ok cfg -> config_ok cfg'.
Proof. induction 1; eauto using cstep_ok. Qed.

(** A yield touches the stacks of the two processes it switches between only. *)
Lemma yield_memory ra s pid stk next ws s' v :
  config_ok (s, (pid, stk), next :: ws) -> Cpu.yield_now ra s = (Done tt, s') -> v ∈ ws ->
  forall a, (c_stack v).1 <= a < ends (c_stack v) -> memory s' !! a = memory s !! a.
Proof.
  intros (Hrep & Hf & _) E Hv. destruct (yield_switch ra s pid stk next ws Hrep Hf) as (s1 & E1 & _ & _ & _ & Hm).
  rewrite E1 in E. injection E as <-.
  pose proof (coop_disj _ _ _ _ v Hrep ltac:(by right)) as Hd1.
  assert (Hd2 : disj (c_stack next) (c_stack v)).
  { destruct Hrep as (_ & _ & _ & _ & _ & _ & _ & _ & [_ [Hd _]]). rewrite Forall_forall in Hd. apply Hd.
    by apply list_elem_of_fmap_2. }
  pose proof (coop_fits _ _ _ _ next Hrep ltac:(by left)) as Hf2.
  intros a Ha. apply Hm; unfold fits, disj, ends in *; lia.
Qed.

Lemma csteps_waiting i cfg cfg' k v :
  csteps i cfg cfg' -> config_ok cfg -> cfg.2 !! k = Some v -> (i <= k)%nat ->
  cfg'.2 !! (k - i)%nat = Some v /\
  (forall a, (c_stack v).1 <= a < ends (c_stack v) -> memory cfg'.1.1 !! a = memory cfg.1.1 !! a).
Proof.
  intros Hs. revert k. induction Hs as [cfg|i j cfg1 cfg2 cfg3 H12 _ IH]; intros k Hok Hk Hle.
  { by rewrite Nat.sub_0_r. }
  assert (H2 : cfg2.2 !! (k - i)%nat = Some v /\
    forall a, (c_stack v).1 <= a < ends (c_stack v) -> memory cfg2.1.1 !! a = memory cfg1.1.1 !! a).
  { destruct H12 as [s pid stk ws s' Hf Hsch Hm|ra s pid stk next ws s' E]; cbn [fst snd] in *.
    - rewrite Nat.sub_0_r. split; [done|]. by apply (Forall_lookup_1 _ _ _ _ Hm Hk).
    - destruct k as [|k]; [lia|]. cbn in Hk. replace (S k - 1)%nat with k by lia.
      split; [by apply lookup_app_l_Some|].
      apply (yield_memory ra s pid stk next ws); [done..|]. by eapply list_elem_of_lookup_2. }
  destruct (IH (k - i)%nat (cstep_ok _ _ _ H12 Hok) (proj1 H2) ltac:(lia)) as [Hk3 Hm3].
  replace (k - (i + j))%nat with (k - i - j)%nat by lia. split; [done|].
  intros a Ha. rewrite Hm3 by done. by apply H2.
Qed.

(** C13: a process that yields.  From its call on, however the others run and yield,
    every yield in between switches, and the yield with which its turn comes,
    as many yields later as there are processes, returns from its call: at its
    return address, with its stack pointer and all the registers the calling
    convention entitles it to, and with its stack from there up as it left it. *)
Theorem coop_transparent ra ra' s pid stk next ws s1 s2 pid2 stk2 ws2 i
    (Hok : config_ok (s, (pid, stk), next :: ws))
    (Hfirst : Cpu.yield_now ra s = (Done tt, s1))
    (Hothers : csteps i (s1, (c_pid next, c_stack next), ws ++ [calling s pid ra stk]) (s2, (pid2, stk2), ws2))
    (Hi : (i <= length ws)%nat) :
  exists s3, Cpu.yield_now ra' s2 = (Done tt, s3) /\
    (i = length ws -> returns_to (cpu s3) (calling s pid ra stk) /\
       forall a, stk.1 <= a < ends stk -> regs (cpu s) RSP <= a -> memory s3 !! a = memory s !! a).
Proof.
  pose proof (yield_ok _ _ _ _ _ _ _ Hok Hfirst) as Hok1.
  pose proof (csteps_ok _ _ _ Hothers Hok1) as Hok2.
  destruct (csteps_waiting _ _ _ (length ws) (calling s pid ra stk) Hothers Hok1) as [Hk Hm]; [|done|].
  { cbn [snd]. by rewrite lookup_app_r, Nat.sub_diag by lia. }
  destruct ws2 as [|next2 ws2]; [by destruct Hok2 as (_ & _ & ?%Nat.nlt_0_r)|].
  pose proof Hok2 as (Hrep2 & Hf2 & _). pose proof Hok as (Hrep & Hf & _).
  destruct (yield_switch ra' s2 pid2 stk2 next2 ws2 Hrep2 Hf2) as (s3 & E3 & Hret & _ & _ & Hm3).
  exists s3. split; [exact E3|]. intros ->. cbn [snd fst] in *. rewrite Nat.sub_diag in Hk. injection Hk as ->.
  split; [exact Hret|]. intros a Ha Hsp.
  destruct (yield_switch ra s pid stk next ws Hrep Hf) as (s1' & E1 & _ & _ & _ & Hm1).
  rewrite E1 in Hfirst. injection Hfirst as <-.
  pose proof (coop_disj _ _ _ _ next Hrep ltac:(by left)) as Hd1.
  pose proof (coop_fits _ _ _ _ next Hrep ltac:(by left)) as Hfn.
  pose proof (coop_disj _ _ _ _ _ Hrep2 ltac:(by left)) as Hd2. cbn [c_stack c_cpu calling] in *.
  rewrite Hm3, Hm, Hm1; unfold fits, disj, ends in *; (done || lia).
Qed.

(** ** [dummy_main_process]

    A system in which every process runs its loop: whoever is resumed comes out
    of [context_switch], enables interrupts and yields again, from the same
    place in the code. *)
Definition dummy_iteration (ra : Z) : M (mach D) unit := _ ← Cpu.yield_now ra; Cpu.enable.
Definition dummy_main_process (iterations : nat) (ra : Z) : M (mach D) unit :=
  for_each (replicate iterations ra) dummy_iteration.

Lemma lookup_rotated {A} (x : A) l n :
  (l ++ [x]) !! (n mod S (length l))%nat = (x :: l) !! (S n mod S (length l))%nat.
Proof.
  pose proof (Nat.mod_upper_bound n (S (length l)) ltac:(lia)) as Hb.
  pose proof (Nat.div_mod_eq n (S (length l))) as Hd. set (r := (n mod S (length l))%nat) in *.
  destruct (decide (r = length l)) as [Er|Hne].
  - rewrite lookup_app_r, Er, Nat.sub_diag by lia.
    replace (S n) with (S (n / S (length l)) * S (length l))%nat by lia. by rewrite Nat.Div0.mod_mul.
  - assert (E : (S n mod S (length l) = S r)%nat) by (symmetry; apply (Nat.mod_unique _ _ (n / S (length l))); lia).
    rewrite E. change ((x :: l) !! S r) with (l !! r). apply lookup_app_l. lia.
Qed.

Lemma dummy_iteration_ok ra s pid stk ws :
  config_ok (s, (pid, stk), ws) -> Forall (fun v => c_ra v = ra) ws ->
  exists s' next ws1, ws = next :: ws1 /\ dummy_iteration ra s = (Done tt, s') /\
    config_ok (s', (c_pid next, c_stack next), ws1 ++ [calling s pid ra stk]) /\
    v_rip (cpu s') = ra /\ Z.testbit (v_rflags (cpu s')) 9 = true.
Proof.
  intros Hok Hra. destruct ws as [|next ws]; [by destruct Hok as (_ & _ & ?%Nat.nlt_0_r)|].
  pose proof Hok as (Hrep & Hf & _). apply Forall_cons in Hra as [Hra _].
  destruct (yield_switch ra s pid stk next ws Hrep Hf) as (s1 & E1 & [Hip _] & _).
  pose proof (yield_ok _ _ _ _ _ _ _ Hok E1) as Hok1.
  eexists _, next, ws. split_and!; [done|unfold dummy_iteration; by rewrite (bind_done _ _ _ _ _ E1)|exact Hok1| |].
  - cbn. by rewrite Hip.
  - change (Z.testbit (sti (v_rflags (cpu s1))) 9 = true). unfold sti, IF_BIT. rewrite Z.lor_spec. cbn. by rewrite orb_true_r.
Qed.

(** Processes that only yield take turns for ever: after any number of
    iterations the machine runs, with interrupts enabled, the process whose turn
    it is, and every one of the others waits in its call. *)
Theorem dummies_take_turns n ra s pid stk ws
    (Hok : config_ok (s, (pid, stk), ws)) (Hra : Forall (fun v => c_ra v = ra) ws) :
  exists s' pid' stk' ws', dummy_main_process n ra s = (Done tt, s') /\
    config_ok (s', (pid', stk'), ws') /\ Forall (fun v => c_ra v = ra) ws' /\
    (pid :: (c_pid <$> ws)) !! (n mod S (length ws))%nat = Some pid' /\
    ((0 < n)%nat -> v_rip (cpu s') = ra /\ Z.testbit (v_rflags (cpu s')) 9 = true).
Proof.
  revert s pid stk ws Hok Hra. induction n as [|n IH]; intros s pid stk ws Hok Hra.
  { exists s, pid, stk, ws. rewrite Nat.Div0.mod_0_l. split_and!; [done..|lia]. }
  destruct (dummy_iteration_ok ra s pid stk ws Hok Hra) as (s1 & next & ws1 & -> & E1 & Hok1 & Hip & Hif).
  pose proof Hra as [Hnext Hws]%Forall_cons.
  destruct (IH s1 _ _ _ Hok1) as (s2 & pid' & stk' & ws' & E2 & Hok2 & Hra2 & Hpid & Hend).
  { apply Forall_app. split; [done|]. by constructor. }
  exists s2, pid', stk', ws'. split_and!; [|exact Hok2|exact Hra2| |].
  - unfold dummy_main_process. cbn [replicate for_each]. by rewrite (bind_done _ _ _ _ _ E1).
  - rewrite <- Hpid. rewrite length_app, Nat.add_comm, fmap_app. cbn [length Nat.add fmap list_fmap c_pid calling].
    pose proof (lookup_rotated pid (c_pid next :: (c_pid <$> ws1)) n) as Hrot.
    cbn [length app] in Hrot. rewrite length_fmap in Hrot. by rewrite <- Hrot.
  - intros _. destruct n as [|n]; [|apply Hend; lia]. by injection E2 as <-.
Qed.
End coop.

(** ** Witnesses: three processes on stacks of their own *)
#[local] Existing Instances Cpu.wprofile Cpu.wconv Cpu.wdevice.

Definition wcall (sp : Z) : vcpu :=
  {| regs := <[RSP := sp]> (fun _ => 5); v_rip := 0x402000; v_rflags := 0x202; v_cs := 8; v_ss := 0x10 |}.
Definition wcaller (n : Z) : caller :=
  {| c_pid := n; c_cpu := wcall (0x8000 + 0x1000 * n - 0x100); c_ra := 0x402010; c_stack := (0x7000 + 0x1000 * n, 0x1000) |}.
Definition wcoop_proc (n : Z) : Process :=
  {| id := n; state := Ready; _stack := (0x7000 + 0x1000 * n, 0x1000);
     context := Cpu.yielded 0x402010 (c_cpu (wcaller n)) ProcessContext_zero |}.
Definition wcoop_tab : Scheduler :=
  {| processes := [set_state Running (wcoop_proc 0); wcoop_proc 1; wcoop_proc 2]; current_index := 0;
     buffer := {| buf_ptr := 0x800; buf_cap := 4 |} |}.
Definition wcoop : mach unit :=
  {| cpu := wcall 0x7f00; memory := ∅; kern := Cpu.wkern (Locked_new (Some wcoop_tab)) |}.

Lemma wcoop_ok : config_ok (wcoop, (0, (0x7000, 0x1000)), [wcaller 1; wcaller 2]).
Proof.
  assert (Hf : forall n, 0 <= n < 3 -> fits (c_cpu (wcaller n)) (c_stack (wcaller n))).
  { intros n Hn. assert (n = 0 \/ n = 1 \/ n = 2) as [->|[->| ->]] by lia; vm_compute; intuition congruence. }
  split_and!; [|exact (Hf 0 ltac:(lia))|cbn; lia].
  exists wcoop_tab, (set_state Running (wcoop_proc 0)), [wcoop_proc 1; wcoop_proc 2].
  split_and!; [done| |done|done| |].
  - split_and!; [by vm_compute..|]. intros i p Hi. do 3 (destruct i as [|i]; [injection Hi as <-; by vm_compute|]). done.
  - repeat constructor; (apply Hf; lia) || by eexists.
  - vm_compute. repeat constructor; intuition congruence.
Qed.

Lemma coop_transparent_witness :
  exists s1 s2 s3, Cpu.yield_now 0x402010 wcoop = (Done tt, s1) /\ Cpu.yield_now 0x402010 s1 = (Done tt, s2) /\
    Cpu.yield_now 0x402010 s2 = (Done tt, s3) /\ returns_to (cpu s3) (calling wcoop 0 0x402010 (0x7000, 0x1000)).
Proof.
  destruct (yield_switch 0x402010 wcoop _ _ _ _ (proj1 wcoop_ok) (proj1 (proj2 wcoop_ok))) as (s1 & E1 & _).
  pose proof (yield_ok _ _ _ _ _ _ _ wcoop_ok E1) as Hok1.
  destruct (yield_switch 0x402010 s1 _ _ _ _ (proj1 Hok1) (proj1 (proj2 Hok1))) as (s2 & E2 & _).
  destruct (coop_transparent 0x402010 0x402010 wcoop _ _ _ _ s1 s2 _ _ _ 1 wcoop_ok E1
    (csteps_cons 1 0 _ _ _ (cstep_yield _ _ _ _ _ _ _ E2) (csteps_refl _)) ltac:(cbn; lia)) as (s3 & E3 & Hr).
  exists s1, s2, s3. split_and!; [exact E1|exact E2|exact E3|]. exact (proj1 (Hr eq_refl)).
Defined.

Lemma dummies_take_turns_witness :
  exists s' stk' ws', dummy_main_process 10 0x402010 wcoop = (Done tt, s') /\ config_ok (s', (1, stk'), ws').
Proof.
  destruct (dummies_take_turns 10 0x402010 wcoop _ _ _ wcoop_ok ltac:(by repeat constructor))
    as (s' & pid' & stk' & ws' & E & Hok & _ & [= <-] & _).
  exists s', stk', ws'. split; [exact E|exact Hok].
Defined.
End Coop.
